(* ===== verification/_CoqProject ===== *)
-Q . S2P
Prelude.v
Errors.v
Deadline.v
CircuitBreaker.v
Limiter.v
Retry.v
Cache.v
Usage.v
Yaml.v
Budgets.v
Pricing.v
Policy.v
Provider.v
Health.v
Coroutine.v
KeyPool.v
RouterState.v
RouterPlan.v
RouterPlanProps.v
RouterCall.v
RouterCallProps.v
RouterSettle.v
RouterStream.v
RouterStreamProps.v
Bytes.v
Sha256.v
Json.v
SecureProtocol.v
DistributedAgent.v
AgentMail.v
Heapq.v
TaskOrchestrator.v
TaskProps.v
TaskSafety.v
Memory.v
Window.v
Calendar.v
Cron.v
Triggers.v
Regex.v
Guardrails.v
Injection.v
LongMemory.v
RagStore.v
Approvals.v
Tools.v
ToolsProps.v
Workflow.v
HarnessContext.v
HarnessStore.v
Harness.v
HarnessProps.v
Middleware.v
AuditTrail.v
Orchestrator.v
TaskRunner.v
TaskRunnerProps.v
TaskLife.v
