(* ===== verification/Prelude.v ===== *)
(** * The CoreAI gateway: a verification of its core

    CoreAI is a gateway in front of several language-model providers, with an
    agent platform on top of it. A request is given a routing plan, screened,
    perhaps answered from a cache, and otherwise sent to a provider under a
    deadline, a rate limit, a circuit breaker and a retry policy, with failover
    to the next provider and, on demand, a hedged second call or a stream. Around
    that path the gateway meters use, enforces budgets, prices tokens and reloads
    its policies. On top, agents run in a durable loop of model and tool calls
    with human approvals, started by people, schedules, signed webhooks or
    events; they talk over a signed protocol and share a task queue. This library
    models these parts as functions of explicit state and proves what they
    promise.

    ** Files and components (sources under [src/src/])

    Foundations:
    - [Prelude]: rationals for floats, Python's ordered dictionaries ([od_get],
      [od_set], ...), stable sorting, results, the state-and-exception monad
      [SE], and the tactics [fprops], [fcase], [fsolve].
    - [Yaml]: parsed documents, Python's dynamic values; [Bytes], [Sha256]: byte
      strings, hexadecimal and base64, SHA-256 and HMAC as functions; [Json]:
      Python's JSON writer and reader; [Regex]: the patterns of the sources as
      syntax trees with a backtracking matcher and its meaning [den]; [Window]:
      sliding windows of times; [Calendar]: the Gregorian calendar.
    - [Coroutine]: the shape of an async function. A coroutine runs in atomic
      segments and asks for events in between. [runs] and [steady] are logics for
      what it does under interference, [spends] for what it asks for in all.

    The gateway:
    - [Errors], [Deadline], [CircuitBreaker], [Limiter], [Retry], [Cache],
      [Usage], [Budgets], [Pricing], [Policy], [Health] (the files of the
      same names in [coreai/]) and [AuditTrail] ([coreai/audit.py]):
      classification, deadlines, breaker, token buckets and permits, retries, the
      response cache, ledgers, limits, prices, policies, the audit log.
    - [Provider] ([providers/base.py], [neural/model.py]): messages, requests,
      the provider interface as a record of operations, the model catalogue.
    - [RouterState], [RouterPlan], [RouterCall], [RouterStream]
      ([coreai/router.py]): the router's state and bookkeeping; its planning,
      which never suspends; its calls, which do; its streams, chunk by chunk.
      [RouterPlanProps], [RouterCallProps], [RouterSettle], [RouterStreamProps]:
      the router's theorems.
    - [KeyPool] ([providers/pool.py]): several keys of one provider in turn.
    - [Memory] ([coreai/memory_manager.py]): conversation windows.
    - [Middleware] ([api/middleware.py]): the HTTP rate limit.

    Agents and tools:
    - [SecureProtocol] ([protocols/secure_protocol.py]), [DistributedAgent]
      ([protocols/distributed_agent.py]) and [AgentMail], its theorems: signed
      frames, sessions, envelopes, mailboxes.
    - [Heapq], [TaskOrchestrator] ([agents/task_orchestrator.py]), [TaskProps],
      [TaskSafety]: the task queue as a step relation.
    - [Orchestrator] ([coreai/orchestrator.py]), [TaskRunner]
      ([coreai/task_runner.py]), [TaskRunnerProps], [TaskLife]: the tasks of the
      API, with a queue, a worker and a run per agent as numbered objects whose
      steps come in any order.
    - [Cron], [Triggers] ([harness/cron.py], [harness/triggers.py]).
    - [Guardrails] ([guardrails/pii.py], [guardrails/filters.py]), [Injection]
      ([guardrails/injection.py]).
    - [LongMemory] ([memory/store.py], [memory/tool.py]): long-term memory.
      [RagStore] ([rag/store.py], [rag/tool.py]): retrieval from documents.
    - [Approvals] ([tools/approvals.py]), [Tools] ([tools/registry.py],
      [tools/executor.py]) and [ToolsProps].
    - [HarnessContext] ([harness/context.py]), [HarnessStore]
      ([harness/store.py], [harness/config.py]), [Harness] ([harness/runner.py])
      and [HarnessProps]. [Workflow] ([harness/workflow.py]): fixed sequences of
      model and tool steps.

    ** How state and code correspond

    An object is a record of its constructor arguments and its mutable fields; a
    method is a function from the clock readings it makes, in their order, its
    arguments and the record to its result and the record it leaves. Exceptions
    are values of [res exn]; the state changes made before one stay. Callbacks
    are the list of calls they would receive. A float is an exact rational
    (rounding is not modelled), and an [xfloat] where it may be infinite or not a
    number. Text is a sequence of characters below 256. A time window is an
    integer multiple of its length. What the code takes from outside is a type
    class, with laws where a theorem needs them and an instance for each witness:
    [PyStr] and [FloatText] (how Python writes values and floats), [FloatOps]
    (square roots and single precision), [PickOldest] (which of equally old rows
    a statement takes), [JsonSchema]
    and [JsonErrorText] (validation, and the text of errors), [UserPatterns]
    (patterns a user configures), HTTP dates, the Redis client, the power
    function of the health score. A database table is a list of rows, a statement
    one segment.

    In the files over [Coroutine] every [await] is an event whose answer is
    arbitrary (a permit or none, a response, any exception, a cancellation), and
    others may change the state meanwhile. A hedged call runs two coroutines side
    by side: the events they wait for are answered one at a time, in any order. A
    leg left behind by a cancelled wait is run to its end before the cancellation
    is delivered. One reading of the clock stands for those of one segment. The
    agent runner keeps its local variables (the messages, the counters) beside
    the outcome, because its handlers of exceptions save them as they are.

    Fuel: [retry_fuel] passes of the retry loop suffice, because every pass that
    goes on has an attempt number below the limit; [loop_passes] of the runner,
    because each pass is a step (shown by [run_ends]); the search of a schedule
    has the source's own five years of minutes, of which it needs fewer; the
    matcher's repetitions are bounded by the length of the text.

    ** What the theorems show

    - Breaker: admits exactly its probes. Limiter: the concurrency bound and
      the conservation of permits in every interleaving. Retry: stops only for a
      cause, sleeps within the deadline. Cache: refines a map with expiry.
      Accounts: loaders give a valid object, report problems, or let through the
      overflow of a number no float holds and what reading raised; the policy
      store serves under a name what the history of edits and reloads made of it.
    - Planning: a plan holds only registered, admitted, permitted candidates,
      private requests go to local servers only, the dry run predicts the plan
      up to privacy, difficulty and owned models, which it does not look at, and
      screening lets nothing through that its model cannot serve.
    - Calls and streams: every call gives its permit back and settles its breaker
      once, no attempt outlives the deadline, the failover loop returns only
      answers that candidates gave, or errors that candidates had; a stream has
      one source.
    - Protocol: frames decode exactly when authentic, replays pass only at the
      very edge of the window, channels deliver, envelopes round-trip, mailboxes
      refine abstract queues. Tasks: every task settles, attempts are bounded,
      cancelled tasks stay so; an agent has one run at a time, the most urgent
      task is next, and a task's status only moves forward.
    - Around them: clients keep to their rate, keys take turns and fail over,
      secrets do not get into the audit log, an agent's long-term memory is
      bounded, redacted and out of reach of other owners.
    - Retrieval: a source is in the index whole or not at all, a phrase shorter
      than the overlap is whole in some chunk, and a search returns the best of
      its own collection and model, best first.
    - Guardrails: findings are exactly the matches that no earlier finding
      overlaps; wrapped text cannot forge or close its wrapper.
    - Tools and agents: handlers start only when allowed, permitted, valid and,
      where it matters, approved by a human for exactly this call and once; rates
      and steps are bounded; a workflow runs its steps in their order and shows a
      model the output of tools only inside its wrapper; every model call of an agent is sent a conversation
      whose tool calls are answered; triggers never overlap or exceed their cap;
      webhooks need a fresh signature.

    [call_settles] and [attempts_respect_deadline] ask that other requests leave
    this provider's limiter and breaker alone during the call (many requests on
    one limiter are the business of [limiter_concurrency_bound]);
    [failover_outcomes] only asks that the configuration and the candidates stay.

    ** What is not modelled

    Vendor adapters, HTTP handlers, SQL, process control, metrics text, logging
    and tracing are input and output around the modelled parts and are left out,
    as are the command line, the SDK and the terminal interface, and training and
    local model runtimes. Of the router, [RoutingConfig.from_env]; of the harness,
    configuration files, sub-agents and trace replay; of retrieval, the reading
    of PDF and HTML; of the tools, the handlers themselves and the MCP servers. *)

(** ** Shared vocabulary *)
From Stdlib Require Export ZArith QArith Qminmax Qround Qabs Lqa Lia.
From stdpp Require Export base decidable list gmap strings sorting.

Declare Scope py_scope.
Delimit Scope py_scope with py.
#[global] Open Scope py_scope.
#[global] Open Scope Z_scope.

(** ** Python floats

    A [float] of the source is an exact rational here: comparisons, [+], [-],
    [*] and [/] are those of the rationals, so rounding is not modelled. Values
    that may be infinite or not-a-number in the source are [xfloat]s. *)
#[global] Arguments Qplus : simpl never.
#[global] Arguments Qminus : simpl never.
#[global] Arguments Qopp : simpl never.
#[global] Arguments Qmult : simpl never.
#[global] Arguments Qdiv : simpl never.
#[global] Arguments Qlt : simpl never.
#[global] Arguments Qle : simpl never.
#[global] Arguments inject_Z : simpl never.

Definition fleb (x y : Q) : bool := Qle_bool x y.
Definition fltb (x y : Q) : bool := negb (Qle_bool y x).

Notation "x <=. y" := (fleb x y) (at level 70, no associativity) : py_scope.
Notation "x <. y" := (fltb x y) (at level 70, no associativity) : py_scope.
Notation "x >=. y" := (fleb y x) (at level 70, no associativity, only parsing) : py_scope.
Notation "x >. y" := (fltb y x) (at level 70, no associativity, only parsing) : py_scope.

Lemma fleb_le x y : (x <=. y) = true <-> (x <= y)%Q.
Proof. apply Qle_bool_iff. Qed.

Lemma fleb_gt x y : (x <=. y) = false <-> (y < x)%Q.
Proof.
  rewrite <- not_true_iff_false, fleb_le.
  split; [apply Qnot_le_lt | apply Qlt_not_le].
Qed.

Lemma fltb_lt x y : (x <. y) = true <-> (x < y)%Q.
Proof. unfold fltb. rewrite negb_true_iff. apply fleb_gt. Qed.

Lemma fltb_ge x y : (x <. y) = false <-> (y <= x)%Q.
Proof. unfold fltb. rewrite negb_false_iff. apply fleb_le. Qed.

#[export] Instance fleb_proper : Proper (Qeq ==> Qeq ==> eq) fleb.
Proof. intros x x' Hx y y' Hy. apply eq_true_iff_eq. rewrite !fleb_le, Hx, Hy. done. Qed.

#[export] Instance fltb_proper : Proper (Qeq ==> Qeq ==> eq) fltb.
Proof. intros x x' Hx y y' Hy. apply eq_true_iff_eq. rewrite !fltb_lt, Hx, Hy. done. Qed.

(** Python's two-argument [max] and [min] keep the first argument on a tie. *)
Definition fmax (x y : Q) : Q := if x <. y then y else x.
Definition fmin (x y : Q) : Q := if y <. x then y else x.

Lemma fmax_l x y : (x <= fmax x y)%Q.
Proof. unfold fmax. destruct (x <. y) eqn:E; [apply fltb_lt in E | ]; lra. Qed.
Lemma fmax_r x y : (y <= fmax x y)%Q.
Proof. unfold fmax. destruct (x <. y) eqn:E; [ | apply fltb_ge in E]; lra. Qed.
Lemma fmax_lub x y z : (x <= z -> y <= z -> fmax x y <= z)%Q.
Proof. unfold fmax. destruct (x <. y); lra. Qed.
Lemma fmin_l x y : (fmin x y <= x)%Q.
Proof. unfold fmin. destruct (y <. x) eqn:E; [apply fltb_lt in E | ]; lra. Qed.
Lemma fmin_r x y : (fmin x y <= y)%Q.
Proof. unfold fmin. destruct (y <. x) eqn:E; [ | apply fltb_ge in E]; lra. Qed.
Lemma fmin_glb x y z : (z <= x -> z <= y -> z <= fmin x y)%Q.
Proof. unfold fmin. destruct (y <. x); lra. Qed.

(** Python's float [%] with a positive divisor: [x - y * floor(x / y)]. *)
Definition fmod (x y : Q) : Q := (x - y * inject_Z (Qfloor (x / y)))%Q.

(** Lists of floats: Python's [sum], and [min] of a non-empty list. *)
Definition fsum (l : list Q) : Q := fold_right Qplus 0%Q l.
Fixpoint fmin_list (x : Q) (l : list Q) : Q :=
  match l with [] => x | y :: l' => fmin_list (fmin x y) l' end.
Fixpoint fmax_list (x : Q) (l : list Q) : Q :=
  match l with [] => x | y :: l' => fmax_list (fmax x y) l' end.

Create HintDb pyq.
#[export] Hint Resolve fmax_l fmax_r fmin_l fmin_r fmax_lub fmin_glb : pyq.

(** [fcases] turns every float test of the goal and of the hypotheses into the
    inequality it decides; [fsolve] finishes with linear arithmetic. *)
Ltac fprops :=
  repeat match goal with
  | H : fleb _ _ = true |- _ => apply fleb_le in H
  | H : fleb _ _ = false |- _ => apply fleb_gt in H
  | H : fltb _ _ = true |- _ => apply fltb_lt in H
  | H : fltb _ _ = false |- _ => apply fltb_ge in H
  | H : (_ && _)%bool = true |- _ => apply andb_true_iff in H; destruct H
  | H : (_ || _)%bool = false |- _ => apply orb_false_iff in H; destruct H
  | H : negb _ = true |- _ => apply negb_true_iff in H
  | H : negb _ = false |- _ => apply negb_false_iff in H
  end.
Ltac fcase :=
  match goal with
  | |- context [fleb ?x ?y] => let E := fresh "E" in destruct (fleb x y) eqn:E
  | |- context [fltb ?x ?y] => let E := fresh "E" in destruct (fltb x y) eqn:E
  | H : context [fleb ?x ?y] |- _ => let E := fresh "E" in destruct (fleb x y) eqn:E
  | H : context [fltb ?x ?y] |- _ => let E := fresh "E" in destruct (fltb x y) eqn:E
  end; fprops.
Ltac fsolve := unfold fmax, fmin in *; fprops; repeat fcase; try lra.

(** ** Results

    Every fallible operation returns a value or the exception the code raises;
    the state it leaves behind is returned in both cases. *)
Inductive res (E A : Type) : Type :=
| Ok (a : A)
| Raise (e : E).
Arguments Ok {_ _} a.
Arguments Raise {_ _} e.

#[export] Instance res_ret {E} : MRet (res E) := fun A a => Ok a.
#[export] Instance res_bind {E} : MBind (res E) :=
  fun A B f m => match m with Ok a => f a | Raise e => Raise e end.

Definition res_map {E A B} (f : A -> B) (r : res E A) : res E B :=
  match r with Ok a => Ok (f a) | Raise e => Raise e end.
Definition is_ok {E A} (r : res E A) : bool := match r with Ok _ => true | Raise _ => false end.

(** ** Insertion-ordered dictionaries

    Python's [dict] and [OrderedDict]: an association list with the oldest key
    first. Assignment keeps the position of an existing key. *)
Section OrderedDict.
Context {K V : Type} `{EqDecision K}.
Implicit Types (d : list (K * V)) (k : K) (v : V).

Fixpoint od_get k d : option V :=
  match d with
  | [] => None
  | (k', v) :: d' => if decide (k = k') then Some v else od_get k d'
  end.

Fixpoint od_set k v d : list (K * V) :=
  match d with
  | [] => [(k, v)]
  | (k', v') :: d' => if decide (k = k') then (k, v) :: d' else (k', v') :: od_set k v d'
  end.

Fixpoint od_del k d : list (K * V) :=
  match d with
  | [] => []
  | (k', v') :: d' => if decide (k = k') then d' else (k', v') :: od_del k d'
  end.

Definition od_mem k d : bool := match od_get k d with Some _ => true | None => false end.

(** [OrderedDict.move_to_end(k)] for a present key. *)
Definition od_move_to_end k d : list (K * V) :=
  match od_get k d with Some v => od_del k d ++ [(k, v)] | None => d end.

Definition od_keys d : list K := d.*1.
Definition od_values d : list V := d.*2.

Lemma od_get_elem k v d : od_get k d = Some v -> (k, v) ∈ d.
Proof.
  induction d as [|[k' v'] d IH]; simpl; [done|].
  destruct (decide (k = k')) as [->|]; intros H; [simplify_eq; left | right; auto].
Qed.

Lemma od_get_None k d : od_get k d = None <-> k ∉ od_keys d.
Proof.
  induction d as [|[k' v'] d IH]; simpl; [split; [intros _ H; inversion H | done]|].
  rewrite not_elem_of_cons. destruct (decide (k = k')) as [->|Hne].
  - split; [done | intros [? _]; done].
  - rewrite IH. split; [done | by intros [_ ?]].
Qed.

Lemma elem_od_get k v d : NoDup (od_keys d) -> (k, v) ∈ d -> od_get k d = Some v.
Proof.
  induction d as [|[k' v'] d IH]; simpl; intros Hnd Hin; [inversion Hin|].
  apply NoDup_cons in Hnd as [Hk Hnd]. apply elem_of_cons in Hin as [[= -> ->]|Hin].
  - by rewrite decide_True.
  - rewrite decide_False; [by auto|]. intros ->. apply Hk.
    apply list_elem_of_fmap. exists (k', v). done.
Qed.

Lemma od_get_set_eq k v d : od_get k (od_set k v d) = Some v.
Proof.
  induction d as [|[k' v'] d IH]; simpl; [by rewrite decide_True|].
  destruct (decide (k = k')) as [->|]; simpl; [by rewrite decide_True | by rewrite decide_False].
Qed.

Lemma od_get_set_ne k k' v d : k ≠ k' -> od_get k' (od_set k v d) = od_get k' d.
Proof.
  intros Hne. induction d as [|[k'' v''] d IH]; simpl.
  - by rewrite decide_False.
  - destruct (decide (k = k'')) as [->|]; simpl.
    + by rewrite !decide_False.
    + destruct (decide (k' = k'')); auto.
Qed.

Lemma od_set_same k v d : od_get k d = Some v -> od_set k v d = d.
Proof.
  induction d as [|[k' v'] d IH]; simpl; [done|]. case_decide as E; [by intros [= ->]; subst|]. intros Hg. by rewrite IH.
Qed.

Lemma od_get_set k k' v d : od_get k' (od_set k v d) = if decide (k' = k) then Some v else od_get k' d.
Proof. case_decide as E; [subst; apply od_get_set_eq|by apply od_get_set_ne]. Qed.

Lemma od_set_set k v w d : od_set k w (od_set k v d) = od_set k w d.
Proof.
  induction d as [|[k' x] d IH]; simpl; [by rewrite decide_True|].
  case_decide; simpl; [by rewrite decide_True|]. rewrite decide_False by done. by rewrite IH.
Qed.

Lemma od_get_del_ne k k' d : k ≠ k' -> od_get k' (od_del k d) = od_get k' d.
Proof.
  intros Hne. induction d as [|[k'' v''] d IH]; simpl; [done|].
  destruct (decide (k = k'')) as [->|]; simpl.
  - by rewrite decide_False.
  - destruct (decide (k' = k'')); auto.
Qed.

Lemma od_keys_set k v d :
  od_keys (od_set k v d) = if decide (k ∈ od_keys d) then od_keys d else od_keys d ++ [k].
Proof.
  induction d as [|[k' v'] d IH]; simpl; [done|].
  destruct (decide (k = k')) as [->|]; simpl.
  - rewrite decide_True; [done | left].
  - rewrite IH. destruct (decide (k ∈ od_keys d)) as [Hin|Hnin].
    + rewrite decide_True; [done | by right].
    + rewrite decide_False; [done|]. intros [|]%elem_of_cons; done.
Qed.

Lemma od_keys_set_present k v w d : od_get k d = Some w -> od_keys (od_set k v d) = od_keys d.
Proof.
  intros Hg. rewrite od_keys_set, decide_True; [done|]. destruct (decide (k ∈ od_keys d)) as [|Hn]; [done|].
  apply od_get_None in Hn. congruence.
Qed.

(** The entry that a key finds, and what assigning to it changes. *)
Lemma od_get_split k v d :
  od_get k d = Some v -> exists d1 d2, d = d1 ++ (k, v) :: d2 /\ forall w, od_set k w d = d1 ++ (k, w) :: d2.
Proof.
  induction d as [|[k' v'] d IH]; simpl; [done|]. case_decide as E.
  - intros [= ->]. subst. by exists [], d.
  - intros (d1 & d2 & -> & Hs)%IH. exists ((k', v') :: d1), d2. split; [done|]. intros w. by rewrite Hs.
Qed.

Lemma od_del_sublist k d : od_del k d `sublist_of` d.
Proof.
  induction d as [|[k' v'] d IH]; simpl; [done|].
  destruct (decide (k = k')); [by constructor | by constructor].
Qed.

Lemma od_keys_del k d : od_keys (od_del k d) `sublist_of` od_keys d.
Proof.
  induction d as [|[k' v'] d IH]; simpl; [done|].
  destruct (decide (k = k')); [by constructor | by constructor].
Qed.

Lemma od_del_not_in k d : NoDup (od_keys d) -> k ∉ od_keys (od_del k d).
Proof.
  induction d as [|[k' v'] d IH]; simpl; intros Hnd; [by apply not_elem_of_nil|].
  apply NoDup_cons in Hnd as [Hk Hnd]. destruct (decide (k = k')) as [->|]; simpl; [done|].
  apply not_elem_of_cons; auto.
Qed.

Lemma od_get_del_eq k d : NoDup (od_keys d) -> od_get k (od_del k d) = None.
Proof. intros. by apply od_get_None, od_del_not_in. Qed.

Lemma od_get_del_some_any k k' x d :
  NoDup (od_keys d) -> od_get k' (od_del k d) = Some x -> k' ≠ k /\ od_get k' d = Some x.
Proof.
  intros Hnd Hg. destruct (decide (k' = k)) as [->|Hne]; [by rewrite od_get_del_eq in Hg|].
  by rewrite od_get_del_ne in Hg.
Qed.

Lemma NoDup_od_del k d : NoDup (od_keys d) -> NoDup (od_keys (od_del k d)).
Proof. intros H. eapply sublist_NoDup; [exact H | apply od_keys_del]. Qed.

Lemma NoDup_od_set k v d : NoDup (od_keys d) -> NoDup (od_keys (od_set k v d)).
Proof.
  intros H. rewrite od_keys_set. case_decide as Hin; [done|].
  apply NoDup_app. split_and!; [done| |apply NoDup_singleton].
  intros x Hx Hx'. apply list_elem_of_singleton in Hx' as ->. done.
Qed.

(** Deleting several keys. *)
Lemma fold_del_keys ks d : NoDup (od_keys d) -> NoDup (od_keys (fold_left (fun m k => od_del k m) ks d)).
Proof. revert d. induction ks as [|k ks IH]; intros d Hd; simpl; [done|]. by apply IH, NoDup_od_del. Qed.
Lemma fold_del_get k ks d : NoDup (od_keys d) ->
  od_get k (fold_left (fun m k => od_del k m) ks d) = if decide (k ∈ ks) then None else od_get k d.
Proof.
  revert d. induction ks as [|n ks IH]; intros d Hd; cbn [fold_left].
  - rewrite decide_False; [done|apply not_elem_of_nil].
  - rewrite IH by (by apply NoDup_od_del). destruct (decide (k = n)) as [->|Hne].
    + rewrite (decide_True (P := n ∈ n :: ks)) by left. case_decide; [done|by apply od_get_del_eq].
    + rewrite od_get_del_ne by done. apply decide_ext. rewrite elem_of_cons. naive_solver.
Qed.

Lemma length_od_del_le k d : (length (od_del k d) <= length d)%nat.
Proof. apply sublist_length, od_del_sublist. Qed.

Lemma length_od_set_le k v d : (length (od_set k v d) <= S (length d))%nat.
Proof. induction d as [|[k' v'] d IH]; simpl; [done|]. case_decide; simpl; lia. Qed.

Lemma length_od_set_present k v d : k ∈ od_keys d -> length (od_set k v d) = length d.
Proof.
  intros Hin. pose proof (od_keys_set k v d) as Hk. rewrite decide_True in Hk by done.
  apply (f_equal length) in Hk. unfold od_keys in Hk. by rewrite !length_fmap in Hk.
Qed.

Lemma od_set_nonempty k v d : od_set k v d ≠ [].
Proof. destruct d as [|[k' v'] d]; simpl; [done|]. by case_decide. Qed.

Lemma od_set_absent k v d : od_get k d = None -> od_set k v d = d ++ [(k, v)].
Proof.
  induction d as [|[k' v'] d IH]; simpl; [done|]. case_decide; [done|]. intros. by rewrite IH.
Qed.

Lemma length_od_del k d : od_get k d ≠ None -> length d = S (length (od_del k d)).
Proof.
  induction d as [|[k' v'] d IH]; simpl; [done|]. case_decide; simpl; [done|].
  intros Hg. by rewrite <- IH.
Qed.

Lemma NoDup_od_move_to_end k d : NoDup (od_keys d) -> NoDup (od_keys (od_move_to_end k d)).
Proof.
  intros H. unfold od_move_to_end. destruct (od_get k d) as [v|]; [|done].
  unfold od_keys. rewrite fmap_app. apply NoDup_app. split_and!.
  - by apply NoDup_od_del.
  - intros x Hx Hx'. apply list_elem_of_singleton in Hx' as ->.
    by apply od_del_not_in in Hx.
  - apply NoDup_singleton.
Qed.

Lemma od_get_app k d1 d2 :
  od_get k (d1 ++ d2) = match od_get k d1 with Some v => Some v | None => od_get k d2 end.
Proof. induction d1 as [|[k' v'] d IH]; simpl; [done|]. by case_decide. Qed.

Lemma od_get_move_to_end k k' d :
  NoDup (od_keys d) -> od_get k' (od_move_to_end k d) = od_get k' d.
Proof.
  intros Hnd. unfold od_move_to_end. destruct (od_get k d) as [v|] eqn:E; [|done].
  rewrite od_get_app. simpl. destruct (decide (k' = k)) as [->|Hne].
  - by rewrite od_get_del_eq, E.
  - rewrite od_get_del_ne by done. by destruct (od_get k' d).
Qed.

Lemma length_od_move_to_end k d : length (od_move_to_end k d) = length d.
Proof.
  unfold od_move_to_end. destruct (od_get k d) eqn:E; [|done].
  rewrite length_app. simpl. rewrite (length_od_del k d) by (by rewrite E). lia.
Qed.
End OrderedDict.

Create HintDb pydict.
#[export] Hint Resolve NoDup_od_del NoDup_od_set NoDup_od_move_to_end length_od_del_le : pydict.
#[export] Hint Rewrite @od_get_set_eq @length_od_move_to_end : pydict.

(** Dropping the oldest entries until a bound holds ([popitem(last=False)] in a
    [while] loop): what is left, and how many were dropped. *)
Definition od_trim {A} (n : nat) (d : list A) : list A := drop (length d - n) d.

Lemma length_od_trim {A} n (d : list A) : (length (od_trim n d) <= n)%nat.
Proof. unfold od_trim. rewrite length_drop. lia. Qed.

Lemma od_trim_small {A} n (d : list A) : (length d <= n)%nat -> od_trim n d = d.
Proof. intros H. unfold od_trim. by replace (length d - n)%nat with 0%nat by lia. Qed.

Lemma od_trim_suffix {A} n (d : list A) : od_trim n d `suffix_of` d.
Proof. exists (take (length d - n) d). unfold od_trim. by rewrite take_drop. Qed.

(** ** Filters *)
Lemma filter_true {A} (f : A -> bool) (l : list A) :
  (forall x, x ∈ l -> f x = true) -> List.filter f l = l.
Proof.
  induction l as [|x l IH]; intros Hf; simpl; [done|]. rewrite Hf by left.
  f_equal. apply IH. intros y Hy. apply Hf. by right.
Qed.

Lemma filter_filter {A} (f g : A -> bool) (l : list A) :
  List.filter f (List.filter g l) = List.filter (fun x => f x && g x) l.
Proof. induction l as [|x l IH]; simpl; [done|]. destruct (g x); simpl; destruct (f x); simpl; by rewrite ?IH. Qed.

Lemma filter_sublist {A} (f : A -> bool) (l : list A) : List.filter f l `sublist_of` l.
Proof. induction l as [|a l IH]; simpl; [done|]. destruct (f a); by constructor. Qed.

Lemma filter_filter_le {A} (f g : A -> bool) l : (length (List.filter f (List.filter g l)) <= length (List.filter f l))%nat.
Proof. induction l as [|x l IH]; cbn; [done|]. destruct (g x); cbn; destruct (f x); cbn; lia. Qed.
Lemma filter_filter_lt {A} (f g : A -> bool) l x : x ∈ l -> f x = true -> g x = false ->
  (length (List.filter f (List.filter g l)) < length (List.filter f l))%nat.
Proof.
  intros Hx Hf Hg. induction l as [|y l IH]; [by apply elem_of_nil in Hx|]. cbn. apply elem_of_cons in Hx as [->|Hx].
  - rewrite Hg, Hf. cbn. pose proof (filter_filter_le f g l). lia.
  - specialize (IH Hx). destruct (g y); cbn; destruct (f y); cbn; lia.
Qed.

Lemma filter_comm {A} (f g : A -> bool) (l : list A) : List.filter f (List.filter g l) = List.filter g (List.filter f l).
Proof. induction l as [|x l IH]; cbn; [done|]. destruct (g x) eqn:Eg, (f x) eqn:Ef; cbn; rewrite ?Eg, ?Ef, IH; done. Qed.
Lemma filter_within {A} (f g : A -> bool) (l : list A) : (forall x, f x = true -> g x = true) -> List.filter f (List.filter g l) = List.filter f l.
Proof.
  intros Hfg. induction l as [|x l IH]; cbn; [done|]. destruct (g x) eqn:Eg; cbn; [by rewrite IH|]. destruct (f x) eqn:Ef; [|done].
  apply Hfg in Ef. congruence.
Qed.
Lemma counted {A} (f : A -> bool) (l : list A) : (length l - length (List.filter (fun x => negb (f x)) l))%nat = length (List.filter f l).
Proof.
  assert (Hs : length l = (length (List.filter f l) + length (List.filter (fun x => negb (f x)) l))%nat)
    by (induction l as [|x l IH]; cbn; [done|]; destruct (f x); cbn; lia). lia.
Qed.
Lemma list_filter_In {A} (f : A -> bool) (l : list A) x : x ∈ List.filter f l <-> f x = true /\ x ∈ l.
Proof. rewrite list_elem_of_In, List.filter_In, list_elem_of_In. tauto. Qed.

Lemma filter_nil {A} (f : A -> bool) (l : list A) : Forall (fun x => f x = false) l -> List.filter f l = [].
Proof. induction 1 as [|x l Hx Hl IH]; [done|]. cbn. by rewrite Hx. Qed.

Lemma NoDup_filter_keys {K V} (f : K * V -> bool) (d : list (K * V)) : NoDup (od_keys d) -> NoDup (od_keys (List.filter f d)).
Proof. intros Hnd. eapply sublist_NoDup; [exact Hnd|]. apply fmap_sublist, filter_sublist. Qed.

Lemma od_get_filter_values {K V} `{EqDecision K} (f : V -> bool) (k : K) (d : list (K * V)) : NoDup (od_keys d) ->
  od_get k (List.filter (fun kv => f kv.2) d) = match od_get k d with Some v => if f v then Some v else None | None => None end.
Proof.
  induction d as [|[k' v] d IH]; intros Hnd; [done|]. apply NoDup_cons in Hnd as [Hk Hnd]. cbn [List.filter od_get snd].
  destruct (f v) eqn:Ef; cbn [od_get]; case_decide as E; [by rewrite Ef|by apply IH| |by apply IH].
  subst k'. rewrite Ef, IH by done. assert (Hn : od_get k d = None) by (by apply od_get_None). by rewrite Hn.
Qed.

Lemma Forall_list_filter {A} (P : A -> Prop) (f : A -> bool) (l : list A) : Forall P l -> Forall P (List.filter f l).
Proof. induction 1 as [|x l Hx Hl IH]; simpl; [done|]. destruct (f x); [by constructor|done]. Qed.

Lemma sublist_Forall {A} (P : A -> Prop) (l l' : list A) : l `sublist_of` l' -> Forall P l' -> Forall P l.
Proof. induction 1; [done| |]; inversion 1; subst; [constructor; auto|auto]. Qed.

Lemma filter_split {A} (f : A -> bool) (l : list A) :
  length l = (length (List.filter (fun x => negb (f x)) l) + length (List.filter f l))%nat.
Proof. induction l as [|x l IH]; simpl; [done|]. destruct (f x); simpl; lia. Qed.

(** ** Properties of all values of a dictionary *)
Lemma Forall_od_set {K V} `{EqDecision K} (P : V -> Prop) (k : K) v d :
  P v -> Forall (fun kv => P kv.2) d -> Forall (fun kv => P kv.2) (od_set k v d).
Proof.
  intros Hv. induction 1 as [|[k' v'] d Hx Hd IH]; simpl; [by repeat constructor|].
  case_decide; by constructor.
Qed.

Lemma Forall_od_del {K V} `{EqDecision K} (P : V -> Prop) (k : K) d :
  Forall (fun kv => P kv.2) d -> Forall (fun kv => P kv.2) (od_del k d).
Proof. induction 1 as [|[k' v'] d Hx Hd IH]; simpl; [done|]. case_decide; [done|by constructor]. Qed.

Lemma Forall_od_get {K V} `{EqDecision K} (P : V -> Prop) (k : K) v d :
  Forall (fun kv => P kv.2) d -> od_get k d = Some v -> P v.
Proof. intros Hd Hg%od_get_elem. rewrite Forall_forall in Hd. by apply Hd in Hg. Qed.

(** [move_to_end] after an assignment puts the key last with the new value. *)
Lemma od_move_set {K V} `{EqDecision K} (k : K) (v : V) d :
  NoDup (od_keys d) -> od_move_to_end k (od_set k v d) = od_del k d ++ [(k, v)].
Proof.
  intros Hnd. unfold od_move_to_end. rewrite od_get_set_eq. f_equal.
  induction d as [|[k' v'] d IH]; simpl; [by rewrite decide_True|].
  apply NoDup_cons in Hnd as [Hk Hnd].
  destruct (decide (k = k')) as [->|Hne]; simpl; [by rewrite decide_True|].
  rewrite decide_False by done. by rewrite IH.
Qed.

(** A function on the values of a dictionary. *)
Definition od_map {K V W} (f : V -> W) (d : list (K * V)) : list (K * W) := (fun kv => (kv.1, f kv.2)) <$> d.

Section OdMap.
Context {K V W : Type} `{EqDecision K} (f : V -> W).

Lemma od_keys_map (d : list (K * V)) : od_keys (od_map f d) = od_keys d.
Proof. unfold od_keys, od_map. rewrite <- list_fmap_compose. reflexivity. Qed.

Lemma od_get_map k (d : list (K * V)) : od_get k (od_map f d) = f <$> od_get k d.
Proof. induction d as [|[k' v] d IH]; [done|]. cbn. by case_decide. Qed.

Lemma od_set_map k v (d : list (K * V)) : od_map f (od_set k v d) = od_set k (f v) (od_map f d).
Proof. induction d as [|[k' w] d IH]; [done|]. cbn. case_decide; [done|]. cbn. by f_equal. Qed.

Lemma od_del_map k (d : list (K * V)) : od_map f (od_del k d) = od_del k (od_map f d).
Proof. induction d as [|[k' w] d IH]; [done|]. cbn. case_decide; [done|]. cbn. by f_equal. Qed.
End OdMap.

Lemma od_trim_last {A} n (l : list A) x : (1 <= n)%nat -> exists l', od_trim n (l ++ [x]) = l' ++ [x] /\ l' `suffix_of` l.
Proof.
  intros Hn. unfold od_trim. rewrite length_app. simpl.
  exists (drop (length l + 1 - n) l). rewrite drop_app_le by lia. split; [done|].
  exists (take (length l + 1 - n) l). by rewrite take_drop.
Qed.

(** ** Slices

    [l[:n]], also for a negative [n]. *)
Definition first_of {A} (n : Z) (l : list A) : list A :=
  if n <? 0 then take (length l - Z.to_nat (- n)) l else take (Z.to_nat n) l.

(** ** Strings *)
Definition str_prefix (p s : string) : bool := String.prefix p s.

Fixpoint str_contains (needle s : string) : bool :=
  String.prefix needle s ||
  match s with String.EmptyString => false | String.String _ s' => str_contains needle s' end.

(** [str.lower] on the ASCII range. *)
Definition ascii_lower (c : Ascii.ascii) : Ascii.ascii :=
  let n := Ascii.nat_of_ascii c in
  if (65 <=? n)%nat && (n <=? 90)%nat then Ascii.ascii_of_nat (n + 32) else c.
Fixpoint str_lower (s : string) : string :=
  match s with
  | String.EmptyString => String.EmptyString
  | String.String c s' => String.String (ascii_lower c) (str_lower s')
  end.

(** Python's [x or y] on values that are true, or [None]. *)
Definition or_else {A} (x y : option A) : option A := match x with Some _ => x | None => y end.

(** Python's [x or y] on strings that may be [None]. *)
Definition str_or (o : option string) (y : string) : string :=
  match o with Some s => if decide (s = EmptyString) then y else s | None => y end.

(** ** Sorting

    Python's [sorted(l, key=...)]: stable, by a comparison of keys. *)
Section PySorted.
Context {A : Type} (leb : A -> A -> bool).

Fixpoint insert_sorted (x : A) (l : list A) : list A :=
  match l with
  | [] => [x]
  | y :: l' => if leb x y then x :: l else y :: insert_sorted x l'
  end.
Definition py_sorted (l : list A) : list A := fold_right insert_sorted [] l.

Definition le_rel (x y : A) : Prop := leb x y = true.

Lemma insert_sorted_perm x l : insert_sorted x l ≡ₚ x :: l.
Proof. induction l as [|y l IH]; simpl; [done|]. case_match; [done|]. rewrite IH. constructor. Qed.

Lemma py_sorted_perm l : py_sorted l ≡ₚ l.
Proof. induction l as [|x l IH]; simpl; [done|]. by rewrite insert_sorted_perm, IH. Qed.

Lemma length_py_sorted l : length (py_sorted l) = length l.
Proof. by rewrite py_sorted_perm. Qed.

Context (leb_total : forall x y, leb x y = true \/ leb y x = true).
Context (leb_trans : forall x y z, leb x y = true -> leb y z = true -> leb x z = true).

Lemma insert_sorted_sorted x l : StronglySorted le_rel l -> StronglySorted le_rel (insert_sorted x l).
Proof.
  induction 1 as [|y l Hs IH Hall]; simpl; [repeat constructor|].
  destruct (leb x y) eqn:E.
  - constructor; [by constructor|]. constructor; [done|].
    eapply Forall_impl; [exact Hall|]. intros z Hz. by eapply leb_trans.
  - constructor; [done|]. rewrite insert_sorted_perm. constructor; [|done].
    unfold le_rel. destruct (leb_total x y); congruence.
Qed.

Lemma py_sorted_sorted l : StronglySorted le_rel (py_sorted l).
Proof. induction l; simpl; [constructor | by apply insert_sorted_sorted]. Qed.

Lemma py_sorted_id l : StronglySorted le_rel l -> py_sorted l = l.
Proof.
  induction 1 as [|x l Hs IH Hall]; simpl; [done|]. rewrite IH.
  destruct Hall as [|y l Hxy Hl]; simpl; [done|]. by rewrite Hxy.
Qed.
End PySorted.

(** [round(x, digits)]: to the nearest multiple of [10 ** -digits], ties to the
    even one. *)
Definition round_half_even (x : Q) : Z :=
  let f := Qfloor x in
  let d := (x - inject_Z f)%Q in
  if d <. (1 # 2) then f else if (1 # 2) <. d then f + 1 else if Z.even f then f else f + 1.
Definition py_round (digits : positive) (x : Q) : Q :=
  round_half_even (x * inject_Z (10 ^ Zpos digits)) # (10 ^ digits).

Lemma round_half_even_near x : (Qabs.Qabs (inject_Z (round_half_even x) - x) <= 1 # 2)%Q.
Proof.
  pose proof (Qfloor_le x) as H1. pose proof (Qlt_floor x) as H2.
  rewrite inject_Z_plus in H2. change (inject_Z 1) with 1%Q in H2.
  unfold round_half_even. apply Qabs.Qabs_Qle_condition.
  destruct (_ <. (1 # 2)) eqn:E1; fprops; [lra|].
  destruct ((1 # 2) <. _) eqn:E2; fprops; rewrite ?inject_Z_plus; change (inject_Z 1) with 1%Q; [lra|].
  case_match; rewrite ?inject_Z_plus; change (inject_Z 1) with 1%Q; lra.
Qed.

(** ** State and exceptions

    A computation reads and writes a state and returns a value or an exception;
    the state changes made before an exception stay. *)
Definition SE (S E A : Type) : Type := S -> res E A * S.

#[export] Instance SE_ret {S E} : MRet (SE S E) := fun A a s => (Ok a, s).
#[export] Instance SE_bind {S E} : MBind (SE S E) :=
  fun A B f m s => match m s with (Ok a, s) => f a s | (Raise e, s) => (Raise e, s) end.

Definition se_get {S E} : SE S E S := fun s => (Ok s, s).
Definition se_gets {S E A} (f : S -> A) : SE S E A := fun s => (Ok (f s), s).
Definition se_modify {S E} (f : S -> S) : SE S E unit := fun s => (Ok tt, f s).
Definition se_raise {S E A} (e : E) : SE S E A := fun s => (Raise e, s).
Definition se_lift {S E A} (r : res E A) : SE S E A := fun s => (r, s).
(** [try: m except: h], and the value or the exception as data. *)
Definition se_try {S E A} (m : SE S E A) : SE S E (res E A) := fun s => let '(r, s) := m s in (Ok r, s).

Lemma se_bind_ok {S E A B} (m : SE S E A) (f : A -> SE S E B) s a s' :
  m s = (Ok a, s') -> (m ≫= f) s = f a s'.
Proof. intros H. unfold mbind, SE_bind. by rewrite H. Qed.

Lemma se_bind_raise {S E A B} (m : SE S E A) (f : A -> SE S E B) s e s' :
  m s = (Raise e, s') -> (m ≫= f) s = (Raise e, s').
Proof. intros H. unfold mbind, SE_bind. by rewrite H. Qed.

Lemma se_bind_inv {S E A B} (m : SE S E A) (f : A -> SE S E B) s b s' :
  (m ≫= f) s = (Ok b, s') -> exists a s1, m s = (Ok a, s1) /\ f a s1 = (Ok b, s').
Proof. unfold mbind, SE_bind. destruct (m s) as [[a|e] s1]; [|done]. intros Hf. by exists a, s1. Qed.

(** ** Parallel lists *)
Lemma combine_pairs {A B} (l : list (A * B)) : combine l.*1 l.*2 = l.
Proof. induction l as [|[a b] l IH]; simpl; [done|]. f_equal. exact IH. Qed.

Lemma combine_fst {A B} (l : list A) (l' : list B) : length l' = length l -> (combine l l').*1 = l.
Proof. revert l'. induction l as [|a l IH]; intros [|b l'] Hl; simpl in *; try done. f_equal. apply IH. lia. Qed.

Lemma combine_snd {A B} (l : list A) (l' : list B) : length l' = length l -> (combine l l').*2 = l'.
Proof. revert l'. induction l as [|a l IH]; intros [|b l'] Hl; simpl in *; try done. f_equal. apply IH. lia. Qed.

(** ** Bounded loops

    [for _ in range(n)] with an early return: [step] goes on with [inl] or
    returns with [inr]. The bound is binary, so that large ones compute. *)
Section BoundedLoop.
Context {A B : Type} (step : A -> A + B).

Fixpoint bounded_loop (p : positive) (x : A) : A + B :=
  match p with
  | xH => step x
  | xO p => match bounded_loop p x with inl x => bounded_loop p x | r => r end
  | xI p =>
    match step x with
    | inl x => match bounded_loop p x with inl x => bounded_loop p x | r => r end
    | r => r
    end
  end.

(** What every pass keeps, and what the return satisfies. *)
Lemma bounded_loop_inv (I : A -> Prop) (Q : B -> Prop) :
  (forall x, I x -> match step x with inl x => I x | inr y => Q y end) ->
  forall p x, I x -> match bounded_loop p x with inl x => I x | inr y => Q y end.
Proof.
  intros Hs p. induction p as [p IH|p IH|]; intros x Hx; cbn [bounded_loop]; [| |by apply Hs].
  - specialize (Hs x Hx). destruct (step x) as [x1|y]; [|done]. specialize (IH x1 Hs) as H1.
    destruct (bounded_loop p x1) as [x2|y]; [by apply IH|done].
  - specialize (IH x Hx) as H1. destruct (bounded_loop p x) as [x2|y]; [by apply IH|done].
Qed.

(** A measure that falls by one in every pass: the loop returns, or has passed
    [p] times. *)
Lemma bounded_loop_measure (I : A -> Prop) (m : A -> Z) :
  (forall x, I x -> match step x with inl x' => I x' /\ m x' + 1 <= m x | inr _ => True end) ->
  forall p x, I x -> match bounded_loop p x with inl x' => I x' /\ m x' + Z.pos p <= m x | inr _ => True end.
Proof.
  intros Hs p. induction p as [p IH|p IH|]; intros x Hx; cbn [bounded_loop]; [| |by apply Hs].
  - specialize (Hs x Hx). destruct (step x) as [x1|y]; [|done]. destruct Hs as [H1 M1]. specialize (IH x1 H1) as H2.
    destruct (bounded_loop p x1) as [x2|y]; [|done]. destruct H2 as [H2 M2]. specialize (IH x2 H2).
    destruct (bounded_loop p x2) as [x3|y]; [|done]. destruct IH as [H3 M3]. split; [done|lia].
  - specialize (IH x Hx) as H2. destruct (bounded_loop p x) as [x2|y]; [|done]. destruct H2 as [H2 M2]. specialize (IH x2 H2).
    destruct (bounded_loop p x2) as [x3|y]; [|done]. destruct IH as [H3 M3]. split; [done|lia].
Qed.
End BoundedLoop.
