(* ===== verification/Errors.v ===== *)
(** Component: failure classification ([src/src/coreai/errors.py]).

    An exception object is the record of everything [classify] looks at: its
    class, the attributes [status_code], [status], [code], [retry_after], the
    HTTP response it carries and its message. Parsing of numbers and HTTP dates
    in header text is a parameter ([TextLib]). *)
From S2P Require Import Prelude.

Inductive ErrorKind :=
| RATE_LIMIT | OVERLOADED | SERVER_ERROR | TIMEOUT | CONNECTION | AUTH | QUOTA
| BAD_REQUEST | DEADLINE | CIRCUIT_OPEN | UNKNOWN.

#[export] Instance ErrorKind_eq_dec : EqDecision ErrorKind.
Proof. solve_decision. Defined.

Definition kind_value (k : ErrorKind) : string :=
  match k with
  | RATE_LIMIT => "rate_limit" | OVERLOADED => "overloaded" | SERVER_ERROR => "server_error"
  | TIMEOUT => "timeout" | CONNECTION => "connection" | AUTH => "auth" | QUOTA => "quota"
  | BAD_REQUEST => "bad_request" | DEADLINE => "deadline" | CIRCUIT_OPEN => "circuit_open"
  | UNKNOWN => "unknown"
  end.

(** Transient: the same call may succeed if repeated shortly. *)
Definition RETRYABLE : list ErrorKind := [RATE_LIMIT; OVERLOADED; SERVER_ERROR; TIMEOUT; CONNECTION].
(** Provider-side problem: another provider may well succeed. *)
Definition FAILOVER : list ErrorKind := RETRYABLE ++ [AUTH; QUOTA; CIRCUIT_OPEN].
(** Counts against a provider's circuit breaker. *)
Definition BREAKER_COUNTED : list ErrorKind := RETRYABLE ++ [AUTH; QUOTA].

Record ErrorInfo := mkErrorInfo { kind : ErrorKind; status : option Z; retry_after : option Q }.

Definition retryable (i : ErrorInfo) : bool := bool_decide (kind i ∈ RETRYABLE).
Definition failover (i : ErrorInfo) : bool := bool_decide (kind i ∈ FAILOVER).
Definition counts_against_breaker (i : ErrorInfo) : bool := bool_decide (kind i ∈ BREAKER_COUNTED).

(** An attribute value as [getattr(exc, name, None)] returns it. *)
Inductive pyattr := ANone | ABool (b : bool) | AInt (z : Z) | AFloat (q : Q) | AStr (s : string) | AOther.

Record response := mkResponse {
  r_status_code : pyattr;
  r_headers : option (list (string * string)) }.

(** Exception classes: the gateway's own, and any other class by the names in
    its method resolution order and whether it derives from [TimeoutError] or
    [ConnectionError]. *)
Inductive exn_class :=
| CDeadlineExceeded
| CCircuitOpenError (provider : string) (ra : option Q)
| CRateLimited (provider : string) (ra : option Q)
| CProviderTimeout (provider : string) (seconds : Q)
| CAllProvidersUnavailable (failures : list (string * ErrorKind)) (ra : option Q)
| CBudgetExceeded (limit : string) (used cap retry : Q)
| COther (mro : list string) (is_timeout is_connection : bool).

Record exn := mkExn {
  ex_class : exn_class;
  ex_status_code : pyattr;
  ex_status : pyattr;
  ex_code : pyattr;
  ex_retry_after : pyattr;
  ex_response : option response;
  ex_message : string }.

Definition opt_attr (o : option Q) : pyattr := match o with Some q => AFloat q | None => ANone end.
Definition plain_exn (c : exn_class) (ra : pyattr) (msg : string) : exn :=
  mkExn c ANone ANone ANone ra None msg.

Definition DeadlineExceeded (msg : string) : exn := plain_exn CDeadlineExceeded ANone msg.
Definition ProviderTimeout (provider : string) (seconds : Q) (shown : string) : exn :=
  plain_exn (CProviderTimeout provider seconds) ANone (provider +:+ " timed out after " +:+ shown +:+ "s").
Definition CircuitOpenError (provider : string) (ra : option Q) : exn :=
  plain_exn (CCircuitOpenError provider ra) (opt_attr ra)
            ("circuit open for provider '" +:+ provider +:+ "'").
Definition RateLimited (provider : string) (ra : option Q) : exn :=
  plain_exn (CRateLimited provider ra) (opt_attr ra)
            ("rate limit reached for provider '" +:+ provider +:+ "'").
Definition failure_detail (failures : list (string * ErrorKind)) : string :=
  let d := String.concat ", " (map (fun '(p, k) => p +:+ "=" +:+ kind_value k) failures) in
  if decide (d = EmptyString) then "none configured" else d.
Definition AllProvidersUnavailable (failures : list (string * ErrorKind)) (ra : option Q) : exn :=
  plain_exn (CAllProvidersUnavailable failures ra) (opt_attr ra)
            ("all providers unavailable (" +:+ failure_detail failures +:+ ")").
Definition ValueError (msg : string) : exn :=
  plain_exn (COther ["ValueError"; "Exception"; "BaseException"; "object"] false false) ANone msg.
Definition TypeError (msg : string) : exn :=
  plain_exn (COther ["TypeError"; "Exception"; "BaseException"; "object"] false false) ANone msg.
Definition RuntimeError (msg : string) : exn :=
  plain_exn (COther ["RuntimeError"; "Exception"; "BaseException"; "object"] false false) ANone msg.
Definition IndexError (msg : string) : exn :=
  plain_exn (COther ["IndexError"; "LookupError"; "Exception"; "BaseException"; "object"] false false) ANone msg.

Definition isinstance_TimeoutError (e : exn) : bool :=
  match ex_class e with
  | CDeadlineExceeded | CProviderTimeout _ _ => true
  | COther _ t _ => t
  | _ => false
  end.
Definition isinstance_ConnectionError (e : exn) : bool :=
  match ex_class e with COther _ _ c => c | _ => false end.

(** [cls.__name__ for cls in type(exc).__mro__]. *)
Definition mro_names (e : exn) : list string :=
  let timeout := ["TimeoutError"; "OSError"; "Exception"; "BaseException"; "object"] in
  let runtime := ["RuntimeError"; "Exception"; "BaseException"; "object"] in
  match ex_class e with
  | CDeadlineExceeded => "DeadlineExceeded" :: timeout
  | CProviderTimeout _ _ => "ProviderTimeout" :: timeout
  | CCircuitOpenError _ _ => "CircuitOpenError" :: runtime
  | CRateLimited _ _ => "RateLimited" :: runtime
  | CAllProvidersUnavailable _ _ => "AllProvidersUnavailable" :: runtime
  | CBudgetExceeded _ _ _ _ => ["BudgetExceeded"; "Exception"; "BaseException"; "object"]
  | COther mro _ _ => mro
  end.

Definition int_status (lo_hi_checked : pyattr) : option Z :=
  match lo_hi_checked with
  | AInt v => if (100 <=? v) && (v <=? 599) then Some v else None
  | _ => None
  end.

Definition _status_of (e : exn) : option Z :=
  match int_status (ex_status_code e) with
  | Some v => Some v
  | None =>
    match int_status (ex_status e) with
    | Some v => Some v
    | None =>
      match int_status (ex_code e) with
      | Some v => Some v
      | None => match ex_response e with Some r => int_status (r_status_code r) | None => None end
      end
    end
  end.
Definition status_of (e : exn) : option Z := _status_of e.

Class TextLib := {
  py_float : string -> option Q;       (* float(text), None for ValueError *)
  py_http_date : string -> option Q }. (* epoch seconds of an HTTP date *)

Section Classify.
Context `{TextLib}.

Definition explicit_retry_after (a : pyattr) : option Q :=
  match a with
  | ABool b => Some (if b then 1%Q else 0%Q)
  | AInt z => if 0 <=? z then Some (inject_Z z) else None
  | AFloat q => if 0%Q <=. q then Some q else None
  | _ => None
  end.

Definition header_retry_after (now_utc : Q) (headers : list (string * string)) : option Q :=
  match od_get "retry-after-ms" headers with
  | Some ms => match py_float ms with Some v => Some (fmax 0 (v / 1000)%Q) | None => None end
  | None =>
    match od_get "retry-after" headers with
    | None => None
    | Some seconds =>
      match py_float seconds with
      | Some v => Some (fmax 0 v)
      | None =>
        match py_http_date seconds with
        | Some at_ => Some (fmax 0 (at_ - now_utc)%Q)
        | None => None
        end
      end
    end
  end.

Definition _retry_after_of (now_utc : Q) (e : exn) : option Q :=
  match explicit_retry_after (ex_retry_after e) with
  | Some v => Some v
  | None =>
    match ex_response e with
    | Some r => match r_headers r with Some h => header_retry_after now_utc h | None => None end
    | None => None
    end
  end.

Definition _QUOTA_HINTS : list string :=
  ["insufficient_quota"; "exceeded your current quota"; "billing"; "credit balance"].
Definition any_in (hints : list string) (message : string) : bool :=
  existsb (fun h => str_contains h message) hints.

Definition kind_of_status (e : exn) (message : string) (s : Z) : ErrorKind :=
  if (s =? 429) || (s =? 402) then
    let quota := (s =? 402) || any_in _QUOTA_HINTS message in
    let quota := quota || match ex_code e with AStr c => bool_decide (c = "insufficient_quota") | _ => false end in
    if quota then QUOTA else RATE_LIMIT
  else if (s =? 503) || (s =? 529) then OVERLOADED
  else if s =? 408 then TIMEOUT
  else if 500 <=? s then SERVER_ERROR
  else if (s =? 401) || (s =? 403) then AUTH
  else if (400 <=? s) && (s <? 500) then BAD_REQUEST
  else UNKNOWN.

(** Without a status: exception type first, then message keywords. *)
Definition classify_by_type (e : exn) (ra : option Q) (message : string) : ErrorInfo :=
  let joined := String.concat " " (map str_lower (mro_names e)) in
  if isinstance_TimeoutError e || str_contains "timeout" joined then mkErrorInfo TIMEOUT None ra
  else if isinstance_ConnectionError e || str_contains "connect" joined then mkErrorInfo CONNECTION None ra
  else if str_contains "overloaded" message then mkErrorInfo OVERLOADED None ra
  else if any_in _QUOTA_HINTS message then mkErrorInfo QUOTA None None
  else if any_in ["rate limit"; "429"; "too many requests"] message then mkErrorInfo RATE_LIMIT None ra
  else if any_in ["timeout"; "timed out"] message then mkErrorInfo TIMEOUT None ra
  else if str_contains "connection" message then mkErrorInfo CONNECTION None ra
  else mkErrorInfo UNKNOWN None ra.

Definition classify (now_utc : Q) (e : exn) : ErrorInfo :=
  match ex_class e with
  | CDeadlineExceeded => mkErrorInfo DEADLINE None None
  | CCircuitOpenError _ ra => mkErrorInfo CIRCUIT_OPEN None ra
  | CRateLimited _ ra => mkErrorInfo RATE_LIMIT None ra
  | _ =>
    let st := _status_of e in
    let ra := _retry_after_of now_utc e in
    let message := str_lower (ex_message e) in
    match st with
    | Some s => mkErrorInfo (kind_of_status e message s) st ra
    | None => classify_by_type e ra message
    end
  end.
End Classify.

(** ** Lemmas *)
Section Facts.
Context `{TextLib}.

Lemma retryable_failover i : retryable i = true -> failover i = true.
Proof. unfold retryable, failover. rewrite !bool_decide_eq_true. destruct i as [[] ? ?]; set_solver. Qed.

Lemma retryable_counted i : retryable i = true -> counts_against_breaker i = true.
Proof. unfold retryable, counts_against_breaker. rewrite !bool_decide_eq_true. set_solver. Qed.

Lemma counted_failover i : counts_against_breaker i = true -> failover i = true.
Proof. unfold counts_against_breaker, failover. rewrite !bool_decide_eq_true. set_solver. Qed.

Lemma int_status_range a v : int_status a = Some v -> 100 <= v <= 599.
Proof. destruct a; simpl; try done. case_match eqn:E; intros [= <-]. lia. Qed.

Lemma status_range e v : _status_of e = Some v -> 100 <= v <= 599.
Proof.
  unfold _status_of. repeat case_match; intros; simplify_eq; eauto using int_status_range.
Qed.

Lemma retry_after_nonneg now e q : _retry_after_of now e = Some q -> (0 <= q)%Q.
Proof.
  unfold _retry_after_of, header_retry_after, explicit_retry_after.
  repeat case_match; intros; simplify_eq; fprops; auto with pyq; try lra.
  all: try (change 0%Q with (inject_Z 0); rewrite <- Zle_Qle; lia).
Qed.
End Facts.
