(* ===== verification/Deadline.v ===== *)
(** Component: the request-wide time budget ([src/src/coreai/deadline.py]).
    Every method takes the clock reading it makes as its first argument. *)
From S2P Require Import Prelude Errors.

Record Deadline := mkDeadline { d_end : option Q }.

Definition new_deadline (now : Q) (seconds : option Q) : Deadline :=
  mkDeadline (match seconds with None => None | Some s => Some (now + s)%Q end).

Definition remaining (now : Q) (d : Deadline) : option Q :=
  match d_end d with None => None | Some e => Some (fmax 0 (e - now)%Q) end.

Definition expired (now : Q) (d : Deadline) : bool :=
  match d_end d with None => false | Some e => e <=. now end.

Definition check (now : Q) (d : Deadline) : res exn unit :=
  if expired now d then Raise (DeadlineExceeded "request deadline exceeded") else Ok tt.

Definition clamp (now : Q) (d : Deadline) (seconds : option Q) : option Q :=
  match remaining now d with
  | None => seconds
  | Some r => match seconds with None => Some r | Some s => Some (fmin s r) end
  end.

Lemma remaining_nonneg now d r : remaining now d = Some r -> (0 <= r)%Q.
Proof. unfold remaining. destruct (d_end d); intros; simplify_eq. apply fmax_l. Qed.

Lemma expired_remaining now d :
  expired now d = true <-> exists r, remaining now d = Some r /\ (r == 0)%Q.
Proof.
  unfold expired, remaining. destruct (d_end d) as [e|]; [|naive_solver].
  rewrite fleb_le. split.
  - intros H. eexists. split; [done|]. fsolve.
  - intros (r & [= <-] & H). revert H. fsolve.
Qed.

Lemma expired_mono now now' d : (now <= now')%Q -> expired now d = true -> expired now' d = true.
Proof. unfold expired. destruct (d_end d); [|done]. rewrite !fleb_le. lra. Qed.

Lemma clamp_le now d s c :
  clamp now d s = Some c ->
  (forall x, s = Some x -> (c <= x)%Q) /\ (forall r, remaining now d = Some r -> (c <= r)%Q).
Proof.
  unfold clamp. destruct (remaining now d) as [r|], s as [x|]; intros [= <-].
  all: split; intros ? [= <-]; auto with pyq; lra.
Qed.

Lemma clamp_deadline now d s c e :
  d_end d = Some e -> clamp now d s = Some c -> (0 < c)%Q -> (now + c <= e)%Q.
Proof.
  intros He Hc Hpos. apply clamp_le in Hc as [_ Hr].
  unfold remaining in Hr. rewrite He in Hr. specialize (Hr _ eq_refl). revert Hr. fsolve.
Qed.
