(* ===== verification/CircuitBreaker.v ===== *)
(** Component: the per-provider circuit breaker
    ([src/src/coreai/circuit_breaker.py]).

    [CircuitBreaker] is the object's state: the constructor arguments and the
    mutable fields. Each method takes the clock readings it makes, in order.
    [notified] is the list of states [on_change] was called with, newest last. *)
From S2P Require Import Prelude Errors.

Inductive CircuitState := CLOSED | OPEN | HALF_OPEN.

#[export] Instance CircuitState_eq_dec : EqDecision CircuitState.
Proof. solve_decision. Defined.

Definition state_value (s : CircuitState) : string :=
  match s with CLOSED => "closed" | OPEN => "open" | HALF_OPEN => "half_open" end.

Record CircuitBreaker := mkCircuitBreaker {
  cb_name : string;
  failure_threshold : Z;
  reset_timeout : Q;
  half_open_max_calls : Z;
  cb_state : CircuitState;
  failures : Z;
  opened_at : Q;
  probes_in_flight : Z;
  total_opened : Z;
  notified : list string }.

Definition init_breaker (name : string) (threshold : Z) (reset : Q) (max_calls : Z) : CircuitBreaker :=
  mkCircuitBreaker name threshold reset max_calls CLOSED 0 0 0 0 [].

(** [__init__]: the threshold must be at least 1. *)
Definition new_breaker (name : string) (threshold : Z) (reset : Q) (max_calls : Z)
    : res exn CircuitBreaker :=
  if threshold <? 1 then Raise (ValueError "failure_threshold must be at least 1")
  else Ok (init_breaker name threshold reset max_calls).

(** Assignment to the mutable fields. *)
Definition set_fields (b : CircuitBreaker) (s : CircuitState) (f : Z) (o : Q) (p t : Z) (n : list string)
    : CircuitBreaker :=
  mkCircuitBreaker (cb_name b) (failure_threshold b) (reset_timeout b) (half_open_max_calls b) s f o p t n.

(** The [state] property: an expired OPEN becomes HALF_OPEN. The state read is
    [cb_state] of the result. *)
Definition state (now : Q) (b : CircuitBreaker) : CircuitBreaker :=
  if bool_decide (cb_state b = OPEN) && (reset_timeout b <=. (now - opened_at b)%Q)
  then set_fields b HALF_OPEN (failures b) (opened_at b) 0 (total_opened b) (notified b)
  else b.

Definition would_allow (now : Q) (b : CircuitBreaker) : bool * CircuitBreaker :=
  let b := state now b in
  (match cb_state b with
   | CLOSED => true
   | HALF_OPEN => probes_in_flight b <? half_open_max_calls b
   | OPEN => false
   end, b).

Definition set_probes (b : CircuitBreaker) (p : Z) : CircuitBreaker :=
  set_fields b (cb_state b) (failures b) (opened_at b) p (total_opened b) (notified b).

Definition allow (now : Q) (b : CircuitBreaker) : bool * CircuitBreaker :=
  let b := state now b in
  match cb_state b with
  | CLOSED => (true, b)
  | HALF_OPEN =>
    if probes_in_flight b <? half_open_max_calls b
    then (true, set_probes b (probes_in_flight b + 1))
    else (false, b)
  | OPEN => (false, b)
  end.

Definition _changed (new : string) (b : CircuitBreaker) : CircuitBreaker :=
  set_fields b (cb_state b) (failures b) (opened_at b) (probes_in_flight b) (total_opened b)
             (notified b ++ [new]).

Definition _open (now : Q) (b : CircuitBreaker) : CircuitBreaker :=
  _changed "open" (set_fields b OPEN (failures b) now 0 (total_opened b + 1) (notified b)).

Definition record_success (now : Q) (b : CircuitBreaker) : CircuitBreaker :=
  let b := state now b in
  match cb_state b with
  | OPEN => b
  | HALF_OPEN =>
    _changed "closed" (set_fields b CLOSED 0 (opened_at b) (Z.max 0 (probes_in_flight b - 1))
                                  (total_opened b) (notified b))
  | CLOSED => set_fields b CLOSED 0 (opened_at b) (probes_in_flight b) (total_opened b) (notified b)
  end.

(** The clock is read by [state] and again by [_open]. *)
Definition record_failure (now now' : Q) (b : CircuitBreaker) : CircuitBreaker :=
  let b := state now b in
  match cb_state b with
  | OPEN => b
  | HALF_OPEN => _open now' (set_probes b (Z.max 0 (probes_in_flight b - 1)))
  | CLOSED =>
    let b := set_fields b (cb_state b) (failures b + 1) (opened_at b) (probes_in_flight b)
                        (total_opened b) (notified b) in
    if failure_threshold b <=? failures b then _open now' b else b
  end.

Definition release (b : CircuitBreaker) : CircuitBreaker :=
  if bool_decide (cb_state b = HALF_OPEN)
  then set_probes b (Z.max 0 (probes_in_flight b - 1))
  else b.

Definition retry_after (now : Q) (b : CircuitBreaker) : option Q :=
  if bool_decide (cb_state b = OPEN)
  then Some (fmax 0 (reset_timeout b - (now - opened_at b))%Q)
  else None.

Record Snapshot := mkSnapshot {
  snap_state : string; consecutive_failures : Z; times_opened : Z; retry_after_seconds : option Q }.

Definition snapshot (now now' : Q) (b : CircuitBreaker) : Snapshot * CircuitBreaker :=
  let b := state now b in
  (mkSnapshot (state_value (cb_state b)) (failures b) (total_opened b) (retry_after now' b), b).

(** ** The breaker as a transition system *)
Inductive cb_op :=
| OpAllow (now : Q)
| OpWouldAllow (now : Q)
| OpSuccess (now : Q)
| OpFailure (now now' : Q)
| OpRelease
| OpSnapshot (now now' : Q).

Definition run_op (o : cb_op) (b : CircuitBreaker) : CircuitBreaker :=
  match o with
  | OpAllow now => snd (allow now b)
  | OpWouldAllow now => snd (would_allow now b)
  | OpSuccess now => record_success now b
  | OpFailure now now' => record_failure now now' b
  | OpRelease => release b
  | OpSnapshot now now' => snd (snapshot now now' b)
  end.

Definition run_ops (os : list cb_op) (b : CircuitBreaker) : CircuitBreaker :=
  fold_left (fun b o => run_op o b) os b.

(** Every clock reading of an operation satisfies [P]. *)
Definition op_times (P : Q -> Prop) (o : cb_op) : Prop :=
  match o with
  | OpAllow t | OpWouldAllow t | OpSuccess t => P t
  | OpFailure t t' | OpSnapshot t t' => P t /\ P t'
  | OpRelease => True
  end.

(** Well-formed breakers: a CLOSED breaker is below its threshold, an OPEN one
    has no probes out, probes never exceed the limit, and the counter of
    openings agrees with the notifications sent. *)
Record breaker_wf (b : CircuitBreaker) : Prop := {
  wf_threshold : 1 <= failure_threshold b;
  wf_failures : 0 <= failures b;
  wf_closed : cb_state b = CLOSED -> failures b < failure_threshold b;
  wf_open : cb_state b = OPEN -> probes_in_flight b = 0;
  wf_probes : 0 <= probes_in_flight b <= Z.max 0 (half_open_max_calls b);
  wf_opened : total_opened b = Z.of_nat (length (filter (fun s => s = "open") (notified b))) }.

Lemma init_breaker_wf name threshold reset max_calls b :
  new_breaker name threshold reset max_calls = Ok b -> breaker_wf b.
Proof.
  unfold new_breaker. destruct (threshold <? 1) eqn:E; intros [= <-].
  split; simpl; intros; try done; lia.
Qed.

Ltac breaker_cases :=
  unfold allow, would_allow, snapshot, record_success, record_failure, release, state, _open,
    _changed, set_probes, set_fields in *; simpl in *;
  repeat (case_match; simplify_eq; simpl in *); simpl in *;
  repeat match goal with
  | H : (_ && _)%bool = true |- _ => apply andb_true_iff in H; destruct H
  | H : bool_decide _ = true |- _ => apply bool_decide_eq_true in H
  | H : bool_decide _ = false |- _ => apply bool_decide_eq_false in H
  | H : (_ <? _) = true |- _ => apply Z.ltb_lt in H
  | H : (_ <? _) = false |- _ => apply Z.ltb_ge in H
  | H : (_ <=? _) = true |- _ => apply Z.leb_le in H
  | H : (_ <=? _) = false |- _ => apply Z.leb_gt in H
  end.

Lemma run_op_wf o b : breaker_wf b -> breaker_wf (run_op o b).
Proof.
  intros [H1 H2 H3 H4 H5 H6].
  destruct b as [nm th rt mx st fl oa pr tot ntf]; simpl in *.
  destruct o; simpl; breaker_cases; split; simpl; intros; simplify_eq;
    rewrite ?filter_app, ?length_app; simpl; try done; try lia; auto.
  all: try (specialize (H3 eq_refl); lia).
  all: try (specialize (H4 eq_refl); lia).
Qed.

Lemma run_ops_wf os b : breaker_wf b -> breaker_wf (run_ops os b).
Proof. unfold run_ops. revert b. induction os; simpl; auto using run_op_wf. Qed.

(** ** Helper lemmas *)
Lemma state_fixed_times now b :
  cb_state b = OPEN -> ((now - opened_at b) < reset_timeout b)%Q -> state now b = b.
Proof. intros Hs Hlt. unfold state. apply fleb_gt in Hlt. by rewrite Hlt, andb_false_r. Qed.

Lemma state_closed now b : cb_state b = CLOSED -> state now b = b.
Proof. intros Hs. unfold state. by rewrite bool_decide_eq_false_2 by (by rewrite Hs). Qed.

Lemma state_half_open now b : cb_state b = HALF_OPEN -> state now b = b.
Proof. intros Hs. unfold state. by rewrite bool_decide_eq_false_2 by (by rewrite Hs). Qed.

Lemma state_expires now b :
  cb_state b = OPEN -> (reset_timeout b <= now - opened_at b)%Q ->
  state now b = set_fields b HALF_OPEN (failures b) (opened_at b) 0 (total_opened b) (notified b).
Proof.
  intros Hs Hle. unfold state. apply fleb_le in Hle.
  by rewrite Hle, bool_decide_eq_true_2.
Qed.

Lemma would_allow_allow now b : fst (would_allow now b) = fst (allow now b).
Proof.
  unfold would_allow, allow. destruct (cb_state (state now b)); simpl; try done.
  by case_match.
Qed.

Lemma run_op_open_window o b :
  cb_state b = OPEN ->
  op_times (fun t => ((t - opened_at b) < reset_timeout b)%Q) o -> run_op o b = b.
Proof.
  intros Hs Ht. destruct o; cbn [op_times run_op] in *; try (lazymatch type of Ht with _ /\ _ => destruct Ht end);
    unfold allow, would_allow, record_success, record_failure, snapshot, release;
    try (rewrite state_fixed_times by done); simpl; rewrite ?Hs; done.
Qed.

(** Consecutive failures of a CLOSED breaker, at the given clock readings. *)
Definition fail_ops (ts : list (Q * Q)) : list cb_op := map (fun '(t, t') => OpFailure t t') ts.

Lemma record_failure_closed now now' b :
  cb_state b = CLOSED ->
  record_failure now now' b =
    (let b' := set_fields b CLOSED (failures b + 1) (opened_at b) (probes_in_flight b)
                          (total_opened b) (notified b) in
     if failure_threshold b <=? failures b + 1 then _open now' b' else b').
Proof. intros Hs. unfold record_failure. rewrite state_closed, Hs by done. done. Qed.

Lemma failures_below_threshold ts b :
  cb_state b = CLOSED -> failures b + Z.of_nat (length ts) < failure_threshold b ->
  cb_state (run_ops (fail_ops ts) b) = CLOSED /\
  failures (run_ops (fail_ops ts) b) = failures b + Z.of_nat (length ts) /\
  failure_threshold (run_ops (fail_ops ts) b) = failure_threshold b.
Proof.
  revert b. induction ts as [|[t t'] ts IH]; intros b Hs Hlt; simpl in *; [split_and!; [done|lia|done]|].
  unfold run_ops in *. simpl. rewrite record_failure_closed by done. simpl.
  destruct (failure_threshold b <=? failures b + 1) eqn:E; [lia|].
  edestruct IH as (A & B & C); [..|split_and!; [exact A|rewrite B|exact C]]; simpl; [done|lia|lia].
Qed.

Fixpoint run_allows (ts : list Q) (b : CircuitBreaker) : list bool * CircuitBreaker :=
  match ts with
  | [] => ([], b)
  | t :: ts => let '(r, b) := allow t b in let '(rs, b) := run_allows ts b in (r :: rs, b)
  end.

Lemma run_allows_half_open ts b :
  cb_state b = HALF_OPEN ->
  fst (run_allows ts b) =
    replicate (Nat.min (length ts) (Z.to_nat (half_open_max_calls b - probes_in_flight b))) true ++
    replicate (length ts - Z.to_nat (half_open_max_calls b - probes_in_flight b)) false.
Proof.
  revert b. induction ts as [|t ts IH]; intros b Hs; simpl; [done|].
  unfold allow. rewrite state_half_open, Hs by done.
  destruct (probes_in_flight b <? half_open_max_calls b) eqn:E.
  - specialize (IH (set_probes b (probes_in_flight b + 1)) Hs).
    destruct (run_allows ts _) as [rs b'] eqn:E'. simpl in *. rewrite IH.
    replace (Z.to_nat (half_open_max_calls b - probes_in_flight b))
      with (S (Z.to_nat (half_open_max_calls b - (probes_in_flight b + 1)))) by lia.
    done.
  - specialize (IH b Hs). destruct (run_allows ts _) as [rs b'] eqn:E'. simpl in *. rewrite IH.
    replace (Z.to_nat (half_open_max_calls b - probes_in_flight b)) with 0%nat by lia.
    rewrite Nat.min_0_r, Nat.sub_0_r. done.
Qed.

(** ** Properties *)

(** C36: every sequence of calls on a breaker the constructor accepted leaves it
    well-formed: CLOSED means fewer failures than the threshold, OPEN means no
    probe is out, at most [half_open_max_calls] probe slots are ever taken, and
    [total_opened] counts exactly the "open" notifications. *)
Theorem breaker_invariant name threshold reset max_calls b os :
  new_breaker name threshold reset max_calls = Ok b -> breaker_wf (run_ops os b).
Proof. intros H. eapply run_ops_wf, init_breaker_wf, H. Qed.

Lemma breaker_invariant_witness :
  breaker_wf (run_ops [OpFailure 1 1; OpFailure 2 2; OpAllow 40; OpAllow 41; OpSuccess 42]
                (init_breaker "openai" 2 30 1)).
Proof. apply (breaker_invariant "openai" 2 30 1). reflexivity. Defined.

(** while the reset timeout of an OPEN breaker has not passed, no sequence
    of calls changes it - late successes do not close it, late failures do not
    extend the window - and no call is admitted. *)
Theorem open_window_is_frozen b os t :
  cb_state b = OPEN ->
  Forall (op_times (fun t => ((t - opened_at b) < reset_timeout b)%Q)) os ->
  ((t - opened_at b) < reset_timeout b)%Q ->
  run_ops os b = b /\ fst (allow t b) = false /\
  exists r, retry_after t b = Some r /\ (r == reset_timeout b - (t - opened_at b))%Q.
Proof.
  intros Hs Hos Ht. split_and!.
  - induction Hos as [|o os Ho Hos IH]; [done|]. unfold run_ops in *. simpl.
    by rewrite run_op_open_window.
  - unfold allow. by rewrite state_fixed_times, Hs.
  - unfold retry_after. rewrite bool_decide_eq_true_2 by done. eexists. split; [done|].
    fsolve.
Qed.

Lemma open_window_witness :
  let b := run_ops [OpFailure 1 1; OpFailure 2 2] (init_breaker "openai" 2 30 1) in
  run_ops [OpSuccess 5; OpFailure 6 7; OpAllow 31] b = b /\ fst (allow 31 b) = false /\
  exists r, retry_after 31 b = Some r /\ (r == reset_timeout b - (31 - opened_at b))%Q.
Proof.
  apply open_window_is_frozen; [reflexivity | | reflexivity].
  repeat constructor.
Defined.

(** C37: a CLOSED breaker opens on exactly the failure that makes the run of
    consecutive failures reach the threshold, not before, and records the time
    of that failure. *)
Theorem trips_at_threshold b ts t t' :
  cb_state b = CLOSED ->
  failures b + Z.of_nat (length ts) + 1 = failure_threshold b ->
  cb_state (run_ops (fail_ops ts) b) = CLOSED /\
  let b' := run_ops (fail_ops (ts ++ [(t, t')])) b in
  cb_state b' = OPEN /\ opened_at b' = t' /\ probes_in_flight b' = 0.
Proof.
  intros Hs Hn. destruct (failures_below_threshold ts b) as (A & B & C); [done|lia|].
  split; [done|]. unfold fail_ops, run_ops in *. rewrite map_app, fold_left_app. simpl.
  rewrite record_failure_closed by done. rewrite B, C.
  destruct (failure_threshold b <=? _) eqn:E; [|lia]. done.
Qed.

Lemma trips_at_threshold_witness :
  cb_state (run_ops (fail_ops [(1, 1)%Q]) (init_breaker "grok" 2 30 1)) = CLOSED /\
  let b' := run_ops (fail_ops ([(1, 1)%Q] ++ [(2, 3)%Q])) (init_breaker "grok" 2 30 1) in
  cb_state b' = OPEN /\ opened_at b' = 3%Q /\ probes_in_flight b' = 0.
Proof. apply trips_at_threshold; reflexivity. Defined.

(** C26: once the reset timeout has passed, an OPEN breaker admits exactly
    [half_open_max_calls] of the next calls and refuses the rest until one of
    them reports; one success closes it and clears the failure count, one
    failure opens it again. *)
Theorem half_open_probes b t ts s s' :
  cb_state b = OPEN -> 1 <= half_open_max_calls b ->
  (reset_timeout b <= t - opened_at b)%Q ->
  let n := Z.to_nat (half_open_max_calls b) in
  let '(rs, b') := run_allows (t :: ts) b in
  rs = replicate (Nat.min (S (length ts)) n) true ++ replicate (S (length ts) - n) false /\
  (cb_state (record_success s b') = CLOSED /\ failures (record_success s b') = 0) /\
  (cb_state (record_failure s s' b') = OPEN /\ opened_at (record_failure s s' b') = s').
Proof.
  intros Hs Hmax Ht n.
  set (b0 := set_fields b HALF_OPEN (failures b) (opened_at b) 0 (total_opened b) (notified b)).
  assert (Hrun : run_allows (t :: ts) b = run_allows (t :: ts) b0).
  { simpl. unfold allow. rewrite (state_expires t b), (state_half_open t b0) by done. done. }
  rewrite Hrun. pose proof (run_allows_half_open (t :: ts) b0 eq_refl) as Hres.
  assert (Hst : forall us c, cb_state c = HALF_OPEN -> cb_state (snd (run_allows us c)) = HALF_OPEN).
  { induction us as [|u us IH]; intros c Hc; simpl; [done|].
    unfold allow. rewrite state_half_open, Hc by done.
    destruct (_ <? _); [specialize (IH (set_probes c (probes_in_flight c + 1)) Hc)
                       | specialize (IH c Hc)]; by destruct (run_allows us _). }
  specialize (Hst (t :: ts) b0 eq_refl).
  destruct (run_allows (t :: ts) b0) as [rs b'] eqn:E. rewrite <- E in Hres. simpl in Hst.
  rewrite E in Hres. simpl fst in Hres. split_and!.
  - rewrite Hres. subst n. simpl. by rewrite Z.sub_0_r.
  - unfold record_success. by rewrite state_half_open, Hst.
  - unfold record_success. by rewrite state_half_open, Hst.
  - unfold record_failure. by rewrite state_half_open, Hst.
  - unfold record_failure. by rewrite state_half_open, Hst.
Qed.

Lemma half_open_probes_witness :
  let b := run_ops [OpFailure 1 1] (init_breaker "local" 1 30 2) in
  let '(rs, b') := run_allows [40; 41; 42]%Q b in
  rs = replicate (Nat.min 3 2) true ++ replicate (3 - 2) false /\
  (cb_state (record_success 43 b') = CLOSED /\ failures (record_success 43 b') = 0) /\
  (cb_state (record_failure 43 44 b') = OPEN /\ opened_at (record_failure 43 44 b') = 44%Q).
Proof.
  apply (half_open_probes (run_ops [OpFailure 1 1] (init_breaker "local" 1 30 2)) 40 [41; 42]%Q 43 44);
    [reflexivity | vm_compute; discriminate | vm_compute; discriminate].
Defined.
