(* ===== verification/Limiter.v ===== *)
(** Component: rate limiting ([src/src/coreai/limiter.py]): token buckets, the
    per-provider limiter with its concurrency slots, and the table of limiters.

    [ProviderLimiter.acquire] is a coroutine that may suspend twice (waiting for
    a slot, sleeping for budget). It is modelled by its atomic segments
    ([acquire_start], [acquire_reserve], [acquire_slot_timeout],
    [acquire_finish], [acquire_abort]); [lim_step] interleaves the segments of
    any number of concurrent requests. *)
From S2P Require Import Prelude Errors.

Record RateLimitConfig := mkRateLimitConfig {
  requests_per_minute : Z;
  tokens_per_minute : Z;
  concurrent_requests : Z }.

(** The dataclass and its [__post_init__]. *)
Definition RateLimitConfig_default : RateLimitConfig := mkRateLimitConfig 100 90000 10.
Definition new_RateLimitConfig (rpm tpm concurrent : Z) : res exn RateLimitConfig :=
  if rpm <? 1 then Raise (ValueError "requests_per_minute must be a positive integer")
  else if tpm <? 1 then Raise (ValueError "tokens_per_minute must be a positive integer")
  else if concurrent <? 1 then Raise (ValueError "concurrent_requests must be a positive integer")
  else Ok (mkRateLimitConfig rpm tpm concurrent).

(** ** Token bucket *)
Record TokenBucket := mkTokenBucket {
  capacity : Q; refill_rate : Q; tokens : Q; last_refill : Q }.

Definition new_bucket (now : Q) (cap rate : Q) : TokenBucket := mkTokenBucket cap rate cap now.

Definition set_tokens (b : TokenBucket) (t : Q) : TokenBucket :=
  mkTokenBucket (capacity b) (refill_rate b) t (last_refill b).

Definition _refill (now : Q) (b : TokenBucket) : TokenBucket :=
  let elapsed := (now - last_refill b)%Q in
  let tokens_to_add := (elapsed * refill_rate b)%Q in
  mkTokenBucket (capacity b) (refill_rate b) (fmin (capacity b) (tokens b + tokens_to_add)%Q) now.

Definition consume (now n : Q) (b : TokenBucket) : bool * TokenBucket :=
  let b := _refill now b in
  if n <=. tokens b then (true, set_tokens b (tokens b - n)%Q) else (false, b).

Definition reserve (now n : Q) (b : TokenBucket) : Q * TokenBucket :=
  let b := _refill now b in
  let b := set_tokens b (tokens b - fmin n (capacity b))%Q in
  if 0 <=. tokens b then (0%Q, b) else ((- tokens b / refill_rate b)%Q, b).

#[global] Arguments reserve : simpl never.

Definition refund (n : Q) (b : TokenBucket) : TokenBucket :=
  set_tokens b (fmin (capacity b) (tokens b + fmin n (capacity b))%Q).

Definition wait_until_available (now n : Q) (b : TokenBucket) : Q * TokenBucket :=
  let b := _refill now b in
  if n <=. tokens b then (0%Q, set_tokens b (tokens b - n)%Q)
  else (((n - tokens b) / refill_rate b)%Q, b).

(** ** Provider limiter *)
Record ProviderLimiter := mkProviderLimiter {
  pl_name : string;
  config : RateLimitConfig;
  request_bucket : TokenBucket;
  token_bucket : TokenBucket;
  slots : Z;                      (* free permits of the semaphore *)
  slot_waiters : Z;               (* coroutines blocked on it *)
  active_requests : Z;
  total_requests : Z;
  total_waits : Q;
  total_rejected : Z }.

Definition new_limiter (now : Q) (name : string) (c : RateLimitConfig) : ProviderLimiter :=
  mkProviderLimiter name c
    (new_bucket now (inject_Z (requests_per_minute c)) (inject_Z (requests_per_minute c) / 60))
    (new_bucket now (inject_Z (tokens_per_minute c)) (inject_Z (tokens_per_minute c) / 60))
    (concurrent_requests c) 0 0 0 0 0.

Definition set_buckets (l : ProviderLimiter) (rb tb : TokenBucket) : ProviderLimiter :=
  mkProviderLimiter (pl_name l) (config l) rb tb (slots l) (slot_waiters l) (active_requests l)
    (total_requests l) (total_waits l) (total_rejected l).
Definition set_slots (l : ProviderLimiter) (s w : Z) : ProviderLimiter :=
  mkProviderLimiter (pl_name l) (config l) (request_bucket l) (token_bucket l) s w
    (active_requests l) (total_requests l) (total_waits l) (total_rejected l).
Definition set_active (l : ProviderLimiter) (a : Z) : ProviderLimiter :=
  mkProviderLimiter (pl_name l) (config l) (request_bucket l) (token_bucket l) (slots l)
    (slot_waiters l) a (total_requests l) (total_waits l) (total_rejected l).
Definition count_rejected (l : ProviderLimiter) : ProviderLimiter :=
  mkProviderLimiter (pl_name l) (config l) (request_bucket l) (token_bucket l) (slots l)
    (slot_waiters l) (active_requests l) (total_requests l) (total_waits l) (total_rejected l + 1).
Definition count_admitted (l : ProviderLimiter) (waited : Q) : ProviderLimiter :=
  mkProviderLimiter (pl_name l) (config l) (request_bucket l) (token_bucket l) (slots l)
    (slot_waiters l) (active_requests l + 1) (total_requests l + 1) (total_waits l + waited)%Q
    (total_rejected l).

(** What a segment of [acquire] ends with. *)
Inductive acquire_outcome :=
| Passed (waited : Q)
| Rejected (e : exn)
| AwaitSlot (timeout : option Q)
| HasSlot
| AwaitSleep (seconds : Q).

(** [left()] at the clock reading [now]. *)
Definition left_budget (started now : Q) (max_wait : option Q) : option Q :=
  match max_wait with None => None | Some m => Some (fmax 0 (m - (now - started)))%Q end.

(** [asyncio.Semaphore.locked()]. *)
Definition locked (l : ProviderLimiter) : bool := (slots l =? 0) || (0 <? slot_waiters l).

(** From the call to the slot: an exhausted budget takes a free slot or rejects
    at once, otherwise the coroutine waits for the semaphore. *)
Definition acquire_start (started now : Q) (max_wait : option Q) (l : ProviderLimiter)
    : acquire_outcome * ProviderLimiter :=
  match left_budget started now max_wait with
  | Some budget =>
    if budget <=. 0 then
      if locked l then (Rejected (RateLimited (pl_name l) None), count_rejected l)
      else (HasSlot, set_slots l (slots l - 1) (slot_waiters l))
    else (AwaitSlot (Some budget), set_slots l (slots l) (slot_waiters l + 1))
  | None => (AwaitSlot None, set_slots l (slots l) (slot_waiters l + 1))
  end.

(** The semaphore wakes this waiter. *)
Definition acquire_granted (l : ProviderLimiter) : ProviderLimiter :=
  set_slots l (slots l - 1) (slot_waiters l - 1).

(** [wait_for] gives up on the semaphore. *)
Definition acquire_slot_timeout (l : ProviderLimiter) : acquire_outcome * ProviderLimiter :=
  (Rejected (RateLimited (pl_name l) None), count_rejected (set_slots l (slots l) (slot_waiters l - 1))).

(** The caller is cancelled while it waits for the semaphore. *)
Definition acquire_slot_cancel (l : ProviderLimiter) : ProviderLimiter :=
  set_slots l (slots l) (slot_waiters l - 1).

(** The [except BaseException] branch: both reservations and the slot go back. *)
Definition acquire_abort (estimated_tokens : Q) (l : ProviderLimiter) : ProviderLimiter :=
  let l := set_buckets l (refund 1 (request_bucket l)) (refund estimated_tokens (token_bucket l)) in
  set_slots l (slots l + 1) (slot_waiters l).

(** After the sleep, or at once when no wait is needed. *)
Definition acquire_finish (started now : Q) (l : ProviderLimiter) : acquire_outcome * ProviderLimiter :=
  let waited := (now - started)%Q in
  (Passed waited, count_admitted l waited).

(** With a slot in hand: reserve both budgets, then reject, sleep or finish.
    The clock is read by each [reserve], by [left()] and by the final
    measurement. *)
Definition acquire_reserve (started now_r now_t now_l now_f : Q) (estimated_tokens : Q)
    (max_wait : option Q) (l : ProviderLimiter) : acquire_outcome * ProviderLimiter :=
  let '(req_wait, rb) := reserve now_r 1 (request_bucket l) in
  let '(tok_wait, tb) := reserve now_t estimated_tokens (token_bucket l) in
  let l := set_buckets l rb tb in
  let wait := fmax req_wait tok_wait in
  let over := match left_budget started now_l max_wait with
              | Some budget => budget <. wait
              | None => false
              end in
  if over then
    (Rejected (RateLimited (pl_name l) (Some wait)), acquire_abort estimated_tokens (count_rejected l))
  else if 0 <. wait then (AwaitSleep wait, l)
  else acquire_finish started now_f l.

Definition release (l : ProviderLimiter) : ProviderLimiter :=
  if 0 <? active_requests l
  then set_slots (set_active l (active_requests l - 1)) (slots l + 1) (slot_waiters l)
  else l.

(** ** The table of limiters *)
Abbreviation GlobalRateLimiter := (list (string * ProviderLimiter)).

Definition register_provider (now : Q) (name : string) (c : RateLimitConfig)
    (g : GlobalRateLimiter) : GlobalRateLimiter := od_set name (new_limiter now name c) g.

Definition get_limiter (provider : string) (g : GlobalRateLimiter) : option ProviderLimiter :=
  od_get provider g.

(** [GlobalRateLimiter.acquire] up to the first suspension; a provider without
    a limiter is admitted at once. *)
Definition global_acquire (provider : string) (started now : Q) (max_wait : option Q)
    (g : GlobalRateLimiter) : acquire_outcome * GlobalRateLimiter :=
  match get_limiter provider g with
  | None => (Passed 0, g)
  | Some l => let '(o, l) := acquire_start started now max_wait l in (o, od_set provider l g)
  end.

Definition global_release (provider : string) (g : GlobalRateLimiter) : GlobalRateLimiter :=
  match get_limiter provider g with
  | Some l => od_set provider (release l) g
  | None => g
  end.

(** ** Interleavings of concurrent requests *)
Inductive waiting :=
| WSlot                          (* blocked on the semaphore *)
| WHeld                          (* slot in hand, reservation segment next *)
| WSleep (estimated : Q).        (* both budgets reserved, sleeping *)

Record lim_state := mkLim { lim : ProviderLimiter; pending : list waiting }.

(** One atomic segment of one coroutine. *)
Inductive lim_step : lim_state -> lim_state -> Prop :=
| StepStart l ws started now mw o l' :
    acquire_start started now mw l = (o, l') ->
    lim_step (mkLim l ws)
      (mkLim l' (match o with AwaitSlot _ => WSlot :: ws | HasSlot => WHeld :: ws | _ => ws end))
| StepGrant l ws1 ws2 :
    0 < slots l ->
    lim_step (mkLim l (ws1 ++ WSlot :: ws2)) (mkLim (acquire_granted l) (ws1 ++ WHeld :: ws2))
| StepSlotTimeout l ws1 ws2 :
    lim_step (mkLim l (ws1 ++ WSlot :: ws2)) (mkLim (snd (acquire_slot_timeout l)) (ws1 ++ ws2))
| StepSlotCancel l ws1 ws2 :
    lim_step (mkLim l (ws1 ++ WSlot :: ws2)) (mkLim (acquire_slot_cancel l) (ws1 ++ ws2))
| StepReserve l ws1 ws2 started t1 t2 t3 t4 est mw o l' :
    acquire_reserve started t1 t2 t3 t4 est mw l = (o, l') ->
    lim_step (mkLim l (ws1 ++ WHeld :: ws2))
      (mkLim l' (ws1 ++ match o with AwaitSleep _ => WSleep est :: ws2 | _ => ws2 end))
| StepWake l ws1 ws2 est started now :
    lim_step (mkLim l (ws1 ++ WSleep est :: ws2)) (mkLim (snd (acquire_finish started now l)) (ws1 ++ ws2))
| StepCancel l ws1 ws2 est :
    lim_step (mkLim l (ws1 ++ WSleep est :: ws2)) (mkLim (acquire_abort est l) (ws1 ++ ws2))
| StepRelease l ws :
    lim_step (mkLim l ws) (mkLim (release l) ws).

Definition holds_slot (w : waiting) : bool := match w with WSlot => false | _ => true end.
Definition held (ws : list waiting) : Z := Z.of_nat (length (List.filter holds_slot ws)).

(** ** Lemmas on buckets *)
Record bucket_wf (b : TokenBucket) : Prop := {
  wf_capacity : (0 <= capacity b)%Q;
  wf_rate : (0 < refill_rate b)%Q;
  wf_tokens : (tokens b <= capacity b)%Q }.

(** Buckets with equal rational contents. *)
Definition bucket_eq (b b' : TokenBucket) : Prop :=
  capacity b = capacity b' /\ refill_rate b = refill_rate b' /\
  (tokens b == tokens b')%Q /\ last_refill b = last_refill b'.

#[export] Instance bucket_eq_equiv : Equivalence bucket_eq.
Proof.
  split.
  - intros b. by repeat split.
  - intros b b' (A & B & C & D). by repeat split; try symmetry.
  - intros b1 b2 b3 (A & B & C & D) (A' & B' & C' & D').
    repeat split; etrans; eauto.
Qed.

Lemma new_bucket_wf now cap rate : (0 <= cap)%Q -> (0 < rate)%Q -> bucket_wf (new_bucket now cap rate).
Proof. intros. split; simpl; try done. lra. Qed.

Lemma refill_wf now b : bucket_wf b -> bucket_wf (_refill now b).
Proof. intros [H1 H2 H3]. split; simpl; auto with pyq. Qed.

Lemma reserve_wf now n b : (0 <= n)%Q -> bucket_wf b -> bucket_wf (snd (reserve now n b)).
Proof.
  intros Hn Hb. pose proof (refill_wf now b Hb) as [H1 H2 H3]. simpl in *.
  assert (0 <= fmin n (capacity b))%Q by (apply fmin_glb; done).
  unfold reserve. case_match; split; simpl; try done; lra.
Qed.

Lemma refund_wf n b : bucket_wf b -> bucket_wf (refund n b).
Proof. intros [H1 H2 H3]. split; simpl; auto with pyq. Qed.

Lemma reserve_static now n b :
  capacity (snd (reserve now n b)) = capacity b /\
  refill_rate (snd (reserve now n b)) = refill_rate b /\
  last_refill (snd (reserve now n b)) = now.
Proof. unfold reserve. by case_match. Qed.

Lemma reserve_tokens now n b :
  tokens (snd (reserve now n b)) =
    (fmin (capacity b) (tokens b + (now - last_refill b) * refill_rate b) - fmin n (capacity b))%Q.
Proof. unfold reserve. by case_match. Qed.

Lemma reserve_wait now n b :
  bucket_wf b ->
  (0 <= fst (reserve now n b))%Q /\
  (0 <= tokens (snd (reserve now n b)) + fst (reserve now n b) * refill_rate b)%Q.
Proof.
  intros [H1 H2 H3]. unfold reserve. case_match eqn:E; simpl in *; fprops; [split; lra|].
  set (t := (fmin _ _ - fmin _ _)%Q) in *. split.
  - apply Qle_shift_div_l; [done|]. lra.
  - assert (t + - t / refill_rate b * refill_rate b == 0)%Q as -> by (field; lra). lra.
Qed.

(** Reserving and refunding at the same instant only refills. *)
Lemma reserve_refund now n b :
  bucket_wf b -> bucket_eq (refund n (snd (reserve now n b))) (_refill now b).
Proof.
  intros Hb. pose proof (refill_wf now b Hb) as [H1 H2 H3].
  unfold bucket_eq, refund. destruct (reserve_static now n b) as (Hc & Hr & Hl).
  simpl. rewrite Hc, Hr, Hl. split_and!; try done. rewrite reserve_tokens.
  simpl in H3. set (t := fmin (capacity b) _) in *. set (m := fmin n _).
  unfold fmin. fcase; lra.
Qed.

(** ** Lemmas on interleavings *)
Definition is_wslot (w : waiting) : bool := match w with WSlot => true | _ => false end.

(** Every permit of the semaphore is free, held by a coroutine between the
    segments of [acquire], or owned by an active request. *)
Record lim_inv (s : lim_state) : Prop := {
  inv_permits : slots (lim s) + held (pending s) + active_requests (lim s)
                = concurrent_requests (config (lim s));
  inv_slots : 0 <= slots (lim s);
  inv_active : 0 <= active_requests (lim s);
  inv_waiters : slot_waiters (lim s) = Z.of_nat (length (List.filter is_wslot (pending s))) }.

Lemma held_app ws1 ws2 : held (ws1 ++ ws2) = held ws1 + held ws2.
Proof. unfold held. rewrite List.filter_app, length_app. lia. Qed.

Lemma held_cons w ws : held (w :: ws) = (if holds_slot w then 1 else 0) + held ws.
Proof. unfold held. simpl. destruct (holds_slot w); simpl; lia. Qed.

Lemma acquire_start_shape started now mw l o l' :
  acquire_start started now mw l = (o, l') ->
  config l' = config l /\ active_requests l' = active_requests l /\
  match o with
  | AwaitSlot _ => slots l' = slots l /\ slot_waiters l' = slot_waiters l + 1
  | HasSlot => locked l = false /\ slots l' = slots l - 1 /\ slot_waiters l' = slot_waiters l
  | _ => slots l' = slots l /\ slot_waiters l' = slot_waiters l
  end.
Proof. unfold acquire_start. intros H. repeat (case_match; simplify_eq; simpl in *); auto. Qed.

Lemma acquire_reserve_shape started t1 t2 t3 t4 est mw l o l' :
  acquire_reserve started t1 t2 t3 t4 est mw l = (o, l') ->
  config l' = config l /\ slot_waiters l' = slot_waiters l /\
  match o with
  | AwaitSleep _ => slots l' = slots l /\ active_requests l' = active_requests l
  | Passed _ => slots l' = slots l /\ active_requests l' = active_requests l + 1
  | _ => slots l' = slots l + 1 /\ active_requests l' = active_requests l
  end.
Proof.
  unfold acquire_reserve, acquire_abort, acquire_finish. intros H.
  repeat (case_match; simplify_eq; simpl in *); auto.
Qed.

Lemma lim_step_inv s s' : lim_inv s -> lim_step s s' -> lim_inv s'.
Proof.
  intros [H1 H2 H3 H4] Hstep. destruct Hstep as
    [l ws started now mw o l' Hs | l ws1 ws2 Hpos | l ws1 ws2 | l ws1 ws2
    | l ws1 ws2 started t1 t2 t3 t4 est mw o l' Hs | l ws1 ws2 est started now
    | l ws1 ws2 est | l ws]; cbn [lim pending] in *;
    rewrite ?List.filter_app, ?length_app, ?held_app, ?held_cons in *; simpl in *.
  - apply acquire_start_shape in Hs as (Hc & Ha & Ho). unfold locked in Ho.
    destruct o; simpl in *; split; simpl; rewrite ?held_cons, ?Hc; simpl; lia.
  - split; simpl; rewrite ?List.filter_app, ?length_app, ?held_app, ?held_cons; simpl; lia.
  - split; simpl; rewrite ?List.filter_app, ?length_app, ?held_app, ?held_cons; simpl; lia.
  - split; simpl; rewrite ?List.filter_app, ?length_app, ?held_app, ?held_cons; simpl; lia.
  - apply acquire_reserve_shape in Hs as (Hc & Hw & Ho).
    destruct o; split; simpl; rewrite ?List.filter_app, ?length_app, ?held_app, ?held_cons, ?Hc; simpl; lia.
  - split; simpl; rewrite ?List.filter_app, ?length_app, ?held_app, ?held_cons; simpl; lia.
  - split; simpl; rewrite ?List.filter_app, ?length_app, ?held_app, ?held_cons; simpl; lia.
  - unfold release. destruct (0 <? active_requests l) eqn:E; split; simpl; lia.
Qed.

(** ** Properties *)

(** C13: however the segments of concurrent [acquire] calls, timeouts,
    cancellations and releases interleave, requests in flight plus calls holding
    a slot never exceed [concurrent_requests], and no permit is lost or
    duplicated. *)
Theorem limiter_concurrency_bound now name c s :
  1 <= concurrent_requests c ->
  rtc lim_step (mkLim (new_limiter now name c) []) s ->
  active_requests (lim s) + held (pending s) <= concurrent_requests (config (lim s)) /\
  lim_inv s.
Proof.
  intros Hc Hsteps.
  assert (Hinv : lim_inv s).
  { eapply (rtc_ind_r lim_inv (mkLim (new_limiter now name c) [])); [|intros; eauto using lim_step_inv|exact Hsteps].
    split; simpl; unfold held; simpl; lia. }
  split; [|done]. destruct Hinv. lia.
Qed.

Lemma limiter_concurrency_witness :
  let c := mkRateLimitConfig 60 6000 1 in
  let l := new_limiter 0 "openai" c in
  active_requests (acquire_granted l) + held [WHeld] <= concurrent_requests c /\
  lim_inv (mkLim (acquire_granted (set_slots l 1 1)) [WHeld]).
Proof.
  set (c := mkRateLimitConfig 60 6000 1). set (l := new_limiter 0 "openai" c).
  apply (limiter_concurrency_bound 0 "openai" c (mkLim (acquire_granted (set_slots l 1 1)) [WHeld])).
  - vm_compute. discriminate.
  - eapply rtc_l; [apply (StepStart l [] 0 0 None); reflexivity|].
    apply rtc_once. apply (StepGrant (set_slots l 1 1) [] []). reflexivity.
Defined.

(** Reservations at the given times, in order: what each caller took and when
    its wait was over. *)
Fixpoint run_reserves (rs : list (Q * Q)) (b : TokenBucket) : list (Q * Q) * TokenBucket :=
  match rs with
  | [] => ([], b)
  | (t, n) :: rs =>
    let '(w, b) := reserve t n b in
    let '(out, b') := run_reserves rs b in ((fmin n (capacity b), (t + w)%Q) :: out, b')
  end.

(** The times never decrease, starting from [t0]. *)
Fixpoint ordered_from (t0 : Q) (rs : list (Q * Q)) : Prop :=
  match rs with [] => True | (t, n) :: rs => (t0 <= t)%Q /\ (0 <= n)%Q /\ ordered_from t rs end.

Lemma run_reserves_bound rs t0 b j n fin :
  bucket_wf b -> last_refill b = t0 -> ordered_from t0 rs ->
  fst (run_reserves rs b) !! j = Some (n, fin) ->
  (fsum (take (S j) (fst (run_reserves rs b)).*1) <= tokens b + refill_rate b * (fin - t0))%Q.
Proof.
  revert t0 b j. induction rs as [|[t m] rs IH]; intros t0 b j Hb Hl Ho Hj; [done|].
  destruct Ho as (Ht & Hm & Ho).
  pose proof (reserve_static t m b) as (Hc & Hr & Hl').
  pose proof (reserve_tokens t m b) as Htok. pose proof (reserve_wait t m b Hb) as [Hw1 Hw2].
  pose proof (reserve_wf t m b Hm Hb) as Hb'. rewrite Hl in Htok.
  pose proof (fmin_r (capacity b) (tokens b + (t - t0) * refill_rate b)) as Hmin.
  simpl in *. destruct (reserve t m b) as [w b'] eqn:Er; simpl in *.
  destruct (run_reserves rs b') as [out b''] eqn:Err; simpl in *. rewrite Hc in *.
  set (taken := fmin m (capacity b)) in *. destruct j as [|j]; simpl in *.
  - simplify_eq. simpl. rewrite Htok in Hw2. nra.
  - specialize (IH t b' j Hb' Hl' Ho). rewrite Err in IH. simpl in IH. specialize (IH Hj).
    rewrite Hr in IH. change (list_fmap (Q * Q)%type Q fst out) with (out.*1).
    cbn [fst] in IH. rewrite Htok in IH. set (rest := fsum _) in *. nra.
Qed.

(** C38: however callers queue on one budget, by the moment any of them is told
    to go ahead the units handed out so far (its own included) are at most the
    bucket's capacity plus what has been refilled since the start: the
    configured per-minute rate is never exceeded, although callers reserve ahead. *)
Theorem reservations_respect_rate t0 cap rate rs j n fin :
  (0 <= cap)%Q -> (0 < rate)%Q -> ordered_from t0 rs ->
  fst (run_reserves rs (new_bucket t0 cap rate)) !! j = Some (n, fin) ->
  (fsum (take (S j) (fst (run_reserves rs (new_bucket t0 cap rate))).*1) <= cap + rate * (fin - t0))%Q.
Proof.
  intros Hc Hr Ho Hj.
  exact (run_reserves_bound rs t0 (new_bucket t0 cap rate) j n fin (new_bucket_wf _ _ _ Hc Hr) eq_refl Ho Hj).
Qed.

Lemma reservations_respect_rate_witness :
  let rs := [(0, 2); (0, 2); (1, 1)]%Q in
  (fsum (take 3 (fst (run_reserves rs (new_bucket 0 2 1))).*1) <= 2 + 1 * (3 - 0))%Q.
Proof.
  refine (reservations_respect_rate 0 2 1 [(0, 2); (0, 2); (1, 1)]%Q 2 1 3 _ _ _ _).
  - lra.
  - lra.
  - simpl. lra.
  - vm_compute. reflexivity.
Defined.

(** a request turned away for lack of budget leaves no trace but the
    rejection count: its slot is free again and, when its clock readings fall in
    one instant, both buckets hold what plain refilling leaves. *)
Theorem rejected_request_consumes_nothing started now_r now_t now_l now_f est max_wait l e l' :
  bucket_wf (request_bucket l) -> bucket_wf (token_bucket l) ->
  acquire_reserve started now_r now_t now_l now_f est max_wait l = (Rejected e, l') ->
  bucket_eq (request_bucket l') (_refill now_r (request_bucket l)) /\
  bucket_eq (token_bucket l') (_refill now_t (token_bucket l)) /\
  slots l' = slots l + 1 /\ active_requests l' = active_requests l /\
  total_requests l' = total_requests l /\ total_rejected l' = total_rejected l + 1 /\
  exists wait, e = RateLimited (pl_name l) (Some wait) /\
    forall budget, left_budget started now_l max_wait = Some budget -> (budget < wait)%Q.
Proof.
  intros Hrb Htb. unfold acquire_reserve.
  pose proof (reserve_refund now_r 1 _ Hrb) as Er. pose proof (reserve_refund now_t est _ Htb) as Et.
  destruct (reserve now_r 1 (request_bucket l)) as [rw rb].
  destruct (reserve now_t est (token_bucket l)) as [tw tb]. simpl in *.
  destruct (left_budget started now_l max_wait) as [budget|] eqn:El.
  2: { case_match; intros; simplify_eq. }
  case_match eqn:Eo; [|case_match; intros; simplify_eq].
  intros [= <- <-]. simpl. split_and!; auto. exists (fmax rw tw). split; [done|].
  intros ? [= <-]. by fprops.
Qed.

Lemma rejected_request_witness :
  let l := new_limiter 0 "openai" (mkRateLimitConfig 60 60 1) in
  let l' := set_buckets l (request_bucket l) (mkTokenBucket 60 1 (-30) 0) in
  exists e l'', acquire_reserve 0 0 0 0 0 10 (Some 5%Q) l' = (Rejected e, l'') /\
    total_rejected l'' = 1.
Proof.
  eexists _, _. split; [reflexivity|].
  refine (proj1 (proj2 (proj2 (proj2 (proj2 (proj2 (rejected_request_consumes_nothing 0 0 0 0 0 10 (Some 5%Q)
    (set_buckets (new_limiter 0 "openai" (mkRateLimitConfig 60 60 1))
       (request_bucket (new_limiter 0 "openai" (mkRateLimitConfig 60 60 1))) (mkTokenBucket 60 1 (-30) 0)) _ _ _ _ _)))))));
    [| |reflexivity].
  - apply new_bucket_wf; vm_compute; congruence.
  - split; vm_compute; congruence.
Defined.
