(* ===== verification/Retry.v ===== *)
(** Component: retry with backoff ([src/src/coreai/retry.py]).

    Everything outside the module that a retry touches is a state [W]: the
    awaited call, the two clocks, [sleep], [rng] and the [on_retry] callback are
    functions on it, in the order the code runs them. *)
From Stdlib Require Import Qpower.
From S2P Require Import Prelude Errors Deadline.

Section Wait.
Context `{TextLib}.

Definition should_retry (now_utc : Q) (e : exn) : bool := retryable (classify now_utc e).
Definition is_rate_limit_error (now_utc : Q) (e : exn) : bool :=
  bool_decide (kind (classify now_utc e) ∈ [RATE_LIMIT; QUOTA]).
Definition is_timeout_error (now_utc : Q) (e : exn) : bool :=
  bool_decide (kind (classify now_utc e) ∈ [TIMEOUT; CONNECTION]).
End Wait.

Definition backoff_of (attempt : Z) (base_wait max_wait exponential_base : Q) : Q :=
  fmin (base_wait * exponential_base ^ (attempt - 1))%Q max_wait.

(** [compute_wait]; [rng] is drawn only for a jittered backoff. *)
Definition compute_wait {W} (rng : W -> Q * W) (attempt : Z) (info : ErrorInfo)
    (base_wait max_wait exponential_base : Q) (jitter : bool) (w : W) : option Q * W :=
  match retry_after info with
  | Some ra => (if ra <=. max_wait then Some ra else None, w)
  | None =>
    let backoff := backoff_of attempt base_wait max_wait exponential_base in
    if jitter then let '(r, w) := rng w in (Some (backoff / 2 + r * backoff / 2)%Q, w)
    else (Some backoff, w)
  end.

Record RetryConfig := mkRetryConfig {
  max_attempts : Z;
  initial_wait_seconds : Q;
  max_wait_seconds : Q;
  exponential_base : Q;
  jitter : bool }.
Definition RetryConfig_default : RetryConfig := mkRetryConfig 3 1 30 2 true.

Section Run.
Context `{TextLib} {W A : Type}.
Variable func : W -> res exn A * W.          (* await func() *)
Variable utc mono : W -> Q.                  (* datetime.now(utc), time.monotonic() *)
Variable sleep : Q -> W -> W.
Variable rng : W -> Q * W.

(** One pass of the loop body: either the call's outcome leaves the loop, or
    the next attempt follows in the state after the sleep. *)
Definition attempt_once (c : RetryConfig) (dl : option Deadline)
    (on_retry : option (Z -> exn -> ErrorInfo -> Q -> W -> W)) (attempt : Z) (w : W)
    : (res exn A * W) + W :=
  match func w with
  | (Ok a, w) => inl (Ok a, w)
  | (Raise e, w) =>
    let info := classify (utc w) e in
    if negb (retryable info) || (max_attempts c <=? attempt) then inl (Raise e, w) else
    let '(wait, w) := compute_wait rng attempt info (initial_wait_seconds c) (max_wait_seconds c)
                        (exponential_base c) (jitter c) w in
    match wait with
    | None => inl (Raise e, w)
    | Some wait =>
      let past := match dl with
                  | Some d => match remaining (mono w) d with Some r => r <=. wait | None => false end
                  | None => false
                  end in
      if past then inl (Raise e, w) else
      let w := match on_retry with Some f => f attempt e info wait w | None => w end in
      inr (sleep wait w)
    end
  end.

Fixpoint retry_loop (fuel : nat) (c : RetryConfig) (dl : option Deadline)
    (on_retry : option (Z -> exn -> ErrorInfo -> Q -> W -> W)) (attempt : Z) (w : W)
    : option (res exn A * W) :=
  match fuel with
  | O => None
  | S fuel =>
    match attempt_once c dl on_retry (attempt + 1) w with
    | inl out => Some out
    | inr w => retry_loop fuel c dl on_retry (attempt + 1) w
    end
  end.

(** Enough passes for the attempts allowed: at least one, at most [max_attempts]. *)
Definition retry_fuel (c : RetryConfig) : nat := S (Z.to_nat (max_attempts c)).

Definition run_with_retry (c : RetryConfig) (dl : option Deadline)
    (on_retry : option (Z -> exn -> ErrorInfo -> Q -> W -> W)) (w : W) : option (res exn A * W) :=
  retry_loop (retry_fuel c) c dl on_retry 0 w.
End Run.

(** [retry_with_backoff]: the default exponential base and jitter, no deadline. *)
Definition retry_with_backoff `{TextLib} {W A} (func : W -> res exn A * W) (utc mono : W -> Q)
    (sleep : Q -> W -> W) (rng : W -> Q * W) (attempts : Z) (base_wait max_wait : Q) (w : W)
    : option (res exn A * W) :=
  run_with_retry func utc mono sleep rng (mkRetryConfig attempts base_wait max_wait 2 true) None None w.

(** ** The retry manager *)
Record RetryManager := mkRetryManager {
  rm_config : RetryConfig;
  total_retries : Z;
  total_failures : Z;
  retries_by_kind : list (ErrorKind * Z);
  retries_by_status : list (Z * Z) }.

Definition new_retry_manager (c : option RetryConfig) : RetryManager :=
  mkRetryManager (match c with Some c => c | None => RetryConfig_default end) 0 0 [] [].

(** [counter[k] += 1] on a [Counter]. *)
Definition counter_incr {K} `{EqDecision K} (k : K) (d : list (K * Z)) : list (K * Z) :=
  od_set k (match od_get k d with Some n => n | None => 0 end + 1) d.

Definition note (e : exn) (info : ErrorInfo) (m : RetryManager) : RetryManager :=
  mkRetryManager (rm_config m) (total_retries m + 1) (total_failures m)
    (counter_incr (kind info) (retries_by_kind m))
    (match status_of e with
     | Some s => counter_incr s (retries_by_status m)
     | None => retries_by_status m
     end).

Definition count_failure (m : RetryManager) : RetryManager :=
  mkRetryManager (rm_config m) (total_retries m) (total_failures m + 1)
    (retries_by_kind m) (retries_by_status m).

(** [RetryManager.execute]: the manager's counters live beside the outer state. *)
Definition execute `{TextLib} {W A} (func : W -> res exn A * W) (utc mono : W -> Q)
    (sleep : Q -> W -> W) (rng : W -> Q * W) (dl : option Deadline) (attempts : option Z)
    (m : RetryManager) (w : W) : option (res exn A * (RetryManager * W)) :=
  let lift {B} (f : W -> B * W) (mw : RetryManager * W) : B * (RetryManager * W) :=
    let '(b, w) := f mw.2 in (b, (mw.1, w)) in
  let c := rm_config m in
  let limit := match attempts with
               | Some n => if n =? 0 then max_attempts c else n
               | None => max_attempts c
               end in
  let c := mkRetryConfig limit (initial_wait_seconds c) (max_wait_seconds c) (exponential_base c) (jitter c) in
  match run_with_retry (lift func) (fun mw => utc mw.2) (fun mw => mono mw.2)
          (fun d mw => (mw.1, sleep d mw.2)) (lift rng) c dl
          (Some (fun _ e info _ mw => (note e info mw.1, mw.2))) (m, w) with
  | Some (Ok a, mw) => Some (Ok a, mw)
  | Some (Raise e, (m, w)) => Some (Raise e, (count_failure m, w))
  | None => None
  end.

Definition retry_stats (m : RetryManager) : Z * Z * list (ErrorKind * Z) * list (Z * Z) :=
  (total_retries m, total_failures m, retries_by_kind m, retries_by_status m).

(** ** Lemmas *)
Lemma backoff_nonneg n b m x :
  (0 <= b)%Q -> (0 <= x)%Q -> (0 <= m)%Q -> (0 <= backoff_of n b m x)%Q.
Proof.
  intros Hb Hx Hm. unfold backoff_of. apply fmin_glb; [|done].
  apply Qmult_le_0_compat; [done|]. by apply Qpower_0_le.
Qed.

Section RunFacts.
Context `{TextLib} {W A : Type}.
Variable func : W -> res exn A * W.
Variable utc mono : W -> Q.
Variable sleep : Q -> W -> W.
Variable rng : W -> Q * W.
Implicit Types (c : RetryConfig) (dl : option Deadline) (w : W).
Abbreviation on_retry_fn := (option (Z -> exn -> ErrorInfo -> Q -> W -> W)).
Implicit Types (cb : on_retry_fn).

(** What a pass that goes on to another attempt has established. *)
Lemma attempt_continues c dl cb n w w' :
  attempt_once func utc mono sleep rng c dl cb n w = inr w' ->
  exists e w1 wait w2, func w = (Raise e, w1) /\
    compute_wait rng n (classify (utc w1) e) (initial_wait_seconds c) (max_wait_seconds c)
      (exponential_base c) (jitter c) w1 = (Some wait, w2) /\
    retryable (classify (utc w1) e) = true /\ n < max_attempts c /\
    (forall d r, dl = Some d -> remaining (mono w2) d = Some r -> (wait < r)%Q) /\
    w' = sleep wait (match cb with Some f => f n e (classify (utc w1) e) wait w2 | None => w2 end).
Proof.
  unfold attempt_once. destruct (func w) as [[a|e] w1]; [done|].
  destruct (negb _ || _) eqn:E; [done|]. fprops.
  destruct (compute_wait _ _ _ _ _ _ _ _) as [[wait|] w2] eqn:Ew; [|done].
  case_match eqn:Ep; [done|]. intros [= <-]. exists e, w1, wait, w2. split_and!; try done; try lia.
  intros d r -> Hr. rewrite Hr in Ep. by fprops.
Qed.

Lemma attempt_stops c dl cb n w r w' :
  attempt_once func utc mono sleep rng c dl cb n w = inl (r, w') ->
  exists w1, func w = (r, w1) /\ (w' = w1 \/ w' = snd (rng w1)).
Proof.
  unfold attempt_once, compute_wait. intros Ha.
  destruct (func w) as [[a|e] w1]; simplify_eq; [by eauto|]. exists w1.
  destruct (rng w1) as [x wr] eqn:Er. repeat (case_match; simplify_eq); auto.
Qed.

(** The loop ends within [retry_fuel] passes. *)
Lemma retry_loop_total fuel c dl cb n w :
  0 <= n -> max_attempts c - n <= Z.of_nat fuel -> (0 < fuel)%nat ->
  is_Some (retry_loop func utc mono sleep rng fuel c dl cb n w).
Proof.
  revert n w. induction fuel as [|fuel IH]; intros n w Hn Hf Hp; [lia|]. simpl.
  destruct (attempt_once _ _ _ _ _ _ _ _ _ _) as [out|w'] eqn:E; [by eexists|].
  apply attempt_continues in E as (e & w1 & wait & w2 & _ & _ & _ & Hlt & _).
  apply IH; lia.
Qed.

Lemma run_with_retry_total c dl cb w : is_Some (run_with_retry func utc mono sleep rng c dl cb w).
Proof. apply retry_loop_total; unfold retry_fuel; lia. Qed.

(** Why the last failure was not retried. *)
Definition stop_reason c dl n e w : Prop :=
  retryable (classify (utc w) e) = false \/ max_attempts c <= n \/
  (exists ra, retry_after (classify (utc w) e) = Some ra /\ (max_wait_seconds c < ra)%Q) \/
  (exists wait w1 d r, compute_wait rng n (classify (utc w) e) (initial_wait_seconds c)
      (max_wait_seconds c) (exponential_base c) (jitter c) w = (Some wait, w1) /\
      dl = Some d /\ remaining (mono w1) d = Some r /\ (r <= wait)%Q).

Lemma attempt_stop_reason c dl cb n w e w' :
  attempt_once func utc mono sleep rng c dl cb n w = inl (Raise e, w') ->
  exists w1, func w = (Raise e, w1) /\ stop_reason c dl n e w1.
Proof.
  unfold attempt_once. destruct (func w) as [[a|e'] w1]; [done|].
  destruct (negb _ || _) eqn:E.
  { intros [= -> ->]. exists w'. split; [done|]. unfold stop_reason.
    apply orb_true_iff in E as [E|E]; fprops; auto. right. left. lia. }
  destruct (compute_wait _ _ _ _ _ _ _ _) as [[wait|] w2] eqn:Ew.
  - destruct dl as [d|]; [|done]. destruct (remaining (mono w2) d) as [r|] eqn:Er; [|done].
    case_match eqn:Ep; [|done]. intros [= -> ->]. exists w1. split; [done|]. fprops.
    do 3 right. by eexists _, _, _, _.
  - intros [= -> ->]. exists w1. split; [done|]. do 2 right. left.
    unfold compute_wait in Ew. destruct (retry_after _) as [ra|]; [|by repeat case_match].
    exists ra. split; [done|]. case_match eqn:Ec; [done|]. by fprops.
Qed.

Lemma retry_loop_outcome fuel c dl cb n w r w' :
  retry_loop func utc mono sleep rng fuel c dl cb n w = Some (r, w') ->
  exists k w0 w1, n < k /\ func w0 = (r, w1) /\ (w' = w1 \/ w' = snd (rng w1)) /\
    match r with Ok _ => True | Raise e => stop_reason c dl k e w1 end.
Proof.
  revert n w. induction fuel as [|fuel IH]; intros n w Hrun; [done|]. simpl in Hrun.
  destruct (attempt_once _ _ _ _ _ _ _ _ _ _) as [[r1 w1]|w1] eqn:E.
  - simplify_eq. pose proof E as E'. apply attempt_stops in E as (w1 & Hw1 & Hw).
    exists (n + 1), w, w1. split_and!; try done; [lia|]. destruct r; [done|].
    apply attempt_stop_reason in E' as (w1' & Hw1' & Hs). rewrite Hw1 in Hw1'. by simplify_eq.
  - apply IH in Hrun as (k & w0 & w2 & ? & ?). exists k, w0, w2. split; [lia|done].
Qed.

(** ... and of how many calls it was the last, by a counter that only [func] moves. *)
Lemma retry_loop_cause (calls : W -> Z) c dl cb :
  (forall w, calls (snd (func w)) = calls w + 1) -> (forall w, calls (snd (rng w)) = calls w) ->
  (forall d w, calls (sleep d w) = calls w) -> (forall f n e info d w, cb = Some f -> calls (f n e info d w) = calls w) ->
  forall fuel n w e w', retry_loop func utc mono sleep rng fuel c dl cb n w = Some (Raise e, w') ->
  exists k w0 w1, func w0 = (Raise e, w1) /\ calls w1 = calls w + (k - n) /\ calls w' = calls w1 /\ n < k /\ stop_reason c dl k e w1.
Proof.
  intros Hf Hr Hs Hcb fuel. induction fuel as [|fuel IH]; intros n w e w' Hrun; [done|]. simpl in Hrun.
  destruct (attempt_once _ _ _ _ _ _ _ _ _ _) as [[r1 w1]|w1] eqn:E.
  - simplify_eq. pose proof E as E'. apply attempt_stops in E as (w1 & Hw1 & Hw).
    apply attempt_stop_reason in E' as (w1' & Hw1' & Hst). rewrite Hw1 in Hw1'. injection Hw1' as <-.
    exists (n + 1), w, w1. pose proof (Hf w) as Hc. rewrite Hw1 in Hc. cbn in Hc.
    split_and!; [done|lia|by destruct Hw as [->| ->]|lia|done].
  - apply attempt_continues in E as (e1 & w2 & wait & w3 & Hw2 & Hcw & _ & _ & _ & ->).
    apply IH in Hrun as (k & w0 & w1 & H1 & H2 & H3 & H4 & H5). exists k, w0, w1. split_and!; [done| |done|lia|done].
    rewrite H2, Hs. pose proof (Hf w) as Hc. rewrite Hw2 in Hc. cbn in Hc.
    assert (H3w : calls w3 = calls w2).
    { unfold compute_wait in Hcw. destruct (rng w2) as [x wr] eqn:Er. pose proof (Hr w2) as Hrw. rewrite Er in Hrw.
      repeat (case_match; simplify_eq/=); auto. }
    destruct cb as [f|]; [rewrite (Hcb f) by done|]; lia.
Qed.

(** What holds of every [sleep wait] the loop makes, [w0] being the state in
    which the deadline was read. *)
Definition permitted c dl n wait w0 : Prop :=
  n < max_attempts c /\
  (exists info w1, compute_wait rng n info (initial_wait_seconds c) (max_wait_seconds c)
                     (exponential_base c) (jitter c) w1 = (Some wait, w0)) /\
  (forall d r, dl = Some d -> remaining (mono w0) d = Some r -> (wait < r)%Q).

(** Rule for invariants of the state: [P n] holds before the call after [n]
    earlier ones, [R n] from the [n]-th call to the sleep that may follow it. *)
Lemma retry_loop_inv (P R : Z -> W -> Prop) c dl cb fuel n w r w' :
  (forall n w, P n w -> R (n + 1) (snd (func w))) ->
  (forall n w, R n w -> R n (snd (rng w))) ->
  (forall n wait w0, R n w0 -> permitted c dl n wait w0 ->
     match cb with
     | Some f => forall e info, P n (sleep wait (f n e info wait w0))
     | None => P n (sleep wait w0)
     end) ->
  P n w ->
  retry_loop func utc mono sleep rng fuel c dl cb n w = Some (r, w') ->
  exists n', R n' w' /\ n < n' <= Z.max (n + 1) (max_attempts c).
Proof.
  intros Hf Hr Hs. revert n w. induction fuel as [|fuel IH]; intros n w HP Hrun; [done|].
  simpl in Hrun. destruct (attempt_once _ _ _ _ _ _ _ _ _ _) as [[r1 w1]|w1] eqn:E.
  - simplify_eq. apply attempt_stops in E as (w1 & Hw1 & Hw). specialize (Hf n w HP).
    rewrite Hw1 in Hf. simpl in Hf. exists (n + 1). destruct Hw as [->| ->]; split; auto; lia.
  - apply attempt_continues in E as (e & w2 & wait & w3 & Hw2 & Hcw & Hret & Hlt & Hdl & ->).
    specialize (Hf n w HP). rewrite Hw2 in Hf. simpl in Hf.
    assert (HP3 : R (n + 1) w3).
    { pose proof (Hr _ _ Hf) as Hr2. unfold compute_wait in Hcw.
      repeat (case_match; simplify_eq; simpl in *); auto. }
    assert (Hok : permitted c dl (n + 1) wait w3) by (unfold permitted; split_and!; eauto).
    specialize (Hs _ _ _ HP3 Hok).
    destruct cb as [f|]; apply IH in Hrun as (n' & ? & ?); auto; exists n'; (split; [done|lia]).
Qed.

Lemma compute_wait_bounds n info b m x j w wait w' :
  (0 <= b)%Q -> (0 <= x)%Q -> (0 <= m)%Q -> (forall w, 0 <= (rng w).1 <= 1)%Q ->
  compute_wait rng n info b m x j w = (Some wait, w') ->
  (wait <= m)%Q /\
  (retry_after info = None ->
     (backoff_of n b m x / 2 <= wait)%Q /\ (wait <= backoff_of n b m x)%Q /\
     (j = false -> wait = backoff_of n b m x)).
Proof.
  intros Hb Hx Hm Hr. unfold compute_wait. pose proof (backoff_nonneg n b m x Hb Hx Hm) as H0.
  assert (backoff_of n b m x <= m)%Q by apply fmin_r. set (bo := backoff_of n b m x) in *.
  assert (Hh : (bo / 2 == bo * (1 # 2))%Q) by field.
  destruct (retry_after info) as [ra|].
  - case_match eqn:E; [|done]. intros [= <- <-]. fprops. done.
  - destruct j.
    + specialize (Hr w). destruct (rng w) as [q wq]. simpl in Hr. intros [= <- <-].
      assert (Hq : (bo / 2 + q * bo / 2 == bo * (1 # 2) + q * bo * (1 # 2))%Q) by field.
      assert (Hq0 : (0 <= q * bo)%Q) by (apply Qmult_le_0_compat; lra).
      assert (Hq1 : (q * bo <= 1 * bo)%Q) by (apply Qmult_le_compat_r; lra).
      set (sum := (bo / 2 + q * bo / 2)%Q) in *. set (half := (bo / 2)%Q) in *.
      split; [lra|]. intros _. split_and!; [lra|lra|done].
    + intros [= <- <-]. set (half := (bo / 2)%Q) in *.
      split; [done|]. intros _. split_and!; [lra|lra|done].
Qed.
End RunFacts.

(** Every tally is a count, and the tallies by kind add up to the retries. *)
Definition counter_sum {K} (d : list (K * Z)) : Z := fold_right Z.add 0 (od_values d).

Lemma counter_sum_incr {K} `{EqDecision K} (k : K) (d : list (K * Z)) :
  counter_sum (counter_incr k d) = counter_sum d + 1.
Proof.
  unfold counter_incr, counter_sum. induction d as [|[k' n] d IH]; simpl; [lia|].
  destruct (decide (k = k')) as [->|]; simpl in *; lia.
Qed.

Definition manager_ok (m : RetryManager) : Prop :=
  counter_sum (retries_by_kind m) = total_retries m /\
  counter_sum (retries_by_status m) <= total_retries m.

Lemma note_ok e info m : manager_ok m -> manager_ok (note e info m).
Proof.
  intros [H1 H2]. unfold manager_ok, note. simpl. rewrite counter_sum_incr.
  destruct (status_of e); rewrite ?counter_sum_incr; lia.
Qed.

(** ** Properties *)

(** a retried call always comes back, after at least one and at most
    [max(1, max_attempts)] calls of the function, and its outcome is that of the
    last call made. *)
Theorem retry_bounded_calls `{TextLib} {W A} (func : W -> res exn A * W) (utc mono : W -> Q)
    (sleep : Q -> W -> W) (rng : W -> Q * W) (calls : W -> Z) c dl cb w :
  (forall w, calls (snd (func w)) = calls w + 1) ->
  (forall w, calls (snd (rng w)) = calls w) ->
  (forall d w, calls (sleep d w) = calls w) ->
  (forall f n e info d w, cb = Some f -> calls (f n e info d w) = calls w) ->
  exists r w', run_with_retry func utc mono sleep rng c dl cb w = Some (r, w') /\
    1 <= calls w' - calls w <= Z.max 1 (max_attempts c) /\
    exists w0, fst (func w0) = r.
Proof.
  intros Hf Hr Hs Hcb.
  destruct (run_with_retry_total func utc mono sleep rng c dl cb w) as [[r w'] Hrun].
  exists r, w'. split; [done|]. pose proof Hrun as Hout.
  apply retry_loop_outcome in Hout as (_ & w0 & w1 & _ & Hw0 & _).
  eapply (retry_loop_inv func utc mono sleep rng (fun n w' => calls w' = calls w + n) (fun n w' => calls w' = calls w + n)) in Hrun
    as (n' & Hn & Hle).
  - split; [lia|]. exists w0. by rewrite Hw0.
  - intros n w2 Hw2. rewrite Hf. lia.
  - intros n w2 Hw2. by rewrite Hr.
  - intros n wait w2 Hw2 _. destruct cb as [f|]; intros; rewrite Hs, ?(Hcb f); auto.
  - lia.
Qed.

(** a failure surfaces only after the calls it took: it is the failure of the
    last call made, and that call was not retried because the failure is not
    transient, as many calls as allowed had been made, the provider asked for a
    longer wait than the configuration allows, or the wait would not have fitted in
    the deadline. [calls] counts the calls of the function. *)
Theorem retry_gives_up_for_cause `{TextLib} {W A} (func : W -> res exn A * W) (utc mono : W -> Q)
    (sleep : Q -> W -> W) (rng : W -> Q * W) (calls : W -> Z) c dl cb w e w' :
  (forall w, calls (snd (func w)) = calls w + 1) -> (forall w, calls (snd (rng w)) = calls w) ->
  (forall d w, calls (sleep d w) = calls w) -> (forall f n e info d w, cb = Some f -> calls (f n e info d w) = calls w) ->
  run_with_retry func utc mono sleep rng c dl cb w = Some (Raise e, w') ->
  exists w0 w1, func w0 = (Raise e, w1) /\ calls w1 = calls w' /\ calls w < calls w' /\
    stop_reason utc mono rng c dl (calls w' - calls w) e w1.
Proof.
  intros Hf Hr Hs Hcb Hrun. apply (retry_loop_cause _ _ _ _ _ calls) in Hrun as (k & w0 & w1 & Hw & Hc & Hc' & Hk & Hst); [|done..].
  exists w0, w1. split_and!; [done|done|lia|]. by replace (calls w' - calls w) with k by lia.
Qed.

(** C32: every sleep is at most [max_wait] long and, under a deadline, ends
    before the deadline does (a wait that is not positive aside). *)
Theorem retry_sleeps_respect_deadline `{TextLib} {W A} (func : W -> res exn A * W) (utc mono : W -> Q)
    (sleep : Q -> W -> W) (rng : W -> Q * W) (slept : W -> list (Q * Q)) c d_at cb w r w' :
  (0 <= initial_wait_seconds c)%Q -> (0 <= exponential_base c)%Q -> (0 <= max_wait_seconds c)%Q ->
  (forall w, 0 <= (rng w).1 <= 1)%Q ->
  (forall w, slept (snd (func w)) = slept w) -> (forall w, slept (snd (rng w)) = slept w) ->
  (forall d w, slept (sleep d w) = (mono w, d) :: slept w) ->
  (forall f n e info d w, cb = Some f ->
     slept (f n e info d w) = slept w /\ mono (f n e info d w) = mono w) ->
  slept w = [] ->
  run_with_retry func utc mono sleep rng c (Some (mkDeadline (Some d_at))) cb w = Some (r, w') ->
  Forall (fun '(t, d) => d <= max_wait_seconds c /\ (d <= 0 \/ t + d < d_at))%Q (slept w').
Proof.
  intros Hb Hx Hm Hrg Hf Hr Hs Hcb H0 Hrun.
  eapply (retry_loop_inv func utc mono sleep rng (fun _ w' => Forall _ (slept w')) (fun _ w' => Forall _ (slept w'))) in Hrun
    as (n' & Hn & _); [exact Hn|..].
  - intros n w2 Hw2. by rewrite Hf.
  - intros n w2 Hw2. by rewrite Hr.
  - intros n wait w2 Hw2 (_ & (info & w1 & Hcw) & Hdl).
    apply compute_wait_bounds in Hcw as [Hle _]; auto. specialize (Hdl _ _ eq_refl eq_refl).
    assert (Hnew : (wait <= max_wait_seconds c /\ (wait <= 0 \/ mono w2 + wait < d_at))%Q).
    { split; [done|]. revert Hdl. unfold fmax. destruct (0 <. d_at - mono w2); [right; lra | left; lra]. }
    destruct cb as [f|]; intros; rewrite Hs; constructor; auto.
    + by rewrite (proj2 (Hcb f _ _ _ _ _ eq_refl)).
    + by rewrite (proj1 (Hcb f _ _ _ _ _ eq_refl)).
  - rewrite H0. constructor.
Qed.

(** whatever the calls do, the manager's tallies stay consistent (by kind
    they add up to the retries, by status they never exceed them), a failure is
    counted exactly when the call fails in the end, and no more than
    [max(1, max_attempts) - 1] retries are recorded. *)
Theorem manager_counts `{TextLib} {W A} (func : W -> res exn A * W) (utc mono : W -> Q)
    (sleep : Q -> W -> W) (rng : W -> Q * W) dl attempts m w :
  manager_ok m ->
  exists r m' w', execute func utc mono sleep rng dl attempts m w = Some (r, (m', w')) /\
    manager_ok m' /\ rm_config m' = rm_config m /\
    total_failures m' = total_failures m + (if is_ok r then 0 else 1) /\
    total_retries m <= total_retries m' /\
    (attempts = None ->
       total_retries m' - total_retries m <= Z.max 1 (max_attempts (rm_config m)) - 1).
Proof.
  intros Hm. unfold execute. set (c := mkRetryConfig _ _ _ _ _).
  match goal with |- context [run_with_retry ?f ?u ?mo ?s ?r c dl ?cb ?mw] =>
    destruct (run_with_retry_total f u mo s r c dl cb mw) as [[r' [m1 w1]] Hrun] end.
  rewrite Hrun.
  pose (ok n (mw : RetryManager * W) := manager_ok mw.1 /\ rm_config mw.1 = rm_config m /\
    total_failures mw.1 = total_failures m /\
    total_retries m <= total_retries mw.1 <= total_retries m + n).
  eapply (retry_loop_inv _ _ _ _ _ ok (fun n => ok (n - 1))) in Hrun
    as (n' & (Hok & Hcf & Htf & Htr) & Hn); unfold ok in *.
  - cbn [fst snd] in *.
    assert (Hlim : attempts = None -> max_attempts c = max_attempts (rm_config m)) by (by intros ->).
    clearbody c.
    destruct r' as [a|e]; eexists _, _, _; (split; [done|]); simpl; split_and!; try done; try lia.
      all:
      intros Hnone; specialize (Hlim Hnone); lia.
  - intros n [m2 w2] H2. simpl in *. destruct H2 as (? & ? & ? & ?).
    destruct (func w2). simpl. split_and!; auto; lia.
  - intros n [m2 w2] H2. simpl in *. by destruct (rng w2).
  - intros n wait [m2 w2] (H2 & H3 & H4 & H5) _ e info. simpl in *.
    split_and!; auto using note_ok; lia.
  - simpl. split_and!; auto; lia.
Qed.

(** ** Concrete runs: a scripted function, a clock that only sleeping moves. *)
Module RetryDemo.

#[local] Instance lib : TextLib := {| py_float := fun _ => None; py_http_date := fun _ => None |}.

Record world := mkW { script : list (res exn Z); now : Q; made : Z; log : list (Q * Q) }.

Definition call (w : world) : res exn Z * world :=
  match script w with
  | [] => (Ok 0, mkW [] (now w) (made w + 1) (log w))
  | r :: rest => (r, mkW rest (now w) (made w + 1) (log w))
  end.
Definition nap (d : Q) (w : world) : world :=
  mkW (script w) (now w + d)%Q (made w) ((now w, d) :: log w).
Definition half (w : world) : Q * world := ((1 # 2)%Q, w).
Definition config : RetryConfig := mkRetryConfig 3 1 30 2 false.
Definition overloaded : exn := RateLimited "openai" None.
Definition start : world := mkW [Raise overloaded; Raise overloaded; Ok 7] 0 0 [].
Definition doomed : world := mkW [Raise (ValueError "bad")] 0 0 [].

Example run_start :
  option_map (fun '(r, w) => (r, made w)) (run_with_retry call now now nap half config None None start) = Some (Ok 7, 3).
Proof. reflexivity. Qed.

Lemma retry_bounded_calls_witness :
  exists r w', run_with_retry call now now nap half config None None start = Some (r, w') /\
    1 <= made w' - made start <= 3 /\ exists w0, fst (call w0) = r.
Proof.
  apply (retry_bounded_calls call now now nap half made config None None start).
  - intros w. unfold call. by destruct (script w).
  - done.
  - done.
  - done.
Defined.

(** Three failures, three attempts: the third is the last. *)
Definition busy : world := mkW [Raise overloaded; Raise overloaded; Raise overloaded; Ok 7] 0 0 [].
Lemma retry_gives_up_witness :
  exists w0 w1 w', run_with_retry call now now nap half config None None busy = Some (Raise overloaded, w') /\
    call w0 = (Raise overloaded, w1) /\ made w' = 3 /\ stop_reason now now half config None 3 overloaded w1.
Proof.
  edestruct (retry_gives_up_for_cause call now now nap half made config None None busy overloaded) as (w0 & w1 & H1 & _ & _ & H2).
  - intros w. unfold call. by destruct (script w).
  - done.
  - done.
  - done.
  - reflexivity.
  - exists w0, w1. eexists. split; [reflexivity|]. split; [exact H1|]. split; [reflexivity|exact H2].
Defined.

Lemma retry_sleeps_witness :
  Forall (fun '(t, d) => d <= 30 /\ (d <= 0 \/ t + d < 10))%Q [(0 + 1, 2); (0, 1)]%Q.
Proof.
  eapply (retry_sleeps_respect_deadline call now now nap half log config 10 None start _
            (mkW [] (0 + 1 + 2) 3 [(0 + 1, 2); (0, 1)]%Q)).
  - vm_compute. congruence.
  - vm_compute. congruence.
  - vm_compute. congruence.
  - intros w. simpl. lra.
  - intros w. unfold call. by destruct (script w).
  - done.
  - done.
  - done.
  - done.
  - reflexivity.
Defined.

Lemma manager_counts_witness :
  exists r m' w', execute call now now nap half None None (new_retry_manager (Some config)) start
                  = Some (r, (m', w')) /\ manager_ok m'.
Proof.
  destruct (manager_counts call now now nap half None None (new_retry_manager (Some config)) start)
    as (r & m' & w' & H1 & H2 & _).
  - split; reflexivity.
  - exists r, m', w'. split; [exact H1 | exact H2].
Defined.
End RetryDemo.
