(* ===== verification/Cache.v ===== *)
(** Component: response cache ([src/src/coreai/cache.py]): the bounded LRU
    memory cache, the Redis backend behind the same interface, and the response
    cache on top of either. Values are copied on every read and write, so a
    cached value is a plain value here. *)
From stdpp Require Import pretty.
From S2P Require Import Prelude Errors.

(** [_validate_ttl]: a non-negative [int] that is not a [bool]. *)
Definition _validate_ttl (ttl_seconds : pyattr) : res exn Z :=
  match ttl_seconds with
  | AInt z => if z <? 0 then Raise (ValueError "ttl_seconds must be a non-negative integer") else Ok z
  | _ => Raise (ValueError "ttl_seconds must be a non-negative integer")
  end.

(** What a backend promises: [get], [set], [delete] and [clear], each with the
    clock readings it may make. *)
Class CacheBackend (B V : Type) := {
  backend_get : Q -> string -> B -> option V * B;
  backend_set : Q -> Q -> string -> V -> pyattr -> B -> res exn unit * B;
  backend_delete : string -> B -> B;
  backend_clear : B -> B }.

Section Memory.
Context {V : Type}.

Record MemoryCache := mkMemoryCache {
  max_entries : Z;
  store : list (string * (V * Q));
  evictions : Z }.

Definition new_memory_cache (entries : pyattr) : res exn MemoryCache :=
  match entries with
  | AInt n => if n <? 1 then Raise (ValueError "max_entries must be a positive integer")
              else Ok (mkMemoryCache n [] 0)
  | _ => Raise (ValueError "max_entries must be a positive integer")
  end.

Definition with_store (c : MemoryCache) (s : list (string * (V * Q))) : MemoryCache :=
  mkMemoryCache (max_entries c) s (evictions c).

Definition get (now : Q) (key : string) (c : MemoryCache) : option V * MemoryCache :=
  match od_get key (store c) with
  | None => (None, c)
  | Some (value, expiry) =>
    if expiry <=. now then (None, with_store c (od_del key (store c)))
    else (Some value, with_store c (od_move_to_end key (store c)))
  end.

Definition expired_keys (now : Q) (s : list (string * (V * Q))) : list string :=
  od_keys (List.filter (fun '(_, (_, exp)) => exp <=. now) s).

Definition purge_expired (now : Q) (c : MemoryCache) : Z * MemoryCache :=
  let expired := expired_keys now (store c) in
  (Z.of_nat (length expired), with_store c (fold_left (fun s k => od_del k s) expired (store c))).

(** The eviction loop: the oldest entries leave until the bound holds. *)
Definition evict (c : MemoryCache) : MemoryCache :=
  let s := od_trim (Z.to_nat (max_entries c)) (store c) in
  mkMemoryCache (max_entries c) s (evictions c + Z.of_nat (length (store c) - length s)).

(** [now] is read for the expiry, [now_p] by [purge_expired]. *)
Definition set (now now_p : Q) (key : string) (value : V) (ttl_seconds : pyattr) (c : MemoryCache)
    : res exn unit * MemoryCache :=
  match _validate_ttl ttl_seconds with
  | Raise e => (Raise e, c)
  | Ok ttl =>
    if ttl =? 0 then (Ok tt, with_store c (od_del key (store c)))
    else
      let expiry := (now + inject_Z ttl)%Q in
      let c := with_store c (od_set key (value, expiry) (store c)) in
      let c := with_store c (od_move_to_end key (store c)) in
      let c := if max_entries c <? Z.of_nat (length (store c)) then snd (purge_expired now_p c) else c in
      (Ok tt, evict c)
  end.

Definition delete (key : string) (c : MemoryCache) : MemoryCache := with_store c (od_del key (store c)).
Definition clear (c : MemoryCache) : MemoryCache := with_store c [].

#[export] Instance memory_backend : CacheBackend MemoryCache V := {|
  backend_get := get; backend_set := set; backend_delete := delete; backend_clear := clear |}.
End Memory.
Arguments MemoryCache V : clear implicits.

(** ** Redis *)

(** The client the backend calls ([redis.asyncio]) and [json]. *)
Class RedisClient (R V : Type) := {
  redis_get : string -> R -> res exn (option string) * R;
  redis_setex : string -> Z -> string -> R -> res exn unit * R;
  redis_delete : string -> R -> res exn unit * R;
  redis_flushdb : R -> res exn unit * R;
  json_loads : string -> res exn V;
  json_dumps : V -> res exn string }.

Section Redis.
Context {R V : Type} `{RedisClient R V}.

(** The client, or the memory cache used when [redis] cannot be imported. *)
Inductive RedisCache := WithRedis (r : R) | Fallback (m : MemoryCache V).

Definition redis_cache_get (now : Q) (key : string) (c : RedisCache) : option V * RedisCache :=
  match c with
  | Fallback m => let '(v, m) := get now key m in (v, Fallback m)
  | WithRedis r =>
    let '(value, r) := redis_get key r in
    (match value with
     | Ok (Some s) =>
       if decide (s = EmptyString) then None
       else match json_loads s with Ok v => Some v | Raise _ => None end
     | _ => None
     end, WithRedis r)
  end.

Definition redis_cache_set (now now_p : Q) (key : string) (value : V) (ttl_seconds : pyattr)
    (c : RedisCache) : res exn unit * RedisCache :=
  match _validate_ttl ttl_seconds with
  | Raise e => (Raise e, c)
  | Ok ttl =>
    match c with
    | Fallback m => let '(o, m) := set now now_p key value ttl_seconds m in (o, Fallback m)
    | WithRedis r =>
      if ttl =? 0 then (Ok tt, WithRedis (snd (redis_delete key r)))
      else match json_dumps value with
           | Raise _ => (Ok tt, WithRedis r)
           | Ok s => (Ok tt, WithRedis (snd (redis_setex key ttl s r)))
           end
    end
  end.

Definition redis_cache_delete (key : string) (c : RedisCache) : RedisCache :=
  match c with
  | Fallback m => Fallback (delete key m)
  | WithRedis r => WithRedis (snd (redis_delete key r))
  end.

Definition redis_cache_clear (c : RedisCache) : RedisCache :=
  match c with Fallback m => Fallback (clear m) | WithRedis r => WithRedis (snd (redis_flushdb r)) end.

#[export] Instance redis_backend : CacheBackend RedisCache V := {|
  backend_get := redis_cache_get; backend_set := redis_cache_set;
  backend_delete := redis_cache_delete; backend_clear := redis_cache_clear |}.
End Redis.

(** ** Response cache *)

(** [json.dumps(..., sort_keys=True, default=str)] of the payload and the
    hexadecimal SHA-256 digest of its bytes. *)
Class KeyDigest (M O : Type) := {
  payload_json : M -> O -> string;
  no_options : O;                                (* [{}] *)
  sha256_hex : string -> string }.

Section Responses.
Context {B V M O : Type} `{CacheBackend B V} `{KeyDigest M O}.
Variable truthy : V -> bool.                     (* [bool(result)] *)

Record ResponseCache := mkResponseCache { backend : B; hits : Z; misses : Z }.

Definition new_response_cache (b : B) : ResponseCache := mkResponseCache b 0 0.

Definition _make_key (provider model : string) (messages : M) (options : option O) : string :=
  let msg_str := payload_json messages (default no_options options) in
  let msg_hash := sha256_hex msg_str in
  "cache:" +:+ provider +:+ ":" +:+ model +:+ ":" +:+ msg_hash.

Definition cache_get (now : Q) (provider model : string) (messages : M) (options : option O)
    (c : ResponseCache) : option V * ResponseCache :=
  let key := _make_key provider model messages options in
  let '(result, b) := backend_get now key (backend c) in
  (result,
   if match result with Some v => truthy v | None => false end
   then mkResponseCache b (hits c + 1) (misses c)
   else mkResponseCache b (hits c) (misses c + 1)).

Definition cache_set (now now_p : Q) (provider model : string) (messages : M) (response : V)
    (ttl_seconds : pyattr) (options : option O) (c : ResponseCache) : res exn unit * ResponseCache :=
  let key := _make_key provider model messages options in
  let '(o, b) := backend_set now now_p key response ttl_seconds (backend c) in
  (o, mkResponseCache b (hits c) (misses c)).

Definition cache_delete (provider model : string) (messages : M) (options : option O)
    (c : ResponseCache) : ResponseCache :=
  mkResponseCache (backend_delete (_make_key provider model messages options) (backend c)) (hits c) (misses c).

Definition cache_clear (c : ResponseCache) : ResponseCache := mkResponseCache (backend_clear (backend c)) 0 0.

(** The counters and the hit rate in percent (before rounding to two digits). *)
Definition cache_stats (c : ResponseCache) : Z * Z * Z * Q :=
  let total := hits c + misses c in
  (hits c, misses c, total,
   if 0 <? total then (inject_Z (hits c) / inject_Z total * 100)%Q else 0%Q).
End Responses.

(** ** Lemmas *)
Section MemoryFacts.
Context {V : Type}.
Implicit Types (c : MemoryCache V) (k : string) (v : V).

Lemma od_del_filter k (s : list (string * (V * Q))) :
  NoDup (od_keys s) -> od_del k s = List.filter (fun kv => bool_decide (kv.1 ≠ k)) s.
Proof.
  induction s as [|[k' x] s IH]; intros Hnd; cbn [od_del List.filter fst]; [done|].
  apply NoDup_cons in Hnd as [Hk Hnd]. destruct (decide (k = k')) as [<-|Hne].
  - rewrite bool_decide_false by naive_solver. symmetry. apply filter_true.
    intros [k' y] Hy. apply bool_decide_true. simpl. intros ->. apply Hk, list_elem_of_fmap. by exists (k, y).
  - rewrite bool_decide_true by done. by rewrite IH.
Qed.

Lemma fold_del_filter (ks : list string) (s : list (string * (V * Q))) :
  NoDup (od_keys s) ->
  fold_left (fun s k => od_del k s) ks s = List.filter (fun kv => bool_decide (kv.1 ∉ ks)) s.
Proof.
  revert s. induction ks as [|k ks IH]; intros s Hnd; cbn [fold_left].
  - symmetry. apply filter_true. intros x _. apply bool_decide_true, not_elem_of_nil.
  - rewrite IH by auto with pydict. rewrite od_del_filter, filter_filter by done.
    apply List.filter_ext. intros x. rewrite <- bool_decide_and. apply bool_decide_ext.
    rewrite not_elem_of_cons. naive_solver.
Qed.

Lemma od_get_filter (f : string * (V * Q) -> bool) s k x :
  NoDup (od_keys s) -> od_get k (List.filter f s) = Some x -> od_get k s = Some x.
Proof.
  intros Hnd Hg. apply elem_od_get; [done|]. apply od_get_elem in Hg.
  apply list_elem_of_In, List.filter_In in Hg as [Hg _]. by apply list_elem_of_In.
Qed.
End MemoryFacts.

(** ** The bounded store *)
Section CacheFacts.
Context {V : Type}.
Implicit Types (c : MemoryCache V) (k : string) (v : V).

Record cache_ok c : Prop := {
  ok_keys : NoDup (od_keys (store c));
  ok_size : Z.of_nat (length (store c)) <= max_entries c;
  ok_evictions : 0 <= evictions c }.

Lemma NoDup_od_trim n (s : list (string * (V * Q))) : NoDup (od_keys s) -> NoDup (od_keys (od_trim n s)).
Proof.
  intros H. eapply sublist_NoDup; [exact H|]. apply fmap_sublist, sublist_drop.
Qed.

Lemma purge_store now c :
  NoDup (od_keys (store c)) ->
  store (snd (purge_expired now c)) =
    List.filter (fun kv => bool_decide (kv.1 ∉ expired_keys now (store c))) (store c).
Proof. intros H. simpl. by rewrite fold_del_filter. Qed.

(** [purge_expired] removes exactly the expired entries. *)
Lemma purge_get now c k v e :
  NoDup (od_keys (store c)) ->
  od_get k (store (snd (purge_expired now c))) = Some (v, e) <->
  od_get k (store c) = Some (v, e) /\ (now < e)%Q.
Proof.
  intros Hnd. rewrite purge_store by done.
  assert (Hex : od_get k (store c) = Some (v, e) -> k ∈ expired_keys now (store c) <-> (e <= now)%Q).
  { intros Hg. unfold expired_keys, od_keys. rewrite list_elem_of_fmap. split.
    - intros ([k' [v' e']] & -> & Hin). apply list_elem_of_In, List.filter_In in Hin as [Hin Hb].
      apply list_elem_of_In, elem_od_get in Hin; [|done]. simpl in *. simplify_eq. by fprops.
    - intros He. exists (k, (v, e)). split; [done|]. apply list_elem_of_In, List.filter_In.
      split; [by apply list_elem_of_In, od_get_elem | by apply fleb_le]. }
  split.
  - intros Hg. pose proof (od_get_filter _ _ _ _ Hnd Hg) as Hg'. split; [done|].
    apply od_get_elem, list_elem_of_In, List.filter_In in Hg as [_ Hb].
    apply bool_decide_eq_true in Hb. apply Qnot_le_lt. intros He. by apply Hb, Hex.
  - intros [Hg He]. apply elem_od_get; [by apply NoDup_filter_keys|].
    apply list_elem_of_In, List.filter_In. split; [by apply list_elem_of_In, od_get_elem|].
    apply bool_decide_eq_true. simpl. intros Hin%Hex; [|done]. lra.
Qed.

Lemma purge_ok now c : NoDup (od_keys (store c)) -> NoDup (od_keys (store (snd (purge_expired now c)))).
Proof. intros H. rewrite purge_store by done. by apply NoDup_filter_keys. Qed.

Lemma get_ok now k c : cache_ok c -> cache_ok (snd (get now k c)).
Proof.
  intros [H1 H2 H3]. unfold get. destruct (od_get k (store c)) as [[v e]|] eqn:E; [|done].
  case_match; split; simpl; auto with pydict.
  - pose proof (length_od_del_le k (store c)). lia.
  - by rewrite length_od_move_to_end.
Qed.

Lemma evict_ok c : 0 <= max_entries c -> 0 <= evictions c -> NoDup (od_keys (store c)) -> cache_ok (evict c).
Proof.
  intros Hm He Hnd. split; simpl; [by apply NoDup_od_trim| |lia].
  pose proof (length_od_trim (Z.to_nat (max_entries c)) (store c)). lia.
Qed.

Lemma set_ok now now_p k v ttl c : cache_ok c -> cache_ok (snd (set now now_p k v ttl c)).
Proof.
  intros Hok. pose proof Hok as [H1 H2 H3]. unfold set. destruct (_validate_ttl ttl) as [z|e]; [|done].
  destruct (z =? 0); simpl.
  - split; simpl; auto with pydict. pose proof (length_od_del_le k (store c)). lia.
  - apply evict_ok.
    + case_match; simpl; lia.
    + by case_match.
    + case_match; [apply purge_ok|]; simpl; auto with pydict.
Qed.

(** ** Sequences of operations and what they have written *)
Inductive cache_op :=
| OGet (now : Q) (k : string)
| OSet (now now_p : Q) (k : string) (v : V) (ttl : pyattr)
| OPurge (now : Q)
| ODelete (k : string)
| OClear.

Definition cache_step c (o : cache_op) : MemoryCache V :=
  match o with
  | OGet now k => snd (get now k c)
  | OSet now now_p k v ttl => snd (set now now_p k v ttl c)
  | OPurge now => snd (purge_expired now c)
  | ODelete k => delete k c
  | OClear => clear c
  end.
Definition run_cache (ops : list cache_op) c : MemoryCache V := fold_left cache_step ops c.

(** The specification: an unbounded map holding, for each key, the latest
    accepted write not deleted since, with its expiry. *)
Definition spec_step (m : gmap string (V * Q)) (o : cache_op) : gmap string (V * Q) :=
  match o with
  | OGet _ _ | OPurge _ => m
  | OSet now _ k v ttl =>
    match _validate_ttl ttl with
    | Raise _ => m
    | Ok z => if z =? 0 then base.delete k m else <[k := (v, (now + inject_Z z)%Q)]> m
    end
  | ODelete k => base.delete k m
  | OClear => ∅
  end.
Definition run_spec (ops : list cache_op) : gmap string (V * Q) := fold_left spec_step ops ∅.

(** The store holds nothing the specification does not. *)
Definition refines c (m : gmap string (V * Q)) : Prop :=
  forall k x, od_get k (store c) = Some x -> m !! k = Some x.

Lemma od_get_trim n k x (s : list (string * (V * Q))) :
  NoDup (od_keys s) -> od_get k (od_trim n s) = Some x -> od_get k s = Some x.
Proof.
  intros Hnd Hg. apply elem_od_get; [done|]. apply od_get_elem in Hg.
  destruct (od_trim_suffix n s) as [l ->]. apply elem_of_app. by right.
Qed.

Lemma od_get_del_some k k' x (s : list (string * (V * Q))) :
  NoDup (od_keys s) -> od_get k' (od_del k s) = Some x -> k ≠ k' /\ od_get k' s = Some x.
Proof.
  intros Hnd Hg. destruct (decide (k = k')) as [->|Hne]; [by rewrite od_get_del_eq in Hg|].
  by rewrite od_get_del_ne in Hg.
Qed.

Lemma refines_step c m o : cache_ok c -> refines c m -> refines (cache_step c o) (spec_step m o).
Proof.
  intros Hok Href. pose proof Hok as [H1 H2 H3].
  assert (Hdel : forall k, refines (with_store c (od_del k (store c))) (base.delete k m)).
  { intros k k' x Hg%od_get_del_some; [|done]. rewrite lookup_delete_ne by naive_solver. naive_solver. }
  destruct o as [now k|now now_p k v ttl|now|k|]; simpl; [| | |apply Hdel|by intros k x [=]].
  - unfold get. destruct (od_get k (store c)) as [[v e]|]; [|done]. case_match; simpl; intros k' x; simpl.
    + intros Hg%od_get_del_some; naive_solver.
    + rewrite od_get_move_to_end by done. auto.
  - unfold set. destruct (_validate_ttl ttl) as [z|]; [|done]. destruct (z =? 0); [apply Hdel|].
    cbn [snd]. intros k' x Hg. apply od_get_trim in Hg; [|case_match; [apply purge_ok|]; simpl; auto with pydict].
    set (s := od_move_to_end _ _) in *.
    assert (Hg' : od_get k' s = Some x).
    { destruct (max_entries _ <? _); [|exact Hg]. destruct x as [v' e'].
      apply purge_get in Hg as [Hg _]; [exact Hg|]. unfold s. simpl. auto with pydict. }
    unfold s in Hg'. rewrite od_get_move_to_end in Hg' by (simpl; auto with pydict). simpl in Hg'.
    destruct (decide (k = k')) as [->|Hne].
    + rewrite od_get_set_eq in Hg'. rewrite lookup_insert_eq. done.
    + rewrite od_get_set_ne in Hg' by done. rewrite lookup_insert_ne by done. auto.
  - intros k [v e] Hg. apply purge_get in Hg as [Hg _]; auto.
Qed.

Lemma purge_size now c : cache_ok c -> cache_ok (snd (purge_expired now c)).
Proof.
  intros [H1 H2 H3]. split; [by apply purge_ok| |done]. rewrite purge_store by done.
  simpl. pose proof (List.filter_length_le (fun kv => bool_decide (kv.1 ∉ expired_keys now (store c))) (store c)). lia.
Qed.

Lemma cache_step_ok c o : cache_ok c -> cache_ok (cache_step c o).
Proof.
  intros Hok. destruct o as [| | |k|]; cbn [cache_step]; auto using get_ok, set_ok, purge_size.
  - destruct Hok as [H1 H2 H3]. split; simpl; auto with pydict.
    pose proof (length_od_del_le k (store c)). lia.
  - destruct Hok as [H1 H2 H3]. split; simpl; [constructor | lia | done].
Qed.
End CacheFacts.
Arguments cache_op V : clear implicits.

Section CacheRuns.
Context {V : Type}.
Implicit Types (c : MemoryCache V) (k : string) (v : V) (ops : list (cache_op V)).

Lemma run_cache_ok ops c : cache_ok c -> cache_ok (run_cache ops c).
Proof. revert c. induction ops as [|o ops IH]; intros c Hc; simpl; [done|]. apply IH, cache_step_ok, Hc. Qed.

Lemma run_refines_from ops c m :
  cache_ok c -> refines c m -> refines (run_cache ops c) (fold_left spec_step ops m).
Proof.
  revert c m. induction ops as [|o ops IH]; intros c m Hc Hr; simpl; [done|].
  apply IH; [by apply cache_step_ok | by apply refines_step].
Qed.

Lemma new_cache_ok n c : new_memory_cache n = Ok c -> cache_ok c /\ store c = [] /\ 1 <= max_entries c.
Proof.
  unfold new_memory_cache. destruct n; try done. case_match; [done|]. intros [= <-].
  split_and!; [split; simpl; [constructor|lia|lia] | done | simpl; lia].
Qed.

(** ** Recency *)

(** The keys an operation may bring to the recent end of the store. *)
Definition touched (o : cache_op V) : gset string :=
  match o with OGet _ k | OSet _ _ k _ _ => {[k]} | _ => ∅ end.

(** An operation that leaves the live entry [k] (expiring at [e]) alone: it is
    about another key, or purges before the expiry. *)
Definition leaves_alone k (e : Q) (o : cache_op V) : Prop :=
  match o with
  | OGet now k' => k' ≠ k
  | OSet now now_p k' v ttl => k' ≠ k /\ (now_p < e)%Q
  | OPurge now => (now < e)%Q
  | ODelete k' => k' ≠ k
  | OClear => False
  end.

(** [k] is present and everything more recent is among [T]. *)
Definition recent (s : list (string * (V * Q))) k x (T : gset string) : Prop :=
  exists pre post, s = pre ++ (k, x) :: post /\ list_to_set (od_keys post) ⊆ T.

Lemma recent_del s k x T k' : recent s k x T -> k' ≠ k -> recent (od_del k' s) k x T.
Proof.
  intros (pre & post & -> & Hsub) Hne. induction pre as [|[k1 x1] pre IH]; simpl.
  - rewrite decide_False by done. exists [], (od_del k' post). split; [done|].
    intros y Hy%elem_of_list_to_set. apply Hsub, elem_of_list_to_set.
    eapply elem_of_sublist; [exact Hy | apply od_keys_del].
  - case_decide; [by exists pre, post|]. destruct IH as (p & q & -> & ?). by exists ((k1, x1) :: p), q.
Qed.

Lemma recent_weaken s k x (T T' : gset string) : T ⊆ T' -> recent s k x T -> recent s k x T'.
Proof. intros HT (pre & post & -> & Hsub). exists pre, post. split; [done|set_solver]. Qed.

Lemma recent_snoc s k x T k' y : recent s k x T -> recent (s ++ [(k', y)]) k x ({[k']} ∪ T).
Proof.
  intros (pre & post & -> & Hsub). exists pre, (post ++ [(k', y)]).
  rewrite <- app_assoc. split; [done|]. unfold od_keys in *. rewrite fmap_app, list_to_set_app. set_solver.
Qed.

Lemma recent_move s k x T k' : recent s k x T -> k' ≠ k -> recent (od_move_to_end k' s) k x ({[k']} ∪ T).
Proof.
  intros Hr Hne. unfold od_move_to_end. destruct (od_get k' s).
  - by apply recent_snoc, recent_del.
  - eapply recent_weaken; [|exact Hr]. set_solver.
Qed.

Lemma recent_set s k x T k' y : recent s k x T -> k' ≠ k -> recent (od_set k' y s) k x ({[k']} ∪ T).
Proof.
  intros (pre & post & -> & Hsub) Hne. induction pre as [|[k1 x1] pre IH]; simpl.
  - rewrite decide_False by done. exists [], (od_set k' y post). split; [done|].
    rewrite od_keys_set. case_decide; [set_solver|]. rewrite list_to_set_app. set_solver.
  - case_decide; [exists ((k', y) :: pre), post; split; [done|set_solver]|].
    destruct IH as (p & q & -> & ?). by exists ((k1, x1) :: p), q.
Qed.

Lemma recent_filter s k x T f : f (k, x) = true -> recent s k x T -> recent (List.filter f s) k x T.
Proof.
  intros Hf (pre & post & -> & Hsub). exists (List.filter f pre), (List.filter f post).
  rewrite List.filter_app. simpl. rewrite Hf. split; [done|].
  intros y Hy%elem_of_list_to_set. apply Hsub, elem_of_list_to_set.
  eapply elem_of_sublist; [exact Hy|]. apply fmap_sublist, filter_sublist.
Qed.

Lemma recent_trim n s k x T :
  NoDup (od_keys s) -> (size T < n)%nat -> recent s k x T -> recent (od_trim n s) k x T.
Proof.
  intros Hnd Hn (pre & post & -> & Hsub). unfold od_trim, od_keys in *.
  rewrite fmap_app in Hnd. apply NoDup_app in Hnd as (_ & _ & Hnd). simpl in Hnd.
  apply NoDup_cons in Hnd as [_ Hnd].
  assert (Hlen : (length post <= size T)%nat).
  { rewrite <- (length_fmap fst), <- (size_list_to_set (C := gset string)) by done. by apply subseteq_size. }
  rewrite drop_app_le by (rewrite length_app; simpl; lia). by eexists _, post.
Qed.

Lemma recent_get s k x T : NoDup (od_keys s) -> recent s k x T -> od_get k s = Some x.
Proof. intros Hnd (pre & post & -> & _). apply elem_od_get; [done|set_solver]. Qed.

Lemma recent_purge now c k v e T :
  NoDup (od_keys (store c)) -> (now < e)%Q -> recent (store c) k (v, e) T ->
  recent (store (snd (purge_expired now c))) k (v, e) T.
Proof.
  intros Hnd He Hr. rewrite purge_store by done. apply recent_filter; [|done].
  apply bool_decide_eq_true. simpl. intros ([k' [v' e']] & -> & Hin)%list_elem_of_fmap.
  apply list_elem_of_In, List.filter_In in Hin as [Hin Hx]. simpl in *.
  apply list_elem_of_In, elem_od_get in Hin; [|done]. apply recent_get in Hr; [|done].
  simplify_eq. fprops. lra.
Qed.

Lemma set_recent now now_p k v z c :
  cache_ok c -> 0 < z -> 1 <= max_entries c -> (now_p < now + inject_Z z)%Q ->
  recent (store (snd (set now now_p k v (AInt z) c))) k (v, (now + inject_Z z)%Q) ∅.
Proof.
  intros [H1 H2 H3] Hz Hm He. unfold set, _validate_ttl.
  replace (z <? 0) with false by lia. replace (z =? 0) with false by lia. cbn [snd].
  assert (Hr : recent (od_move_to_end k (od_set k (v, (now + inject_Z z)%Q) (store c))) k (v, (now + inject_Z z)%Q) ∅).
  { unfold od_move_to_end. rewrite od_get_set_eq. eexists _, []. split; [done|set_solver]. }
  apply recent_trim.
  - case_match; [apply purge_ok|]; simpl; auto with pydict.
  - rewrite size_empty. case_match; simpl; lia.
  - case_match; [|done]. apply recent_purge; simpl; auto with pydict.
Qed.

Lemma cache_step_max c o : max_entries (cache_step c o) = max_entries c.
Proof.
  destruct o; simpl; try done.
  - unfold get. repeat case_match; done.
  - unfold set. repeat case_match; done.
Qed.

Lemma step_recent c o k v e T :
  cache_ok c -> recent (store c) k (v, e) T -> leaves_alone k e o ->
  (Z.of_nat (size (touched o ∪ T)) < max_entries c) ->
  recent (store (cache_step c o)) k (v, e) (touched o ∪ T).
Proof.
  intros [H1 H2 H3] Hr Hl Hs. destruct o as [now k'|now now_p k' v' ttl|now|k'|]; simpl in *; [| | | |done].
  - unfold get. destruct (od_get k' (store c)) as [[v' e']|]; [case_match|]; simpl.
    + eapply recent_weaken; [|by apply recent_del]. set_solver.
    + by apply recent_move.
    + eapply recent_weaken; [|done]. set_solver.
  - destruct Hl as [Hne Hp]. unfold set. destruct (_validate_ttl ttl) as [z|].
    2: { eapply recent_weaken; [|done]. set_solver. }
    destruct (z =? 0); cbn [snd].
    { eapply recent_weaken; [|by apply recent_del]. set_solver. }
    assert (Hr' : recent (od_move_to_end k' (od_set k' (v', (now + inject_Z z)%Q) (store c))) k (v, e) ({[k']} ∪ T)).
    { eapply recent_weaken; [|apply recent_move, Hne; apply recent_set; done]. set_solver. }
    apply recent_trim.
    + case_match; [apply purge_ok|]; simpl; auto with pydict.
    + case_match; simpl; lia.
    + case_match; [|done]. apply recent_purge; simpl; auto with pydict.
  - rewrite union_empty_l_L. apply (recent_purge now c); done.
  - rewrite union_empty_l_L. by apply recent_del.
Qed.

Lemma run_recent ops c k v e T :
  cache_ok c -> recent (store c) k (v, e) T -> Forall (leaves_alone k e) ops ->
  Z.of_nat (size (⋃ (touched <$> ops) ∪ T)) < max_entries c ->
  recent (store (run_cache ops c)) k (v, e) (⋃ (touched <$> ops) ∪ T).
Proof.
  revert c T. induction ops as [|o ops IH]; intros c T Hok Hr Hl Hs; simpl in *.
  { by rewrite union_empty_l_L. }
  apply Forall_cons in Hl as [Ho Hl].
  change (list_fmap _ _ touched ops) with (touched <$> ops) in *.
  replace (touched o ∪ ⋃ (touched <$> ops) ∪ T) with (⋃ (touched <$> ops) ∪ (touched o ∪ T)) in * by set_solver.
  apply IH; auto using cache_step_ok.
  - apply step_recent; auto.
    assert (size (touched o ∪ T) <= size (⋃ (touched <$> ops) ∪ (touched o ∪ T)))%nat by (apply subseteq_size; set_solver).
    lia.
  - by rewrite cache_step_max.
Qed.
End CacheRuns.

(** ** Key lemmas *)
Fixpoint no_colon (s : string) : Prop :=
  match s with
  | String.EmptyString => True
  | String.String c s' => c ≠ Ascii.Ascii false true false true true true false false /\ no_colon s'
  end.

Lemma no_colon_split p p' r r' :
  no_colon p -> no_colon p' -> p +:+ ":" +:+ r = p' +:+ ":" +:+ r' -> p = p' /\ r = r'.
Proof.
  revert p'. induction p as [|c p IH]; intros [|c' p'] Hp Hp' Heq; simpl in *.
  - by simplify_eq.
  - exfalso. destruct Hp' as [Hc _]. apply Hc. by injection Heq.
  - exfalso. destruct Hp as [Hc _]. apply Hc. by injection Heq.
  - destruct Hp, Hp'. injection Heq as -> Heq. apply IH in Heq as [-> ->]; done.
Qed.

(** Splitting on the last colon instead. *)
Lemma no_colon_split_right m m' h h' :
  no_colon h -> no_colon h' -> m +:+ ":" +:+ h = m' +:+ ":" +:+ h' -> m = m' /\ h = h'.
Proof.
  intros Hh Hh'.
  assert (Hno : forall m h, ~ no_colon (m +:+ ":" +:+ h)).
  { induction m0 as [|c m0 IH]; simpl; intros h0 [H1 H2]; [done | by apply (IH h0)]. }
  revert m'. induction m as [|c m IH]; intros [|c' m'] Heq; simpl in *.
  - by simplify_eq.
  - exfalso. injection Heq as _ Heq.
    assert (h = m' +:+ ":" +:+ h') as -> by exact Heq. by apply (Hno m' h').
  - exfalso. injection Heq as _ Heq.
    assert (h' = m +:+ ":" +:+ h) as -> by (symmetry; exact Heq). by apply (Hno m h).
  - injection Heq as -> Heq. apply IH in Heq as [-> ->]. done.
Qed.

(** ** Properties *)

(** C24: the memory cache never holds more than [max_entries] entries, whatever
    is done to it, and never serves an answer other than the latest accepted
    write of that key, not deleted since and not yet expired: it refines an
    unbounded map with expiry times. *)
Theorem memory_cache_refines {V : Type} entries (c : MemoryCache V) (ops : list (cache_op V)) now k v :
  new_memory_cache entries = Ok c ->
  Z.of_nat (length (store (run_cache ops c))) <= max_entries (run_cache ops c) /\
  (fst (get now k (run_cache ops c)) = Some v ->
   exists e, run_spec ops !! k = Some (v, e) /\ (now < e)%Q).
Proof.
  intros Hnew. apply new_cache_ok in Hnew as (Hok & Hs & _).
  pose proof (run_cache_ok ops c Hok) as [_ Hsize _]. split; [done|].
  assert (Href : refines c ∅) by (intros ? ?; rewrite Hs; done).
  apply (run_refines_from ops) in Href; [|done]. unfold get.
  destruct (od_get k (store (run_cache ops c))) as [[v' e]|] eqn:E; [|done].
  case_match; [done|]. intros [= ->]. exists e. split; [by apply Href | by fprops].
Qed.

Lemma memory_cache_refines_witness :
  exists e, run_spec [OSet 0 0 "a" 1 (AInt 5); OSet 1 1 "b" 2 (AInt 5); OGet 2 "a"] !! "b" = Some (2, e) /\ (3 < e)%Q.
Proof.
  apply (proj2 (memory_cache_refines (AInt 2) (mkMemoryCache 2 [] 0)
    [OSet 0 0 "a" 1 (AInt 5); OSet 1 1 "b" 2 (AInt 5); OGet 2 "a"] 3 "b" 2 eq_refl)).
  vm_compute. reflexivity.
Defined.

(** least recently used: an entry just written is served until it expires,
    as long as it is not itself read, deleted or overwritten and fewer than
    [max_entries] other keys are read or written meanwhile. *)
Theorem recent_write_is_served {V : Type} (c : MemoryCache V) now now_p k v z (ops : list (cache_op V)) now' :
  cache_ok c -> 0 < z -> 1 <= max_entries c ->
  (now_p < now + inject_Z z)%Q -> (now' < now + inject_Z z)%Q ->
  Forall (leaves_alone k (now + inject_Z z)%Q) ops ->
  Z.of_nat (size (⋃ (touched <$> ops))) < max_entries c ->
  fst (get now' k (run_cache ops (snd (set now now_p k v (AInt z) c)))) = Some v.
Proof.
  intros Hok Hz Hm Hp Hn Hl Hs.
  pose proof (set_recent now now_p k v z c Hok Hz Hm Hp) as Hr.
  apply (run_recent ops) in Hr; auto using set_ok.
  - apply recent_get in Hr; [|apply ok_keys; auto using run_cache_ok, set_ok].
    unfold get. rewrite Hr. replace ((now + inject_Z z)%Q <=. now') with false; [done|].
    symmetry. by apply fleb_gt.
  - rewrite union_empty_r_L. pose proof (cache_step_max c (OSet now now_p k v (AInt z))) as Hmax.
    cbn [cache_step] in Hmax. by rewrite Hmax.
Qed.

Lemma recent_write_witness :
  let c := run_cache [OSet 0 0 "x" 1 (AInt 9); OSet 0 0 "y" 2 (AInt 9)] (mkMemoryCache 2 [] 0) in
  fst (get 4 "z" (run_cache [OGet 1 "y"; OSet 2 2 "y" 7 (AInt 9)] (snd (set 0 0 "z" 3 (AInt 5) c)))) = Some 3.
Proof.
  intros c.
  apply (recent_write_is_served c 0 0 "z" 3 5 [OGet 1 "y"; OSet 2 2 "y" 7 (AInt 9)] 4).
  - apply run_cache_ok. split; simpl; [constructor | lia | lia].
  - lia.
  - vm_compute. discriminate.
  - vm_compute. reflexivity.
  - vm_compute. reflexivity.
  - repeat constructor; try done.
  - vm_compute. reflexivity.
Defined.

(** two requests share a cache slot only if they agree on provider and model,
    even though a model name may contain the separator, and either on the text of
    their messages and options (absent and empty options being the same request)
    or those two texts collide under the digest. *)
Theorem make_key_separates {M O : Type} `{KeyDigest M O} p p' m m' ms ms' o o' :
  (forall x, no_colon (sha256_hex x)) ->
  no_colon p -> no_colon p' ->
  _make_key p m ms o = _make_key p' m' ms' o' ->
  let x := payload_json ms (default no_options o) in
  let y := payload_json ms' (default no_options o') in
  p = p' /\ m = m' /\ (x = y \/ x ≠ y /\ sha256_hex x = sha256_hex y).
Proof.
  intros Hhex Hp Hp' Heq x y. unfold _make_key in Heq. simplify_eq.
  apply no_colon_split in Heq as [-> Heq]; [|done..].
  apply no_colon_split_right in Heq as [-> Heq]; [|done..].
  split_and!; [done..|]. destruct (decide (x = y)); auto.
Qed.

(** A concrete digest for the witness: the bits of the text. *)
Definition bit_char (b : bool) : Ascii.ascii := if b then Ascii.ascii_of_nat 49 else Ascii.ascii_of_nat 48.
Definition char_bits (c : Ascii.ascii) : list bool :=
  match c with Ascii.Ascii a b c d e f g h => [a; b; c; d; e; f; g; h] end.
Fixpoint bit_string (l : list bool) (rest : string) : string :=
  match l with [] => rest | b :: l => String.String (bit_char b) (bit_string l rest) end.
Fixpoint bits_hex (s : string) : string :=
  match s with
  | String.EmptyString => String.EmptyString
  | String.String c s' => bit_string (char_bits c) (bits_hex s')
  end.
Definition demo_digest : KeyDigest N unit := {|
  payload_json := fun m _ => pretty m; no_options := (); sha256_hex := bits_hex |}.

Lemma bits_hex_no_colon s : no_colon (bits_hex s).
Proof.
  induction s as [|[[] [] [] [] [] [] [] []] s IH]; simpl; [done|..]; repeat (split; [discriminate|]); exact IH.
Qed.

Lemma make_key_witness :
  let x := @payload_json N unit demo_digest 5%N (default (@no_options N unit demo_digest) None) in
  let y := @payload_json N unit demo_digest 5%N (default (@no_options N unit demo_digest) (Some ())) in
  "openai" = "openai" /\ "llama3:8b" = "llama3:8b" /\
  (x = y \/ x ≠ y /\ @sha256_hex N unit demo_digest x = @sha256_hex N unit demo_digest y).
Proof.
  apply (@make_key_separates N unit demo_digest "openai" "openai" "llama3:8b" "llama3:8b" 5%N 5%N None (Some ())).
  - exact bits_hex_no_colon.
  - simpl. repeat (split; [discriminate|]). exact I.
  - simpl. repeat (split; [discriminate|]). exact I.
  - reflexivity.
Defined.
