(* ===== verification/Usage.v ===== *)
(** Component: usage ledger ([src/src/coreai/usage.py]): hourly rows per
    (subject, provider, model), bounded in age and number, and the reports and
    CSV text made from them.

    An hour start is the integer [3600 * floor(now / 3600)], the value of the
    source's [now - (now % 3600)]. *)
From stdpp Require Import pretty.
From S2P Require Import Prelude.

Inductive bucket_size := Hour | Day.
Definition bucket_seconds (b : bucket_size) : Z := match b with Hour => 3600 | Day => 86400 end.
Definition BUCKETS : list (string * bucket_size) := [("hour", Hour); ("day", Day)].
Definition GROUP_BY : list string := ["subject"; "provider"; "model"].
Definition COLUMNS : list string :=
  ["period_start"; "subject"; "provider"; "model"; "requests"; "input_tokens"; "output_tokens"; "cost_usd"].

Inductive UsageError :=
| BadRetention | BadMaxRows
| BadBucket | BadGroupBy (bad : list string) | EmptyRange | UnalignedBound (label : string).

Record _Row := mkRow { requests : Z; input_tokens : Z; output_tokens : Z; cost_usd : Q }.
Definition empty_row : _Row := mkRow 0 0 0 0.

(** (hour_start, subject, provider, model) *)
Definition row_key : Type := Z * string * string * string.
Definition key_hour (k : row_key) : Z := k.1.1.1.

Record UsageLedger := mkLedger {
  retention_seconds : Z; max_rows : Z; rows : list (row_key * _Row) }.

Definition new_ledger (retention max : Z) : res UsageError UsageLedger :=
  if retention <? 1 then Raise BadRetention
  else if max <? 1 then Raise BadMaxRows
  else Ok (mkLedger retention max []).

Fixpoint prune_rows (cutoff : Q) (max : Z) (rs : list (row_key * _Row)) : list (row_key * _Row) :=
  match rs with
  | [] => []
  | (k, _) :: rest =>
    if (inject_Z (key_hour k) <. cutoff) || (max <? Z.of_nat (length rs))
    then prune_rows cutoff max rest else rs
  end.
Definition _prune (now : Q) (l : UsageLedger) : UsageLedger :=
  let cutoff := (now - inject_Z (retention_seconds l))%Q in
  mkLedger (retention_seconds l) (max_rows l) (prune_rows cutoff (max_rows l) (rows l)).

Definition hour_of (now : Q) : Z := 3600 * Qfloor (now / 3600).

Definition by_hour (x y : row_key * _Row) : bool := key_hour x.1 <=? key_hour y.1.

(** The row for [key], created at the position the retention order needs. *)
Definition place_row (key : row_key) (rs : list (row_key * _Row)) : list (row_key * _Row) :=
  match od_get key rs with
  | Some _ => rs
  | None =>
    match last rs with
    | Some (newest, _) =>
      if key_hour key <? key_hour newest then py_sorted by_hour (rs ++ [(key, empty_row)])
      else od_set key empty_row rs
    | None => od_set key empty_row rs
    end
  end.

Definition add_usage (r : _Row) (reqs tin tout : Z) (cost : Q) : _Row :=
  mkRow (requests r + reqs) (input_tokens r + tin) (output_tokens r + tout) (cost_usd r + cost)%Q.

(** [record]: the clock is read for the hour and again by [_prune]. *)
Definition record (now now_p : Q) (subject provider model : string) (tin tout : option Z)
    (cost : option Q) (reqs : Z) (l : UsageLedger) : UsageLedger :=
  let key := (hour_of now, subject, provider, model) in
  let rs := place_row key (rows l) in
  let row := default empty_row (od_get key rs) in
  let row := add_usage row reqs (Z.max 0 (default 0 tin)) (Z.max 0 (default 0 tout)) (fmax 0 (default 0%Q cost)) in
  _prune now_p (mkLedger (retention_seconds l) (max_rows l) (od_set key row rs)).

(** ** Reports *)
Definition group_key : Type := Z * list string.

Definition dim (g : string) (k : row_key) : string :=
  let '(_, subj, prov, model) := k in
  if decide (g = "subject") then subj else if decide (g = "provider") then prov else model.

Definition group_of (size : Z) (group_by : list string) (k : row_key) : group_key :=
  (key_hour k - key_hour k mod size, (fun g => dim g k) <$> group_by).

(** The loop's three [continue] tests, negated. *)
Definition in_report (subject : option string) (since until : option Q) (k : row_key) : bool :=
  let '(hour, subj, _, _) := k in
  negb (match subject with Some s => negb (bool_decide (subj = s)) | None => false end
        || match since with Some t => inject_Z hour <. t | None => false end
        || match until with Some t => t <=. inject_Z hour | None => false end).

Definition aggregate_row (size : Z) (group_by : list string) (subject : option string)
    (since until : option Q) (agg : list (group_key * _Row)) (kr : row_key * _Row) : list (group_key * _Row) :=
  let '(k, row) := kr in
  if in_report subject since until k then
    let g := group_of size group_by k in
    let a := default empty_row (od_get g agg) in
    od_set g (add_usage a (requests row) (input_tokens row) (output_tokens row) (cost_usd row)) agg
  else agg.

Fixpoint strings_leb (a b : list string) : bool :=
  match a, b with
  | [], _ => true
  | _ :: _, [] => false
  | x :: a, y :: b => if decide (x = y) then strings_leb a b else String.leb x y
  end.
(** Tuple comparison: the period, then the group's values. *)
Definition group_leb (x y : group_key * _Row) : bool :=
  let '(p, g, _) := x in let '(p', g', _) := y in
  if p =? p' then strings_leb g g' else p <? p'.

Record report_item := mkItem {
  period_start : Z; item_dims : list (string * string);
  item_requests : Z; item_input : Z; item_output : Z; item_cost : Q }.

Definition item_of (group_by : list string) (ga : group_key * _Row) : report_item :=
  let '((p, vs), a) := ga in
  mkItem p (zip group_by vs) (requests a) (input_tokens a) (output_tokens a) (py_round 6 (cost_usd a)).

Definition unaligned (b : option Q) : bool :=
  match b with Some t => negb (Qeq_bool (fmod t 3600) 0) | None => false end.

Definition report (subject : option string) (since until : option Q) (bucket : string)
    (group_by : list string) (l : UsageLedger) : res UsageError (list report_item) :=
  match od_get bucket BUCKETS with
  | None => Raise BadBucket
  | Some size =>
    let bad := List.filter (fun g => negb (bool_decide (g ∈ GROUP_BY))) group_by in
    if negb (bool_decide (bad = [])) then Raise (BadGroupBy bad) else
    if match since, until with Some s, Some u => u <=. s | _, _ => false end then Raise EmptyRange else
    if unaligned since then Raise (UnalignedBound "since") else
    if unaligned until then Raise (UnalignedBound "until") else
    let agg := fold_left (aggregate_row (bucket_seconds size) group_by subject since until) (rows l) [] in
    Ok (item_of group_by <$> py_sorted group_leb agg)
  end.

(** ** CSV *)
Definition formula_char (c : Ascii.ascii) : bool :=
  existsb (Nat.eqb (Ascii.nat_of_ascii c)) [61; 43; 45; 64; 9; 13]%nat.   (* = + - @ tab cr *)

(** [_safe] on text; numbers pass unchanged. *)
Definition _safe (value : string) : string :=
  match value with
  | String.String c _ => if formula_char c then "'" +:+ value else value
  | String.EmptyString => value
  end.

Section Csv.
Variable float_repr : Q -> string.               (* repr(float) *)

Definition csv_columns (group_by : list string) : list string :=
  List.filter (fun c => bool_decide (c ∈ "period_start" :: group_by) || negb (bool_decide (c ∈ GROUP_BY))) COLUMNS.

Definition csv_cell (r : report_item) (c : string) : string :=
  if decide (c = "period_start") then pretty (period_start r)
  else if decide (c = "requests") then pretty (item_requests r)
  else if decide (c = "input_tokens") then pretty (item_input r)
  else if decide (c = "output_tokens") then pretty (item_output r)
  else if decide (c = "cost_usd") then float_repr (item_cost r)
  else _safe (default EmptyString (od_get c (item_dims r))).

Definition quote : Ascii.ascii := Ascii.ascii_of_nat 34.
Definition newline : string := String.String (Ascii.ascii_of_nat 10) EmptyString.
(** [csv.QUOTE_MINIMAL]: quoted when the text holds a comma, a quote, CR or LF. *)
Definition needs_quotes (s : string) : bool :=
  existsb (fun c => existsb (Nat.eqb (Ascii.nat_of_ascii c)) [44; 34; 10; 13]%nat) (String.list_ascii_of_string s).
Definition double_quotes (s : string) : string :=
  String.concat EmptyString
    (map (fun c => if Ascii.eqb c quote then String.String quote (String.String quote EmptyString)
                   else String.String c EmptyString) (String.list_ascii_of_string s)).
Definition csv_field (s : string) : string :=
  if needs_quotes s then String.String quote (double_quotes s +:+ String.String quote EmptyString) else s.
Definition csv_line (cells : list string) : string := String.concat "," (map csv_field cells) +:+ newline.

Definition to_csv (items : list report_item) (group_by : list string) : string :=
  let cols := csv_columns group_by in
  String.concat EmptyString (csv_line cols :: map (fun r => csv_line (map (csv_cell r) cols)) items).
End Csv.

(** ** Lemmas *)
Definition hours_sorted (rs : list (row_key * _Row)) : Prop := StronglySorted Z.le (key_hour <$> od_keys rs).

(** Sums over rows: requests, tokens in, tokens out. *)
Definition row_total (f : _Row -> Z) {K} (rs : list (K * _Row)) : Z := fold_right (fun kr n => f kr.2 + n) 0 rs.

(** A counter of rows that [add_usage] increases additively. *)
Definition additive (f : _Row -> Z) (delta : Z -> Z -> Z -> Z) : Prop :=
  f empty_row = 0 /\ forall r q i o c, f (add_usage r q i o c) = f r + delta q i o.

Lemma requests_additive : additive requests (fun q _ _ => q).
Proof. by split. Qed.
Lemma input_additive : additive input_tokens (fun _ i _ => i).
Proof. by split. Qed.
Lemma output_additive : additive output_tokens (fun _ _ o => o).
Proof. by split. Qed.

Lemma row_total_app f {K} (rs rs' : list (K * _Row)) : row_total f (rs ++ rs') = row_total f rs + row_total f rs'.
Proof. unfold row_total. induction rs; simpl in *; lia. Qed.

Lemma row_total_perm f {K} (rs rs' : list (K * _Row)) : rs ≡ₚ rs' -> row_total f rs = row_total f rs'.
Proof. unfold row_total. induction 1; simpl in *; lia. Qed.

Lemma row_total_set f {K} `{EqDecision K} (k : K) r rs :
  row_total f (od_set k r rs) = row_total f rs - (match od_get k rs with Some r' => f r' | None => 0 end) + f r.
Proof.
  unfold row_total. induction rs as [|[k' r'] rs IH]; simpl; [lia|].
  destruct (decide (k = k')); simpl in *; lia.
Qed.

Lemma row_total_bump f delta {K} `{EqDecision K} (k : K) q i o c rs :
  additive f delta ->
  row_total f (od_set k (add_usage (default empty_row (od_get k rs)) q i o c) rs) = row_total f rs + delta q i o.
Proof.
  intros [H0 Ha]. rewrite row_total_set, Ha. destruct (od_get k rs); simpl; lia.
Qed.

Lemma hours_sorted_rel rs : StronglySorted (le_rel by_hour) rs -> hours_sorted rs.
Proof.
  unfold hours_sorted, od_keys. induction 1 as [|[k r] rs Hs IH Hall]; rewrite ?fmap_cons; constructor; [done|].
  rewrite !Forall_fmap. eapply Forall_impl; [exact Hall|].
  intros [k' r']. unfold le_rel, by_hour. simpl. lia.
Qed.

Lemma place_row_keys key rs :
  NoDup (od_keys rs) -> NoDup (od_keys (place_row key rs)) /\ key ∈ od_keys (place_row key rs).
Proof.
  intros Hnd. unfold place_row. destruct (od_get key rs) as [r|] eqn:Eg.
  { split; [done|]. apply list_elem_of_fmap. exists (key, r). split; [done|]. by apply od_get_elem. }
  assert (Hset : NoDup (od_keys (od_set key empty_row rs)) /\ key ∈ od_keys (od_set key empty_row rs)).
  { split; [by apply NoDup_od_set|]. rewrite od_set_absent by done.
    unfold od_keys. rewrite fmap_app. apply elem_of_app. right. left. }
  destruct (last rs) as [[newest r]|]; [|done]. destruct (_ <? _); [|done].
  rewrite od_set_absent in Hset by done.
  unfold od_keys in *. rewrite (py_sorted_perm by_hour). done.
Qed.

Lemma sorted_snoc rs key r :
  hours_sorted rs -> (forall k' r', last rs = Some (k', r') -> key_hour k' <= key_hour key) ->
  hours_sorted (rs ++ [(key, r)]).
Proof.
  unfold hours_sorted, od_keys. intros Hs Hlast. rewrite !fmap_app. simpl.
  apply StronglySorted_app_2; [|done|repeat constructor].
  intros h1 h2 Hin ->%list_elem_of_singleton.
  destruct rs as [|x rs _] using rev_ind; [set_solver|].
  destruct x as [k' r']. specialize (Hlast k' r'). rewrite last_snoc in Hlast. specialize (Hlast eq_refl).
  rewrite !fmap_app in Hs, Hin. simpl in *. apply elem_of_app in Hin as [Hin|Hin].
  - eapply StronglySorted_app_1_elem_of in Hs; [|exact Hin|by left]. lia.
  - apply list_elem_of_singleton in Hin as ->. done.
Qed.

Lemma place_row_sorted key rs : hours_sorted rs -> hours_sorted (place_row key rs).
Proof.
  intros Hs. unfold place_row. destruct (od_get key rs) eqn:Eg; [done|].
  destruct (last rs) as [[newest r]|] eqn:El.
  - destruct (_ <? _) eqn:Ec.
    + apply hours_sorted_rel, py_sorted_sorted; unfold by_hour; intros; lia.
    + rewrite od_set_absent by done. apply sorted_snoc; [done|]. intros. simplify_eq. lia.
  - rewrite od_set_absent by done. apply sorted_snoc; [done|]. intros. simplify_eq.
Qed.

Lemma hours_sorted_set key r rs : key ∈ od_keys rs -> hours_sorted rs -> hours_sorted (od_set key r rs).
Proof. intros Hin. unfold hours_sorted. rewrite od_keys_set. by rewrite decide_True. Qed.

Lemma prune_suffix cutoff max rs :
  exists dropped, rs = dropped ++ prune_rows cutoff max rs /\
    (Z.of_nat (length rs) <= max -> Forall (fun kr => inject_Z (key_hour kr.1) < cutoff)%Q dropped).
Proof.
  induction rs as [|[k r] rs IH]; cbn [prune_rows]; [by exists []|]. case_match eqn:E.
  - destruct IH as (d & Heq & Hd). exists ((k, r) :: d). split; [simpl; congruence|].
    intros Hlen. constructor; [|apply Hd; cbn [length] in Hlen; lia].
    apply orb_true_iff in E as [E|E]; [by fprops|lia].
  - by exists [].
Qed.

Lemma prune_bounds cutoff max rs :
  0 <= max -> hours_sorted rs ->
  Z.of_nat (length (prune_rows cutoff max rs)) <= max /\
  Forall (fun kr => cutoff <= inject_Z (key_hour kr.1))%Q (prune_rows cutoff max rs).
Proof.
  intros Hm. induction rs as [|[k r] rs IH]; intros Hs; cbn [prune_rows]; [by split|].
  unfold hours_sorted, od_keys in *. rewrite !fmap_cons in Hs. apply StronglySorted_inv in Hs as [Hs Hall].
  case_match eqn:E; [by apply IH|]. fprops. split; [lia|]. simpl in *.
  constructor; [done|]. rewrite !Forall_fmap in Hall. eapply Forall_impl; [exact Hall|].
  intros [k' r'] Hk. simpl in *. assert (inject_Z (key_hour k) <= inject_Z (key_hour k'))%Q by (by rewrite <- Zle_Qle).
  lra.
Qed.

Lemma place_row_total f delta key rs : additive f delta -> row_total f (place_row key rs) = row_total f rs.
Proof.
  intros [H0 _]. unfold place_row. destruct (od_get key rs) eqn:Eg; [done|].
  assert (Hs : forall rs', rs' ≡ₚ rs ++ [(key, empty_row)] -> row_total f rs' = row_total f rs).
  { intros rs' Hp. rewrite (row_total_perm f _ _ Hp), row_total_app. unfold row_total at 2. simpl. lia. }
  destruct (last rs) as [[newest r]|]; [case_match|]; apply Hs; rewrite ?od_set_absent by done; try done.
  apply py_sorted_perm.
Qed.

Lemma length_place_row key rs : (length (place_row key rs) <= S (length rs))%nat.
Proof.
  unfold place_row. repeat case_match; try lia; rewrite ?length_py_sorted, ?length_app; simpl; try lia.
  all: apply length_od_set_le.
Qed.

Record ledger_ok (l : UsageLedger) : Prop := {
  ledger_sorted : hours_sorted (rows l);
  ledger_keys : NoDup (od_keys (rows l));
  ledger_size : Z.of_nat (length (rows l)) <= max_rows l;
  ledger_max : 1 <= max_rows l }.

Lemma record_rows now now_p subj prov model tin tout cost reqs l :
  let key := (hour_of now, subj, prov, model) in
  ledger_ok l ->
  exists rs, rows (record now now_p subj prov model tin tout cost reqs l) =
      prune_rows (now_p - inject_Z (retention_seconds l)) (max_rows l) rs /\
    hours_sorted rs /\ NoDup (od_keys rs) /\ (length rs <= S (length (rows l)))%nat /\
    forall f delta, additive f delta ->
      row_total f rs = row_total f (rows l) + delta reqs (Z.max 0 (default 0 tin)) (Z.max 0 (default 0 tout)).
Proof.
  intros key [Hs Hnd Hz Hm].
  exists (od_set key (add_usage (default empty_row (od_get key (place_row key (rows l)))) reqs
    (Z.max 0 (default 0 tin)) (Z.max 0 (default 0 tout)) (fmax 0 (default 0%Q cost))) (place_row key (rows l))).
  split; [reflexivity|].
  pose proof (place_row_keys key (rows l) Hnd) as [Hnd' Hin]. split_and!.
  - apply hours_sorted_set, place_row_sorted; done.
  - by apply NoDup_od_set.
  - pose proof (length_place_row key (rows l)) as Hl.
    by rewrite length_od_set_present.
  - intros f delta Hf. rewrite (row_total_bump f delta) by done. by rewrite (place_row_total f delta).
Qed.

Lemma record_ok now now_p subj prov model tin tout cost reqs l :
  ledger_ok l -> ledger_ok (record now now_p subj prov model tin tout cost reqs l).
Proof.
  intros Hok. destruct (record_rows now now_p subj prov model tin tout cost reqs l Hok)
    as (rs & Hr & Hs & Hnd & _). pose proof (ledger_max l Hok) as Hm.
  destruct (prune_suffix (now_p - inject_Z (retention_seconds l)) (max_rows l) rs) as (d & Hd & _).
  assert (Hsub : od_keys rs = od_keys d ++ od_keys (prune_rows (now_p - inject_Z (retention_seconds l)) (max_rows l) rs)).
  { unfold od_keys. by rewrite <- fmap_app, <- Hd. }
  split; rewrite ?Hr.
  - unfold hours_sorted in *. rewrite Hsub, fmap_app in Hs. by apply StronglySorted_app_1_r in Hs.
  - rewrite Hsub in Hnd. by apply NoDup_app in Hnd as (_ & _ & ?).
  - change (max_rows (record _ _ _ _ _ _ _ _ _ l)) with (max_rows l). apply prune_bounds; [lia|done].
  - done.
Qed.

(** ** Lemmas on reports *)
Definition matching (subject : option string) (since until : option Q) (rs : list (row_key * _Row)) :=
  List.filter (fun kr => in_report subject since until kr.1) rs.

Lemma aggregate_total f delta size g subject since until rs agg :
  additive f delta -> (forall r, delta (requests r) (input_tokens r) (output_tokens r) = f r) ->
  row_total f (fold_left (aggregate_row size g subject since until) rs agg) =
  row_total f agg + row_total f (matching subject since until rs).
Proof.
  intros Hf Hd. revert agg. induction rs as [|[k r] rs IH]; intros agg; simpl; [lia|].
  rewrite IH. unfold matching. simpl. destruct (in_report subject since until k) eqn:E; simpl; [|done].
  rewrite (row_total_bump f delta), Hd by done. lia.
Qed.

Lemma aggregate_keys size g subject since until rs agg :
  NoDup (od_keys agg) -> NoDup (od_keys (fold_left (aggregate_row size g subject since until) rs agg)).
Proof.
  revert agg. induction rs as [|[k r] rs IH]; intros agg Hnd; simpl; [done|].
  apply IH. case_match; auto with pydict.
Qed.

Lemma strings_leb_total a b : strings_leb a b = true \/ strings_leb b a = true.
Proof.
  revert b. induction a as [|x a IH]; intros [|y b]; simpl; auto.
  destruct (decide (x = y)) as [->|Hne]; [by rewrite decide_True|].
  rewrite decide_False by done. pose proof (total String.le x y) as [H|H]; [left|right]; by apply Is_true_true.
Qed.

Lemma strings_leb_trans a b c : strings_leb a b = true -> strings_leb b c = true -> strings_leb a c = true.
Proof.
  revert b c. induction a as [|x a IH]; intros [|y b] [|z c]; simpl; try done.
  destruct (decide (x = y)) as [->|Hxy], (decide (y = z)) as [->|Hyz]; rewrite ?decide_True, ?decide_False by done; eauto.
  intros H1%Is_true_true H2%Is_true_true. case_decide as Hxz.
  - subst. exfalso. apply Hxy. apply (anti_symm String.le); done.
  - apply Is_true_true. by apply (transitivity (R := String.le) (y := y)).
Qed.

Lemma group_leb_total x y : group_leb x y = true \/ group_leb y x = true.
Proof.
  destruct x as [[p g] r], y as [[p' g'] r']. simpl.
  destruct (Z.eqb_spec p p') as [->|]; [rewrite Z.eqb_refl; apply strings_leb_total|].
  replace (p' =? p) with false by lia. lia.
Qed.

Lemma group_leb_trans x y z : group_leb x y = true -> group_leb y z = true -> group_leb x z = true.
Proof.
  destruct x as [[p g] r], y as [[p' g'] r'], z as [[p'' g''] r'']. simpl.
  destruct (Z.eqb_spec p p') as [->|], (Z.eqb_spec p' p'') as [->|];
    rewrite ?Z.eqb_refl; try (case_match; lia); eauto using strings_leb_trans.
Qed.

Lemma report_shape subject since until bucket g l out :
  report subject since until bucket g l = Ok out ->
  exists size, od_get bucket BUCKETS = Some size /\
    out = item_of g <$> py_sorted group_leb
            (fold_left (aggregate_row (bucket_seconds size) g subject since until) (rows l) []).
Proof.
  unfold report. destruct (od_get bucket BUCKETS) as [size|]; [|done]. intros H. exists size. split; [done|].
  repeat (case_match; try done). all: by injection H.
Qed.

(** One call of [record] with its clock readings. *)
Record usage_call := mkCall {
  u_now : Q; u_prune : Q; u_subject : string; u_provider : string; u_model : string;
  u_in : option Z; u_out : option Z; u_cost : option Q; u_requests : Z }.
Definition do_record (l : UsageLedger) (u : usage_call) : UsageLedger :=
  record (u_now u) (u_prune u) (u_subject u) (u_provider u) (u_model u) (u_in u) (u_out u) (u_cost u) (u_requests u) l.

Lemma new_ledger_ok r m l : new_ledger r m = Ok l -> ledger_ok l.
Proof.
  unfold new_ledger. repeat (case_match; [done|]). intros [= <-].
  split; simpl; [constructor | constructor | lia | lia].
Qed.

Lemma run_records_ok us l : ledger_ok l -> ledger_ok (fold_left do_record us l).
Proof. revert l. induction us as [|u us IH]; intros l Hl; simpl; [done|]. by apply IH, record_ok. Qed.

(** ** Properties *)

(** C39: from the constructor on, whatever order the clock readings come in,
    the rows stay sorted by hour with one row per key, never exceed [max_rows],
    and right after a record none is older than the retention period. *)
Theorem ledger_bounded r m l us u :
  new_ledger r m = Ok l ->
  let l' := do_record (fold_left do_record us l) u in
  ledger_ok l' /\
  Forall (fun kr => u_prune u - inject_Z (retention_seconds l') <= inject_Z (key_hour kr.1))%Q (rows l').
Proof.
  intros Hnew. apply new_ledger_ok, (run_records_ok us) in Hnew. set (l1 := fold_left do_record us l) in *.
  intros l'. split; [by apply record_ok|].
  destruct (record_rows (u_now u) (u_prune u) (u_subject u) (u_provider u) (u_model u) (u_in u) (u_out u)
              (u_cost u) (u_requests u) l1 Hnew) as (rs & Hr & Hs & _).
  unfold l', do_record. rewrite Hr. pose proof (ledger_max l1 Hnew).
  apply prune_bounds; [lia|done].
Qed.

Definition demo_calls : list usage_call :=
  [mkCall 9000 9000 "team" "openai" "gpt" (Some 5) (Some 7) (Some (1 # 2)) 1;
   mkCall 1000 9000 "team" "openai" "gpt" None (Some 1) None 1].

Lemma ledger_bounded_witness :
  ledger_ok (do_record (fold_left do_record demo_calls (mkLedger 9000 3 []))
    (mkCall 9500 9500 "team" "openai" "gpt" (Some 5) None None 1)).
Proof.
  apply (ledger_bounded 9000 3 (mkLedger 9000 3 []) demo_calls
    (mkCall 9500 9500 "team" "openai" "gpt" (Some 5) None None 1)).
  reflexivity.
Defined.

(** a record adds exactly its requests and its non-negative token counts
    to the ledger's totals; what pruning removes is a prefix of the oldest rows,
    all past the retention period as long as the ledger has room for one more row. *)
Theorem record_accounts now now_p subj prov model tin tout cost reqs l :
  ledger_ok l ->
  let l' := record now now_p subj prov model tin tout cost reqs l in
  exists dropped, hours_sorted (dropped ++ rows l') /\
    (forall f delta, additive f delta ->
       row_total f dropped + row_total f (rows l')
       = row_total f (rows l) + delta reqs (Z.max 0 (default 0 tin)) (Z.max 0 (default 0 tout))) /\
    (Z.of_nat (length (rows l)) < max_rows l ->
       Forall (fun kr => inject_Z (key_hour kr.1) < now_p - inject_Z (retention_seconds l))%Q dropped).
Proof.
  intros Hok l'.
  destruct (record_rows now now_p subj prov model tin tout cost reqs l Hok) as (rs & Hr & Hs & Hnd & Hlen & Htot).
  destruct (prune_suffix (now_p - inject_Z (retention_seconds l)) (max_rows l) rs) as (d & Hd & Hold).
  fold l' in Hr. rewrite <- Hr in Hd. exists d. rewrite <- Hd. split_and!; [done| |].
  - intros f delta Hf. rewrite <- row_total_app, <- Hd. by apply Htot.
  - intros Hroom. apply Hold. lia.
Qed.

Lemma record_accounts_witness :
  exists dropped, hours_sorted (dropped ++ rows (record 7300 7300 "t" "p" "m" (Some 3) None None 2 (mkLedger 9000 3 []))).
Proof.
  assert (Hok : ledger_ok (mkLedger 9000 3 [])) by (apply (new_ledger_ok 9000 3); reflexivity).
  destruct (record_accounts 7300 7300 "t" "p" "m" (Some 3) None None 2 (mkLedger 9000 3 []) Hok) as (d & Hd & _).
  exists d. exact Hd.
Defined.

(** a report loses and invents nothing: its rows have distinct keys in
    ascending order, and their requests and tokens add up to those of exactly
    the stored rows that pass the filters, however they are grouped. *)
Theorem report_conserves subject since until bucket g l out :
  report subject since until bucket g l = Ok out ->
  exists groups, out = item_of g <$> groups /\ NoDup (od_keys groups) /\
    StronglySorted (le_rel group_leb) groups /\
    fold_right (fun i n => item_requests i + n) 0 out = row_total requests (matching subject since until (rows l)) /\
    fold_right (fun i n => item_input i + n) 0 out = row_total input_tokens (matching subject since until (rows l)) /\
    fold_right (fun i n => item_output i + n) 0 out = row_total output_tokens (matching subject since until (rows l)).
Proof.
  intros Hrep. apply report_shape in Hrep as (size & _ & ->).
  set (agg := fold_left _ _ _). exists (py_sorted group_leb agg). split; [done|].
  assert (Hsum : forall f delta (g0 : report_item -> Z), additive f delta ->
      (forall r, delta (requests r) (input_tokens r) (output_tokens r) = f r) ->
      (forall ga, g0 (item_of g ga) = f ga.2) ->
      fold_right (fun i n => g0 i + n) 0 (item_of g <$> py_sorted group_leb agg)
      = row_total f (matching subject since until (rows l))).
  { intros f delta g0 Hf Hd Hg0.
    assert (Hagg : row_total f agg = row_total f (matching subject since until (rows l))).
    { unfold agg. by rewrite (aggregate_total f delta). }
    rewrite <- Hagg, <- (row_total_perm f _ _ (py_sorted_perm group_leb agg)).
    generalize (py_sorted group_leb agg). intros gs. induction gs as [|ga gs IH]; simpl; [done|].
    rewrite Hg0. f_equal. exact IH. }
  split_and!.
  - unfold od_keys. rewrite (py_sorted_perm group_leb). apply aggregate_keys. constructor.
  - apply py_sorted_sorted; [apply group_leb_total | apply group_leb_trans].
  - apply (Hsum requests (fun q _ _ => q)); [apply requests_additive | done | by intros [[] ?]].
  - apply (Hsum input_tokens (fun _ i _ => i)); [apply input_additive | done | by intros [[] ?]].
  - apply (Hsum output_tokens (fun _ _ o => o)); [apply output_additive | done | by intros [[] ?]].
Qed.

Lemma report_conserves_witness :
  let l := fold_left do_record demo_calls (mkLedger 9000 3 []) in
  exists out groups, report (Some "team") None None "day" ["model"] l = Ok out /\
    out = item_of ["model"] <$> groups /\ NoDup (od_keys groups).
Proof.
  intros l.
  destruct (report_conserves (Some "team") None None "day" ["model"] l _ eq_refl) as (groups & H1 & H2 & _).
  eexists _, groups. split; [reflexivity|]. split; [exact H1 | exact H2].
Defined.
