(* ===== verification/Yaml.v ===== *)
(** Shared by the configuration loaders: the Python objects [yaml.safe_load]
    and [json.loads] produce, floats that may be infinite or not-a-number, and
    the type tests the validators make. *)
From S2P Require Import Prelude Errors.

Inductive xfloat := Fin (q : Q) | PInf | NInf | NaN.

Inductive yaml :=
| YNull
| YBool (b : bool)
| YInt (z : Z)
| YFloat (f : xfloat)
| YStr (s : string)
| YList (l : list yaml)
| YMap (m : list (yaml * yaml))
| YOther (s : string).           (* dates and the like, by their [str()] *)

(** [bool(v)] *)
Definition xtruthy (f : xfloat) : bool := match f with Fin q => negb (Qeq_bool q 0) | _ => true end.
Definition ytruthy (v : yaml) : bool :=
  match v with
  | YNull => false
  | YBool b => b
  | YInt z => negb (z =? 0)
  | YFloat f => xtruthy f
  | YStr s => negb (bool_decide (s = EmptyString))
  | YList l => match l with [] => false | _ => true end
  | YMap m => match m with [] => false | _ => true end
  | YOther _ => true
  end.

(** [m.get(key)] and [key in m] for a text key. *)
Fixpoint yget (key : string) (m : list (yaml * yaml)) : option yaml :=
  match m with
  | [] => None
  | (YStr s, v) :: m' => if decide (key = s) then Some v else yget key m'
  | _ :: m' => yget key m'
  end.

(** [m.keys() - fields], in the mapping's order. *)
Definition unknown_keys (fields : list string) (m : list (yaml * yaml)) : list yaml :=
  List.filter (fun k => match k with YStr s => negb (bool_decide (s ∈ fields)) | _ => true end) (od_keys m).

Definition int_nonneg (v : yaml) : option Z :=
  match v with YInt z => if 0 <=? z then Some z else None | _ => None end.
Definition int_pos (v : yaml) : option Z :=
  match v with YInt z => if 0 <? z then Some z else None | _ => None end.

(** [str(v)] of a value that is not text is Python's own rendering. *)
Class PyStr := { py_repr : yaml -> string }.
Definition py_str `{PyStr} (v : yaml) : string := match v with YStr s => s | _ => py_repr v end.

(** A config error list joined as the loaders raise it. *)
Definition joined (errors : list string) : string := String.concat "; " errors.

Lemma int_nonneg_pos v z : int_nonneg v = Some z -> 0 <= z.
Proof. destruct v; simpl; try done. case_match eqn:E; intros [= <-]. lia. Qed.

Lemma int_pos_pos v z : int_pos v = Some z -> 1 <= z.
Proof. destruct v; simpl; try done. case_match eqn:E; intros [= <-]. lia. Qed.

(** A loader's own subclass of [ValueError]. *)
Definition value_error (cls msg : string) : exn :=
  plain_exn (COther [cls; "ValueError"; "Exception"; "BaseException"; "object"] false false) ANone msg.

(** [data or {}], and the test that what is left is a mapping. *)
Definition as_mapping (v : yaml) : option (list (yaml * yaml)) :=
  if ytruthy v then match v with YMap m => Some m | _ => None end else Some [].

(** ** Float operations on values that may be infinite or NaN *)
Definition xadd (a b : xfloat) : xfloat :=
  match a, b with
  | NaN, _ | _, NaN => NaN
  | Fin x, Fin y => Fin (x + y)%Q
  | PInf, NInf | NInf, PInf => NaN
  | PInf, _ | _, PInf => PInf
  | NInf, _ | _, NInf => NInf
  end.
(** [a / b] for a divisor that is not zero. *)
Definition xdiv (a b : xfloat) : xfloat :=
  match a, b with
  | NaN, _ | _, NaN => NaN
  | Fin x, Fin y => Fin (x / y)%Q
  | Fin _, _ => Fin 0
  | PInf, Fin y => if 0%Q <. y then PInf else NInf
  | NInf, Fin y => if 0%Q <. y then NInf else PInf
  | _, _ => NaN
  end.
(** [a < q], [a <= q] and [a == q] for a finite [q]. *)
Definition xltq (a : xfloat) (q : Q) : bool := match a with Fin x => x <. q | NInf => true | _ => false end.
Definition xleq (a : xfloat) (q : Q) : bool := match a with Fin x => x <=. q | NInf => true | _ => false end.
Definition xeqq (a : xfloat) (q : Q) : bool := match a with Fin x => Qeq_bool x q | _ => false end.

(** [float(z)] of an [int]: the largest magnitudes overflow. *)
Definition FLOAT_LIMIT : Z := 2 ^ 1024 - 2 ^ 970.
Definition int_to_float (z : Z) : option Q := if Z.abs z <? FLOAT_LIMIT then Some (inject_Z z) else None.
Definition float_overflow : exn :=
  plain_exn (COther ["OverflowError"; "ArithmeticError"; "Exception"; "BaseException"; "object"] false false) ANone
    "int too large to convert to float".
(** A float result whose magnitude is past the largest float is infinite. *)
Definition xround (a : xfloat) : xfloat :=
  match a with
  | Fin q => if inject_Z FLOAT_LIMIT <=. q then PInf else if q <=. inject_Z (- FLOAT_LIMIT) then NInf else a
  | _ => a
  end.

(** [float(v)], where [v] passes [not isinstance(v, bool) and isinstance(v,
    (int, float)) and math.isfinite(v) and v >= 0]; [math.isfinite] raises for an
    [int] that no float can hold. *)
Definition finite_nonneg (v : yaml) : res exn (option Q) :=
  match v with
  | YInt z => match int_to_float z with
              | Some q => Ok (if 0 <=? z then Some q else None)
              | None => Raise float_overflow
              end
  | YFloat (Fin q) => Ok (if 0%Q <=. q then Some q else None)
  | _ => Ok None
  end.

Lemma finite_nonneg_pos v q : finite_nonneg v = Ok (Some q) -> (0 <= q)%Q.
Proof.
  destruct v as [|b|z|[x| | |]| | | |]; simpl; try done; unfold int_to_float.
  - destruct (Z.abs z <? FLOAT_LIMIT); [|done]. destruct (0 <=? z) eqn:E; [|done]. intros [= <-].
    change 0%Q with (inject_Z 0). rewrite <- Zle_Qle. lia.
  - destruct (0%Q <=. x) eqn:E; [|done]. intros [= <-]. by fprops.
Qed.
Lemma finite_nonneg_raise v e : finite_nonneg v = Raise e -> e = float_overflow.
Proof. destruct v as [|b|z|[]| | | |]; simpl; try done. case_match; [done|]. by intros [= <-]. Qed.

(** What [open] and [yaml.safe_load] may raise: an [OSError] or a [YAMLError],
    by its text, which the loaders turn into their own error; and anything else
    (a [UnicodeDecodeError], a [ValueError] for a date that is not one), which
    they let through. *)
Inductive read_error := Unreadable (why : string) | Escaping (e : exn).

(** Python can sort keys that are all text or all numbers; two keys of
    different kinds, or two of the kinds without an order, raise [TypeError]. *)
Definition numeric (v : yaml) : bool := match v with YBool _ | YInt _ | YFloat _ => true | _ => false end.
Definition textual (v : yaml) : bool := match v with YStr _ => true | _ => false end.
Definition sortable (ks : list yaml) : bool :=
  match ks with [] | [_] => true | _ => forallb numeric ks || forallb textual ks end.
Definition xlt (a b : xfloat) : bool :=
  match a, b with
  | NaN, _ | _, NaN => false
  | Fin x, Fin y => x <. y
  | NInf, NInf => false
  | NInf, _ | Fin _, PInf => true
  | _, _ => false
  end.
Definition number_of (v : yaml) : xfloat :=
  match v with YBool b => Fin (if b then 1 else 0) | YInt z => Fin (inject_Z z) | YFloat f => f | _ => NaN end.
(** The order [sorted] uses on such keys (a NaN key is left where it is). *)
Definition key_leb (a b : yaml) : bool :=
  match a, b with YStr s, YStr t => String.leb s t | _, _ => negb (xlt (number_of b) (number_of a)) end.
