(* ===== verification/Budgets.v ===== *)
(** Component: spend and usage budgets ([src/src/coreai/budgets.py]).

    A usage record is mutated in place by the source while it sits in the
    manager's dictionary; [put] writes it back under its key. The [on_alert]
    callback is the list of events it received ([alerts]). A window start is
    the integer [w * floor(now / w)], the value of [now - (now % w)]. *)
From stdpp Require Import pretty.
From S2P Require Import Prelude Errors Yaml.
From Stdlib Require Import Ascii.

Definition WINDOWS : list (string * Z) := [("minute", 60); ("hour", 3600); ("day", 86400); ("week", 604800)].
Definition _FIELDS : list string := ["max_cost_usd"; "warn_cost_usd"; "max_requests"; "max_tokens"; "window"].

Record BudgetLimits := mkLimits {
  max_cost_usd : option Q;
  warn_cost_usd : option Q;
  max_requests : option Z;
  max_tokens : option Z;
  window_seconds : Z }.
Definition BudgetLimits_default : BudgetLimits := mkLimits None None None None 86400.

Definition neg_q (o : option Q) : bool := match o with Some q => q <. 0%Q | None => false end.
Definition neg_z (o : option Z) : bool := match o with Some z => z <? 0 | None => false end.
Definition warn_above_max (warn max : option Q) : bool :=
  match warn, max with Some w, Some m => m <. w | _, _ => false end.

(** [__post_init__] *)
Definition new_limits (l : BudgetLimits) : res exn BudgetLimits :=
  if neg_q (max_cost_usd l) then Raise (ValueError "max_cost_usd must be a finite number >= 0 or None")
  else if neg_q (warn_cost_usd l) then Raise (ValueError "warn_cost_usd must be a finite number >= 0 or None")
  else if neg_z (max_requests l) then Raise (ValueError "max_requests must be an integer >= 0 or None")
  else if neg_z (max_tokens l) then Raise (ValueError "max_tokens must be an integer >= 0 or None")
  else if window_seconds l <? 1 then Raise (ValueError "window_seconds must be a positive integer")
  else if warn_above_max (warn_cost_usd l) (max_cost_usd l)
  then Raise (ValueError "warn_cost_usd must not exceed max_cost_usd")
  else Ok l.

Inductive alert_kind := Warning | Exceeded.
#[export] Instance alert_kind_eq_dec : EqDecision alert_kind.
Proof. solve_decision. Defined.

Record _Usage := mkUsage {
  window_start : Z; cost : Q; requests : Z; tokens : Z; alerted : list alert_kind }.
Definition fresh_usage (start : Z) : _Usage := mkUsage start 0 0 0 [].

Record alert_event := mkAlert {
  al_kind : alert_kind; al_is_model : bool; al_name : string;
  al_cost : Q; al_requests : Z; al_tokens : Z; al_window : Z;
  al_limit : string; al_bound : Q }.

Record BudgetManager := mkManager {
  dflt : option BudgetLimits;
  subjects : list (string * BudgetLimits);
  models : list (string * BudgetLimits);
  max_subjects : Z;
  usage : list (string * _Usage);
  rejections : Z;
  alerting : bool;                          (* [on_alert is not None] *)
  alerts : list alert_event }.

Definition new_manager (d : option BudgetLimits) (subjs mods : list (string * BudgetLimits)) (max : Z)
    : res exn BudgetManager :=
  if max <? 1 then Raise (ValueError "max_subjects must be a positive integer")
  else Ok (mkManager d subjs mods max [] 0 false []).

Definition with_usage (m : BudgetManager) (us : list (string * _Usage)) : BudgetManager :=
  mkManager (dflt m) (subjects m) (models m) (max_subjects m) us (rejections m) (alerting m) (alerts m).
Definition with_alerts (m : BudgetManager) (es : list alert_event) : BudgetManager :=
  mkManager (dflt m) (subjects m) (models m) (max_subjects m) (usage m) (rejections m) (alerting m) es.
Definition with_subjects (m : BudgetManager) (ss : list (string * BudgetLimits)) : BudgetManager :=
  mkManager (dflt m) ss (models m) (max_subjects m) (usage m) (rejections m) (alerting m) (alerts m).
Definition count_rejection (m : BudgetManager) : BudgetManager :=
  mkManager (dflt m) (subjects m) (models m) (max_subjects m) (usage m) (rejections m + 1) (alerting m) (alerts m).

(** Writing a mutated record back, if it is still in the dictionary. *)
Definition put (key : string) (u : _Usage) (m : BudgetManager) : BudgetManager :=
  if od_mem key (usage m) then with_usage m (od_set key u (usage m)) else m.

Definition NUL : Ascii.ascii := Ascii.Ascii false false false false false false false false.
Definition model_prefix : string := String.String NUL "model:".
Definition _model_key (model : string) : string := model_prefix +:+ model.

(** [key.split(":", 1)[1]] for a key holding a colon. *)
Fixpoint after_colon (s : string) : string :=
  match s with
  | String.EmptyString => EmptyString
  | String.String c s' => if Ascii.eqb c (Ascii.Ascii false true false true true true false false) then s' else after_colon s'
  end.

Definition _alert (key : string) (k : alert_kind) (u : _Usage) (limit : string) (bound : Q)
    (m : BudgetManager) : _Usage * BudgetManager :=
  if negb (alerting m) || bool_decide (k ∈ alerted u) then (u, m)
  else
    let u := mkUsage (window_start u) (cost u) (requests u) (tokens u) (k :: alerted u) in
    let is_model := str_prefix model_prefix key in
    let event := mkAlert k is_model (if is_model then after_colon key else key)
                   (py_round 6 (cost u)) (requests u) (tokens u) (window_start u) limit bound in
    (u, with_alerts (put key u m) (alerts m ++ [event])).

Definition _warn_check (key : string) (limits : BudgetLimits) (u : _Usage) (m : BudgetManager) : BudgetManager :=
  match warn_cost_usd limits with
  | Some w => if w <=. cost u then snd (_alert key Warning u "warn_cost_usd" w m) else m
  | None => m
  end.

Definition limits_for (subject : string) (m : BudgetManager) : option BudgetLimits :=
  match od_get subject (subjects m) with Some l => Some l | None => dflt m end.

Definition set_limits (subject : string) (l : BudgetLimits) (m : BudgetManager) : BudgetManager :=
  with_usage (with_subjects m (od_set subject l (subjects m))) (od_del subject (usage m)).

Definition remove_limits (subject : string) (m : BudgetManager) : bool * BudgetManager :=
  let m := with_usage m (od_del subject (usage m)) in
  (od_mem subject (subjects m), with_subjects m (od_del subject (subjects m))).

Definition window_of (now : Q) (w : Z) : Z := w * Qfloor (now / inject_Z w).

(** The stored record, or a fresh one when the window has moved on. *)
Definition usage_at (start : Z) (stored : option _Usage) : _Usage :=
  match stored with
  | Some u => if window_start u =? start then u else fresh_usage start
  | None => fresh_usage start
  end.

Definition _current (now : Q) (subject : string) (limits : BudgetLimits) (m : BudgetManager)
    : _Usage * BudgetManager :=
  let start := window_of now (window_seconds limits) in
  let u := usage_at start (od_get subject (usage m)) in
  let us := od_move_to_end subject (od_set subject u (usage m)) in
  (u, with_usage m (od_trim (Z.to_nat (max_subjects m)) us)).

(** One row of the [checks] tuple: does it block? *)
Definition blocks (used : Q) (cap : option Q) (extra : Q) : option Q :=
  match cap with
  | None => None
  | Some c => if (c <. used + extra)%Q || (Qeq_bool extra 0 && (c <=. used)) then Some c else None
  end.

(** [f"{q:g}"]: six significant digits, the nearest to [q] (ties to even),
    without trailing zeros, in scientific notation from 1e+06 and below 1e-04. *)
Definition digits (z : Z) : Z := Z.of_nat (String.length (pretty z)).
Definition rstrip_zeros (ds : list Ascii.ascii) : list Ascii.ascii :=
  let fix drop l := match l with c :: l' => if Ascii.eqb c "0"%char then drop l' else l | [] => [] end in rev (drop (rev ds)).
Definition dotted (int frac : list Ascii.ascii) : string :=
  String.string_of_list_ascii (int ++ match rstrip_zeros frac with [] => [] | f => "."%char :: f end).
Definition general_digits (exponent mantissa : Z) : string :=
  let ds := String.list_ascii_of_string (pretty mantissa) in
  if (-4 <=? exponent) && (exponent <? 6) then
    if exponent <? 0 then dotted ["0"%char] (repeat "0"%char (Z.to_nat (- exponent - 1)) ++ ds)
    else dotted (firstn (Z.to_nat (exponent + 1)) ds) (skipn (Z.to_nat (exponent + 1)) ds)
  else
    let e := pretty (Z.abs exponent) in
    dotted (firstn 1 ds) (skipn 1 ds) +:+ "e" +:+ (if exponent <? 0 then "-" else "+")
      +:+ (if (String.length e <? 2)%nat then "0" else "") +:+ e.
Definition show_positive (n d : Z) : string :=
  let exponent := if d <=? n then digits (n / d) - 1 else - digits ((d - 1) / n) in
  let mantissa := round_half_even (inject_Z n / inject_Z d *
                    (if exponent <=? 5 then inject_Z (10 ^ (5 - exponent)) else / inject_Z (10 ^ (exponent - 5)))) in
  if mantissa =? 10 ^ 6 then general_digits (exponent + 1) (10 ^ 5) else general_digits exponent mantissa.
Definition show_general (q : Q) : string :=
  let n := Qnum q in
  if n =? 0 then "0" else (if n <? 0 then "-" else "") +:+ show_positive (Z.abs n) (Zpos (Qden q)).

Example show_general_ok :
  show_general <$> [5; 5 # 4; 1000000; 999999.5; 123456.5; 1 # 1000; 1 # 10000; 1 # 100000; 100000; - (1 # 3); 0.99999951; 1 # 1]%Q
  = ["5"; "1.25"; "1e+06"; "1e+06"; "123456"; "0.001"; "0.0001"; "1e-05"; "100000"; "-0.333333"; "1"; "1"].
Proof. reflexivity. Qed.

Definition BudgetExceeded (limit : string) (used cap retry : Q) : exn :=
  plain_exn (CBudgetExceeded limit used cap retry) (AFloat retry)
    (limit +:+ " limit reached (" +:+ show_general used +:+ " of " +:+ show_general cap +:+ ")").

Definition first_block (limits : BudgetLimits) (u : _Usage) (estimated_cost : Q) : option (string * Q * Q) :=
  match blocks (inject_Z (requests u)) (inject_Z <$> max_requests limits) 1 with
  | Some c => Some ("requests", inject_Z (requests u), c)
  | None =>
    match blocks (inject_Z (tokens u)) (inject_Z <$> max_tokens limits) 0 with
    | Some c => Some ("tokens", inject_Z (tokens u), c)
    | None =>
      match blocks (cost u) (max_cost_usd limits) estimated_cost with
      | Some c => Some ("cost_usd", cost u, c)
      | None => None
      end
    end
  end.

(** [_check]: the clock is read by [_current] and again for [retry]. *)
Definition _check (now now_r : Q) (subject : string) (limits : BudgetLimits) (estimated_cost : Q)
    (m : BudgetManager) : res exn unit * BudgetManager :=
  let '(u, m) := _current now subject limits m in
  let retry := fmax 1 (inject_Z (window_start u) + inject_Z (window_seconds limits) - now_r)%Q in
  match first_block limits u estimated_cost with
  | Some (name, used, cap) =>
    let m := snd (_alert subject Exceeded u name cap (count_rejection m)) in
    (Raise (BudgetExceeded name used cap retry), m)
  | None => (Ok tt, m)
  end.

Definition check (now now_r : Q) (subject : string) (estimated_cost : Q) (m : BudgetManager)
    : res exn unit * BudgetManager :=
  match limits_for subject m with
  | None => (Ok tt, m)
  | Some l => _check now now_r subject l estimated_cost m
  end.

Definition check_model (now now_r : Q) (model : option string) (m : BudgetManager) : res exn unit * BudgetManager :=
  let name := default EmptyString model in
  match od_get name (models m) with
  | Some l => _check now now_r (_model_key name) l 0 m
  | None => (Ok tt, m)
  end.

Definition bump (u : _Usage) (n : Z) (c : option Q) (t : option Z) : _Usage :=
  mkUsage (window_start u) (cost u + fmax 0 (default 0%Q c))%Q (requests u + n)
          (tokens u + Z.max 0 (default 0 t)) (alerted u).

(** The shared tail of [record], [record_model] and [add_usage]. *)
Definition charge (now : Q) (key : string) (limits : BudgetLimits) (n : Z) (c : option Q) (t : option Z)
    (m : BudgetManager) : BudgetManager :=
  let '(u, m) := _current now key limits m in
  let u := bump u n c t in
  _warn_check key limits u (put key u m).

Definition record (now : Q) (subject : string) (c : option Q) (t : option Z) (m : BudgetManager) : BudgetManager :=
  match limits_for subject m with None => m | Some l => charge now subject l 1 c t m end.

Definition add_usage (now : Q) (subject : string) (c : option Q) (t : option Z) (m : BudgetManager) : BudgetManager :=
  match limits_for subject m with None => m | Some l => charge now subject l 0 c t m end.

Definition record_model (now : Q) (model : option string) (c : option Q) (t : option Z) (n : Z)
    (m : BudgetManager) : BudgetManager :=
  let name := default EmptyString model in
  match od_get name (models m) with
  | None => m
  | Some l => charge now (_model_key name) l n c t m
  end.

Record budget_status := mkStatus {
  st_window : Z; st_resets : Q; st_used : Q * Z * Z;
  st_limits : option Q * option Z * option Z; st_warning : bool }.

Definition status (now now_r : Q) (subject : string) (m : BudgetManager) : option budget_status * BudgetManager :=
  match limits_for subject m with
  | None => (None, m)
  | Some l =>
    let '(u, m) := _current now subject l m in
    (Some (mkStatus (window_seconds l)
             (py_round 1 (inject_Z (window_start u) + inject_Z (window_seconds l) - now_r)%Q)
             (py_round 6 (cost u), requests u, tokens u)
             (max_cost_usd l, max_requests l, max_tokens l)
             (match warn_cost_usd l with Some w => w <=. cost u | None => false end)), m)
  end.

Definition stats (m : BudgetManager) : Z * Z := (Z.of_nat (length (usage m)), rejections m).

(** ** Loading limits from YAML *)
Section Loading.
Context `{PyStr}.

Definition parse_cost (raw : list (yaml * yaml)) (where_ key : string) (base : option Q) : res exn (option Q * list string) :=
  match yget key raw with
  | None => Ok (base, [])
  | Some v =>
    q ← finite_nonneg v;
    Ok match q with
       | Some q => (Some q, [])
       | None => (base, [where_ +:+ "." +:+ key +:+ ": must be a finite number >= 0"])
       end
  end.

Definition parse_count (raw : list (yaml * yaml)) (where_ key : string) (base : option Z) : option Z * list string :=
  match yget key raw with
  | None => (base, [])
  | Some v => match int_nonneg v with
              | Some z => (Some z, [])
              | None => (base, [where_ +:+ "." +:+ key +:+ ": must be an integer >= 0"])
              end
  end.

Definition parse_window (raw : list (yaml * yaml)) (where_ : string) (base : Z) : Z * list string :=
  match yget "window" raw with
  | None => (base, [])
  | Some v =>
    let named := match v with YStr s => od_get s WINDOWS | _ => None end in
    match named with
    | Some w => (w, [])
    | None =>
      match int_pos v with
      | Some w => (w, [])
      | None => (base, [where_ +:+ ".window: use one of ['day', 'hour', 'minute', 'week'] or seconds > 0"])
      end
    end
  end.

(** The validated limits and the problems found, [base] filling the gaps. *)
Definition _parse (raw : yaml) (where_ : string) (base : BudgetLimits) : res exn (BudgetLimits * list string) :=
  match raw with
  | YMap fields =>
    let unknown := (fun k => where_ +:+ ": unknown field '" +:+ py_str k +:+ "'") <$> unknown_keys _FIELDS fields in
    '(max_c, e1) ← parse_cost fields where_ "max_cost_usd" (max_cost_usd base);
    '(warn_c, e2) ← parse_cost fields where_ "warn_cost_usd" (warn_cost_usd base);
    let '(max_r, e3) := parse_count fields where_ "max_requests" (max_requests base) in
    let '(max_t, e4) := parse_count fields where_ "max_tokens" (max_tokens base) in
    let '(win, e5) := parse_window fields where_ (window_seconds base) in
    let above := warn_above_max warn_c max_c in
    let e6 := if above then [where_ +:+ ": warn_cost_usd is above max_cost_usd"] else [] in
    let warn_c := if above then None else warn_c in
    l ← new_limits (mkLimits max_c warn_c max_r max_t win);
    Ok (l, unknown ++ e1 ++ e2 ++ e3 ++ e4 ++ e5 ++ e6)
  | _ => Ok (base, [where_ +:+ ": must be a mapping"])
  end.

(** One section ([subjects] or [models]): its entries in order. *)
Fixpoint parse_section (section : string) (base : BudgetLimits) (entries : list (yaml * yaml))
    (acc : list (string * BudgetLimits)) (errors : list string)
    : res exn (list (string * BudgetLimits) * list string) :=
  match entries with
  | [] => Ok (acc, errors)
  | (name, raw) :: rest =>
    '(l, es) ← _parse raw (section +:+ "." +:+ py_str name) base;
    parse_section section base rest (od_set (py_str name) l acc) (errors ++ es)
  end.

Definition section_entries (data : list (yaml * yaml)) (section : string) : list (yaml * yaml) * list string :=
  match as_mapping (default YNull (yget section data)) with
  | Some m => (m, [])
  | None => ([], [section +:+ ": must be a mapping"])
  end.

Definition parse_default (data : list (yaml * yaml)) : res exn (option BudgetLimits * list string) :=
  match yget "default" data with
  | None => Ok (None, [])
  | Some raw => '(l, es) ← _parse raw "default" BudgetLimits_default; Ok (Some l, es)
  end.

(** [load_budgets] on what reading the file gives. *)
Definition load_budgets (read : res read_error yaml) (max : Z) : res exn BudgetManager :=
  match read with
  | Raise (Unreadable why) => Raise (value_error "BudgetConfigError" ("cannot read " +:+ why))
  | Raise (Escaping e) => Raise e
  | Ok doc =>
    match as_mapping doc with
    | None => Raise (value_error "BudgetConfigError" "top level must be a mapping")
    | Some data =>
      let e0 := (fun k => "unknown top-level key '" +:+ py_str k +:+ "'") <$>
                  unknown_keys ["default"; "subjects"; "models"] data in
      '(d, e1) ← parse_default data;
      let '(raw_subjects, e2) := section_entries data "subjects" in
      '(subjs, e3) ← parse_section "subjects" (default BudgetLimits_default d) raw_subjects [] [];
      let '(raw_models, e4) := section_entries data "models" in
      '(mods, e5) ← parse_section "models" BudgetLimits_default raw_models [] [];
      let errors := e0 ++ e1 ++ e2 ++ e3 ++ e4 ++ e5 in
      if bool_decide (errors = []) then new_manager d subjs mods max
      else Raise (value_error "BudgetConfigError" (joined errors))
    end
  end.
End Loading.

(** ** Lemmas *)
Lemma window_of_bounds now w : 0 < w -> (inject_Z (window_of now w) <= now < inject_Z (window_of now w + w))%Q.
Proof.
  intros Hw. unfold window_of.
  assert (Hq : (0 < inject_Z w)%Q) by (change 0%Q with (inject_Z 0); rewrite <- Zlt_Qlt; lia).
  pose proof (Qfloor_le (now / inject_Z w)) as H1. pose proof (Qlt_floor (now / inject_Z w)) as H2.
  assert (Hn : (now / inject_Z w * inject_Z w == now)%Q) by (field; lra).
  rewrite inject_Z_plus in H2. rewrite inject_Z_plus, inject_Z_mult. change (inject_Z 1) with 1%Q in H2.
  set (fl := inject_Z (Qfloor (now / inject_Z w))) in *. set (q := (now / inject_Z w)%Q) in *. split; nra.
Qed.

Record usage_ok (u : _Usage) : Prop := { ok_cost : (0 <= cost u)%Q; ok_tokens : 0 <= tokens u }.

Record manager_ok (m : BudgetManager) : Prop := {
  mg_keys : NoDup (od_keys (usage m));
  mg_size : Z.of_nat (length (usage m)) <= max_subjects m;
  mg_max : 1 <= max_subjects m;
  mg_usage : Forall (fun ku => usage_ok ku.2) (usage m) }.

(** What [_current] returns and leaves: the key is last, holding the record. *)
Lemma current_spec now key l m :
  manager_ok m ->
  let u := fst (_current now key l m) in
  let m' := snd (_current now key l m) in
  usage_ok u /\ window_start u = window_of now (window_seconds l) /\ manager_ok m' /\
  od_get key (usage m') = Some u /\
  (forall k x, k ≠ key -> od_get k (usage m') = Some x -> od_get k (usage m) = Some x) /\
  u = usage_at (window_of now (window_seconds l)) (od_get key (usage m)).
Proof.
  intros [H1 H2 H3 H4]. unfold _current. cbn [fst snd].
  set (start := window_of now (window_seconds l)). set (u' := usage_at start _).
  assert (Hu : usage_ok u' /\ window_start u' = start).
  { unfold u', usage_at. destruct (od_get key (usage m)) as [u0|] eqn:E; [destruct (window_start u0 =? start) eqn:Ew|];
      (split; [|simpl; try lia]); try (split; simpl; lia || lra).
    by eapply (Forall_od_get usage_ok) in E. }
  destruct Hu as [Hu Hw]. rewrite od_move_set by done.
  destruct (od_trim_last (Z.to_nat (max_subjects m)) (od_del key (usage m)) (key, u') ltac:(lia)) as (l' & Htr & Hsuf).
  assert (Hnd : NoDup (od_keys (od_del key (usage m) ++ [(key, u')]))).
  { rewrite <- od_move_set by done. auto with pydict. }
  assert (Hin : key ∉ od_keys l').
  { intros Hin. apply (od_del_not_in key (usage m) H1).
    eapply elem_of_sublist; [exact Hin|]. apply fmap_sublist. destruct Hsuf as [p ->]. by apply sublist_inserts_l. }
  split_and!; try done.
  - split; cbn [usage with_usage max_subjects]; [| |done|].
    + eapply sublist_NoDup; [exact Hnd|]. apply fmap_sublist, sublist_drop.
    + pose proof (length_od_trim (Z.to_nat (max_subjects m)) (od_del key (usage m) ++ [(key, u')])). lia.
    + apply Forall_drop, Forall_app. split; [by apply Forall_od_del|]. constructor; [done|constructor].
  - cbn [usage with_usage]. rewrite Htr, od_get_app.
    apply od_get_None in Hin. rewrite Hin. simpl. by rewrite decide_True.
  - intros k x Hk. cbn [usage with_usage]. rewrite Htr, od_get_app. intros Hg.
    destruct (od_get k l') as [x'|] eqn:El; simplify_eq; [|simpl in Hg; by rewrite decide_False in Hg].
    apply od_get_elem in El. rewrite <- (od_get_del_ne key k) by done.
    apply elem_od_get; [by apply NoDup_od_del|]. destruct Hsuf as [p ->]. apply elem_of_app. by right.
Qed.

Lemma put_ok key u m : usage_ok u -> manager_ok m -> manager_ok (put key u m).
Proof.
  intros Hu [H1 H2 H3 H4]. unfold put, od_mem. destruct (od_get key (usage m)) as [u0|] eqn:E; [|done].
  assert (Hin : key ∈ od_keys (usage m)).
  { apply list_elem_of_fmap. exists (key, u0). split; [done|]. by apply od_get_elem. }
  split; cbn [usage with_usage max_subjects]; auto with pydict.
  - by rewrite length_od_set_present.
  - by apply (Forall_od_set usage_ok).
Qed.

Lemma put_get key u m u0 : od_get key (usage m) = Some u0 -> od_get key (usage (put key u m)) = Some u.
Proof. intros Hg. unfold put, od_mem. rewrite Hg. cbn [usage with_usage]. apply od_get_set_eq. Qed.

Lemma alerts_ok m es : manager_ok m -> manager_ok (with_alerts m es).
Proof. by intros [H1 H2 H3 H4]. Qed.

Lemma alert_ok key k u limit bound m : usage_ok u -> manager_ok m -> manager_ok (snd (_alert key k u limit bound m)).
Proof.
  intros Hu Hm. unfold _alert. case_match; [done|]. cbn [snd]. apply alerts_ok, put_ok; [|done].
  destruct Hu. by split.
Qed.

(** Alerting only marks the record: its counters stay. *)
Definition same_counts (u v : _Usage) : Prop :=
  window_start v = window_start u /\ cost v = cost u /\ requests v = requests u /\ tokens v = tokens u.

Lemma alert_get key k u limit bound m :
  od_get key (usage m) = Some u ->
  exists v, od_get key (usage (snd (_alert key k u limit bound m))) = Some v /\ same_counts u v.
Proof.
  intros Hg. unfold _alert. case_match; [by exists u|]. cbn [snd with_alerts usage].
  eexists. split; [by eapply put_get|]. done.
Qed.

Lemma bump_ok u n c t : usage_ok u -> usage_ok (bump u n c t).
Proof.
  intros [H1 H2]. split; simpl; [|lia]. pose proof (fmax_l 0 (default 0%Q c)). lra.
Qed.

Lemma charge_ok now key l n c t m : manager_ok m -> manager_ok (charge now key l n c t m).
Proof.
  intros Hm. unfold charge. pose proof (current_spec now key l m Hm) as (Hu & _ & Hm' & _).
  destruct (_current now key l m) as [u m']. simpl in *.
  assert (manager_ok (put key (bump u n c t) m')) by auto using put_ok, bump_ok.
  unfold _warn_check. repeat case_match; auto using alert_ok, bump_ok.
Qed.

Lemma charge_get now key l n c t m :
  manager_ok m ->
  exists v, od_get key (usage (charge now key l n c t m)) = Some v /\
    same_counts (bump (usage_at (window_of now (window_seconds l)) (od_get key (usage m))) n c t) v.
Proof.
  intros Hm. unfold charge. pose proof (current_spec now key l m Hm) as (Hu & _ & Hm' & Hg & _ & Heq).
  destruct (_current now key l m) as [u m']. simpl in *. rewrite <- Heq.
  pose proof (put_get key (bump u n c t) m' u Hg) as Hp. unfold _warn_check.
  repeat case_match; first [by apply alert_get | by eexists].
Qed.

Lemma check_ok now now_r key l est m : manager_ok m -> manager_ok (snd (_check now now_r key l est m)).
Proof.
  intros Hm. unfold _check. pose proof (current_spec now key l m Hm) as (Hu & _ & Hm' & _).
  destruct (_current now key l m) as [u m']. simpl in *.
  destruct (first_block l u est) as [[[name used] cap]|]; [|done].
  cbn [snd]. apply alert_ok; [done|]. by destruct Hm'.
Qed.

Lemma check_get now now_r key l est m :
  manager_ok m ->
  exists v, od_get key (usage (snd (_check now now_r key l est m))) = Some v /\
    same_counts (usage_at (window_of now (window_seconds l)) (od_get key (usage m))) v.
Proof.
  intros Hm. unfold _check. pose proof (current_spec now key l m Hm) as (Hu & _ & Hm' & Hg & _ & Heq).
  destruct (_current now key l m) as [u m']. simpl in *. rewrite <- Heq.
  destruct (first_block l u est) as [[[name used] cap]|]; [cbn [snd]; by apply alert_get|by exists u].
Qed.

Lemma set_limits_ok s l m : manager_ok m -> manager_ok (set_limits s l m).
Proof.
  intros [H1 H2 H3 H4]. split; cbn [set_limits usage with_usage max_subjects with_subjects]; auto with pydict.
  - pose proof (length_od_del_le s (usage m)). lia.
  - by apply (Forall_od_del usage_ok).
Qed.

Lemma remove_limits_ok s m : manager_ok m -> manager_ok (snd (remove_limits s m)).
Proof.
  intros [H1 H2 H3 H4]. split; cbn [remove_limits snd usage with_usage max_subjects with_subjects]; auto with pydict.
  - pose proof (length_od_del_le s (usage m)). lia.
  - by apply (Forall_od_del usage_ok).
Qed.

Lemma cap_block c used extra :
  blocks used (Some c) extra = None <-> (used + extra <= c /\ (extra == 0 -> used < c))%Q.
Proof.
  unfold blocks. destruct (c <. used + extra)%Q eqn:E1; simpl; fprops.
  { split; [done|]. intros [? _]. lra. }
  destruct (Qeq_bool extra 0) eqn:E2; simpl.
  - apply Qeq_bool_iff in E2. destruct (c <=. used) eqn:E3; fprops.
    + split; [done|]. intros [_ Hlt]. specialize (Hlt E2). lra.
    + split; [|done]. intros _. split; [done|]. intros _. lra.
  - split; [|done]. intros _. split; [done|]. intros Heq%Qeq_bool_iff. congruence.
Qed.

Lemma block_some used cap extra c : blocks used cap extra = Some c -> cap = Some c.
Proof. unfold blocks. destruct cap; [|done]. case_match; congruence. Qed.

(** ** Operations as data *)
Inductive budget_op :=
| OSetLimits (s : string) (l : BudgetLimits)
| ORemoveLimits (s : string)
| OCheck (now now_r : Q) (s : string) (est : Q)
| OCheckModel (now now_r : Q) (model : option string)
| ORecord (now : Q) (s : string) (c : option Q) (t : option Z)
| OAddUsage (now : Q) (s : string) (c : option Q) (t : option Z)
| ORecordModel (now : Q) (model : option string) (c : option Q) (t : option Z) (n : Z)
| OStatus (now now_r : Q) (s : string).

Definition budget_step (m : BudgetManager) (o : budget_op) : BudgetManager :=
  match o with
  | OSetLimits s l => set_limits s l m
  | ORemoveLimits s => snd (remove_limits s m)
  | OCheck now now_r s est => snd (check now now_r s est m)
  | OCheckModel now now_r model => snd (check_model now now_r model m)
  | ORecord now s c t => record now s c t m
  | OAddUsage now s c t => add_usage now s c t m
  | ORecordModel now model c t n => record_model now model c t n m
  | OStatus now now_r s => snd (status now now_r s m)
  end.

Lemma budget_step_ok m o : manager_ok m -> manager_ok (budget_step m o).
Proof.
  intros Hm. destruct o; cbn [budget_step]; auto using set_limits_ok, remove_limits_ok.
  - unfold check. case_match; auto using check_ok.
  - unfold check_model. case_match; auto using check_ok.
  - unfold record. case_match; auto using charge_ok.
  - unfold add_usage. case_match; auto using charge_ok.
  - unfold record_model. case_match; auto using charge_ok.
  - unfold status. case_match; [|done]. pose proof (current_spec now s b m Hm) as (_ & _ & Hm' & _).
    destruct (_current now s b m) as [u m']. exact Hm'.
Qed.

Lemma window_of_later now t w : 0 < w -> (inject_Z (window_of now w) + inject_Z w <= t)%Q -> window_of now w < window_of t w.
Proof.
  intros Hw Ht. pose proof (window_of_bounds t w Hw) as [_ H1].
  assert (Hlt : (inject_Z (window_of now w + w) < inject_Z (window_of t w + w))%Q).
  { rewrite (inject_Z_plus (window_of now w)). lra. }
  rewrite <- Zlt_Qlt in Hlt. lia.
Qed.

Lemma inject_Z_succ_le a b : (inject_Z a + 1 <= inject_Z b)%Q <-> a < b.
Proof.
  change 1%Q with (inject_Z 1). rewrite <- inject_Z_plus, <- Zle_Qle. lia.
Qed.

Lemma first_block_none l u est :
  first_block l u est = None <->
  (forall c, max_requests l = Some c -> requests u < c) /\
  (forall c, max_tokens l = Some c -> tokens u < c) /\
  (forall c, max_cost_usd l = Some c -> cost u + est <= c /\ (est == 0 -> cost u < c))%Q.
Proof.
  assert (Hr : blocks (inject_Z (requests u)) (inject_Z <$> max_requests l) 1 = None <->
               forall c, max_requests l = Some c -> requests u < c).
  { destruct (max_requests l) as [c|]; [|naive_solver].
    change (inject_Z <$> Some c) with (Some (inject_Z c)). rewrite cap_block, inject_Z_succ_le. split; [by intros [? _] ? [= <-]|].
    intros Hc. split; [by apply Hc|]. intros ?. lra. }
  assert (Ht : blocks (inject_Z (tokens u)) (inject_Z <$> max_tokens l) 0 = None <->
               forall c, max_tokens l = Some c -> tokens u < c).
  { destruct (max_tokens l) as [c|]; [|naive_solver].
    change (inject_Z <$> Some c) with (Some (inject_Z c)). rewrite cap_block. split.
    - intros [_ Hc] ? [= <-]. rewrite Zlt_Qlt. apply Hc. lra.
    - intros Hc. specialize (Hc c eq_refl). rewrite Zlt_Qlt in Hc. split; [lra|done]. }
  assert (Hc : blocks (cost u) (max_cost_usd l) est = None <->
               forall c, max_cost_usd l = Some c -> (cost u + est <= c /\ (est == 0 -> cost u < c))%Q).
  { destruct (max_cost_usd l) as [c|]; [|naive_solver]. rewrite cap_block.
    split; [by intros ? ? [= <-] | by intros H; apply H]. }
  rewrite <- Hr, <- Ht, <- Hc. unfold first_block. repeat case_match; naive_solver.
Qed.

Lemma block_why used cap extra c :
  blocks used cap extra = Some c -> cap = Some c /\ (c < used + extra \/ c <= used)%Q.
Proof.
  unfold blocks. destruct cap as [c'|]; [|done]. case_match eqn:E; [|done]. intros [= ->].
  split; [done|]. apply orb_true_iff in E as [E|E]; fprops; auto.
Qed.

Lemma block_why_int used (cap : option Z) extra c :
  (extra <= 1)%Q -> blocks (inject_Z used) (inject_Z <$> cap) extra = Some c ->
  exists z, cap = Some z /\ c = inject_Z z /\ z <= used.
Proof.
  intros He [Hc Hw]%block_why. destruct cap as [z|]; [|done].
  change (inject_Z <$> Some z) with (Some (inject_Z z)) in Hc. injection Hc as <-.
  exists z. split_and!; try done. destruct Hw as [Hw|Hw]; [|by rewrite Zle_Qle].
  apply Z.nlt_ge. intros Hlt%inject_Z_succ_le. lra.
Qed.

(** The limit named in a refusal is one that is reached. *)
Definition limit_reached (l : BudgetLimits) (u : _Usage) (est : Q) (name : string) (used cap : Q) : Prop :=
  (name = "requests" /\ used = inject_Z (requests u) /\
     exists z, max_requests l = Some z /\ cap = inject_Z z /\ z <= requests u) \/
  (name = "tokens" /\ used = inject_Z (tokens u) /\
     exists z, max_tokens l = Some z /\ cap = inject_Z z /\ z <= tokens u) \/
  (name = "cost_usd" /\ used = cost u /\ max_cost_usd l = Some cap /\ (cap < cost u + est \/ cap <= cost u)%Q).

Lemma first_block_some l u est name used cap :
  first_block l u est = Some (name, used, cap) -> limit_reached l u est name used cap.
Proof.
  unfold first_block, limit_reached. destruct (blocks (inject_Z (requests u)) _ _) as [c|] eqn:E1.
  { intros [= <- <- <-]. left. split_and!; try done. apply block_why_int in E1; [done|lra]. }
  destruct (blocks (inject_Z (tokens u)) _ _) as [c|] eqn:E2.
  { intros [= <- <- <-]. right. left. split_and!; try done. apply block_why_int in E2; [done|lra]. }
  destruct (blocks (cost u) _ _) as [c|] eqn:E3; [|done].
  intros [= <- <- <-]. apply block_why in E3 as [? ?]. by right; right.
Qed.

(** One request as the API serves it: checked first, recorded if admitted. *)
Definition one_request (now now_r now_c : Q) (subject : string) (c : option Q) (t : option Z)
    (m : BudgetManager) : bool * BudgetManager :=
  match check now now_r subject 0 m with
  | (Ok _, m) => (true, record now_c subject c t m)
  | (Raise _, m) => (false, m)
  end.

Fixpoint serve (reqs : list (Q * Q * Q * option Q * option Z)) (subject : string) (m : BudgetManager)
    : Z * BudgetManager :=
  match reqs with
  | [] => (0, m)
  | (now, now_r, now_c, c, t) :: reqs =>
    let '(admitted, m) := one_request now now_r now_c subject c t m in
    let '(n, m) := serve reqs subject m in ((if admitted then 1 else 0) + n, m)
  end.

(** What requests never change: the configuration. *)
Definition config_of (m : BudgetManager) := (dflt m, subjects m, models m, max_subjects m, alerting m).

Lemma put_config key u m : config_of (put key u m) = config_of m.
Proof. unfold put. by case_match. Qed.

Lemma alert_config key k u limit bound m : config_of (snd (_alert key k u limit bound m)) = config_of m.
Proof.
  unfold _alert. case_match; [done|]. cbn [snd].
  etrans; [|apply (put_config key (mkUsage (window_start u) (cost u) (requests u) (tokens u) (k :: alerted u)))]. done.
Qed.

Lemma charge_config now key l n c t m : config_of (charge now key l n c t m) = config_of m.
Proof.
  unfold charge, _current, _warn_check. repeat case_match; rewrite ?alert_config, ?put_config; done.
Qed.

Lemma check_config now now_r key l est m : config_of (snd (_check now now_r key l est m)) = config_of m.
Proof. unfold _check, _current. repeat case_match; cbn [snd]; rewrite ?alert_config; done. Qed.

Lemma limits_for_config s m m' : config_of m' = config_of m -> limits_for s m' = limits_for s m.
Proof. unfold config_of, limits_for. intros [= H1 H2 _ _ _]. by rewrite H1, H2. Qed.

Definition used_in (start : Z) (subject : string) (m : BudgetManager) : Z :=
  requests (usage_at start (od_get subject (usage m))).

Lemma usage_at_same start u : window_start u = start -> usage_at start (Some u) = u.
Proof. intros H. simpl. by rewrite (proj2 (Z.eqb_eq _ _) H). Qed.

Lemma usage_at_start start o : window_start (usage_at start o) = start.
Proof. unfold usage_at. repeat case_match; try done. lia. Qed.

Lemma serve_bound reqs subject l k start m :
  manager_ok m -> limits_for subject m = Some l -> max_requests l = Some k ->
  Forall (fun '(now, _, now_c, _, _) => window_of now (window_seconds l) = start /\
                                         window_of now_c (window_seconds l) = start) reqs ->
  fst (serve reqs subject m) <= Z.max 0 (k - used_in start subject m).
Proof.
  intros Hm Hl Hk Hreqs. revert m Hm Hl.
  induction Hreqs as [|[[[[now now_r] now_c] c] t] reqs [Hw Hwc] Hreqs IH]; intros m Hm Hl; simpl; [lia|].
  unfold one_request, check. rewrite Hl.
  pose proof (check_ok now now_r subject l 0 m Hm) as Hm1.
  pose proof (check_get now now_r subject l 0 m Hm) as (v & Hv & Hw1 & _ & Hr1 & _).
  pose proof (limits_for_config subject _ _ (check_config now now_r subject l 0 m)) as Hl1.
  rewrite Hw in *. rewrite usage_at_start in Hw1.
  assert (Hok : fst (_check now now_r subject l 0 m) = Ok tt -> used_in start subject m < k).
  { unfold _check. pose proof (current_spec now subject l m Hm) as (_ & _ & _ & _ & _ & Heq).
    destruct (_current now subject l m) as [u m']. simpl in *. rewrite Hw in Heq.
    destruct (first_block l u 0) as [[[name used] cap]|] eqn:Ef; [done|]. intros _.
    apply first_block_none in Ef as (Hreq & _). unfold used_in. rewrite <- Heq. by apply Hreq. }
  destruct (_check now now_r subject l 0 m) as [[[]|e] m1]; simpl in *.
  - assert (Hl2 : limits_for subject (record now_c subject c t m1) = Some l).
    { unfold record. rewrite Hl1, Hl.
      rewrite (limits_for_config _ _ _ (charge_config _ _ _ _ _ _ _)). congruence. }
    assert (Hm2 : manager_ok (record now_c subject c t m1)).
    { unfold record. case_match; auto using charge_ok. }
    specialize (IH _ Hm2 Hl2). destruct (serve reqs subject _) as [n m2] eqn:Es. simpl in *.
    assert (Hu : used_in start subject (record now_c subject c t m1) = used_in start subject m + 1).
    { unfold record. rewrite Hl1, Hl.
      destruct (charge_get now_c subject l 1 c t m1 Hm1) as (v2 & Hv2 & Hws & _ & Hrq & _).
      unfold used_in at 1. rewrite Hv2, usage_at_same.
      2: { rewrite Hws. simpl. by rewrite usage_at_start. }
      rewrite Hrq. simpl. rewrite Hwc, Hv, usage_at_same by done. unfold used_in. lia. }
    specialize (Hok eq_refl). lia.
  - assert (Hl2 : limits_for subject m1 = Some l) by congruence.
    specialize (IH _ Hm1 Hl2). destruct (serve reqs subject m1) as [n m2]. simpl in *.
    assert (used_in start subject m1 = used_in start subject m) as Hu.
    { unfold used_in at 1. rewrite Hv, usage_at_same by done. done. }
    lia.
Qed.

(** ** Lemmas on loading *)
Record limits_valid (l : BudgetLimits) : Prop := {
  lv_max : forall q, max_cost_usd l = Some q -> (0 <= q)%Q;
  lv_warn : forall q, warn_cost_usd l = Some q -> (0 <= q)%Q;
  lv_requests : forall z, max_requests l = Some z -> 0 <= z;
  lv_tokens : forall z, max_tokens l = Some z -> 0 <= z;
  lv_window : 1 <= window_seconds l;
  lv_order : forall w q, warn_cost_usd l = Some w -> max_cost_usd l = Some q -> (w <= q)%Q }.

Lemma neg_q_spec o : neg_q o = false <-> forall q, o = Some q -> (0 <= q)%Q.
Proof. destruct o as [q|]; simpl; [rewrite fltb_ge|]; naive_solver. Qed.
Lemma neg_z_spec o : neg_z o = false <-> forall z, o = Some z -> 0 <= z.
Proof. destruct o as [z|]; simpl; [rewrite Z.ltb_ge|]; naive_solver. Qed.
Lemma warn_spec w m : warn_above_max w m = false <-> forall x y, w = Some x -> m = Some y -> (x <= y)%Q.
Proof. destruct w, m; simpl; rewrite ?fltb_ge; naive_solver. Qed.

Lemma new_limits_valid l : limits_valid l <-> new_limits l = Ok l.
Proof.
  unfold new_limits. split.
  - intros [H1 H2 H3 H4 H5 H6]. apply neg_q_spec in H1, H2. apply neg_z_spec in H3, H4. apply warn_spec in H6.
    rewrite H1, H2, H3, H4, H6. by replace (window_seconds l <? 1) with false by lia.
  - intros H. repeat (case_match; try done).
    split; try (by apply neg_q_spec); try (by apply neg_z_spec); [lia | by apply warn_spec].
Qed.

Section LoadFacts.
Context `{PyStr}.

Lemma parse_cost_nonneg raw w k base : neg_q base = false ->
  match parse_cost raw w k base with Ok (c, _) => neg_q c = false | Raise e => e = float_overflow end.
Proof.
  intros Hb. unfold parse_cost. destruct (yget k raw) as [v|]; [|done].
  destruct (finite_nonneg v) as [[q|]|e] eqn:E; simpl; [|done|by apply finite_nonneg_raise in E].
  apply fltb_ge. by apply finite_nonneg_pos in E.
Qed.

Lemma parse_count_nonneg raw w k base : neg_z base = false -> neg_z (fst (parse_count raw w k base)) = false.
Proof.
  intros Hb. unfold parse_count. destruct (yget k raw) as [v|]; [|done].
  destruct (int_nonneg v) as [q|] eqn:E; [|done]. apply int_nonneg_pos in E. simpl. lia.
Qed.

Lemma parse_window_pos raw w base : 1 <= base -> 1 <= fst (parse_window raw w base).
Proof.
  intros Hb. unfold parse_window. destruct (yget "window" raw) as [v|]; [|done].
  assert (Hw : forall s z, od_get s WINDOWS = Some z -> 1 <= z).
  { intros s z Hg. apply od_get_elem in Hg. unfold WINDOWS in Hg. set_unfold in Hg.
    repeat destruct Hg as [Hg|Hg]; simplify_eq; lia. }
  destruct (match v with YStr s => od_get s WINDOWS | _ => None end) as [z|] eqn:E.
  - destruct v; try done. by eapply Hw.
  - destruct (int_pos v) as [z|] eqn:E2; [|done]. by apply int_pos_pos in E2.
Qed.

(** The parser always hands [BudgetLimits] acceptable values. *)
Definition gives_limits (x : res exn (BudgetLimits * list string)) : Prop :=
  match x with Ok (l, _) => limits_valid l | Raise e => e = float_overflow end.
Lemma parse_valid raw w base : limits_valid base -> gives_limits (_parse raw w base).
Proof.
  intros Hb. unfold _parse. destruct raw as [| | | | | |m|]; try exact Hb. destruct Hb as [H1 H2 H3 H4 H5 H6].
  apply neg_q_spec in H1, H2. apply neg_z_spec in H3, H4.
  pose proof (parse_cost_nonneg m w "max_cost_usd" _ H1) as P1.
  pose proof (parse_cost_nonneg m w "warn_cost_usd" _ H2) as P2.
  pose proof (parse_count_nonneg m w "max_requests" _ H3) as P3.
  pose proof (parse_count_nonneg m w "max_tokens" _ H4) as P4.
  pose proof (parse_window_pos m w _ H5) as P5.
  destruct (parse_cost m w "max_cost_usd" _) as [[mc e1]|]; [|exact P1].
  destruct (parse_cost m w "warn_cost_usd" _) as [[wc e2]|]; [|exact P2].
  destruct (parse_count m w "max_requests" _) as [mr e3], (parse_count m w "max_tokens" _) as [mt e4],
    (parse_window m w _) as [wn e5]. simpl in *.
  set (l := mkLimits mc (if warn_above_max wc mc then None else wc) mr mt wn).
  assert (Hl : limits_valid l).
  { split; simpl; try (by apply neg_q_spec); try (by apply neg_z_spec); [|done|].
    - destruct (warn_above_max wc mc); [done|]. by apply neg_q_spec.
    - destruct (warn_above_max wc mc) eqn:E; [done|]. by apply warn_spec. }
  pose proof (proj1 (new_limits_valid l) Hl) as ->. exact Hl.
Qed.

Lemma default_valid : limits_valid BudgetLimits_default.
Proof. apply new_limits_valid. reflexivity. Qed.

Lemma parse_section_valid section base entries acc errors :
  limits_valid base -> Forall (fun kl => limits_valid kl.2) acc ->
  match parse_section section base entries acc errors with
  | Ok (ls, _) => Forall (fun kl => limits_valid kl.2) ls
  | Raise e => e = float_overflow
  end.
Proof.
  intros Hb. revert acc errors. induction entries as [|[name raw] rest IH]; intros acc errors Hacc; simpl; [done|].
  pose proof (parse_valid raw (section +:+ "." +:+ py_str name) base Hb) as Hp.
  destruct (_parse raw _ base) as [[l es]|]; [|exact Hp]. apply IH. by apply (Forall_od_set limits_valid).
Qed.
End LoadFacts.

(** ** Properties *)

(** whatever sequence of calls a manager serves, it tracks at most
    [max_subjects] keys, each once, and recorded cost and tokens never go
    negative. *)
Theorem budget_state_bounded d subjs mods max m ops :
  new_manager d subjs mods max = Ok m ->
  let m' := fold_left budget_step ops m in
  manager_ok m' /\ Z.of_nat (length (usage m')) <= max_subjects m'.
Proof.
  intros Hnew m'. assert (Hm : manager_ok m).
  { unfold new_manager in Hnew. case_match; [done|]. injection Hnew as <-.
    split; simpl; [constructor | lia | lia | constructor]. }
  assert (Hm' : manager_ok m').
  { unfold m'. clear Hnew m'. revert m Hm. induction ops as [|o ops IH]; intros m Hm; simpl; [done|].
    apply IH. by apply budget_step_ok. }
  split; [done|]. apply Hm'.
Qed.

Definition demo_limits : BudgetLimits := mkLimits (Some 2%Q) (Some 1%Q) (Some 3) None 60.

Lemma budget_state_witness :
  Z.of_nat (length (usage (fold_left budget_step
    [ORecord 0 "a" (Some 1%Q) None; OCheck 1 1 "b" 0; ORecordModel 2 (Some "gpt") None (Some 4) 1]
    (mkManager (Some demo_limits) [] [("gpt", demo_limits)] 2 [] 0 true [])))) <= 2.
Proof.
  apply (budget_state_bounded (Some demo_limits) [] [("gpt", demo_limits)] 2
    (mkManager (Some demo_limits) [] [("gpt", demo_limits)] 2 [] 0 false [])
    [ORecord 0 "a" (Some 1%Q) None; OCheck 1 1 "b" 0; ORecordModel 2 (Some "gpt") None (Some 4) 1]).
  reflexivity.
Defined.

(** C35: a check admits a subject exactly when its usage in the current window
    leaves room under every cap; a refusal names a cap that is reached, counts
    one rejection and asks for at least one second, after which the subject's
    window has rolled over and its usage reads as zero. *)
Theorem check_decides now now_r subject est m l :
  manager_ok m -> limits_for subject m = Some l -> limits_valid l ->
  let u := usage_at (window_of now (window_seconds l)) (od_get subject (usage m)) in
  match check now now_r subject est m with
  | (Ok _, m') =>
    (forall c, max_requests l = Some c -> requests u < c) /\
    (forall c, max_tokens l = Some c -> tokens u < c) /\
    (forall c, max_cost_usd l = Some c -> cost u + est <= c /\ (est == 0 -> cost u < c))%Q /\
    rejections m' = rejections m
  | (Raise e, m') =>
    exists name used cap retry, e = BudgetExceeded name used cap retry /\
      limit_reached l u est name used cap /\ rejections m' = rejections m + 1 /\ (1 <= retry)%Q /\
      forall t, (now_r + retry <= t)%Q ->
        usage_at (window_of t (window_seconds l)) (od_get subject (usage m'))
        = fresh_usage (window_of t (window_seconds l))
  end.
Proof.
  intros Hm Hl Hv u. unfold check. rewrite Hl.
  destruct (check_get now now_r subject l est m Hm) as (v & Hg & Hw & _).
  pose proof (current_spec now subject l m Hm) as (_ & Hws & _ & _ & _ & Heq).
  unfold _check in *. destruct (_current now subject l m) as [u0 m0] eqn:Ec. simpl in Heq, Hws. fold u in Heq, Hw.
  assert (Hrej : rejections m0 = rejections m) by (unfold _current in Ec; by simplify_eq).
  subst u0. destruct (first_block l u est) as [[[name used] cap]|] eqn:Ef.
  2: { apply first_block_none in Ef as (? & ? & ?). by split_and!. }
  cbn [snd fst] in *. eexists name, used, cap, _. split; [reflexivity|]. split_and!.
  - by apply first_block_some.
  - unfold _alert, put. repeat case_match; simpl; lia.
  - apply fmax_l.
  - intros t Ht. rewrite Hg. unfold usage_at at 1. rewrite Hw, Hws.
    assert (Hlater : window_of now (window_seconds l) < window_of t (window_seconds l)).
    { apply window_of_later; [destruct Hv; lia|].
      pose proof (fmax_r 1 (inject_Z (window_start u) + inject_Z (window_seconds l) - now_r)%Q) as Hr.
      rewrite Hws in *. lra. }
    by replace (_ =? _) with false by lia.
Qed.

Lemma check_decides_witness :
  exists name used cap retry,
    fst (check 10 11 "a" 0 (mkManager (Some demo_limits) [] [] 2 [("a", mkUsage 0 0 3 0 [])] 0 true []))
    = Raise (BudgetExceeded name used cap retry) /\ (1 <= retry)%Q.
Proof.
  assert (Hm : manager_ok (mkManager (Some demo_limits) [] [] 2 [("a", mkUsage 0 0 3 0 [])] 0 true [])).
  { split; simpl; [repeat constructor; set_solver | lia | lia |].
    constructor; [|constructor]. split; simpl; [lra | lia]. }
  pose proof (check_decides 10 11 "a" 0 _ demo_limits Hm eq_refl
    (proj2 (new_limits_valid demo_limits) eq_refl)) as Hc.
  destruct Hc as (name & used & cap & retry & He & _ & _ & Hr & _).
  exists name, used, cap, retry. split; [rewrite <- He; reflexivity | exact Hr].
Defined.

(** served one at a time, and with no other subject served meanwhile (whose use
    could make the manager forget this one's), a subject gets at most as many
    requests in a window as its cap leaves, however they and their costs arrive. *)
Theorem request_cap_enforced reqs subject l k start m :
  manager_ok m -> limits_for subject m = Some l -> max_requests l = Some k ->
  Forall (fun '(now, _, now_c, _, _) => window_of now (window_seconds l) = start /\
                                         window_of now_c (window_seconds l) = start) reqs ->
  fst (serve reqs subject m) <= Z.max 0 (k - used_in start subject m).
Proof. apply serve_bound. Qed.

Lemma request_cap_witness :
  fst (serve [(1, 1, 2, None, None); (3, 3, 4, None, None); (5, 5, 6, None, None); (7, 7, 8, None, None)]%Q "a"
    (mkManager (Some demo_limits) [] [] 2 [] 0 true [])) <= Z.max 0 (3 - 0).
Proof.
  refine (request_cap_enforced [(1, 1, 2, None, None); (3, 3, 4, None, None); (5, 5, 6, None, None); (7, 7, 8, None, None)]%Q
    "a" demo_limits 3 0 (mkManager (Some demo_limits) [] [] 2 [] 0 true []) _ eq_refl eq_refl _).
  - split; simpl; [constructor | lia | lia | constructor].
  - repeat (constructor; [split; reflexivity|]). constructor.
Defined.

(** loading limits never trips over its own validation: with a positive
    [max_subjects] the result is a manager all of whose limits are valid, or a
    [BudgetConfigError], or the overflow of a cost limit too large for a float, or
    what reading the file raised and the loader does not catch. *)
Theorem load_budgets_valid `{PyStr} (read : res read_error yaml) max :
  1 <= max ->
  match load_budgets read max with
  | Ok m => Forall (fun kl => limits_valid kl.2) (subjects m) /\ Forall (fun kl => limits_valid kl.2) (models m) /\
            (forall l, dflt m = Some l -> limits_valid l) /\ usage m = []
  | Raise e => (exists msg, e = value_error "BudgetConfigError" msg) \/ e = float_overflow \/ read = Raise (Escaping e)
  end.
Proof.
  intros Hmax. unfold load_budgets. destruct read as [doc|[why|e]]; [|left; by eexists|by right; right].
  destruct (as_mapping doc) as [data|]; [|left; by eexists].
  assert (Hd : match parse_default data with Ok (d, _) => forall l, d = Some l -> limits_valid l | Raise e => e = float_overflow end).
  { unfold parse_default. destruct (yget "default" data) as [raw|]; [|done].
    pose proof (parse_valid raw "default" BudgetLimits_default default_valid) as Hp.
    destruct (_parse raw _ _) as [[l es]|]; [|exact Hp]. by intros ? [= <-]. }
  destruct (parse_default data) as [[d es]|]; [|by right; left]. simpl.
  destruct (section_entries data "subjects") as [rs e2].
  assert (Hbase : limits_valid (default BudgetLimits_default d)).
  { destruct d; simpl; [by apply Hd | apply default_valid]. }
  pose proof (parse_section_valid "subjects" _ rs [] [] Hbase (List.Forall_nil _)) as Hs.
  destruct (parse_section "subjects" _ rs [] []) as [[subjs e3]|]; [|by right; left]. simpl.
  destruct (section_entries data "models") as [rm e4].
  pose proof (parse_section_valid "models" _ rm [] [] default_valid (List.Forall_nil _)) as Hmo.
  destruct (parse_section "models" _ rm [] []) as [[mods e5]|]; [|by right; left]. simpl.
  case_bool_decide; [|left; by eexists]. unfold new_manager. by replace (max <? 1) with false by lia.
Qed.

Module BudgetDemo.
#[local] Instance repr : PyStr := {| py_repr := fun _ => "?" |}.
Definition doc : yaml :=
  YMap [(YStr "default", YMap [(YStr "max_cost_usd", YInt 5); (YStr "window", YStr "hour")]);
        (YStr "subjects", YMap [(YStr "vip", YMap [(YStr "max_requests", YInt 9)])])].
Lemma load_budgets_witness :
  match load_budgets (Ok doc) 10 with
  | Ok m => Forall (fun kl => limits_valid kl.2) (subjects m)
  | Raise _ => False
  end.
Proof.
  pose proof (load_budgets_valid (Ok doc) 10 ltac:(lia)) as Hv.
  destruct Hv as [Hv _]. exact Hv.
Defined.
(** A cost limit beyond the floats is not reported as a configuration error. *)
Example huge_limit_escapes :
  load_budgets (Ok (YMap [(YStr "default", YMap [(YStr "max_cost_usd", YInt (10 ^ 309))])])) 10 = Raise float_overflow.
Proof. reflexivity. Qed.
Example exceeded_text : ex_message (BudgetExceeded "cost_usd" (5 # 4) 1 60) = "cost_usd limit reached (1.25 of 1)".
Proof. reflexivity. Qed.
End BudgetDemo.
