(* ===== verification/Pricing.v ===== *)
(** Component: model price table ([src/src/coreai/pricing.py]). *)
From S2P Require Import Prelude Errors Yaml.

Definition _MAX_UNPRICED_TRACKED : Z := 200.
Definition _RATE_FIELDS : list string := ["input"; "output"; "note"].

Record Rate := mkRate { input_per_mtok : Q; output_per_mtok : Q; note : option string }.

(** [Rate.cost]; a token count may be missing. *)
Definition rate_cost (r : Rate) (input_tokens output_tokens : option Z) : Q :=
  let billed (n : option Z) : Q := inject_Z (Z.max 0 (default 0 n)) in
  ((billed input_tokens * input_per_mtok r + billed output_tokens * output_per_mtok r) / 1000000)%Q.

Record provider_prices := mkPrices { default_rate : Rate; model_rates : list (string * Rate) }.

Record PriceTable := mkTable {
  providers : list (string * provider_prices);
  version : Z;
  reviewed : option string;
  unpriced : list ((string * string) * Z) }.

Definition new_table (ps : list (string * provider_prices)) (v : Z) (r : option string) : PriceTable :=
  mkTable ps v r [].

Definition rate (provider model : string) (t : PriceTable) : option Rate * bool :=
  match od_get provider (providers t) with
  | None => (None, false)
  | Some entry =>
    match od_get model (model_rates entry) with
    | Some r => (Some r, true)
    | None => (Some (default_rate entry), false)
    end
  end.

Definition _note_unpriced (provider model : string) (t : PriceTable) : PriceTable :=
  let key := (provider, str_or (Some model) "unknown") in
  let key := if od_mem key (unpriced t) then key
             else if _MAX_UNPRICED_TRACKED <=? Z.of_nat (length (unpriced t)) then (provider, "other")
             else key in
  mkTable (providers t) (version t) (reviewed t)
    (od_set key (default 0 (od_get key (unpriced t)) + 1) (unpriced t)).

Definition PricingError (msg : string) : exn := value_error "PricingError" msg.

Definition cost (provider model : string) (tin tout : option Z) (track : bool) (t : PriceTable)
    : res exn Q * PriceTable :=
  match rate provider model t with
  | (None, _) => (Raise (PricingError ("no prices for provider '" +:+ provider +:+ "'")), t)
  | (Some r, priced) =>
    let t := if negb priced && track then _note_unpriced provider model t else t in
    (Ok (rate_cost r tin tout), t)
  end.

Definition unpriced_stats (t : PriceTable) : list (string * string * Z) := unpriced t.

Definition models (provider : string) (t : PriceTable) : list (string * Rate) :=
  match od_get provider (providers t) with Some e => model_rates e | None => [] end.

(** Entries whose output is priced below their input, sorted by name. *)
Definition warnings (t : PriceTable) : list string :=
  py_sorted String.leb
    (flat_map (fun '(name, e) =>
       map (fun '(m, _) => name +:+ "/" +:+ m)
           (List.filter (fun '(_, r) => output_per_mtok r <. input_per_mtok r) (model_rates e)))
     (providers t)).

Definition per_token (t : PriceTable) : list (string * list (string * (Q * Q))) :=
  (fun '(name, e) => (name, (fun '(m, r) => (m, (input_per_mtok r / 1000000, output_per_mtok r / 1000000)%Q)) <$>
                              model_rates e)) <$> providers t.

(** ** Loading *)
Section Loading.
Context `{PyStr}.

Definition parse_price (raw : list (yaml * yaml)) (where_ key : string) : res exn (option Q * list string) :=
  q ← finite_nonneg (default YNull (yget key raw));
  Ok match q with
     | Some q => (Some q, [])
     | None => (None, [where_ +:+ "." +:+ key +:+ ": must be a number >= 0"])
     end.

Definition parse_note (fields : list (yaml * yaml)) (where_ : string) : option string * list string :=
  match default YNull (yget "note" fields) with
  | YNull => (None, [])
  | YStr s => (Some s, [])
  | _ => (None, [where_ +:+ ".note: must be text"])
  end.

Definition _parse_rate (raw : yaml) (where_ : string) : res exn (option Rate * list string) :=
  match raw with
  | YMap fields =>
    let unknown := (fun k => where_ +:+ ": unknown field '" +:+ py_str k +:+ "'") <$> unknown_keys _RATE_FIELDS fields in
    '(i, e1) ← parse_price fields where_ "input";
    '(o, e2) ← parse_price fields where_ "output";
    let '(n, e3) := parse_note fields where_ in
    Ok (match i, o with Some i, Some o => Some (mkRate i o n) | _, _ => None end, unknown ++ e1 ++ e2 ++ e3)
  | _ => Ok (None, [where_ +:+ ": must be a mapping with input and output"])
  end.

Fixpoint parse_models (where_ : string) (entries : list (yaml * yaml)) (acc : list (string * Rate))
    (errors : list string) : res exn (list (string * Rate) * list string) :=
  match entries with
  | [] => Ok (acc, errors)
  | (model, raw) :: rest =>
    '(r, es) ← _parse_rate raw (where_ +:+ ".models." +:+ py_str model);
    parse_models where_ rest (match r with Some r => od_set (py_str model) r acc | None => acc end) (errors ++ es)
  end.

(** A field that must be a non-empty mapping. *)
Definition nonempty_mapping (v : option yaml) : option (list (yaml * yaml)) :=
  match v with Some (YMap (e :: m)) => Some (e :: m) | _ => None end.

Definition provider_default (fields : list (yaml * yaml)) (where_ : string) : res exn (option Rate * list string) :=
  match yget "default" fields with
  | None => Ok (None, [where_ +:+ ": missing 'default' rate"])
  | Some raw => _parse_rate raw (where_ +:+ ".default")
  end.

Definition provider_models (fields : list (yaml * yaml)) (where_ : string) : list (yaml * yaml) * list string :=
  match nonempty_mapping (yget "models" fields) with
  | Some m => (m, [])
  | None => ([], [where_ +:+ ".models: must be a non-empty mapping"])
  end.

Definition parse_provider (name body : yaml) (acc : list (string * provider_prices)) (errors : list string)
    : res exn (list (string * provider_prices) * list string) :=
  let where_ := "providers." +:+ py_str name in
  match body with
  | YMap fields =>
    let unknown := (fun k => where_ +:+ ": unknown field '" +:+ py_str k +:+ "'") <$> unknown_keys ["default"; "models"] fields in
    '(d, e1) ← provider_default fields where_;
    let '(raw_models, e2) := provider_models fields where_ in
    '(ms, errors) ← parse_models where_ raw_models [] (errors ++ unknown ++ e1 ++ e2);
    Ok (match d with Some d => od_set (py_str name) (mkPrices d ms) acc | None => acc end, errors)
  | _ => Ok (acc, errors ++ [where_ +:+ ": must be a mapping"])
  end.

Fixpoint parse_providers (entries : list (yaml * yaml)) (acc : list (string * provider_prices))
    (errors : list string) : res exn (list (string * provider_prices) * list string) :=
  match entries with
  | [] => Ok (acc, errors)
  | (name, body) :: rest =>
    '(acc, errors) ← parse_provider name body acc errors; parse_providers rest acc errors
  end.

(** The entries of [providers]. *)
Definition listed_providers (data : list (yaml * yaml)) : list (yaml * yaml) :=
  default [] (nonempty_mapping (yget "providers" data)).

(** [load_pricing] on what reading the file gives. *)
Definition load_pricing (read : res read_error yaml) : res exn PriceTable :=
  match read with
  | Raise (Unreadable why) => Raise (PricingError ("cannot read " +:+ why))
  | Raise (Escaping e) => Raise e
  | Ok (YMap data) =>
    let e0 := (fun k => "unknown top-level key '" +:+ py_str k +:+ "'") <$>
                unknown_keys ["version"; "reviewed"; "providers"] data in
    let '(v, e1) := match int_pos (default YNull (yget "version" data)) with
                    | Some v => (v, [])
                    | None => (1, ["version: must be an integer >= 1"])
                    end in
    let rev := match default YNull (yget "reviewed" data) with YNull => None | r => Some (py_str r) end in
    let raw := listed_providers data in
    let e2 := match raw with [] => ["providers: must be a non-empty mapping"] | _ => [] end in
    '(ps, errors) ← parse_providers raw [] (e0 ++ e1 ++ e2);
    if bool_decide (errors = []) then Ok (new_table ps v rev) else Raise (PricingError (joined errors))
  | Ok _ => Raise (PricingError "top level must be a mapping")
  end.
End Loading.

(** ** Lemmas *)
Record rate_ok (r : Rate) : Prop := { rate_in : (0 <= input_per_mtok r)%Q; rate_out : (0 <= output_per_mtok r)%Q }.

Record prices_ok (e : provider_prices) : Prop := {
  prices_default : rate_ok (default_rate e);
  prices_models : Forall (fun mr => rate_ok mr.2) (model_rates e) }.

Definition table_ok (t : PriceTable) : Prop := Forall (fun ne => prices_ok ne.2) (providers t).

Lemma billed_nonneg n : (0 <= inject_Z (Z.max 0 n))%Q.
Proof. change 0%Q with (inject_Z 0). rewrite <- Zle_Qle. lia. Qed.

Lemma rate_cost_nonneg r i o : rate_ok r -> (0 <= rate_cost r i o)%Q.
Proof.
  intros [H1 H2]. unfold rate_cost. apply Qle_shift_div_l; [done|].
  pose proof (Qmult_le_0_compat _ _ (billed_nonneg (default 0 i)) H1).
  pose proof (Qmult_le_0_compat _ _ (billed_nonneg (default 0 o)) H2). lra.
Qed.

Lemma rate_cost_mono r i i' o o' :
  rate_ok r -> i <= i' -> o <= o' -> (rate_cost r (Some i) (Some o) <= rate_cost r (Some i') (Some o'))%Q.
Proof.
  intros [H1 H2] Hi Ho. unfold rate_cost. simpl.
  assert (Hm : forall a b x, a <= b -> (0 <= x -> inject_Z (Z.max 0 a) * x <= inject_Z (Z.max 0 b) * x)%Q).
  { intros a b x Hab Hx. apply Qmult_le_compat_r; [|done]. rewrite <- Zle_Qle. lia. }
  apply Qmult_le_compat_r; [|vm_compute; discriminate].
  pose proof (Hm i i' _ Hi H1). pose proof (Hm o o' _ Ho H2). lra.
Qed.

Lemma rate_some p m t r b :
  table_ok t -> rate p m t = (Some r, b) -> rate_ok r.
Proof.
  intros Ht. unfold rate. destruct (od_get p (providers t)) as [e|] eqn:Ep; [|done].
  assert (Ho : prices_ok e).
  { apply od_get_elem in Ep. unfold table_ok in Ht. rewrite Forall_forall in Ht. by apply Ht in Ep. }
  destruct (od_get m (model_rates e)) as [r'|] eqn:Em; intros [= <- <-]; [|apply Ho].
  apply od_get_elem in Em. destruct Ho as [_ Hms]. rewrite Forall_forall in Hms. by apply Hms in Em.
Qed.

(** Tracked pairs that are not a provider's catch-all. *)
Definition named_keys (t : PriceTable) : list (string * string) :=
  List.filter (fun k => negb (bool_decide (k.2 = "other"))) (od_keys (unpriced t)).
Definition other_keys (t : PriceTable) : list (string * string) :=
  List.filter (fun k => bool_decide (k.2 = "other")) (od_keys (unpriced t)).

Record unpriced_ok (t : PriceTable) : Prop := {
  up_keys : NoDup (od_keys (unpriced t));
  up_named : Z.of_nat (length (named_keys t)) <= _MAX_UNPRICED_TRACKED;
  up_known : forall k, k ∈ od_keys (unpriced t) -> k.1 ∈ od_keys (providers t) }.

Lemma other_keys_bound t : unpriced_ok t -> (length (other_keys t) <= length (providers t))%nat.
Proof.
  intros [Hnd _ Hk]. rewrite <- (length_fmap fst (providers t)), <- (length_fmap fst (other_keys t)).
  apply submseteq_length, NoDup_submseteq.
  - assert (Hf : NoDup (other_keys t)).
    { unfold other_keys. eapply sublist_NoDup; [exact Hnd|]. apply filter_sublist. }
    assert (Ho : forall k, k ∈ other_keys t -> k.2 = "other").
    { intros k Hin. apply list_elem_of_In, List.filter_In in Hin as [_ Hb]. by apply bool_decide_eq_true in Hb. }
    clear Hk Hnd. induction Hf as [|[p m] l Hnin Hnd IH]; [constructor|]. rewrite fmap_cons. constructor.
    + intros ([p' m'] & Heq & Hin)%list_elem_of_fmap. simpl in *. subst p'.
      pose proof (Ho (p, m) ltac:(by left)) as H1. pose proof (Ho (p, m') ltac:(by right)) as H2.
      simpl in *. subst. done.
    + apply IH. intros k Hin. apply Ho. by right.
  - intros p ([p' m] & -> & Hin)%list_elem_of_fmap.
    apply list_elem_of_In, List.filter_In in Hin as [Hin%list_elem_of_In _]. by apply Hk in Hin.
Qed.

Lemma unpriced_bound t :
  unpriced_ok t -> Z.of_nat (length (unpriced t)) <= _MAX_UNPRICED_TRACKED + Z.of_nat (length (providers t)).
Proof.
  intros Hok. pose proof (other_keys_bound t Hok) as Ho. destruct Hok as [_ Hn _].
  unfold named_keys, other_keys in *.
  rewrite <- (length_fmap fst (unpriced t)). fold (od_keys (unpriced t)).
  rewrite (filter_split (fun k => bool_decide (k.2 = "other"))). lia.
Qed.

Lemma od_keys_set_elem {K V} `{EqDecision K} (k k' : K) (v : V) d :
  k' ∈ od_keys (od_set k v d) <-> k' = k \/ k' ∈ od_keys d.
Proof. rewrite od_keys_set. case_decide; set_solver. Qed.

Lemma filter_keys_set (f : string * string -> bool) k v (d : list ((string * string) * Z)) :
  (length (List.filter f (od_keys (od_set k v d))) <=
   length (List.filter f (od_keys d)) + (if f k && negb (od_mem k d) then 1 else 0))%nat.
Proof.
  rewrite od_keys_set. unfold od_mem. case_decide as Hin; [lia|].
  apply od_get_None in Hin. rewrite Hin, List.filter_app, length_app. simpl. destruct (f k); simpl; lia.
Qed.

Lemma note_unpriced_ok p m t :
  p ∈ od_keys (providers t) -> unpriced_ok t -> unpriced_ok (_note_unpriced p m t).
Proof.
  intros Hp [Hnd Hn Hk]. unfold _note_unpriced. set (k := (p, str_or (Some m) "unknown")).
  set (k' := if od_mem k (unpriced t) then k else _).
  assert (Hfst : k'.1 = p) by (unfold k'; by repeat case_match).
  split; cbn [unpriced providers].
  - auto with pydict.
  - unfold named_keys in *. cbn [unpriced].
    pose proof (filter_keys_set (fun k => negb (bool_decide (k.2 = "other"))) k' (default 0 (od_get k' (unpriced t)) + 1) (unpriced t)) as Hf.
    cbn beta in Hf.
    destruct (negb (bool_decide (k'.2 = "other")) && negb (od_mem k' (unpriced t))) eqn:E; [|lia].
    assert (Z.of_nat (length (unpriced t)) < _MAX_UNPRICED_TRACKED).
    { unfold k' in E. destruct (od_mem k (unpriced t)) eqn:Em; [rewrite Em, andb_false_r in E; done|].
      destruct (_MAX_UNPRICED_TRACKED <=? _) eqn:Emax; [done | lia]. }
    pose proof (List.filter_length_le (fun k => negb (bool_decide (k.2 = "other"))) (od_keys (unpriced t))) as Hle.
    unfold od_keys in Hle at 2. rewrite length_fmap in Hle. lia.
  - intros key [->|Hin]%od_keys_set_elem; [by rewrite Hfst | by apply Hk].
Qed.

Definition unpriced_total (t : PriceTable) : Z := fold_right (fun kn n => kn.2 + n) 0 (unpriced t).

Lemma total_set {K} `{EqDecision K} (k : K) v (d : list (K * Z)) :
  fold_right (fun kn n => kn.2 + n) 0 (od_set k v d)
  = fold_right (fun kn n => kn.2 + n) 0 d - default 0 (od_get k d) + v.
Proof. induction d as [|[k' n] d IH]; simpl; [lia|]. case_decide; simpl; lia. Qed.

Lemma note_unpriced_total p m t : unpriced_total (_note_unpriced p m t) = unpriced_total t + 1.
Proof. unfold unpriced_total, _note_unpriced. cbn [unpriced]. rewrite total_set. lia. Qed.

(** ** Lemmas on loading *)
Lemma od_keys_set_in {V} (k : string) (v : V) d : k ∈ od_keys (od_set k v d).
Proof. rewrite od_keys_set. case_decide; [done|]. apply elem_of_app. right. left. Qed.
Lemma od_keys_set_mono {V} (k k' : string) (v : V) d : k' ∈ od_keys d -> k' ∈ od_keys (od_set k v d).
Proof. intros Hk. rewrite od_keys_set. case_decide; [done|]. apply elem_of_app. by left. Qed.

Section LoadFacts.
Context `{PyStr}.

Lemma parse_price_nonneg raw w k q es : parse_price raw w k = Ok (Some q, es) -> (0 <= q)%Q /\ es = [].
Proof.
  unfold parse_price. destruct (finite_nonneg _) as [[x|]|] eqn:E; try done. intros [= <- <-].
  by apply finite_nonneg_pos in E.
Qed.
Lemma parse_price_none raw w k es : parse_price raw w k = Ok (None, es) -> es ≠ [].
Proof. unfold parse_price. destruct (finite_nonneg _) as [[x|]|]; try done. by intros [= <-]. Qed.

(** What [_parse_rate] gives: a rate that is in order, or a message why not. *)
Lemma parse_rate_spec raw w r es : _parse_rate raw w = Ok (r, es) ->
  match r with Some r => rate_ok r | None => es ≠ [] end.
Proof.
  unfold _parse_rate. destruct raw as [| | | | | |m|]; try by intros [= <- <-].
  destruct (parse_price m w "input") as [[i e1]|] eqn:E1; [|done].
  destruct (parse_price m w "output") as [[o e2]|] eqn:E2; [|done]. simpl.
  destruct (parse_note m w) as [n e3]. intros [= <- <-].
  destruct i as [i|], o as [o|]; [split|..]; cbn; try (intros Hes; rewrite !app_nil in Hes; destruct Hes as (_ & -> & -> & _)).
  1-2: by eapply parse_price_nonneg.
  all: by eapply parse_price_none in E1 || eapply parse_price_none in E2.
Qed.

(** A list of models or providers that ends without a message: every step did. *)
Lemma parse_models_spec w entries acc errors ms errors' :
  parse_models w entries acc errors = Ok (ms, errors') -> Forall (fun mr => rate_ok mr.2) acc ->
  Forall (fun mr => rate_ok mr.2) ms /\ (errors' = [] -> errors = [] /\
    (forall k, k ∈ od_keys acc \/ k ∈ py_str <$> entries.*1 -> k ∈ od_keys ms)).
Proof.
  revert acc errors. induction entries as [|[m raw] rest IH]; intros acc errors; simpl.
  { intros [= <- <-] Hacc. split; [done|]. intros ->. split; [done|]. intros k [Hk|Hk]; [done|inversion Hk]. }
  destruct (_parse_rate raw _) as [[r es]|] eqn:E; [|done]. apply parse_rate_spec in E. simpl. intros Hp Hacc.
  apply IH in Hp as [Hms He].
  2: { destruct r as [r|]; [|done]. by apply (Forall_od_set rate_ok). }
  split; [done|]. intros Hnil. destruct (He Hnil) as [Hes Hk]. apply app_nil in Hes as [-> ->]. split; [done|].
  destruct r as [r|]; [|done]. intros k Hin. apply Hk. rewrite elem_of_cons in Hin.
  destruct Hin as [Hin|[->|Hin]]; [left; by apply od_keys_set_mono|left; apply od_keys_set_in|by right].
Qed.

Lemma provider_default_spec fields w d e : provider_default fields w = Ok (d, e) ->
  match d with Some r => rate_ok r | None => e ≠ [] end.
Proof. unfold provider_default. destruct (yget "default" fields); [apply parse_rate_spec|by intros [= <- <-]]. Qed.

(** What a provider's entry contributes. *)
Definition lists_models (body : yaml) (e : provider_prices) : Prop :=
  forall fields m r, body = YMap fields -> yget "models" fields = Some (YMap m) -> r ∈ py_str <$> m.*1 -> r ∈ od_keys (model_rates e).

Lemma parse_provider_spec name body acc errors acc' errors' :
  parse_provider name body acc errors = Ok (acc', errors') -> Forall (fun ne => prices_ok ne.2) acc ->
  Forall (fun ne => prices_ok ne.2) acc' /\
  (errors' = [] -> errors = [] /\ exists e, acc' = od_set (py_str name) e acc /\ lists_models body e).
Proof.
  unfold parse_provider. destruct body as [| | | | | |fields|];
    try (intros [= <- <-] Hacc; split; [done|]; by intros [_ ?]%app_nil).
  destruct (provider_default fields _) as [[d e1]|] eqn:Ed; [|done]. apply provider_default_spec in Ed. simpl.
  destruct (provider_models fields _) as [rm e2] eqn:Em.
  destruct (parse_models _ rm [] _) as [[ms es]|] eqn:Ep; [|done]. simpl. intros [= <- <-] Hacc.
  apply parse_models_spec in Ep as [Hms Hes]; [|constructor]. split.
  - destruct d as [r|]; [|done]. by apply (Forall_od_set prices_ok).
  - intros ->. destruct (Hes eq_refl) as [Hnil Hk]. rewrite !app_nil in Hnil. destruct Hnil as (-> & _ & -> & ->).
    split; [done|]. destruct d as [r|]; [|done]. exists (mkPrices r ms). split; [done|].
    intros f m k [= <-] Hm Hin. apply Hk. right. unfold provider_models in Em. rewrite Hm in Em.
    destruct m as [|x m]; [inversion Hin|]. by injection Em as <-.
Qed.

Lemma parse_providers_spec entries acc errors ps errors' :
  parse_providers entries acc errors = Ok (ps, errors') -> Forall (fun ne => prices_ok ne.2) acc ->
  Forall (fun ne => prices_ok ne.2) ps /\
  (errors' = [] -> errors = [] /\ (forall k, k ∈ od_keys acc \/ k ∈ py_str <$> entries.*1 -> k ∈ od_keys ps) /\
     (NoDup (py_str <$> entries.*1) -> forall n b, (n, b) ∈ entries -> exists e, od_get (py_str n) ps = Some e /\ lists_models b e) /\
     (forall k, k ∉ py_str <$> entries.*1 -> od_get k ps = od_get k acc)).
Proof.
  revert acc errors. induction entries as [|[n b] rest IH]; intros acc errors; simpl.
  { intros [= <- <-] Hacc. split; [done|]. intros ->. split_and!; try done; intros; set_solver. }
  destruct (parse_provider n b acc errors) as [[acc' errors1]|] eqn:Ep; [|done]. simpl. intros Hps Hacc.
  apply parse_provider_spec in Ep as [Hacc' He1]; [|done]. apply IH in Hps as [Hok He]; [|done].
  split; [done|]. intros Hnil. destruct (He Hnil) as (-> & Hk & Hb & Hout). destruct (He1 eq_refl) as (-> & e & -> & Hl).
  split_and!; [done| | |].
  - intros k Hin. apply Hk. rewrite elem_of_cons in Hin.
    destruct Hin as [Hin|[->|Hin]]; [left; by apply od_keys_set_mono|left; apply od_keys_set_in|by right].
  - intros [Hn Hnd]%NoDup_cons n' b' [[= -> ->]|Hin]%elem_of_cons; [|by apply Hb].
    exists e. by rewrite Hout, od_get_set_eq.
  - intros k Hk'. rewrite Hout, od_get_set_ne by set_solver. done.
Qed.
End LoadFacts.

(** ** Properties *)

(** The priced calls of a process, in order: their costs and the table after them. *)
Definition price_call : Type := string * string * option Z * option Z * bool.
Fixpoint price_calls (cs : list price_call) (t : PriceTable) : list (res exn Q) * PriceTable :=
  match cs with
  | [] => ([], t)
  | (p, m, i, o, track) :: cs =>
    let '(c, t) := cost p m i o track t in
    let '(out, t) := price_calls cs t in (c :: out, t)
  end.

(** How many of them are tracked and priced by a provider default. *)
Definition counts_unpriced (t : PriceTable) (c : price_call) : bool :=
  let '(p, m, _, _, track) := c in
  track && match rate p m t with (Some _, false) => true | _ => false end.

(** whatever models clients ask for, the set of tracked unpriced models
    never grows past 200 plus one catch-all per provider, every tracked unpriced
    call is counted exactly once, and no call has a negative price. *)
Theorem unpriced_tracking_bounded t cs :
  table_ok t -> unpriced t = [] ->
  let '(costs, t') := price_calls cs t in
  Z.of_nat (length (unpriced t')) <= _MAX_UNPRICED_TRACKED + Z.of_nat (length (providers t)) /\
  unpriced_total t' = Z.of_nat (length (List.filter (counts_unpriced t) cs)) /\
  Forall (fun c => match c with Ok q => (0 <= q)%Q | Raise _ => True end) costs.
Proof.
  intros Hok Hempty.
  assert (Hu : unpriced_ok t).
  { split; unfold named_keys, od_keys; rewrite Hempty; [constructor | simpl; unfold _MAX_UNPRICED_TRACKED; lia | set_solver]. }
  assert (Hgen : forall t0, providers t0 = providers t -> unpriced_ok t0 ->
    let '(costs, t') := price_calls cs t0 in
    unpriced_ok t' /\ providers t' = providers t /\
    unpriced_total t' = unpriced_total t0 + Z.of_nat (length (List.filter (counts_unpriced t) cs)) /\
    Forall (fun c => match c with Ok q => (0 <= q)%Q | Raise _ => True end) costs).
  { clear Hu. induction cs as [|[[[[p m] i] o] track] cs IH]; intros t0 Hp Hu; simpl; [by split_and!; [..|lia|]|].
    unfold cost. assert (Hr : rate p m t0 = rate p m t) by (unfold rate; by rewrite Hp). rewrite Hr.
    destruct (rate p m t) as [[r|] priced] eqn:Er.
    2: { specialize (IH t0 Hp Hu). destruct (price_calls cs t0) as [out t']. rewrite andb_false_r.
         destruct IH as (? & ? & ? & ?). by split_and!; [..|constructor]. }
    assert (Hrate : (0 <= rate_cost r i o)%Q) by (apply rate_cost_nonneg; by eapply rate_some).
    assert (Hpin : p ∈ od_keys (providers t0)).
    { rewrite Hp. unfold rate in Er. destruct (od_get p (providers t)) as [e|] eqn:Eg; [|done].
      apply od_get_elem in Eg. apply list_elem_of_fmap. by exists (p, e). }
    destruct priced, track; simpl.
    1-2, 4: specialize (IH t0 Hp Hu); destruct (price_calls cs t0) as [out t'];
      destruct IH as (? & ? & ? & ?); by split_and!; [..|constructor].
    specialize (IH (_note_unpriced p m t0) Hp (note_unpriced_ok p m t0 Hpin Hu)).
    destruct (price_calls cs _) as [out t']. rewrite note_unpriced_total in IH.
    destruct IH as (? & ? & ? & ?). split_and!; try done; [lia | by constructor]. }
  specialize (Hgen t eq_refl Hu). destruct (price_calls cs t) as [costs t'].
  destruct Hgen as (Hu' & Hp & Ht & Hc). split_and!; [|rewrite Ht; unfold unpriced_total; rewrite Hempty; done|done].
  rewrite <- Hp. by apply unpriced_bound.
Qed.

Definition demo_table : PriceTable :=
  new_table [("openai", mkPrices (mkRate 1 2 None) [("gpt", mkRate 3 6 None)])] 1 None.

Lemma unpriced_tracking_witness :
  let t' := snd (price_calls [("openai", "gpt", Some 5, None, true); ("openai", "new", Some 5, Some 7, true)] demo_table) in
  Z.of_nat (length (unpriced t')) <= 201 /\ unpriced_total t' = 1.
Proof.
  destruct (unpriced_tracking_bounded demo_table
    [("openai", "gpt", Some 5, None, true); ("openai", "new", Some 5, Some 7, true)]) as (H1 & H2 & _).
  - repeat constructor; simpl; lra.
  - reflexivity.
  - split; [exact H1 | exact H2].
Defined.

(** a price file is accepted only if it lists at least one provider; every
    provider it lists is then in the table, every model of a provider has its own
    price there (where no two names have the same text), any other model of a
    listed provider is priced at its default, and no price is negative or falls
    when more tokens are billed. *)
Theorem load_pricing_sound `{PyStr} data t :
  load_pricing (Ok (YMap data)) = Ok t ->
  listed_providers data ≠ [] /\ unpriced t = [] /\ 1 <= version t /\
  (forall p, p ∈ py_str <$> (listed_providers data).*1 -> forall m,
    exists r priced, rate p m t = (Some r, priced) /\
      forall i i' o o', i <= i' -> o <= o' ->
        (0 <= rate_cost r (Some i) (Some o) <= rate_cost r (Some i') (Some o'))%Q) /\
  (NoDup (py_str <$> (listed_providers data).*1) -> forall n fields ms m,
    (n, YMap fields) ∈ listed_providers data -> yget "models" fields = Some (YMap ms) -> m ∈ py_str <$> ms.*1 ->
    exists r, rate (py_str n) m t = (Some r, true)).
Proof.
  unfold load_pricing.
  destruct (match int_pos (default YNull (yget "version" data)) with Some v => _ | None => _ end) as [v e1] eqn:Ev.
  destruct (parse_providers _ [] _) as [[ps errors]|] eqn:Eps; [|done]. simpl. case_bool_decide as He; [|done].
  subst errors. intros [= <-]. cbn [providers unpriced version new_table].
  apply parse_providers_spec in Eps as [Hok Hcl]; [|constructor]. destruct (Hcl eq_refl) as (Herr & Hk & Hb & _).
  rewrite !app_nil in Herr. destruct Herr as (_ & -> & Hne). split_and!.
  - by destruct (listed_providers data).
  - done.
  - destruct (int_pos _) as [v'|] eqn:Ep; simplify_eq. by apply int_pos_pos in Ep.
  - intros p Hp mo. set (t := new_table ps v _). assert (Ht : table_ok t) by exact Hok.
    destruct (rate p mo t) as [[r|] priced] eqn:Er.
    + exists r, priced. split; [done|]. pose proof (rate_some _ _ _ _ _ Ht Er) as Hr.
      intros i i' o o' Hi Ho. split; [by apply rate_cost_nonneg | by apply rate_cost_mono].
    + unfold rate in Er. simpl in Er. destruct (od_get p ps) eqn:Eg; [by destruct (od_get mo _)|].
      apply od_get_None in Eg. destruct Eg. apply Hk. by right.
  - intros Hnd n fields ms m Hin Hms Hm. destruct (Hb Hnd _ _ Hin) as (e & Hg & Hl).
    specialize (Hl fields ms m eq_refl Hms Hm). unfold rate. cbn [providers new_table]. rewrite Hg.
    destruct (od_get m (model_rates e)) as [r|] eqn:E; [by exists r|]. by apply od_get_None in E.
Qed.

Module PricingDemo.
#[local] Instance repr : PyStr := {| py_repr := fun _ => "?" |}.
Definition prices (i o : Z) : yaml := YMap [(YStr "input", YInt i); (YStr "output", YInt o)].
Definition doc : yaml :=
  YMap [(YStr "version", YInt 1);
        (YStr "providers", YMap [(YStr "openai", YMap [(YStr "default", prices 1 2);
                                                         (YStr "models", YMap [(YStr "gpt", prices 3 6)])])])].
Lemma load_pricing_witness :
  exists t, load_pricing (Ok doc) = Ok t /\ exists r, rate "openai" "gpt" t = (Some r, true).
Proof.
  eexists. split; [reflexivity|].
  match goal with |- exists r, rate _ _ ?t = _ => edestruct (load_pricing_sound
    [(YStr "version", YInt 1); (YStr "providers", YMap [(YStr "openai", YMap [(YStr "default", prices 1 2);
      (YStr "models", YMap [(YStr "gpt", prices 3 6)])])])] t) as (_ & _ & _ & _ & Hm); [reflexivity|] end.
  eapply (Hm ltac:(repeat constructor; set_solver) (YStr "openai")); [left|reflexivity|left].
Defined.
(** A price beyond the floats is not reported as a pricing error. *)
Example huge_price_escapes :
  load_pricing (Ok (YMap [(YStr "version", YInt 1); (YStr "providers", YMap [(YStr "openai",
    YMap [(YStr "default", prices (10 ^ 309) 2)])])])) = Raise float_overflow.
Proof. reflexivity. Qed.
End PricingDemo.
