(* ===== verification/Policy.v ===== *)
(** Component: routing policies ([src/src/coreai/policy.py]): the policy data,
    the validating parser, the store that reloads a file and layers runtime
    edits over it, and per-provider rate limits.

    [allow] and [deny] are sets in the source and duplicate-free lists here. An
    exception other than [PolicyError] (a [TypeError] from sorting keys of mixed
    types, an [OverflowError] from a huge number) is a value of its own. *)
From S2P Require Import Prelude Errors Yaml Limiter.

Definition STRATEGIES : list (string * string) :=
  [("cost_aware", "balanced"); ("balanced", "balanced"); ("cheapest", "cheapest");
   ("latency_first", "fastest"); ("fastest", "fastest"); ("round_robin", "round_robin");
   ("fallback", "fallback"); ("explicit", "explicit")].

Definition _POLICY_KEYS : list string :=
  ["strategy"; "weights"; "latency_ceiling_ms"; "hedge_after_ms"; "fallback_chain"; "fallback_model";
   "provider"; "model"; "allow"; "deny"].
Definition _DEFAULT_COST_AWARE_WEIGHTS : xfloat * xfloat := (Fin (7 # 10), Fin (3 # 10)).

Inductive policy_exn :=
| PolicyError (problems : list string)
| SortTypeError
| NumberOverflow
| ReadFailed (e : exn).          (* what reading the file raised and the loaders do not catch *)

Record Policy := mkPolicy {
  name : string;
  strategy : string;
  cost_weight : xfloat;
  latency_weight : xfloat;
  latency_ceiling_ms : option xfloat;
  hedge_after_ms : option xfloat;
  fallback_chain : list string;
  fallback_model : option string;
  provider : option string;
  model : option string;
  allow : option (list string);
  deny : list string }.

Definition permits (p : string) (pol : Policy) : option string :=
  if bool_decide (p ∈ deny pol) then Some "denied by policy"
  else match allow pol with
       | Some l => if bool_decide (p ∈ l) then None else Some "not in policy allow list"
       | None => None
       end.

Abbreviation PolicySet := (list (string * Policy)).
Definition policy_get (n : option string) (s : PolicySet) : option Policy := od_get (str_or n "default") s.
Definition policy_names (s : PolicySet) : list string := py_sorted String.leb (od_keys s).

(** [_number]: not a number, a float, or too large for one. *)
Inductive number := NotNumber | Num (f : xfloat) | TooLarge.
Definition _number (v : yaml) : number :=
  match v with
  | YInt z => match int_to_float z with Some q => Num (Fin q) | None => TooLarge end
  | YFloat f => Num f
  | _ => NotNumber
  end.

Section Parsing.
Context `{PyStr}.

Definition repr (s : string) : string := py_repr (YStr s).

Definition as_name (v : yaml) : option string := match v with YStr s => Some s | _ => None end.
Definition _name_list (v : yaml) (where_ : string) : list string * list string :=
  let bad := ([], [where_ +:+ ": must be a list of provider names"]) in
  match v with
  | YList l => match mapM as_name l with Some names => (names, []) | None => bad end
  | _ => bad
  end.

Definition check_provider (known : option (list string)) (n where_ : string) : list string :=
  match known with
  | Some k => if bool_decide (n ∈ k) then [] else [where_ +:+ ": unknown provider " +:+ repr n]
  | None => []
  end.
Definition check_providers (known : option (list string)) (ns : list string) (where_ : string) : list string :=
  flat_map (fun n => check_provider known n where_) ns.

(** The [weights] field. *)
Definition parse_weights (v : yaml) (where_ : string) : res policy_exn (xfloat * xfloat * list string) :=
  let dflt := _DEFAULT_COST_AWARE_WEIGHTS in
  match v with
  | YNull => Ok (dflt, [])
  | YMap w =>
    if bool_decide (unknown_keys ["cost"; "latency"] w = []) then
      match _number (default (YFloat (Fin 0)) (yget "cost" w)),
            _number (default (YFloat (Fin 0)) (yget "latency" w)) with
      | TooLarge, _ | _, TooLarge => Raise NumberOverflow
      | Num c, Num lat =>
        if xltq c 0 || xltq lat 0 then Ok (dflt, [where_ +:+ ".weights: must be non-negative numbers"])
        else
          let total := xround (xadd c lat) in
          if xeqq total 0 then Ok (dflt, [where_ +:+ ".weights: cost and latency can't both be 0"])
          else Ok (xdiv c total, xdiv lat total, [])
      | _, _ => Ok (dflt, [where_ +:+ ".weights: must be non-negative numbers"])
      end
    else Ok (dflt, [where_ +:+ ".weights: only `cost` and `latency` allowed"])
  | _ => Ok (dflt, [where_ +:+ ".weights: only `cost` and `latency` allowed"])
  end.

(** [latency_ceiling_ms] and [hedge_after_ms]. *)
Definition parse_positive (v : yaml) (where_ : string) : res policy_exn (option xfloat * list string) :=
  match v with
  | YNull => Ok (None, [])
  | _ =>
    match _number v with
    | TooLarge => Raise NumberOverflow
    | Num f => if xleq f 0 then Ok (None, [where_ +:+ ": must be a positive number"]) else Ok (Some f, [])
    | NotNumber => Ok (None, [where_ +:+ ": must be a positive number"])
    end
  end.

Definition parse_chain (known : option (list string)) (fields : list (yaml * yaml)) (where_ : string)
    : list string * list string :=
  let '(chain, e) := _name_list (default (YList []) (yget "fallback_chain" fields)) (where_ +:+ ".fallback_chain") in
  (chain, e ++ (if bool_decide (NoDup chain) then [] else [where_ +:+ ".fallback_chain: duplicate providers"])
            ++ check_providers known chain (where_ +:+ ".fallback_chain")).

Definition parse_allow_deny (known : option (list string)) (fields : list (yaml * yaml)) (where_ : string)
    : option (list string) * list string * list string :=
  let '(al, e1) := match yget "allow" fields with
                   | None => (None, [])
                   | Some v => let '(l, e) := _name_list v (where_ +:+ ".allow") in
                               let l := remove_dups l in
                               (Some l, e ++ check_providers known l (where_ +:+ ".allow"))
                   end in
  let '(dl, e2) := _name_list (default (YList []) (yget "deny" fields)) (where_ +:+ ".deny") in
  let dl := remove_dups dl in
  let e3 := check_providers known dl (where_ +:+ ".deny") in
  let both := match al with Some l => List.filter (fun n => bool_decide (n ∈ dl)) l | None => [] end in
  let e4 := match both with
            | [] => []
            | _ => [where_ +:+ ": [" +:+ String.concat ", " (map repr (py_sorted String.leb both))
                      +:+ "] are in both allow and deny"]
            end in
  (al, dl, e1 ++ e2 ++ e3 ++ e4).

Definition parse_provider (known : option (list string)) (v : yaml) (where_ : string) : option string * list string :=
  match v with
  | YNull => (None, [])
  | YStr s => (Some s, check_provider known s (where_ +:+ ".provider"))
  | _ => (None, [where_ +:+ ".provider: must be a string"])
  end.

Definition parse_text (v : yaml) (where_ : string) : option string * list string :=
  match v with YNull => (None, []) | YStr s => (Some s, []) | _ => (None, [where_ +:+ ": must be a string"]) end.

(** The strategy's canonical name, or the problem with it. *)
Definition parse_strategy (v : yaml) (where_ : string) : string + string :=
  match match v with YStr s => od_get s STRATEGIES | _ => None end with
  | Some s => inl s
  | None => inr (where_ +:+ ".strategy: " +:+ py_repr v +:+ " is not one of ['balanced', 'cheapest', "
              +:+ "'cost_aware', 'explicit', 'fallback', 'fastest', 'latency_first', 'round_robin']")
  end.

(** One entry of [policies]: the policy, if one can be built, and its problems. *)
Definition parse_policy (known : option (list string)) (pname body : yaml)
    : res policy_exn (option Policy * list string) :=
  let where_ := "policies." +:+ py_str pname in
  match body with
  | YMap fields =>
    let unknown := unknown_keys _POLICY_KEYS fields in
    if negb (sortable unknown) then Raise SortTypeError else
    let e0 := (fun k => where_ +:+ ": unknown key " +:+ py_repr k) <$> py_sorted key_leb unknown in
    match parse_strategy (default (YStr "cost_aware") (yget "strategy" fields)) where_ with
    | inr e => Ok (None, e0 ++ [e])
    | inl strat =>
      '(cost_w, latency_w, e1) ← parse_weights (default YNull (yget "weights" fields)) where_;
      '(ceiling, e2) ← parse_positive (default YNull (yget "latency_ceiling_ms" fields)) (where_ +:+ ".latency_ceiling_ms");
      '(hedge, e3) ← parse_positive (default YNull (yget "hedge_after_ms" fields)) (where_ +:+ ".hedge_after_ms");
      let '(chain, e4) := parse_chain known fields where_ in
      let '(al, dl, e5) := parse_allow_deny known fields where_ in
      let '(prov, e6) := parse_provider known (default YNull (yget "provider" fields)) where_ in
      let e7 := if bool_decide (strat = "explicit" /\ prov = None)
                then [where_ +:+ ": strategy `explicit` requires `provider`"] else [] in
      let e8 := if bool_decide (strat = "fallback" /\ chain = [])
                then [where_ +:+ ": strategy `fallback` requires `fallback_chain`"] else [] in
      let '(mod_, e9) := parse_text (default YNull (yget "model" fields)) (where_ +:+ ".model") in
      let '(fmod_, e10) := parse_text (default YNull (yget "fallback_model" fields)) (where_ +:+ ".fallback_model") in
      Ok (Some (mkPolicy (py_str pname) strat cost_w latency_w ceiling hedge chain fmod_ prov mod_ al dl),
          e0 ++ e1 ++ e2 ++ e3 ++ e4 ++ e5 ++ e6 ++ e7 ++ e8 ++ e9 ++ e10)
    end
  | _ => Ok (None, [where_ +:+ ": must be a mapping"])
  end.

Fixpoint parse_entries (known : option (list string)) (entries : list (yaml * yaml)) (acc : PolicySet)
    (problems : list string) : res policy_exn (PolicySet * list string) :=
  match entries with
  | [] => Ok (acc, problems)
  | (pname, body) :: rest =>
    '(pol, es) ← parse_policy known pname body;
    parse_entries known rest (match pol with Some p => od_set (py_str pname) p acc | None => acc end)
                  (problems ++ es)
  end.

Definition parse_policies (data : yaml) (known : option (list string)) : res policy_exn PolicySet :=
  match data with
  | YMap top =>
    match yget "policies" top with
    | Some (YMap ((e :: es) as raw)) =>
      '(out, problems) ← parse_entries known raw [] [];
      if bool_decide (problems = []) then Ok out else Raise (PolicyError problems)
    | _ => Raise (PolicyError ["`policies` must be a non-empty mapping"])
    end
  | _ => Raise (PolicyError ["top level must be a mapping"])
  end.

(** [load_policies]: the parsed document, or why there is none. *)
Definition load_policies (read : res read_error yaml) (known : option (list string)) : res policy_exn PolicySet :=
  match read with
  | Raise (Unreadable why) => Raise (PolicyError [why])
  | Raise (Escaping e) => Raise (ReadFailed e)
  | Ok doc => parse_policies doc known
  end.

(** ** Rate limits *)
Definition parse_limit_field (limits : list (yaml * yaml)) (key : string) (dflt : Z) : option Z :=
  int_pos (default (YInt dflt) (yget key limits)).

Fixpoint parse_limits (entries : list (yaml * yaml)) (acc : list (string * RateLimitConfig))
    (problems : list string) : list (string * RateLimitConfig) * list string :=
  match entries with
  | [] => (acc, problems)
  | (pname, body) :: rest =>
    let where_ := "providers." +:+ py_str pname +:+ ".rate_limits" in
    match match body with YMap m => default YNull (yget "rate_limits" m) | _ => YNull end with
    | YNull => parse_limits rest acc problems
    | YMap limits =>
      if bool_decide (unknown_keys ["rpm"; "tpm"; "concurrent"] limits = []) then
        match parse_limit_field limits "rpm" (requests_per_minute RateLimitConfig_default),
              parse_limit_field limits "tpm" (tokens_per_minute RateLimitConfig_default),
              parse_limit_field limits "concurrent" (concurrent_requests RateLimitConfig_default) with
        | Some rpm, Some tpm, Some conc =>
          parse_limits rest (od_set (py_str pname) (mkRateLimitConfig rpm tpm conc) acc) problems
        | _, _, _ => parse_limits rest acc (problems ++ [where_ +:+ ": values must be positive integers"])
        end
      else parse_limits rest acc (problems ++ [where_ +:+ ": only rpm, tpm and concurrent are allowed"])
    | _ => parse_limits rest acc (problems ++ [where_ +:+ ": only rpm, tpm and concurrent are allowed"])
    end
  end.

Definition parse_rate_limits (data : yaml) : res policy_exn (list (string * RateLimitConfig)) :=
  match data with
  | YMap top =>
    match as_mapping (default YNull (yget "providers" top)) with
    | None => Raise (PolicyError ["`providers` must be a mapping"])
    | Some ps =>
      let '(out, problems) := parse_limits ps [] [] in
      if bool_decide (problems = []) then Ok out else Raise (PolicyError problems)
    end
  | _ => Raise (PolicyError ["top level must be a mapping"])
  end.

Definition load_rate_limits (read : res read_error yaml) : res policy_exn (list (string * RateLimitConfig)) :=
  match read with
  | Raise (Unreadable why) => Raise (PolicyError [why])
  | Raise (Escaping e) => Raise (ReadFailed e)
  | Ok doc => parse_rate_limits doc
  end.
End Parsing.

(** ** The policy store *)
Definition is_alnum (c : Ascii.ascii) : bool :=
  let n := Ascii.nat_of_ascii c in
  ((48 <=? n) && (n <=? 57) || (65 <=? n) && (n <=? 90) || (97 <=? n) && (n <=? 122))%nat.
Definition is_name_char (c : Ascii.ascii) : bool :=
  is_alnum c || existsb (Nat.eqb (Ascii.nat_of_ascii c)) [95; 46; 45]%nat.     (* _ . - *)
(** [^[A-Za-z0-9][A-Za-z0-9_.-]{0,63}$] under [re.match]: [$] also matches
    before one final newline. *)
Definition LF : Ascii.ascii := Ascii.ascii_of_nat 10.
Definition RUNTIME_NAME (s : string) : bool :=
  let full l := match l with
                | [] => false
                | c :: l => is_alnum c && forallb is_name_char l && (length l <=? 63)%nat
                end in
  let l := String.list_ascii_of_string s in
  full l || match rev l with c :: r => Ascii.eqb c LF && full (rev r) | [] => false end.

Inductive policy_event :=
| EvRejected (problems : list string)
| EvOk (names : list string).

Record PolicyStore := mkStore {
  known_names : option (list string);
  interval : Q;
  mtime : option Q;
  next_check : Q;
  last_error : option (list string);
  reloads : Z;
  notify : bool;                              (* [on_event is not None] *)
  events : list policy_event;
  file_set : PolicySet;
  edits : list (string * yaml);
  removed : list string;
  effective : PolicySet }.

Section Store.
Context `{PyStr}.
Variable path : string.

Definition edits_doc (es : list (string * yaml)) : yaml :=
  YMap [(YStr "policies", YMap ((fun '(n, b) => (YStr n, b)) <$> es))].

(** [_merge]: the file's policies, less the removed, overridden by the edits. *)
Definition merged (fs : PolicySet) (rm : list string) (es : list (string * yaml)) : res policy_exn PolicySet :=
  let base := fold_left (fun m n => od_del n m) rm fs in
  match es with
  | [] => Ok base
  | _ => ps ← parse_policies (edits_doc es) None; Ok (fold_left (fun m np => od_set np.1 np.2 m) ps base)
  end.

Definition with_effective (s : PolicyStore) (e : PolicySet) : PolicyStore :=
  mkStore (known_names s) (interval s) (mtime s) (next_check s) (last_error s) (reloads s) (notify s) (events s)
    (file_set s) (edits s) (removed s) e.
Definition with_overlay (s : PolicyStore) (es : list (string * yaml)) (rm : list string) : PolicyStore :=
  mkStore (known_names s) (interval s) (mtime s) (next_check s) (last_error s) (reloads s) (notify s) (events s)
    (file_set s) es rm (effective s).
Definition with_next_check (s : PolicyStore) (t : Q) : PolicyStore :=
  mkStore (known_names s) (interval s) (mtime s) t (last_error s) (reloads s) (notify s) (events s)
    (file_set s) (edits s) (removed s) (effective s).
Definition with_mtime (s : PolicyStore) (t : Q) : PolicyStore :=
  mkStore (known_names s) (interval s) (Some t) (next_check s) (last_error s) (reloads s) (notify s) (events s)
    (file_set s) (edits s) (removed s) (effective s).
Definition with_error (s : PolicyStore) (e : list string) : PolicyStore :=
  mkStore (known_names s) (interval s) (mtime s) (next_check s) (Some e) (reloads s) (notify s) (events s)
    (file_set s) (edits s) (removed s) (effective s).
Definition with_loaded (s : PolicyStore) (fs : PolicySet) : PolicyStore :=
  mkStore (known_names s) (interval s) (mtime s) (next_check s) None (reloads s + 1) (notify s) (events s)
    fs (edits s) (removed s) (effective s).
Definition _notify (e : policy_event) (s : PolicyStore) : PolicyStore :=
  if notify s then
    mkStore (known_names s) (interval s) (mtime s) (next_check s) (last_error s) (reloads s) (notify s)
      (events s ++ [e]) (file_set s) (edits s) (removed s) (effective s)
  else s.

Definition _merge (s : PolicyStore) : res policy_exn unit * PolicyStore :=
  match merged (file_set s) (removed s) (edits s) with
  | Ok e => (Ok tt, with_effective s e)
  | Raise x => (Raise x, s)
  end.

(** [_load]: [stat] is the file's modification time when it can be read, [read]
    what opening and parsing it gives. An exception other than [PolicyError]
    leaves the method. *)
Definition _load (initial : bool) (stat : option Q) (read : res read_error yaml) (s : PolicyStore)
    : res policy_exn unit * PolicyStore :=
  match stat with
  | None => (Ok tt, if initial then with_error s [path +:+ ": file not found"] else s)
  | Some t =>
    if match mtime s with Some m => Qeq_bool t m | None => false end then (Ok tt, s)
    else
      let s := with_mtime s t in
      match load_policies read (known_names s) with
      | Raise (PolicyError ps) => (Ok tt, _notify (EvRejected ps) (with_error s ps))
      | Raise x => (Raise x, s)
      | Ok fs =>
        match _merge (with_loaded s fs) with
        | (Ok _, s) => (Ok tt, _notify (EvOk (policy_names (effective s))) s)
        | (Raise x, s) => (Raise x, s)
        end
      end
  end.

Definition new_store (now : Q) (known : option (list string)) (check_interval : Q) (stat : option Q)
    (read : res read_error yaml) : res policy_exn PolicyStore :=
  let s := mkStore known check_interval None 0 None 0 false [] [] [] [] [] in
  match _load true stat read s with
  | (Raise x, _) => Raise x
  | (Ok _, s) => match _merge s with
                 | (Raise x, _) => Raise x
                 | (Ok _, s) => Ok (with_next_check s (now + check_interval)%Q)
                 end
  end.

Definition current (now : Q) (stat : option Q) (read : res read_error yaml) (s : PolicyStore)
    : res policy_exn PolicySet * PolicyStore :=
  if next_check s <=. now then
    match _load false stat read (with_next_check s (now + interval s)%Q) with
    | (Ok _, s) => (Ok (effective s), s)
    | (Raise x, s) => (Raise x, s)
    end
  else (Ok (effective s), s).

Definition set_policy (n : string) (body : yaml) (s : PolicyStore) : res policy_exn (option Policy) * PolicyStore :=
  if negb (RUNTIME_NAME n) then
    (Raise (PolicyError ["policy name " +:+ repr n +:+ ": letters, digits, dot, dash, underscore only"]), s)
  else match body with
  | YMap _ =>
    match parse_policies (edits_doc [(n, body)]) (known_names s) with
    | Raise x => (Raise x, s)
    | Ok _ =>
      match _merge (with_overlay s (od_set n body (edits s)) (List.filter (fun r => negb (String.eqb r n)) (removed s))) with
      | (Ok _, s) => (Ok (od_get n (effective s)), s)
      | (Raise x, s) => (Raise x, s)
      end
    end
  | _ => (Raise (PolicyError ["policy body must be a mapping"]), s)
  end.

Definition remove_policy (n : string) (s : PolicyStore) : res policy_exn bool * PolicyStore :=
  let existed := od_mem n (effective s) || od_mem n (edits s) in
  let rm := if od_mem n (file_set s) && negb (bool_decide (n ∈ removed s)) then removed s ++ [n] else removed s in
  match _merge (with_overlay s (od_del n (edits s)) rm) with
  | (Ok _, s) => (Ok existed, s)
  | (Raise x, s) => (Raise x, s)
  end.

Definition runtime_names (s : PolicyStore) : list string * list string :=
  (py_sorted String.leb (od_keys (edits s)), py_sorted String.leb (removed s)).
End Store.

(** ** Lemmas on parsing *)
Section ParseFacts.
Context `{PyStr}.
Implicit Types (known : option (list string)) (n b : yaml).

(** An entry that parses without a problem, and the policy it gives. *)
Definition clean known n b (p : Policy) : Prop := parse_policy known n b = Ok (Some p, []).

Lemma parse_policy_problem known n b : parse_policy known n b ≠ Ok (None, []).
Proof.
  destruct b as [| | | | | |fields|]; try discriminate. unfold parse_policy.
  destruct (negb _); [discriminate|]. destruct (parse_strategy _ _).
  2: { intros Heq. injection Heq as Heq. by apply app_eq_nil in Heq as [_ ?]. }
  destruct (parse_weights _ _) as [[[c l] e1]|]; simpl; [|discriminate].
  destruct (parse_positive (default YNull (yget "latency_ceiling_ms" fields)) _) as [[ce e2]|]; simpl; [|discriminate].
  destruct (parse_positive (default YNull (yget "hedge_after_ms" fields)) _) as [[he e3]|]; simpl; [|discriminate].
  destruct (parse_chain _ _ _), (parse_allow_deny _ _ _) as [[? ?] ?], (parse_provider _ _ _),
    (parse_text _ _), (parse_text _ _). discriminate.
Qed.

Lemma parse_entries_clean known es acc probs out :
  parse_entries known es acc probs = Ok (out, []) ->
  probs = [] /\ exists ps, Forall2 (fun nb p => clean known nb.1 nb.2 p) es ps /\
    out = fold_left (fun m np => od_set np.1 np.2 m) (zip (py_str <$> es.*1) ps) acc.
Proof.
  revert acc probs. induction es as [|[n b] es IH]; intros acc probs; simpl.
  - intros [= -> ->]. split; [done|]. exists []. split; [constructor|done].
  - destruct (parse_policy known n b) as [[pol pes]|] eqn:E; simpl; [|done]. intros Hp.
    apply IH in Hp as (Hnil & ps & Hps & ->). apply app_eq_nil in Hnil as [-> ->]. split; [done|].
    destruct pol as [p|]; [|by apply parse_policy_problem in E].
    exists (p :: ps). split; [by constructor | done].
Qed.

Lemma clean_parse_entries known es ps acc :
  Forall2 (fun nb p => clean known nb.1 nb.2 p) es ps ->
  parse_entries known es acc [] =
    Ok (fold_left (fun m np => od_set np.1 np.2 m) (zip (py_str <$> es.*1) ps) acc, []).
Proof.
  intros Hps. revert acc. induction Hps as [|[n b] p es ps Hc Hps IH]; intros acc; simpl; [done|].
  unfold clean in Hc. simpl in Hc. rewrite Hc. simpl. apply IH.
Qed.

Lemma check_providers_none ns w : check_providers None ns w = [].
Proof. unfold check_providers. induction ns; simpl; done. Qed.

(** Without a list of known providers there are no more problems than with it. *)
Lemma clean_unknown known n b p : clean known n b p -> clean None n b p.
Proof.
  unfold clean, parse_policy. destruct b as [| | | | | |fields|]; try done. case_match; [done|].
  destruct (parse_strategy _ _) as [s|]; [|done].
  destruct (parse_weights _ _) as [[[c l] e1]|]; simpl; [|done].
  destruct (parse_positive (default YNull (yget "latency_ceiling_ms" fields)) _) as [[ce e2]|]; simpl; [|done].
  destruct (parse_positive (default YNull (yget "hedge_after_ms" fields)) _) as [[he e3]|]; simpl; [|done].
  assert (Hchain : forall chain e, parse_chain known fields ("policies." +:+ py_str n) = (chain, e) ->
    exists e', parse_chain None fields ("policies." +:+ py_str n) = (chain, e') /\ (e = [] -> e' = [])).
  { unfold parse_chain. destruct (_name_list _ _) as [ch e]. intros chain e' [= <- <-].
    eexists. split; [done|]. intros Hnil. apply app_eq_nil in Hnil as [-> Hnil].
    apply app_eq_nil in Hnil as [-> _]. by rewrite check_providers_none. }
  assert (Had : forall al dl e, parse_allow_deny known fields ("policies." +:+ py_str n) = (al, dl, e) ->
    exists e', parse_allow_deny None fields ("policies." +:+ py_str n) = (al, dl, e') /\ (e = [] -> e' = [])).
  { unfold parse_allow_deny. intros al dl e.
    destruct (yget "allow" fields) as [v|]; [destruct (_name_list v _) as [l0 e0]|];
      destruct (_name_list (default (YList []) (yget "deny" fields)) _) as [d0 e0'];
      intros [= <- <- <-]; eexists; (split; [done|]); rewrite !app_nil, ?check_providers_none; tauto. }
  destruct (parse_chain known _ _) as [chain e4] eqn:E4.
  destruct (Hchain _ _ eq_refl) as (e4' & -> & H4).
  destruct (parse_allow_deny known _ _) as [[al dl] e5] eqn:E5.
  destruct (Had _ _ _ eq_refl) as (e5' & -> & H5).
  assert (Hprov : forall v pr e, parse_provider known v ("policies." +:+ py_str n) = (pr, e) ->
    exists e', parse_provider None v ("policies." +:+ py_str n) = (pr, e') /\ (e = [] -> e' = [])).
  { unfold parse_provider. intros v pr e. destruct v; intros [= <- <-]; eexists; (split; [done|]); done. }
  destruct (parse_provider known _ _) as [pr e6] eqn:E6.
  destruct (Hprov _ _ _ E6) as (e6' & -> & H6).
  destruct (parse_text _ _) as [mo e9], (parse_text _ _) as [fm e10]. intros Heq.
  injection Heq as <- Hes. rewrite !app_nil in Hes.
  destruct Hes as (F0 & F1 & F2 & F3 & F4 & F5 & F6 & F7 & F8 & F9 & F10).
  by rewrite H4, H5, H6, F0, F1, F2, F3, F7, F8, F9, F10.
Qed.
End ParseFacts.

(** Weights as they are meant to be, and as they are when their sum overflows or
    one of them is infinite or not a number, which validation lets through. *)
Definition normalised (c l : xfloat) : Prop :=
  exists x y, c = Fin x /\ l = Fin y /\ (0 <= x /\ 0 <= y /\ x + y == 1)%Q.
Definition finite (f : xfloat) : bool := match f with Fin _ => true | _ => false end.

Record policy_valid (known : option (list string)) (p : Policy) : Prop := {
  pv_strategy : strategy p ∈ ["balanced"; "cheapest"; "fastest"; "round_robin"; "fallback"; "explicit"];
  pv_explicit : strategy p = "explicit" -> provider p ≠ None;
  pv_fallback : strategy p = "fallback" -> fallback_chain p ≠ [];
  pv_chain : NoDup (fallback_chain p);
  pv_disjoint : forall l n, allow p = Some l -> n ∈ l -> n ∉ deny p;
  pv_known : forall k n, known = Some k ->
    n ∈ fallback_chain p \/ provider p = Some n \/ (exists l, allow p = Some l /\ n ∈ l) \/ n ∈ deny p -> n ∈ k;
  pv_weights : normalised (cost_weight p) (latency_weight p) \/ cost_weight p = Fin 0 /\ latency_weight p = Fin 0 \/
    finite (cost_weight p) = false \/ finite (latency_weight p) = false;
  pv_ceiling : forall q, latency_ceiling_ms p = Some (Fin q) -> (0 < q)%Q;
  pv_hedge : forall q, hedge_after_ms p = Some (Fin q) -> (0 < q)%Q }.

Section Valid.
Context `{PyStr}.
Implicit Types (known : option (list string)).

Lemma check_provider_known known k n w : check_provider known n w = [] -> known = Some k -> n ∈ k.
Proof. unfold check_provider. intros Hc ->. by case_bool_decide. Qed.

Lemma check_providers_known known k ns w n :
  check_providers known ns w = [] -> known = Some k -> n ∈ ns -> n ∈ k.
Proof.
  intros Hc Hk Hin. induction ns as [|m ns IH]; [by apply not_elem_of_nil in Hin|].
  simpl in Hc. apply app_nil in Hc as [H1 H2]. apply elem_of_cons in Hin as [->|Hin]; [|by apply IH].
  by eapply check_provider_known.
Qed.

Lemma parse_strategy_known v w s :
  parse_strategy v w = inl s -> s ∈ ["balanced"; "cheapest"; "fastest"; "round_robin"; "fallback"; "explicit"].
Proof.
  unfold parse_strategy. destruct v as [| | | |t| | |]; try done.
  destruct (od_get t STRATEGIES) as [s'|] eqn:E; [|done]. intros [= ->].
  apply od_get_elem in E. unfold STRATEGIES in E. set_unfold in E.
  repeat destruct E as [E|E]; simplify_eq; set_solver.
Qed.

Lemma parse_positive_pos v w q e : parse_positive v w = Ok (Some (Fin q), e) -> (0 < q)%Q.
Proof.
  unfold parse_positive. intros Hp. destruct v; simpl in Hp; try done; repeat (case_match; simplify_eq/=); by fprops.
Qed.

Lemma weights_shape v w c l e :
  parse_weights v w = Ok (c, l, e) ->
  normalised c l \/ c = Fin 0 /\ l = Fin 0 \/ finite c = false \/ finite l = false.
Proof.
  assert (Hd : normalised (Fin (7 # 10)) (Fin (3 # 10))) by (eexists _, _; split_and!; try done; vm_compute; congruence).
  unfold parse_weights, _DEFAULT_COST_AWARE_WEIGHTS. destruct v as [| | | | | |m|];
    try (intros Heq; injection Heq as <- <- _; by left).
  case_bool_decide; [|intros Heq; injection Heq as <- <- _; by left].
  destruct (_number (default (YFloat (Fin 0)) (yget "cost" m))) as [|x|], (_number (default (YFloat (Fin 0)) (yget "latency" m))) as [|y|];
    try done; try (intros Heq; injection Heq as <- <- _; by left).
  destruct (xltq x 0 || xltq y 0) eqn:E1; [intros Heq; injection Heq as <- <- _; by left|].
  destruct (xeqq (xround (xadd x y)) 0) eqn:E2; [intros Heq; injection Heq as <- <- _; by left|].
  intros Heq. injection Heq as <- <- _. apply orb_false_iff in E1 as [Hx Hy].
  destruct (finite (xdiv x (xround (xadd x y)))) eqn:F1; [|by auto]. destruct (finite (xdiv y (xround (xadd x y)))) eqn:F2; [|by auto].
  destruct x as [x| | |], y as [y| | |]; try done. cbn [xadd xround] in *.
  destruct (inject_Z FLOAT_LIMIT <=. x + y)%Q; [by right; left|].
  destruct (x + y <=. inject_Z (- FLOAT_LIMIT))%Q; [by right; left|]. left. cbn in Hx, Hy, E2 |- *. fprops.
  assert (Hne : ~ (x + y == 0)%Q) by (intros Hz%Qeq_bool_iff; congruence).
  assert (Hpos : (0 < x + y)%Q) by (apply Qnot_le_lt; intros Hz; apply Hne; lra).
  eexists _, _. split_and!; [done|done|..].
  - apply Qle_shift_div_l; lra.
  - apply Qle_shift_div_l; lra.
  - field. done.
Qed.

Lemma clean_valid known n b p : clean known n b p -> policy_valid known p /\ name p = py_str n.
Proof.
  unfold clean, parse_policy. destruct b as [| | | | | |fields|]; try done. case_match; [done|].
  destruct (parse_strategy _ _) as [s|] eqn:Es; [|done].
  destruct (parse_weights _ _) as [[[c l] e1]|] eqn:Ew; simpl; [|done].
  destruct (parse_positive (default YNull (yget "latency_ceiling_ms" fields)) _) as [[ce e2]|] eqn:Ec; simpl; [|done].
  destruct (parse_positive (default YNull (yget "hedge_after_ms" fields)) _) as [[he e3]|] eqn:Eh; simpl; [|done].
  destruct (parse_chain known _ _) as [chain e4] eqn:E4. destruct (parse_allow_deny known _ _) as [[al dl] e5] eqn:E5.
  destruct (parse_provider known _ _) as [pr e6] eqn:E6.
  destruct (parse_text _ _) as [mo e9], (parse_text _ _) as [fm e10]. intros Heq.
  injection Heq as <- Hes. rewrite !app_nil in Hes.
  destruct Hes as (F0 & -> & -> & -> & -> & -> & -> & F7 & F8 & -> & ->).
  split; [|done]. unfold parse_chain in E4. destruct (_name_list _ _) as [ch ec] in E4.
  injection E4 as -> E4. rewrite !app_nil in E4. destruct E4 as (_ & Hnd & Hch).
  unfold parse_allow_deny in E5.
  destruct (match yget "allow" fields with None => _ | Some v => _ end) as [al' ea] eqn:Eal in E5.
  destruct (_name_list (default (YList []) (yget "deny" fields)) _) as [d0 ed] in E5.
  injection E5 as -> <- E5. rewrite !app_nil in E5. destruct E5 as (-> & -> & Hdl & Hboth).
  assert (Hal : forall l', al = Some l' -> exists w, check_providers known l' w = []).
  { intros l' ->. destruct (yget "allow" fields) as [v|]; [|done]. destruct (_name_list v _) as [la ela].
    injection Eal as <- Eal. apply app_nil in Eal as [_ Eal]. eauto. }
  split; cbn [strategy provider fallback_chain allow deny cost_weight latency_weight latency_ceiling_ms hedge_after_ms].
  - by eapply parse_strategy_known.
  - intros -> ->. by rewrite bool_decide_true in F7.
  - intros -> ->. by rewrite bool_decide_true in F8.
  - destruct (decide (NoDup chain)) as [|Hn]; [done|]. by rewrite bool_decide_false in Hnd.
  - intros l' m -> Hin Hd.
    assert (Hf : List.filter (fun n => bool_decide (n ∈ remove_dups d0)) l' = []) by (by destruct (List.filter _ l')).
    assert (Hm : In m []); [|done]. rewrite <- Hf. apply List.filter_In.
    split; [by apply list_elem_of_In | by apply bool_decide_true].
  - intros k m Hk [Hin|[Hin|[(l' & Hl & Hin)|Hin]]].
    + exact (check_providers_known _ _ _ _ _ Hch Hk Hin).
    + subst pr. unfold parse_provider in E6. destruct (default YNull (yget "provider" fields)) in E6; try discriminate.
      injection E6 as -> E6. exact (check_provider_known _ _ _ _ E6 Hk).
    + destruct (Hal l' Hl) as [w Hw]. exact (check_providers_known _ _ _ _ _ Hw Hk Hin).
    + exact (check_providers_known _ _ _ _ _ Hdl Hk Hin).
  - by eapply weights_shape.
  - intros q ->. by eapply parse_positive_pos.
  - intros q ->. by eapply parse_positive_pos.
Qed.
End Valid.

(** ** Lemmas on the store *)
Section StoreFacts.
Context `{PyStr}.
Variable path : string.

Lemma fold_set_keys {V} (ps base : list (string * V)) :
  NoDup (od_keys base) -> NoDup (od_keys (fold_left (fun m np => od_set np.1 np.2 m) ps base)).
Proof. revert base. induction ps as [|[n p] ps IH]; intros base Hb; simpl; [done|]. apply IH. auto with pydict. Qed.

Lemma fold_set_nonempty {V} (ps base : list (string * V)) :
  base ≠ [] -> fold_left (fun m np => od_set np.1 np.2 m) ps base ≠ [].
Proof. revert base. induction ps as [|np ps IH]; intros base Hb; simpl; [done|]. apply IH, od_set_nonempty. Qed.

Lemma fold_set_get {V} k (ps base : list (string * V)) :
  NoDup (od_keys ps) ->
  od_get k (fold_left (fun m np => od_set np.1 np.2 m) ps base)
  = match od_get k ps with Some v => Some v | None => od_get k base end.
Proof.
  revert base. induction ps as [|[n p] ps IH]; intros base Hnd; simpl; [done|].
  apply NoDup_cons in Hnd as [Hn Hnd]. simpl in Hn. rewrite IH by done. destruct (decide (k = n)) as [->|Hne].
  - apply od_get_None in Hn. by rewrite Hn, od_get_set_eq.
  - by rewrite od_get_set_ne.
Qed.

(** Edits as the store keeps them: one body per name, each valid. *)
Definition edits_ok (es : list (string * yaml)) : Prop :=
  NoDup (od_keys es) /\ forall n b, (n, b) ∈ es -> exists p, clean None (YStr n) b p.

Lemma edits_zip es ps :
  Forall2 (fun nb p => clean None (YStr nb.1) nb.2 p) es ps ->
  (zip (od_keys es) ps).*1 = od_keys es /\
  forall n, match od_get n es with
            | Some b => exists p, od_get n (zip (od_keys es) ps) = Some p /\ clean None (YStr n) b p
            | None => od_get n (zip (od_keys es) ps) = None
            end.
Proof.
  induction 1 as [|[n b] p es ps Hc Hps [IH1 IH2]]; [done|]. split.
  - cbn. f_equal. exact IH1.
  - intros m. simpl. destruct (decide (m = n)) as [->|Hne]; [by exists p|]. apply IH2.
Qed.

Lemma merged_spec fs rm es :
  NoDup (od_keys fs) -> edits_ok es ->
  exists e, merged fs rm es = Ok e /\ NoDup (od_keys e) /\
    forall n, match od_get n es with
              | Some b => exists p, od_get n e = Some p /\ clean None (YStr n) b p
              | None => od_get n e = if bool_decide (n ∈ rm) then None else od_get n fs
              end.
Proof.
  intros Hfs [Hnd Hes]. unfold merged. destruct es as [|e0 es0].
  { eexists. split; [done|]. split; [by apply fold_del_keys|]. intros n. simpl. rewrite fold_del_get by done. apply decide_bool_decide. }
  assert (Hps : exists ps, Forall2 (fun nb p => clean None (YStr nb.1) nb.2 p) (e0 :: es0) ps).
  { assert (Hall : Forall (fun nb => exists p, clean None (YStr nb.1) nb.2 p) (e0 :: es0)).
    { apply Forall_forall. intros [n b] Hin. by apply Hes. }
    clear Hnd Hes. induction Hall as [|nb l [p Hp] Hl [ps Hps]]; [by exists []|]. exists (p :: ps). by constructor. }
  destruct Hps as [ps Hps]. pose proof (edits_zip _ _ Hps) as [Hk Hget].
  set (es := e0 :: es0) in *. set (entries := (fun '(n, b) => (YStr n, b)) <$> es).
  assert (Hclean : Forall2 (fun nb p => clean None nb.1 nb.2 p) entries ps).
  { unfold entries. apply Forall2_fmap_l. eapply Forall2_impl; [exact Hps|]. by intros [n b] p. }
  assert (Hnames : py_str <$> entries.*1 = od_keys es).
  { unfold entries, od_keys. rewrite <- !list_fmap_compose. apply list_fmap_ext. by intros i [n b] _. }
  assert (Hparse : parse_policies (edits_doc es) None
                   = Ok (fold_left (fun m np => od_set np.1 np.2 m) (zip (od_keys es) ps) [])).
  { unfold parse_policies, edits_doc. fold entries. cbn [yget]. rewrite decide_True by done.
    clearbody entries. destruct entries as [|x xs]; [by inversion Hclean; subst; inversion Hps|]. rewrite (clean_parse_entries None (x :: xs) ps []) by done.
    cbn [mbind res_bind]. rewrite bool_decide_true by done. by rewrite Hnames. }
  cbn [merged] in *. rewrite Hparse. cbn [mbind res_bind]. eexists. split; [reflexivity|].
  assert (Hzk : NoDup (od_keys (zip (od_keys es) ps))) by (unfold od_keys at 1; rewrite Hk; done).
  split; [by apply fold_set_keys, fold_del_keys|]. intros n.
  rewrite fold_set_get by (apply fold_set_keys; constructor).
  rewrite fold_set_get by done. specialize (Hget n). destruct (od_get n es) as [b|].
  - destruct Hget as (p & -> & Hc). by exists p.
  - rewrite Hget. simpl. rewrite fold_del_get by done. apply decide_bool_decide.
Qed.

(** The store's invariant: what it serves is the file's policies under the
    runtime overlay. *)
Record store_inv (s : PolicyStore) : Prop := {
  si_file : NoDup (od_keys (file_set s));
  si_edits : edits_ok (edits s);
  si_effective : merged (file_set s) (removed s) (edits s) = Ok (effective s) }.

Lemma merge_total s :
  NoDup (od_keys (file_set s)) -> edits_ok (edits s) ->
  exists s', _merge s = (Ok tt, s') /\ store_inv s' /\
    file_set s' = file_set s /\ removed s' = removed s /\ edits s' = edits s.
Proof.
  intros Hf He. destruct (merged_spec (file_set s) (removed s) (edits s) Hf He) as (e & Hm & _).
  unfold _merge. rewrite Hm. eexists. split; [done|].
  split_and!; [|done..]. by split.
Qed.

(** Bookkeeping fields do not matter to it. *)
Lemma inv_frame s s' :
  file_set s' = file_set s -> edits s' = edits s -> removed s' = removed s -> effective s' = effective s ->
  store_inv s -> store_inv s'.
Proof. intros F1 F2 F3 F4 [H1 H2 H3]. split; rewrite ?F1, ?F2, ?F3, ?F4; done. Qed.

Lemma notify_inv e s : store_inv s -> store_inv (_notify e s).
Proof. unfold _notify. case_match; [by apply inv_frame | done]. Qed.

Lemma notify_effective e s : effective (_notify e s) = effective s.
Proof. unfold _notify. by case_match. Qed.

Lemma parse_policies_keys doc known ps : parse_policies doc known = Ok ps -> NoDup (od_keys ps).
Proof.
  unfold parse_policies. destruct doc as [| | | | | |top|]; try done.
  destruct (yget "policies" top) as [[| | | | | |[|e es]|]|]; try done.
  destruct (parse_entries known (e :: es) [] []) as [[out probs]|] eqn:E; [|done].
  cbn [mbind res_bind]. case_bool_decide as Hp; [|done]. intros [= <-]. subst probs.
  apply parse_entries_clean in E as (_ & l & _ & ->). apply fold_set_keys. constructor.
Qed.

Lemma load_inv initial stat read s : store_inv s -> store_inv (snd (_load path initial stat read s)).
Proof.
  intros Hs. pose proof Hs as [H1 H2 H3]. unfold _load.
  destruct stat as [t|]; [|destruct initial; [by apply (inv_frame s)|done]]. case_match; [done|].
  destruct (load_policies read _) as [fs|x] eqn:El.
  2: { destruct x; cbn [snd]; [apply notify_inv|..]; by apply (inv_frame s). }
  assert (Hfs : NoDup (od_keys fs)).
  { unfold load_policies in El. destruct read as [|[]]; [|done|done]. by apply parse_policies_keys in El. }
  destruct (merge_total (with_loaded (with_mtime s t) fs) Hfs H2) as (s' & Hm & Hs' & _).
  rewrite Hm. cbn [snd]. by apply notify_inv.
Qed.

(** A reload that the parser turns down leaves what is served untouched. *)
Lemma load_rejected initial t why read s :
  load_policies read (known_names s) = Raise why ->
  effective (snd (_load path initial (Some t) read s)) = effective s.
Proof.
  intros Hl. unfold _load. case_match; [done|]. cbn [known_names with_mtime] in *. rewrite Hl.
  destruct why; cbn [snd]; rewrite ?notify_effective; done.
Qed.

(** An edit the parser takes alone can join the others; any can leave them. *)
Lemma edits_ok_set known n m ps es :
  edits_ok es -> parse_policies (edits_doc [(n, YMap m)]) known = Ok ps -> edits_ok (od_set n (YMap m) es).
Proof.
  intros [H2 H3] Ep.
  assert (Hclean : exists p, clean None (YStr n) (YMap m) p).
  { unfold parse_policies, edits_doc in Ep. cbn [yget fmap list_fmap] in Ep. rewrite decide_True in Ep by done.
    destruct (parse_entries _ _ [] []) as [[out probs]|] eqn:E; [|done]. cbn [mbind res_bind] in Ep.
    case_bool_decide as Hp; [|done]. subst probs. apply parse_entries_clean in E as (_ & l & Hl & _).
    inversion Hl as [|? p ? ? Hc _]; subst. exists p. by apply clean_unknown in Hc. }
  split; [auto with pydict|]. intros k b Hin.
  apply elem_od_get in Hin; [|auto with pydict]. destruct (decide (k = n)) as [->|Hne].
  - rewrite od_get_set_eq in Hin. by simplify_eq.
  - rewrite od_get_set_ne in Hin by done. apply od_get_elem in Hin. by apply H3.
Qed.

Lemma edits_ok_del n es : edits_ok es -> edits_ok (od_del n es).
Proof.
  intros [H2 H3]. split; [auto with pydict|]. intros k b Hin. apply elem_od_get in Hin; [|auto with pydict].
  apply od_get_del_some_any in Hin as [_ Hin]; [|done]. apply od_get_elem in Hin. by apply H3.
Qed.

Lemma set_policy_inv n body s :
  store_inv s ->
  store_inv (snd (set_policy n body s)) /\
  match set_policy n body s with
  | (Ok pol, s') => exists p, pol = Some p /\ clean None (YStr n) body p /\ od_get n (effective s') = Some p
  | (Raise x, s') => effective s' = effective s
  end.
Proof.
  intros Hs. pose proof Hs as [H1 [H2 H3] H4]. unfold set_policy.
  destruct (negb (RUNTIME_NAME n)); [by split|]. destruct body as [| | | | | |m|]; try by split.
  destruct (parse_policies _ _) as [ps|x] eqn:Ep; [|by split].
  set (s1 := with_overlay s _ _).
  assert (He : edits_ok (edits s1)) by (by eapply edits_ok_set).
  destruct (merge_total s1 H1 He) as (s' & Hm & Hs' & Hf & Hr & Hed). rewrite Hm. split; [done|].
  destruct (merged_spec (file_set s1) (removed s1) (edits s1) H1 He) as (e & Hmg & _ & Hget).
  specialize (Hget n). unfold s1 in Hget at 1. cbn [edits with_overlay] in Hget. rewrite od_get_set_eq in Hget.
  destruct Hget as (p & Hp & Hc). exists p.
  assert (Heff : effective s' = e).
  { pose proof (si_effective s' Hs') as Hse. rewrite Hf, Hr, Hed in Hse. congruence. }
  rewrite Heff. done.
Qed.

Lemma remove_policy_inv n s :
  store_inv s ->
  store_inv (snd (remove_policy n s)) /\
  fst (remove_policy n s) = Ok (od_mem n (effective s) || od_mem n (edits s)) /\
  od_get n (effective (snd (remove_policy n s))) = None.
Proof.
  intros Hs. pose proof Hs as [H1 [H2 H3] H4]. unfold remove_policy. set (s1 := with_overlay s _ _).
  assert (He : edits_ok (edits s1)) by (by apply edits_ok_del).
  destruct (merge_total s1 H1 He) as (s' & Hm & Hs' & Hf & Hr & Hed). rewrite Hm. split; [done|]. split; [done|].
  destruct (merged_spec (file_set s1) (removed s1) (edits s1) H1 He) as (e & Hmg & _ & Hget).
  assert (Heff : effective s' = e).
  { pose proof (si_effective s' Hs') as Hse. rewrite Hf, Hr, Hed in Hse. congruence. }
  cbn [snd]. rewrite Heff. specialize (Hget n). unfold s1 in Hget. cbn [edits removed file_set with_overlay] in Hget.
  rewrite od_get_del_eq in Hget by done. rewrite Hget. unfold od_mem.
  destruct (od_get n (file_set s)) as [p|] eqn:Eg; [|apply Tauto.if_same].
  destruct (bool_decide (n ∈ removed s)) eqn:Er; cbn [negb andb].
  - by rewrite Er.
  - rewrite bool_decide_true by (apply elem_of_app; right; left). done.
Qed.
End StoreFacts.

(** ** What runtime edits make of a name *)
Inductive store_op :=
| OCurrent (now : Q) (stat : option Q) (read : res read_error yaml)
| OSetPolicy (n : string) (body : yaml)
| ORemovePolicy (n : string).

Definition store_step `{PyStr} (path : string) (s : PolicyStore) (o : store_op) : PolicyStore :=
  match o with
  | OCurrent now stat read => snd (current path now stat read s)
  | OSetPolicy n body => snd (set_policy n body s)
  | ORemovePolicy n => snd (remove_policy n s)
  end.

(** What the runtime edits made of one name: nothing, a policy of its own, or
    hidden. *)
Inductive overlay := FromFile | Edited (body : yaml) | Hidden.

Section Overlay.
Context `{PyStr}.
Variable path : string.
Implicit Types (n : string) (s : PolicyStore).

(** Whether [set_policy] takes an edit: the store's other edits do not matter. *)
Definition accepted (known : option (list string)) n (body : yaml) : bool :=
  RUNTIME_NAME n &&
  match body with
  | YMap _ => match parse_policies (edits_doc [(n, body)]) known with Ok _ => true | Raise _ => false end
  | _ => false
  end.

(** One operation's effect on what was made of [n]; [in_file]: the last good
    file has a policy of that name. *)
Definition overlay_step (known : option (list string)) (in_file : bool) n (o : store_op) (v : overlay) : overlay :=
  match o with
  | OCurrent _ _ _ => v
  | OSetPolicy m body => if decide (m = n) then if accepted known m body then Edited body else v else v
  | ORemovePolicy m =>
    if decide (m = n) then if in_file then Hidden else match v with Edited _ => FromFile | _ => v end else v
  end.

(** ... and that of a history of operations. *)
Fixpoint history n (s : PolicyStore) (ops : list store_op) (v : overlay) : overlay :=
  match ops with
  | [] => v
  | o :: ops => history n (store_step path s o) ops (overlay_step (known_names s) (od_mem n (file_set s)) n o v)
  end.

(** The last good file, after an operation: a reload takes a changed file that
    parses, when a check is due. *)
Definition file_step (o : store_op) (s : PolicyStore) : PolicySet :=
  match o with
  | OCurrent now (Some t) read =>
    if (next_check s <=. now) && negb match mtime s with Some m => Qeq_bool t m | None => false end
    then match load_policies read (known_names s) with Ok fs => fs | Raise _ => file_set s end
    else file_set s
  | _ => file_set s
  end.

Definition serves (v : overlay) n s : Prop :=
  match v with
  | Edited body => exists p, od_get n (effective s) = Some p /\ clean None (YStr n) body p
  | Hidden => od_get n (effective s) = None
  | FromFile => od_get n (effective s) = od_get n (file_set s)
  end.

Definition tracks (v : overlay) n s : Prop :=
  match v with
  | Edited body => od_get n (edits s) = Some body /\ n ∉ removed s
  | Hidden => od_get n (edits s) = None /\ n ∈ removed s
  | FromFile => od_get n (edits s) = None /\ n ∉ removed s
  end.

Lemma tracks_serves v n s : store_inv s -> tracks v n s -> serves v n s.
Proof.
  intros Hs Ht. destruct (merged_spec (file_set s) (removed s) (edits s) (si_file _ Hs) (si_edits _ Hs)) as (e & Hm & _ & Hget).
  pose proof (si_effective _ Hs) as Heff. rewrite Hm in Heff. injection Heff as ->. specialize (Hget n).
  destruct v; destruct Ht as [He Hr]; rewrite He in Hget; cbn [serves].
  - by rewrite bool_decide_false in Hget.
  - exact Hget.
  - by rewrite bool_decide_true in Hget.
Qed.

(** The fields the overlay is made of, after each operation. *)
Lemma notify_fields e s : edits (_notify e s) = edits s /\ removed (_notify e s) = removed s /\ file_set (_notify e s) = file_set s.
Proof. unfold _notify. by case_match. Qed.

Lemma current_fields now stat read s : let s' := snd (current path now stat read s) in
  edits s' = edits s /\ removed s' = removed s /\ file_set s' = file_step (OCurrent now stat read) s.
Proof.
  unfold current. cbn [file_step]. destruct (next_check s <=. now) eqn:En; [|by destruct stat].
  destruct stat as [t|]; [|done]. unfold _load. cbn [mtime with_next_check andb].
  destruct (match mtime s with Some m => Qeq_bool t m | None => false end); [done|].
  cbn [known_names with_mtime with_next_check]. destruct (load_policies read (known_names s)) as [fs|x].
  2: { destruct x; try done. cbn [snd]. by edestruct notify_fields as (-> & -> & ->). }
  unfold _merge. destruct (merged _ _ _) as [e|x]; [|done]. cbn [snd]. by edestruct notify_fields as (-> & -> & ->).
Qed.

Lemma set_policy_fields n body s : store_inv s -> let s' := snd (set_policy n body s) in
  if accepted (known_names s) n body
  then edits s' = od_set n body (edits s) /\ removed s' = List.filter (fun r => negb (String.eqb r n)) (removed s) /\ file_set s' = file_set s
  else s' = s.
Proof.
  intros [H1 H2 _]. unfold set_policy, accepted. destruct (RUNTIME_NAME n); [|done]. cbn [negb andb].
  destruct body as [| | | | | |m|]; try done.
  destruct (parse_policies _ _) as [ps|x] eqn:Ep; [|done]. set (s1 := with_overlay s _ _).
  assert (He : edits_ok (edits s1)) by (by eapply edits_ok_set).
  destruct (merge_total s1 H1 He) as (s' & Hm & _ & Hf & Hr & Hed). rewrite Hm. cbn [snd]. by rewrite Hed, Hr, Hf.
Qed.

Lemma remove_policy_fields n s : store_inv s -> let s' := snd (remove_policy n s) in
  edits s' = od_del n (edits s) /\ file_set s' = file_set s /\
  (forall m, m ∈ removed s' <-> m ∈ removed s \/ m = n /\ od_mem n (file_set s) = true).
Proof.
  intros [H1 H2 _]. unfold remove_policy. set (s1 := with_overlay s _ _).
  assert (He : edits_ok (edits s1)) by (by apply edits_ok_del).
  destruct (merge_total s1 H1 He) as (s' & Hm & _ & Hf & Hr & Hed). rewrite Hm. cbn [snd]. rewrite Hed, Hr, Hf.
  split_and!; [done|done|]. intros m. unfold s1. cbn [removed with_overlay].
  destruct (od_mem n (file_set s)); cbn [andb]; [|naive_solver]. case_bool_decide as Hn; cbn [negb].
  - split; [auto|]. by intros [|[-> _]].
  - rewrite elem_of_app, list_elem_of_singleton. naive_solver.
Qed.

Lemma step_inv o s : store_inv s -> store_inv (store_step path s o).
Proof.
  intros Hs. destruct o as [t st rd|m body|m]; cbn [store_step].
  - unfold current. case_match; [|done]. apply (inv_frame s (with_next_check s (t + interval s)%Q)) in Hs; [|done..].
    apply (load_inv path false st rd) in Hs. by destruct (_load _ _ _ _ _) as [[u|x] s2].
  - by apply set_policy_inv.
  - by apply remove_policy_inv.
Qed.

Lemma step_tracks o v n s : store_inv s -> tracks v n s ->
  tracks (overlay_step (known_names s) (od_mem n (file_set s)) n o v) n (store_step path s o).
Proof.
  intros Hs Ht. destruct o as [t st rd|m body|m]; cbn [store_step overlay_step].
  - destruct (current_fields t st rd s) as (He & Hr & _). unfold tracks. by rewrite He, Hr.
  - pose proof (set_policy_fields m body s Hs) as Hf. destruct (accepted (known_names s) m body).
    2: { rewrite Hf. by case_decide. }
    destruct Hf as (He & Hr & _).
    assert (Hrm : n ∈ removed (set_policy m body s).2 <-> n ∈ removed s /\ m ≠ n).
    { rewrite Hr, list_elem_of_In, List.filter_In, <- list_elem_of_In, negb_true_iff, String.eqb_neq. naive_solver. }
    destruct (decide (m = n)) as [->|Hne].
    + cbn [tracks]. rewrite He, Hrm, od_get_set_eq. naive_solver.
    + destruct v; cbn [tracks] in *; rewrite He, Hrm, od_get_set_ne by done; naive_solver.
  - destruct (remove_policy_fields m s Hs) as (He & _ & Hr). destruct (decide (m = n)) as [->|Hne].
    + assert (Hnone : od_get n (edits (remove_policy n s).2) = None) by (rewrite He; apply od_get_del_eq, (si_edits _ Hs)).
      destruct (od_mem n (file_set s)); [cbn [tracks]; rewrite Hnone, Hr; naive_solver|].
      destruct v; cbn [tracks] in *; rewrite Hnone, Hr; naive_solver.
    + destruct v; cbn [tracks] in *; rewrite He, Hr, od_get_del_ne by done; naive_solver.
Qed.

Lemma history_tracks ops : forall v n s, store_inv s -> tracks v n s ->
  store_inv (fold_left (store_step path) ops s) /\ tracks (history n s ops v) n (fold_left (store_step path) ops s).
Proof.
  induction ops as [|o ops IH]; intros v n s Hs Ht; [done|]. cbn [history fold_left]. apply IH; [by apply step_inv|by apply step_tracks].
Qed.

Lemma new_store_inv now known check_interval stat read s0 :
  new_store path now known check_interval stat read = Ok s0 -> store_inv s0 /\ edits s0 = [] /\ removed s0 = [].
Proof.
  intros Hnew. unfold new_store in Hnew. set (s1 := mkStore _ _ _ _ _ _ _ _ _ _ _ _) in Hnew.
  assert (H1 : store_inv s1).
  { split; [constructor | split; [constructor | intros ? ? Hin; by apply not_elem_of_nil in Hin] | done]. }
  pose proof (load_inv path true stat read s1 H1) as H2.
  assert (Hf : edits (snd (_load path true stat read s1)) = [] /\ removed (snd (_load path true stat read s1)) = []).
  { unfold _load. destruct stat as [t|]; [|done]. cbn. destruct (load_policies read known) as [fs|x]; [done|by destruct x]. }
  destruct (_load path true stat read s1) as [[u|x] s2]; [|done]. cbn [snd] in *.
  destruct (merge_total s2 (si_file _ H2) (si_edits _ H2)) as (s3 & Hm & Hs3 & _ & Hr & He). rewrite Hm in Hnew.
  injection Hnew as <-. split; [by apply (inv_frame s3)|]. cbn. rewrite Hr, He. exact Hf.
Qed.
End Overlay.

(** ** Properties *)

(** a policy document is accepted only if every policy in it is usable:
    known strategy, a provider when it is [explicit], a chain when it is
    [fallback], no duplicates in the chain, no provider both allowed and denied,
    only known providers, normalised weights and positive time limits. *)
Theorem parsed_policies_valid `{PyStr} doc known ps :
  parse_policies doc known = Ok ps ->
  ps ≠ [] /\ NoDup (od_keys ps) /\ forall n p, od_get n ps = Some p -> policy_valid known p /\ name p = n.
Proof.
  intros Hp. pose proof (parse_policies_keys doc known ps Hp) as Hnd. unfold parse_policies in Hp.
  destruct doc as [| | | | | |top|]; try done.
  destruct (yget "policies" top) as [[| | | | | |[|e es]|]|]; try done.
  destruct (parse_entries known (e :: es) [] []) as [[out probs]|] eqn:E; [|done].
  cbn [mbind res_bind] in Hp. case_bool_decide as Hpr; [|done]. injection Hp as <-. subst probs.
  apply parse_entries_clean in E as (_ & l & Hl & Hout).
  assert (Hgen : forall (es : list (yaml * yaml)) l acc,
    Forall2 (fun nb p => clean known nb.1 nb.2 p) es l ->
    (forall n p, od_get n acc = Some p -> policy_valid known p /\ name p = n) ->
    forall n p, od_get n (fold_left (fun m np => od_set np.1 np.2 m) (zip (py_str <$> es.*1) l) acc) = Some p ->
      policy_valid known p /\ name p = n).
  { intros es0 l0 acc Hl0. revert acc. induction Hl0 as [|[n b] p es0 l0 Hc Hl0 IH]; intros acc Hacc; simpl; [done|].
    apply IH. intros k q. destruct (decide (py_str n = k)) as [<-|Hne].
    - rewrite od_get_set_eq. intros [= <-]. by eapply clean_valid.
    - rewrite od_get_set_ne by done. apply Hacc. }
  split_and!; [|done|].
  - subst out. inversion Hl as [|nb p ? ? _ _]; subst. cbn. by apply fold_set_nonempty.
  - intros n p. rewrite Hout. by apply Hgen.
Qed.

(** C23: whatever reloads and runtime edits happen, in any order and however
    they fail, what is served under a name is what the history of edits made of
    it: the last accepted edit, which reloads do not undo; nothing, after a removal
    of a name the file had, until the name is edited again; and otherwise the
    policy of the last good file. That file changes only when a due check finds
    a changed one that parses; a rejected file, or a failed edit, changes nothing
    that is served. *)
Theorem store_serves_overlay `{PyStr} path now known check_interval stat read s0 ops n :
  new_store path now known check_interval stat read = Ok s0 ->
  let s := fold_left (store_step path) ops s0 in
  serves (history path n s0 ops FromFile) n s /\
  (forall o, file_set (store_step path s o) = file_step o s) /\
  (forall now' t why read', load_policies read' (known_names s) = Raise why ->
     effective (snd (current path now' (Some t) read' s)) = effective s) /\
  (forall m body, accepted (known_names s) m body = false -> snd (set_policy m body s) = s).
Proof.
  intros (H0 & He & Hr)%new_store_inv s.
  destruct (history_tracks path ops FromFile n s0 H0) as [Hs Ht].
  { split; [by rewrite He|]. rewrite Hr. apply not_elem_of_nil. }
  split_and!; [by apply tracks_serves| | |].
  - intros [t st rd|m body|m]; cbn [store_step file_step].
    + by apply current_fields.
    + pose proof (set_policy_fields m body s Hs) as Hf. destruct (accepted _ m body); [apply Hf|by rewrite Hf].
    + by apply remove_policy_fields.
  - intros now' t why read' Hl. unfold current. case_match; [|done].
    pose proof (load_rejected path false t why read' (with_next_check s (now' + interval s)%Q) Hl) as Hrej.
    by destruct (_load _ _ _ _ _) as [[u|x] s2].
  - intros m body Ha. pose proof (set_policy_fields m body s Hs) as Hf. by rewrite Ha in Hf.
Qed.

Module PolicyDemo.
#[local] Instance demo_repr : PyStr := {| py_repr := fun _ => "?" |}.
Definition body (strat : string) : yaml := YMap [(YStr "strategy", YStr strat)].
Definition doc : yaml := YMap [(YStr "policies", YMap [(YStr "default", body "cheapest")])].

Lemma parsed_policies_witness : exists ps, parse_policies doc None = Ok ps /\ ps ≠ [].
Proof.
  eexists. split; [reflexivity|]. apply (parsed_policies_valid doc None). reflexivity.
Defined.

(** An edit, then a reload of a changed file: the edit is still served, the removed
    name stays hidden. *)
Definition edits_then_reload : list store_op :=
  [OSetPolicy "fast" (body "fastest"); ORemovePolicy "default"; OCurrent 3 (Some 2%Q) (Ok doc)].
Definition demo_store : PolicyStore :=
  match new_store "routing.yml" 0 None 2 (Some 1%Q) (Ok doc) with
  | Ok s => s
  | Raise _ => mkStore None 2 None 0 None 0 false [] [] [] [] []
  end.
Definition after_reload : PolicyStore := fold_left (store_step "routing.yml") edits_then_reload demo_store.
Lemma store_serves_overlay_witness :
  new_store "routing.yml" 0 None 2 (Some 1%Q) (Ok doc) = Ok demo_store /\
  serves (Edited (body "fastest")) "fast" after_reload /\ serves Hidden "default" after_reload /\ reloads after_reload = 2.
Proof.
  split; [reflexivity|]. split; [|split; [|vm_compute; reflexivity]].
  - assert (E : history "routing.yml" "fast" demo_store edits_then_reload FromFile = Edited (body "fastest")) by (vm_compute; reflexivity).
    rewrite <- E. refine (proj1 (store_serves_overlay "routing.yml" 0 None 2 (Some 1%Q) (Ok doc) _ _ _ _)). reflexivity.
  - assert (E : history "routing.yml" "default" demo_store edits_then_reload FromFile = Hidden) by (vm_compute; reflexivity).
    rewrite <- E. refine (proj1 (store_serves_overlay "routing.yml" 0 None 2 (Some 1%Q) (Ok doc) _ _ _ _)). reflexivity.
Defined.

(** A file whose policy has unknown keys of two types makes the reload raise a
    [TypeError], which the store's handler for invalid files does not catch. *)
Definition mixed_keys : yaml :=
  YMap [(YStr "policies", YMap [(YStr "default", YMap [(YBool true, YInt 1); (YStr "typo", YInt 1)])])].
Lemma mixed_keys_escape s :
  next_check s = 0%Q -> mtime s = None ->
  fst (current "routing.yml" 1 (Some 1%Q) (Ok mixed_keys) s) = Raise SortTypeError.
Proof. intros H1 H2. unfold current, _load. rewrite H1. cbn. rewrite H2. reflexivity. Qed.

(** A weight that is not a number passes validation and poisons both weights. *)
Lemma nan_weights_accepted :
  exists ps p, parse_policies (YMap [(YStr "policies", YMap [(YStr "default",
      YMap [(YStr "weights", YMap [(YStr "cost", YFloat NaN); (YStr "latency", YInt 1)])])])]) None = Ok ps /\
    od_get "default" ps = Some p /\ cost_weight p = NaN /\ latency_weight p = NaN.
Proof. eexists _, _. split; [reflexivity|]. by repeat split. Qed.

(** The runtime name test accepts a trailing newline. *)
Lemma newline_name_accepted : RUNTIME_NAME (String.append "fast" (String.String LF EmptyString)) = true.
Proof. reflexivity. Qed.
End PolicyDemo.
