(* ===== verification/Provider.v ===== *)
(** Components: requests, responses and the provider interface
    ([src/src/providers/base.py]) and the model catalogue
    ([src/src/neural/model.py]).

    JSON-like dictionaries (tools, response formats, metadata, wire messages)
    are [yaml] values. *)
From S2P Require Import Prelude Errors Yaml.

(** ** Messages and requests *)
Record tool_call := mkToolCall { tc_id : string; tc_name : string; tc_arguments : option string }.
Record image := mkImage { img_url : option string; media_type : string; img_data : string }.

Record Message := mkMessage {
  role : string;
  content : string;
  tool_calls : option (list tool_call);
  tool_call_id : option string;
  images : option (list image) }.

Record StreamUsage := mkStreamUsage {
  u_input : Z; u_output : Z; u_model : string;
  u_reported : bool; u_estimated : bool; u_completed : bool;
  u_cost : Q; u_provider : string; u_opened_model : string; u_finish_reason : option string }.
Definition new_stream_usage : StreamUsage := mkStreamUsage 0 0 "" false false false 0 "" "" None.

(** [_count] of what an SDK reports: floats are truncated, NaN and infinities
    are [None] or raise in [int()]; here they count as junk. *)
Definition _count (v : yaml) : option Z :=
  match v with
  | YInt z => if 0 <=? z then Some z else None
  | YFloat (Fin q) => if 0%Q <=. q then Some (Qfloor q) else None
  | _ => None
  end.

Definition report (input output : yaml) (model : yaml) (u : StreamUsage) : StreamUsage :=
  match _count input, _count output with
  | None, None => u
  | i, o =>
    mkStreamUsage (default (u_input u) i) (default (u_output u) o)
      (match model with YStr m => str_or (Some m) (u_model u) | _ => u_model u end)
      true (u_estimated u) (u_completed u) (u_cost u) (u_provider u) (u_opened_model u) (u_finish_reason u)
  end.

Record CompletionRequest := mkRequest {
  messages : list Message;
  rq_model : option string;
  max_tokens : Z;
  temperature : Q;
  rq_stream : bool;
  system_prompt : option string;
  metadata : list (string * yaml);
  tools : option (list yaml);
  tool_choice : option yaml;
  response_format : option yaml }.

Definition nonempty {A} (o : option (list A)) : bool := match o with Some (_ :: _) => true | _ => false end.

Definition cacheable (r : CompletionRequest) : bool :=
  negb (nonempty (tools r)) &&
  negb (existsb (fun m => nonempty (tool_calls m) || nonempty (images m) || bool_decide (role m = "tool")) (messages r)).

Record CompletionResponse := mkResponse {
  rs_content : string; rs_model : string; rs_provider : string;
  rs_input : Z; rs_output : Z; rs_cost : Q; rs_latency : Q; rs_cached : bool;
  rs_metadata : list (string * yaml) }.

Definition VALID_ROLES : list string := ["system"; "user"; "assistant"; "tool"].

Definition normalize_finish_reason (raw : option string) : option string :=
  match raw with
  | None => None
  | Some raw =>
    let r := str_lower raw in
    if bool_decide (r ∈ ["tool_calls"; "tool_use"; "function_call"]) then Some "tool_calls"
    else if bool_decide (r ∈ ["length"; "max_tokens"; "max_output_tokens"]) then Some "length"
    else if bool_decide (r ∈ ["content_filter"; "safety"; "refusal"; "recitation"; "blocklist"]) then Some "content_filter"
    else Some "stop"
  end.

Definition non_system (ms : list Message) : list Message :=
  List.filter (fun m => negb (bool_decide (role m = "system"))) ms.

Definition validate_conversation (ms : list Message) : res exn unit :=
  match ms with
  | [] => Raise (ValueError "messages must not be empty")
  | _ =>
    match List.find (fun m => negb (bool_decide (role m ∈ VALID_ROLES))) ms with
    | Some m => Raise (ValueError ("Invalid message role '" +:+ role m
                  +:+ "'; expected one of ('system', 'user', 'assistant', 'tool')"))
    | None =>
      match non_system ms with
      | [] => Raise (ValueError "messages must contain at least one non-system message")
      | first :: rest =>
        if negb (bool_decide (role first = "user"))
        then Raise (ValueError "The first non-system message must have role 'user'")
        else if negb (bool_decide (role (List.last (first :: rest) first) ∈ ["user"; "tool"]))
        then Raise (ValueError "The last message must have role 'user' or 'tool'")
        else if existsb (fun m => bool_decide (role m = "tool") &&
                  bool_decide (str_or (tool_call_id m) EmptyString = EmptyString)) (first :: rest)
        then Raise (ValueError "A 'tool' message needs a tool_call_id")
        else Ok tt
      end
    end
  end.

(** [a or b or None] on texts joined by blank lines. *)
Definition text_parts (o : option string) : list string :=
  match o with Some s => if decide (s = EmptyString) then [] else [s] | None => [] end.
Definition LF : Ascii.ascii := Ascii.ascii_of_nat 10.
Definition blank_line : string := String.String LF (String.String LF EmptyString).
Definition join_text (parts : list string) : option string :=
  let s := String.concat blank_line parts in if decide (s = EmptyString) then None else Some s.

Definition split_system (r : CompletionRequest) : option string * list Message :=
  (join_text (text_parts (system_prompt r) ++
     flat_map (fun m => if bool_decide (role m = "system") then text_parts (Some (content m)) else []) (messages r)),
   non_system (messages r)).

Definition image_url (i : image) : string :=
  let u := str_or (img_url i) EmptyString in
  if decide (u = EmptyString) then "data:" +:+ media_type i +:+ ";base64," +:+ img_data i else u.

Definition request_images (r : CompletionRequest) : list image :=
  flat_map (fun m => default [] (images m)) (messages r).

Definition is_text (s : string) (v : yaml) : bool := match v with YStr t => bool_decide (t = s) | _ => false end.

(** [d.get(key)] on a value known to be a dict, and [d.get(key) or {}]. *)
Definition dget (key : string) (v : yaml) : yaml :=
  match v with YMap m => default YNull (yget key m) | _ => YNull end.

Definition tool_specs (r : CompletionRequest) : list yaml :=
  (fun t =>
     let fn := dget "function" t in
     let field k d := match fn with YMap m => default d (yget k m) | _ => d end in
     YMap [(YStr "name", field "name" (YStr EmptyString));
           (YStr "description", field "description" (YStr EmptyString));
           (YStr "parameters",
              let p := dget "parameters" fn in
              if ytruthy p then p else YMap [(YStr "type", YStr "object"); (YStr "properties", YMap [])])])
  <$> default [] (tools r).

Definition forced_tool_name (choice : yaml) : option yaml :=
  match choice with YMap _ => Some (dget "name" (dget "function" choice)) | _ => None end.

(** One message in OpenAI's wire format. *)
Definition wire_call (c : tool_call) : yaml :=
  YMap [(YStr "id", YStr (tc_id c)); (YStr "type", YStr "function");
        (YStr "function", YMap [(YStr "name", YStr (tc_name c));
                                (YStr "arguments", YStr (str_or (tc_arguments c) "{}"))])].
Definition text_or_null (s : string) : yaml := if decide (s = EmptyString) then YNull else YStr s.
Definition opt_text (o : option string) : yaml := match o with Some s => YStr s | None => YNull end.

Definition wire_message (m : Message) : yaml :=
  if bool_decide (role m = "tool") then
    YMap [(YStr "role", YStr "tool"); (YStr "tool_call_id", opt_text (tool_call_id m)); (YStr "content", YStr (content m))]
  else if bool_decide (role m = "assistant") && nonempty (tool_calls m) then
    YMap [(YStr "role", YStr "assistant"); (YStr "content", text_or_null (content m));
          (YStr "tool_calls", YList (wire_call <$> default [] (tool_calls m)))]
  else if nonempty (images m) then
    YMap [(YStr "role", YStr (role m));
          (YStr "content", YList
             ((if decide (content m = EmptyString) then []
               else [YMap [(YStr "type", YStr "text"); (YStr "text", YStr (content m))]])
              ++ ((fun i => YMap [(YStr "type", YStr "image_url");
                                  (YStr "image_url", YMap [(YStr "url", YStr (image_url i))])])
                  <$> default [] (images m))))]
  else YMap [(YStr "role", YStr (role m)); (YStr "content", YStr (content m))].

Definition openai_messages (r : CompletionRequest) (extra_system : option string) : list yaml :=
  let '(system, rest) := split_system r in
  let system := join_text (text_parts system ++ text_parts extra_system) in
  match system with
  | Some s => [YMap [(YStr "role", YStr "system"); (YStr "content", YStr s)]]
  | None => []
  end ++ (wire_message <$> rest).

Definition openai_tool_kwargs (r : CompletionRequest) (native_schema : bool) : list (string * yaml) :=
  (if nonempty (tools r)
   then ("tools", YList (default [] (tools r))) ::
        match tool_choice r with Some c => [("tool_choice", c)] | None => [] end
   else []) ++
  match response_format r with
  | Some rf =>
    if ytruthy rf && (is_text "json_object" (dget "type" rf) || is_text "json_schema" (dget "type" rf))
    then [("response_format",
           if native_schema || is_text "json_object" (dget "type" rf) then rf
           else YMap [(YStr "type", YStr "json_object")])]
    else []
  | None => []
  end.

(** ** The provider interface

    What the router uses of a [BaseProvider]. The adapters that implement it
    call vendor SDKs; prices come from the price table, so both cost methods may
    raise. [capability_problem] is the optional hook some adapters have. *)
Record BaseProvider := mkProvider {
  p_name : string;
  default_model : string;
  is_local : bool;
  local_models : list string;
  supports_tools : bool;
  supports_vision : bool;
  supports_embeddings : bool;
  capability_problem : CompletionRequest -> option string;
  estimate_cost : Z -> Z -> string -> res exn Q;
  bill : Z -> Z -> string -> res exn Q }.

(** The adapter's own counters. *)
Record provider_totals := mkTotals { total_requests : Z; total_tokens : Z; total_cost : Q }.
Definition _track (r : CompletionResponse) (t : provider_totals) : provider_totals :=
  mkTotals (total_requests t + 1) (total_tokens t + rs_input r + rs_output r) (total_cost t + rs_cost r)%Q.

(** ** Model catalogue *)
Inductive ModelFamily := GPT | CLAUDE | GEMINI | GROK | DEEPSEEK | UNKNOWN_FAMILY.
Inductive ModelTier := FRONTIER | BALANCED_TIER | ECONOMY | REASONING.
Inductive Modality := TEXT | VISION | CODE | AUDIO | EMBEDDING.
#[export] Instance ModelTier_eq_dec : EqDecision ModelTier.
Proof. solve_decision. Defined.
#[export] Instance Modality_eq_dec : EqDecision Modality.
Proof. solve_decision. Defined.
Definition tier_value (t : ModelTier) : string :=
  match t with FRONTIER => "frontier" | BALANCED_TIER => "balanced" | ECONOMY => "economy" | REASONING => "reasoning" end.

Record TokenPricing := mkPricing { input_per_million : Q; output_per_million : Q; cached_input_discount : Q }.
Definition token_cost (p : TokenPricing) (tin tout : Z) (cached : bool) : Q :=
  let rate := (input_per_million p / 1000000)%Q in
  let rate := if cached then (rate * cached_input_discount p)%Q else rate in
  py_round 8 (inject_Z tin * rate + inject_Z tout * (output_per_million p / 1000000))%Q.

Record ModelProfile := mkProfile {
  model_id : string; mp_provider : string; family : ModelFamily; tier : ModelTier;
  context_window : Z; max_output_tokens : Z; modalities : list Modality;
  pricing : option TokenPricing;
  supports_streaming : bool; supports_function_calling : bool; deprecated : bool }.

Definition fits_context (p : ModelProfile) (token_count : Z) : bool := token_count <=? context_window p.
Definition profile_cost (p : ModelProfile) (tin tout : Z) : Q :=
  match pricing p with Some pr => token_cost pr tin tout false | None => 0%Q end.

Definition entry (id provider : string) (f : ModelFamily) (t : ModelTier) (ctx out : Z) (ms : list Modality)
    (pin pout : Q) : string * ModelProfile :=
  (id, mkProfile id provider f t ctx out ms (Some (mkPricing pin pout (1 # 2))) true true false).
Definition without_streaming (e : string * ModelProfile) : string * ModelProfile :=
  let '(id, p) := e in
  (id, mkProfile (model_id p) (mp_provider p) (family p) (tier p) (context_window p) (max_output_tokens p)
         (modalities p) (pricing p) false (supports_function_calling p) (deprecated p)).
Definition without_functions (e : string * ModelProfile) : string * ModelProfile :=
  let '(id, p) := e in
  (id, mkProfile (model_id p) (mp_provider p) (family p) (tier p) (context_window p) (max_output_tokens p)
         (modalities p) (pricing p) (supports_streaming p) false (deprecated p)).

Definition MODEL_CATALOGUE : list (string * ModelProfile) :=
  [entry "gpt-4o" "openai" GPT FRONTIER 128000 16384 [TEXT; VISION; CODE] 5 15;
   entry "gpt-4o-mini" "openai" GPT BALANCED_TIER 128000 16384 [TEXT; VISION; CODE] (15 # 100) (60 # 100);
   without_streaming (entry "o3-mini" "openai" GPT REASONING 200000 100000 [TEXT; CODE] (110 # 100) (440 # 100));
   entry "claude-3-5-sonnet-20241022" "anthropic" CLAUDE FRONTIER 200000 8192 [TEXT; VISION; CODE] 3 15;
   entry "claude-3-5-haiku-20241022" "anthropic" CLAUDE ECONOMY 200000 8192 [TEXT; CODE] (80 # 100) 4;
   entry "gemini-1.5-pro" "gemini" GEMINI FRONTIER 2000000 8192 [TEXT; VISION; AUDIO; CODE] (125 # 100) 5;
   entry "gemini-1.5-flash" "gemini" GEMINI ECONOMY 1000000 8192 [TEXT; VISION; CODE] (75 # 1000) (30 # 100);
   entry "grok-2" "grok" GROK FRONTIER 131072 4096 [TEXT; CODE] 2 10;
   entry "grok-2-mini" "grok" GROK BALANCED_TIER 131072 4096 [TEXT; CODE] (20 # 100) (50 # 100);
   entry "deepseek-chat" "deepseek" DEEPSEEK ECONOMY 65536 8192 [TEXT; CODE] (14 # 100) (28 # 100);
   without_functions (entry "deepseek-reasoner" "deepseek" DEEPSEEK REASONING 65536 32768 [TEXT; CODE] (55 # 100) (219 # 100));
   entry "claude-haiku-4-5" "anthropic" CLAUDE ECONOMY 200000 64000 [TEXT; VISION; CODE] 1 5;
   entry "gemini-2.0-flash" "gemini" GEMINI ECONOMY 1048576 8192 [TEXT; VISION; AUDIO; CODE] (10 # 100) (40 # 100);
   entry "grok-3-mini" "grok" GROK BALANCED_TIER 131072 8192 [TEXT; CODE] (30 # 100) (50 # 100)].

Definition DEFAULT_MODELS : list (string * string) :=
  [("openai", "gpt-4o-mini"); ("anthropic", "claude-haiku-4-5"); ("gemini", "gemini-2.0-flash");
   ("grok", "grok-3-mini"); ("deepseek", "deepseek-chat")].

Abbreviation ModelRegistry := (list (string * ModelProfile)).
(** [catalogue or MODEL_CATALOGUE.copy()] *)
Definition new_registry (catalogue : option ModelRegistry) : ModelRegistry :=
  match catalogue with Some ((_ :: _) as c) => c | _ => MODEL_CATALOGUE end.

Definition KeyError (msg : string) : exn :=
  plain_exn (COther ["KeyError"; "LookupError"; "Exception"; "BaseException"; "object"] false false) ANone msg.

Definition reg_get (id : string) (r : ModelRegistry) : option ModelProfile := od_get id r.
Definition get_or_raise (id : string) (r : ModelRegistry) : res exn ModelProfile :=
  match reg_get id r with Some p => Ok p | None => Raise (KeyError ("Unknown model: '" +:+ id +:+ "'")) end.
Definition default_for (provider : string) (r : ModelRegistry) : res exn ModelProfile :=
  match od_get provider DEFAULT_MODELS with
  | None => Raise (KeyError ("No default model for provider '" +:+ provider +:+ "'"))
  | Some id => get_or_raise id r
  end.

Definition by_provider_tier (a b : ModelProfile) : bool :=
  if decide (mp_provider a = mp_provider b) then String.leb (tier_value (tier a)) (tier_value (tier b))
  else String.leb (mp_provider a) (mp_provider b).

Definition reg_list (provider : option string) (t : option ModelTier) (m : option Modality) (min_context : option Z)
    (exclude_deprecated : bool) (r : ModelRegistry) : list ModelProfile :=
  py_sorted by_provider_tier
    (List.filter (fun p =>
       negb (exclude_deprecated && deprecated p)
       && match provider with
          | Some q => bool_decide (q = EmptyString) || bool_decide (mp_provider p = q)
          | None => true
          end
       && match t with Some t => bool_decide (tier p = t) | None => true end
       && match m with Some m => bool_decide (m ∈ modalities p) | None => true end
       && match min_context with Some c => (c =? 0) || (c <=? context_window p) | None => true end)
     (od_values r)).

(** The first of the smallest by output price. *)
Fixpoint min_by (f : ModelProfile -> Q) (best : ModelProfile) (l : list ModelProfile) : ModelProfile :=
  match l with [] => best | p :: l => min_by f (if f p <. f best then p else best) l end.
Definition cheapest (m : Modality) (min_context : Z) (r : ModelRegistry) : option ModelProfile :=
  match List.filter (fun p => match pricing p with Some _ => true | None => false end)
          (reg_list None None (Some m) (Some min_context) true r) with
  | [] => None
  | p :: l => Some (min_by (fun p => match pricing p with Some pr => output_per_million pr | None => 0%Q end) p l)
  end.
Definition register (p : ModelProfile) (r : ModelRegistry) : ModelRegistry := od_set (model_id p) p r.
