(* ===== verification/Health.v ===== *)
(** Component: provider health score ([src/src/coreai/health.py]). The power
    [0.5 ** x] of a non-negative [x] is a parameter with the facts about it the
    score relies on. *)
From S2P Require Import Prelude Errors.

(** [x |-> 0.5 ** x]: between 0 and 1, and decreasing. *)
Class HalfPow := { half_pow : Q -> Q }.
Record half_pow_laws `{HalfPow} : Prop := {
  hp_pos : forall x, (0 <= x)%Q -> (0 < half_pow x)%Q;
  hp_le1 : forall x, (0 <= x)%Q -> (half_pow x <= 1)%Q;
  hp_anti : forall x y, (0 <= x)%Q -> (x <= y)%Q -> (half_pow y <= half_pow x)%Q }.
Arguments half_pow_laws : clear implicits.

Record HealthTracker := mkHealth { half_life : Q; max_events : nat; events : list (Q * bool) }.

Definition new_health (half_life_seconds : Q) (max : nat) : res exn HealthTracker :=
  if half_life_seconds <=. 0 then Raise (ValueError "half_life_seconds must be positive")
  else Ok (mkHealth half_life_seconds max []).

(** [deque(maxlen=...)] drops from the left. *)
Definition record (now : Q) (ok : bool) (h : HealthTracker) : HealthTracker :=
  mkHealth (half_life h) (max_events h) (od_trim (max_events h) (events h ++ [(now, ok)])).

Section Score.
Context `{HalfPow}.

Definition weight (now half : Q) (t : Q) : Q := half_pow (fmax 0 (now - t) / half).

Definition score_step (now half : Q) (gt : Q * Q) (e : Q * bool) : Q * Q :=
  let '(good, total) := gt in
  let '(t, ok) := e in
  let w := weight now half t in
  (if ok then (good + w)%Q else good, (total + w)%Q).

Definition score (now : Q) (h : HealthTracker) : Q :=
  let '(good, total) := fold_left (score_step now (half_life h)) (events h) (1, 1)%Q in
  (good / total)%Q.

Definition sample_count (h : HealthTracker) : Z := Z.of_nat (length (events h)).
End Score.

(** ** Lemmas *)
Section Facts.
Context `{HalfPow} (laws : half_pow_laws _).

Lemma weight_pos now half t : (0 < half)%Q -> (0 < weight now half t)%Q.
Proof.
  intros Hh. apply (hp_pos laws). apply Qle_shift_div_l; [done|]. pose proof (fmax_l 0 (now - t)). lra.
Qed.

Lemma score_fold now half es good total :
  (0 < half)%Q -> (0 < good)%Q -> (good <= total)%Q ->
  let '(good', total') := fold_left (score_step now half) es (good, total) in
  (0 < good' /\ good' <= total' /\ good <= good' /\ total <= total')%Q /\
  (Forall (fun e => e.2 = true) es -> total' - good' == total - good)%Q.
Proof.
  intros Hh. revert good total. induction es as [|[t ok] es IH]; intros good total Hg Hle; cbn [fold_left].
  - split; [split_and!; lra|]. intros _. lra.
  - cbn [score_step]. pose proof (weight_pos now half t Hh) as Hw. set (w := weight now half t) in *.
    specialize (IH (if ok then good + w else good)%Q (total + w)%Q ltac:(destruct ok; lra) ltac:(destruct ok; lra)).
    destruct (fold_left _ es _) as [good' total']. destruct IH as [(I1 & I2 & I3 & I4) I5].
    split; [destruct ok; split_and!; lra|]. intros Hall. apply Forall_cons in Hall as [Hok Hall]. simpl in Hok. subst ok.
    specialize (I5 Hall). lra.
Qed.
End Facts.

(** ** Properties *)

(** the health score always lies strictly above 0 and at most 1, is 1
    exactly while every remembered outcome is a success, and only the last
    [max_events] outcomes are remembered. *)
Theorem health_score_bounds `{HalfPow} now h outcomes :
  half_pow_laws _ -> (0 < half_life h)%Q ->
  let h' := fold_left (fun h '(t, ok) => record t ok h) outcomes h in
  (0 < score now h' <= 1)%Q /\
  (score now h' == 1 <-> Forall (fun e => e.2 = true) (events h'))%Q /\
  (outcomes ≠ [] -> (length (events h') <= max_events h)%nat).
Proof.
  intros laws Hh h'.
  assert (Hstat : half_life h' = half_life h /\ max_events h' = max_events h).
  { unfold h'. clear. revert h. induction outcomes as [|[t ok] os IH]; intros h; simpl; [done|].
    destruct (IH (record t ok h)) as [-> ->]. done. }
  destruct Hstat as [Hl Hm]. split; [|split].
  - unfold score. rewrite Hl. pose proof (score_fold laws now (half_life h) (events h') 1 1 Hh ltac:(lra) ltac:(lra)) as Hf.
    destruct (fold_left _ (events h') _) as [g t]. destruct Hf as [(F1 & F2 & F3 & F4) _].
    split; [apply Qlt_shift_div_l; lra | apply Qle_shift_div_r; lra].
  - unfold score. rewrite Hl. split.
    + intros Hs.
      assert (Hgen : forall es good total, (0 < good)%Q -> (good <= total)%Q ->
        let '(g, t) := fold_left (score_step now (half_life h)) es (good, total) in
        (g == t)%Q -> (good == total)%Q /\ Forall (fun e => e.2 = true) es).
      { clear Hs. induction es as [|[t ok] es IH]; intros good total Hg Hle; cbn [fold_left]; [by split|].
        cbn [score_step]. pose proof (weight_pos laws now (half_life h) t Hh) as Hw.
        set (w := weight now (half_life h) t) in *.
        specialize (IH (if ok then good + w else good)%Q (total + w)%Q ltac:(destruct ok; lra) ltac:(destruct ok; lra)).
        destruct (fold_left _ es _) as [g t']. intros Hgt. destruct (IH Hgt) as [Heq Hall].
        destruct ok; [split; [lra | by constructor] | exfalso; lra]. }
      specialize (Hgen (events h') 1 1 ltac:(lra) ltac:(lra))%Q.
      pose proof (score_fold laws now (half_life h) (events h') 1 1 Hh ltac:(lra) ltac:(lra)) as Hf.
      destruct (fold_left _ (events h') _) as [g t]. destruct Hf as [(F1 & F2 & F3 & F4) _].
      apply Hgen. assert (Hg : (g == g / t * t)%Q) by (field; lra). rewrite Hs in Hg. lra.
    + intros Hall. pose proof (score_fold laws now (half_life h) (events h') 1 1 Hh ltac:(lra) ltac:(lra)) as Hf.
      destruct (fold_left _ (events h') _) as [g t]. destruct Hf as [(F1 & F2 & F3 & F4) F5].
      specialize (F5 Hall). assert (Hgt : (g == t)%Q) by lra. rewrite Hgt. field. lra.
  - intros Hne. destruct (exists_last Hne) as (os & [t ok] & ->). unfold h'. rewrite fold_left_app. simpl.
    assert (Hmm : max_events (fold_left (fun h '(t, ok) => record t ok h) os h) = max_events h).
    { clear. revert h. induction os as [|[t ok] os IH]; intros h; simpl; [done|]. by rewrite IH. }
    rewrite Hmm. apply length_od_trim.
Qed.

Module HealthDemo.
(** A rational function with the same bounds, for the witness. *)
#[local] Instance hyperbola : HalfPow := {| half_pow := fun x => (1 / (1 + x))%Q |}.

Lemma hyperbola_laws : half_pow_laws hyperbola.
Proof.
  split; simpl.
  - intros x Hx. apply Qlt_shift_div_l; lra.
  - intros x Hx. apply Qle_shift_div_r; lra.
  - intros x y Hx Hxy. apply Qle_shift_div_l; [lra|].
    assert ((1 / (1 + y) * (1 + x) == (1 + x) / (1 + y))%Q) as -> by (field; lra).
    apply Qle_shift_div_r; lra.
Qed.

Lemma health_score_witness :
  (0 < score 10 (fold_left (fun h '(t, ok) => record t ok h) [(1, true); (4, false)] (mkHealth 60 200 [])) <= 1)%Q.
Proof.
  apply (health_score_bounds 10 (mkHealth 60 200 []) [(1, true); (4, false)]%Q hyperbola_laws). reflexivity.
Defined.
End HealthDemo.
