(* ===== verification/Coroutine.v ===== *)
(** Coroutines: the [async] functions of the router.

    A coroutine runs in atomic segments between its suspension points. A segment
    sees one reading of the outside (clocks, random numbers, files) and changes
    the shared state; at a suspension point it asks for an event and resumes with
    the event's value, or with a cancellation. While it is suspended other
    coroutines may change the shared state: the logic below takes that
    interference as a relation ([rely]). *)
From S2P Require Import Prelude Errors.

(** How a coroutine ends; [Cancel] is an exception outside [Exception]
    ([asyncio.CancelledError]), which [except Exception] does not catch. *)
Inductive outcome (A : Type) : Type :=
| Return (a : A)
| Throw (e : exn)
| Cancel.
Arguments Return {_} a.
Arguments Throw {_} e.
Arguments Cancel {_}.

Definition of_res {A} (x : res exn A) : outcome A := match x with Ok a => Return a | Raise e => Throw e end.

Section Coroutines.
Context {R S : Type} {event : Type -> Type}.

Inductive coro (A : Type) : Type :=
| Done (o : outcome A)
| Seg (f : R -> S -> coro A * S)
| Await (X : Type) (e : event X) (k : option X -> coro A).
Arguments Done {A} o.
Arguments Seg {A} f.
Arguments Await {A X} e k.

(** What follows an outcome: [try ... except ... finally] in one combinator. *)
Fixpoint after {A B} (c : coro A) (f : outcome A -> coro B) : coro B :=
  match c with
  | Done o => f o
  | Seg g => Seg (fun r s => match g r s with (c, s) => (after c f, s) end)
  | Await e k => Await e (fun x => after (k x) f)
  end.

(** The exception or cancellation of one coroutine, as another's. *)
Definition rethrow {A B} (o : outcome A) (ok : A -> coro B) : coro B :=
  match o with Return a => ok a | Throw e => Done (Throw e) | Cancel => Done Cancel end.

#[export] Instance coro_ret : MRet coro := fun A a => Done (Return a).
#[export] Instance coro_bind : MBind coro := fun A B f c => after c (fun o => rethrow o f).

Definition try_ {A} (c : coro A) : coro (outcome A) := after c (fun o => Done (Return o)).
Definition finish {A} (o : outcome A) : coro A := Done o.
Definition throw {A} (e : exn) : coro A := Done (Throw e).

(** One atomic segment. *)
Definition seg {A} (m : R -> SE S exn A) : coro A :=
  Seg (fun r s => let '(x, s) := m r s in (Done (of_res x), s)).

(** One suspension point. *)
Definition await {X} (e : event X) : coro X :=
  Await e (fun o => Done (match o with Some x => Return x | None => Cancel end)).

(** ** Rely/guarantee reasoning

    [runs c Q r s]: from state [s], the last segment having read [r], every
    event [c] asks for satisfies [asks], and every way it can end satisfies [Q],
    whatever the events answer and whatever [rely] does while it is suspended. *)
Variable rely : relation S.
Variable asks : R -> forall X, event X -> Prop.

Fixpoint runs {A} (c : coro A) (Q : outcome A -> R -> S -> Prop) (r : R) (s : S) : Prop :=
  match c with
  | Done o => Q o r s
  | Seg f => forall r, match f r s with (c, s) => runs c Q r s end
  | Await e k => asks r _ e /\ forall x s', rely s s' -> runs (k x) Q r s'
  end.

Lemma runs_weaken {A} (c : coro A) (P Q : outcome A -> R -> S -> Prop) r s :
  runs c P r s -> (forall o r s, P o r s -> Q o r s) -> runs c Q r s.
Proof.
  intros Hc HPQ. revert r s Hc. 
  refine ((fix go (c : coro A) : forall r s, runs c P r s -> runs c Q r s :=
    match c with
    | Done o => fun r s H => HPQ o r s H
    | Seg f => fun r s H r' => _
    | Await e k => fun r s H => conj (proj1 H) (fun x s' Hs => go (k x) r s' (proj2 H x s' Hs))
    end) c).
  specialize (H r'). clear -go H. destruct (f r' s) as [c' s']. exact (go c' r' s' H).
Qed.

Lemma runs_fin {A} (o : outcome A) (Q : outcome A -> R -> S -> Prop) r s : Q o r s -> runs (Done o) Q r s.
Proof. done. Qed.

Lemma runs_after {A B} (c : coro A) (f : outcome A -> coro B) P Q r s :
  runs c P r s -> (forall o r s, P o r s -> runs (f o) Q r s) -> runs (after c f) Q r s.
Proof.
  intros Hc HPQ. revert r s Hc.
  refine ((fix go (c : coro A) : forall r s, runs c P r s -> runs (after c f) Q r s :=
    match c with
    | Done o => fun r s H => HPQ o r s H
    | Seg g => fun r s H r' => _
    | Await e k => fun r s H => conj (proj1 H) (fun x s' Hs => go (k x) r s' (proj2 H x s' Hs))
    end) c).
  specialize (H r'). clear -go H. destruct (g r' s) as [c' s']. exact (go c' r' s' H).
Qed.

Lemma runs_bind {A B} (c : coro A) (f : A -> coro B) (P : outcome A -> R -> S -> Prop) Q r s :
  runs c P r s ->
  (forall a r s, P (Return a) r s -> runs (f a) Q r s) ->
  (forall e r s, P (Throw e) r s -> Q (Throw e) r s) ->
  (forall r s, P Cancel r s -> Q Cancel r s) ->
  runs (c ≫= f) Q r s.
Proof.
  intros Hc H1 H2 H3. eapply runs_after; [exact Hc|]. intros [a|e|] r' s' HP; simpl; auto.
Qed.

Lemma runs_try {A} (c : coro A) (P : outcome A -> R -> S -> Prop) Q r s :
  runs c P r s -> (forall o r s, P o r s -> Q (Return o) r s) -> runs (try_ c) Q r s.
Proof. intros Hc HQ. eapply runs_after; [exact Hc|]. intros o r' s' HP. by apply HQ. Qed.

Lemma runs_seg {A} (m : R -> SE S exn A) (Q : outcome A -> R -> S -> Prop) r s :
  (forall r, Q (of_res (m r s).1) r (m r s).2) -> runs (seg m) Q r s.
Proof. intros HQ r'. specialize (HQ r'). by destruct (m r' s) as [x s']. Qed.

Lemma runs_await {X} (e : event X) (Q : outcome X -> R -> S -> Prop) r s :
  asks r X e ->
  (forall x s', rely s s' -> Q (Return x) r s') -> (forall s', rely s s' -> Q Cancel r s') -> runs (await e) Q r s.
Proof. intros He H1 H2. split; [done|]. intros [x|] s' Hs; simpl; auto. Qed.

(** ** Invariants under interference

    [steady c Q]: every segment of [c], entered in any state that satisfies the
    invariant [I], keeps it, whatever other coroutines did in between, and [c]
    can only end in [Q] when the events' answers are [genuine]. *)
Variable I : S -> Prop.
Variable genuine : forall X, event X -> X -> Prop.

Fixpoint steady {A} (c : coro A) (Q : outcome A -> Prop) : Prop :=
  match c with
  | Done o => Q o
  | Seg f => forall r s, I s -> match f r s with (c, s) => I s /\ steady c Q end
  | Await e k => (forall x, genuine _ e x -> steady (k (Some x)) Q) /\ steady (k None) Q
  end.

Lemma steady_after {A B} (c : coro A) (f : outcome A -> coro B) P Q :
  steady c P -> (forall o, P o -> steady (f o) Q) -> steady (after c f) Q.
Proof.
  intros Hc HPQ. revert Hc.
  refine ((fix go (c : coro A) : steady c P -> steady (after c f) Q :=
    match c with
    | Done o => fun H => HPQ o H
    | Seg g => fun H r s Hs => _
    | Await e k => fun H => conj (fun x Hx => go (k (Some x)) (proj1 H x Hx)) (go (k None) (proj2 H))
    end) c).
  specialize (H r s Hs). clear -go H. destruct (g r s) as [c' s']. exact (conj (proj1 H) (go c' (proj2 H))).
Qed.

Lemma steady_weaken {A} (c : coro A) (P Q : outcome A -> Prop) : steady c P -> (forall o, P o -> Q o) -> steady c Q.
Proof.
  intros Hc HPQ. revert Hc.
  refine ((fix go (c : coro A) : steady c P -> steady c Q :=
    match c with
    | Done o => fun H => HPQ o H
    | Seg g => fun H r s Hs => _
    | Await e k => fun H => conj (fun x Hx => go (k (Some x)) (proj1 H x Hx)) (go (k None) (proj2 H))
    end) c).
  specialize (H r s Hs). clear -go H. destruct (g r s) as [c' s']. exact (conj (proj1 H) (go c' (proj2 H))).
Qed.

Lemma steady_bind {A B} (c : coro A) (f : A -> coro B) (P : outcome A -> Prop) Q :
  steady c P -> (forall a, P (Return a) -> steady (f a) Q) -> (forall e, P (Throw e) -> Q (Throw e)) ->
  (P Cancel -> Q Cancel) -> steady (c ≫= f) Q.
Proof. intros Hc H1 H2 H3. eapply steady_after; [exact Hc|]. intros [a|e|] HP; simpl; auto. Qed.

Lemma steady_try {A} (c : coro A) (P : outcome A -> Prop) Q :
  steady c P -> (forall o, P o -> Q (Return o)) -> steady (try_ c) Q.
Proof. intros Hc HQ. eapply steady_after; [exact Hc|]. auto. Qed.

Lemma steady_seg {A} (m : R -> SE S exn A) (Q : outcome A -> Prop) :
  (forall r s, I s -> I (m r s).2 /\ Q (of_res (m r s).1)) -> steady (seg m) Q.
Proof. intros HQ r s Hs. specialize (HQ r s Hs). by destruct (m r s) as [x s']. Qed.

Lemma steady_await {X} (e : event X) (Q : outcome X -> Prop) :
  (forall x, genuine _ e x -> Q (Return x)) -> Q Cancel -> steady (await e) Q.
Proof. by split. Qed.

(** A steady coroutine keeps the invariant in every run. *)
Lemma steady_runs {A} (c : coro A) Q r s :
  (forall s s', I s -> rely s s' -> I s') -> (forall r X (e : event X), asks r X e) ->
  (forall X (e : event X) x, genuine X e x) ->
  steady c Q -> I s -> runs c (fun o _ s => Q o /\ I s) r s.
Proof.
  intros Hrely Hasks Hgen Hc. revert r s Hc.
  refine ((fix go (c : coro A) : forall r s, steady c Q -> I s -> runs c (fun o _ s => Q o /\ I s) r s :=
    match c with
    | Done o => fun r s H Hs => conj H Hs
    | Seg g => fun r s H Hs r' => _
    | Await e k => fun r s H Hs => conj (Hasks r _ e) (fun x s' Hr =>
        match x with
        | Some y => go (k (Some y)) r s' (proj1 H y (Hgen _ e y)) (Hrely s s' Hs Hr)
        | None => go (k None) r s' (proj2 H) (Hrely s s' Hs Hr)
        end)
    end) c).
  specialize (H r' s Hs). clear -go H. destruct (g r' s) as [c' s']. exact (go c' r' s' (proj2 H) (proj1 H)).
Qed.
End Coroutines.


Arguments coro : clear implicits.
Arguments Done {R S event A} o.
Arguments Seg {R S event A} f.
Arguments Await {R S event A X} e k.

(** Fewer demands on the events. *)
Lemma runs_asks {R S : Type} {event : Type -> Type} (rely : relation S) (asks asks' : R -> forall X, event X -> Prop)
    {A} (c : coro R S event A) (Q : outcome A -> R -> S -> Prop) r s :
  (forall r X (e : event X), asks r X e -> asks' r X e) -> runs rely asks c Q r s -> runs rely asks' c Q r s.
Proof.
  intros Hask Hc. revert r s Hc.
  refine ((fix go (c : coro R S event A) : forall r s, runs rely asks c Q r s -> runs rely asks' c Q r s :=
    match c with
    | Done o => fun r s Hst => Hst
    | Seg f => fun r s Hst r' => _
    | Await e k => fun r s Hst => conj (Hask r _ e (proj1 Hst)) (fun x s' Hs => go (k x) r s' (proj2 Hst x s' Hs))
    end) c).
  specialize (Hst r'). clear -go Hst. destruct (f r' s) as [c' s']. exact (go c' r' s' Hst).
Qed.

(** ** Counting events

    [spends ok cost c n Q]: however [c] runs and whatever interferes, the events it
    asks for are [ok] and cost [n] together at most, and it ends in [Q] with what
    is left. *)
Section Counting.
Context {R S : Type} {event : Type -> Type} (ok : forall X, event X -> Prop) (cost : forall X, event X -> nat).

Fixpoint spends {A} (c : coro R S event A) (n : nat) (Q : outcome A -> nat -> Prop) : Prop :=
  match c with
  | Done o => Q o n
  | Seg f => forall r s, match f r s with (c, _) => spends c n Q end
  | Await e k => ok _ e /\ (cost _ e <= n)%nat /\ forall x, spends (k x) (n - cost _ e) Q
  end.
Definition at_most {A} (c : coro R S event A) (n : nat) : Prop := spends c n (fun _ _ => True).

Lemma spends_after {A B} (c : coro R S event A) (f : outcome A -> coro R S event B) P Q n :
  spends c n P -> (forall o m, P o m -> spends (f o) m Q) -> spends (after c f) n Q.
Proof.
  intros Hc Hf. revert n Hc.
  refine ((fix go (c : coro R S event A) : forall n, spends c n P -> spends (after c f) n Q :=
    match c with
    | Done o => fun n H => Hf o n H
    | Seg g => fun n H r s => _
    | Await e k => fun n H => conj (proj1 H) (conj (proj1 (proj2 H)) (fun x => go (k x) _ (proj2 (proj2 H) x)))
    end) c).
  specialize (H r s). clear -go H. destruct (g r s) as [c' s']. exact (go c' n H).
Qed.

Lemma spends_weaken {A} (c : coro R S event A) n m (P Q : outcome A -> nat -> Prop) :
  (n <= m)%nat -> (forall o k k', (k <= k')%nat -> P o k -> Q o k') -> spends c n P -> spends c m Q.
Proof.
  intros Hn HPQ. revert n m Hn.
  refine ((fix go (c : coro R S event A) : forall n m, (n <= m)%nat -> spends c n P -> spends c m Q :=
    match c with
    | Done o => fun n m Hn H => HPQ o n m Hn H
    | Seg f => fun n m Hn H r s => _
    | Await e k => fun n m Hn H => conj (proj1 H) (conj (Nat.le_trans _ _ _ (proj1 (proj2 H)) Hn)
                     (fun x => go (k x) _ _ (Nat.sub_le_mono_r _ _ _ Hn) (proj2 (proj2 H) x)))
    end) c).
  specialize (H r s). clear -go H Hn. destruct (f r s) as [c' s']. exact (go c' n m Hn H).
Qed.

Lemma spends_post {A} (c : coro R S event A) n (P Q : outcome A -> nat -> Prop) :
  (forall o k, P o k -> Q o k) -> spends c n P -> spends c n Q.
Proof.
  intros HPQ. revert n.
  refine ((fix go (c : coro R S event A) : forall n, spends c n P -> spends c n Q :=
    match c with
    | Done o => fun n H => HPQ o n H
    | Seg f => fun n H r s => _
    | Await e k => fun n H => conj (proj1 H) (conj (proj1 (proj2 H)) (fun x => go (k x) _ (proj2 (proj2 H) x)))
    end) c).
  specialize (H r s). clear -go H. destruct (f r s) as [c' s']. exact (go c' n H).
Qed.

Lemma spends_bind {A B} (c : coro R S event A) (f : A -> coro R S event B) P Q n :
  spends c n P -> (forall a m, P (Return a) m -> spends (f a) m Q) ->
  (forall e m, P (Throw e) m -> Q (Throw e) m) -> (forall m, P Cancel m -> Q Cancel m) -> spends (c ≫= f) n Q.
Proof. intros Hc H1 H2 H3. eapply spends_after; [exact Hc|]. intros [a|e|] m Hm; simpl; auto. Qed.

Lemma spends_try {A} (c : coro R S event A) P (Q : outcome (outcome A) -> nat -> Prop) n :
  spends c n P -> (forall o m, P o m -> Q (Return o) m) -> spends (try_ c) n Q.
Proof. intros Hc HQ. eapply spends_after; [exact Hc|]. intros o m Hm. by apply HQ. Qed.

Lemma spends_seg {A} (m : R -> SE S exn A) (Q : outcome A -> nat -> Prop) n :
  (forall r s, Q (of_res (m r s).1) n) -> spends (seg m) n Q.
Proof. intros HQ r s. specialize (HQ r s). cbn. by destruct (m r s). Qed.

Lemma spends_await {X} (e : event X) (Q : outcome X -> nat -> Prop) n :
  ok _ e -> (cost _ e <= n)%nat -> (forall o, Q o (n - cost _ e)%nat) -> spends (await e) n Q.
Proof. intros Hok He HQ. split; [done|]. split; [done|]. by intros [x|]; apply HQ. Qed.

(** The cost alone. *)
Lemma at_most_bind {A B} (c : coro R S event A) (f : A -> coro R S event B) n m :
  at_most c n -> (forall a, at_most (f a) m) -> at_most (c ≫= f) (n + m).
Proof.
  intros Hc Hf. apply (spends_bind _ _ (fun _ k => (m <= k)%nat)); [|intros a k Hk|done|done].
  - revert n Hc. refine ((fix go (c : coro R S event A) : forall n, at_most c n -> spends c (n + m) (fun _ k => (m <= k)%nat) :=
      match c with
      | Done o => fun n H => Nat.le_add_l m n
      | Seg f => fun n H r s => _
      | Await e k => fun n H => conj (proj1 H) (conj (Nat.le_trans _ _ _ (proj1 (proj2 H)) (Nat.le_add_r n m)) (fun x => _))
      end) c).
    + specialize (H r s). clear -go H. destruct (f r s) as [c' s']. exact (go c' n H).
    + destruct H as (_ & Hn & H). specialize (go (k x) _ (H x)). replace (n + m - cost _ e)%nat with (n - cost _ e + m)%nat by lia. exact go.
  - eapply spends_weaken; [exact Hk| |apply Hf]. done.
Qed.
Lemma at_most_try {A} (c : coro R S event A) n : at_most c n -> at_most (try_ c) n.
Proof. intros Hc. eapply spends_try; [exact Hc|done]. Qed.
Lemma at_most_seg {A} (m : R -> SE S exn A) n : at_most (seg m) n.
Proof. by apply spends_seg. Qed.
Lemma at_most_await {X} (e : event X) n : ok _ e -> (cost _ e <= n)%nat -> at_most (await e) n.
Proof. intros Hok He. by apply spends_await. Qed.
End Counting.
(** Other demands and costs. *)
Lemma spends_events {R S : Type} {event : Type -> Type} (ok ok' : forall X, event X -> Prop) (cost cost' : forall X, event X -> nat)
    {A} (c : coro R S event A) n (Q : outcome A -> nat -> Prop) :
  (forall X (e : event X), ok X e -> ok' X e) -> (forall X (e : event X), cost' X e = cost X e) ->
  spends ok cost c n Q -> spends ok' cost' c n Q.
Proof.
  intros Hok Hcost. revert n.
  refine ((fix go (c : coro R S event A) : forall n, spends ok cost c n Q -> spends ok' cost' c n Q :=
    match c with
    | Done o => fun n H => H
    | Seg f => fun n H r s => _
    | Await e k => fun n H => conj (Hok _ e (proj1 H)) _
    end) c).
  - specialize (H r s). clear -go H. destruct (f r s) as [c' s']. exact (go c' n H).
  - destruct H as (_ & Hn & H). rewrite (Hcost _ e). split; [exact Hn|]. intros x. exact (go (k x) _ (H x)).
Qed.

(** No demand on the events themselves. *)
Definition anything {event : Type -> Type} (X : Type) (e : event X) : Prop := True.
