(* ===== verification/KeyPool.v ===== *)
(** Component: several API keys behind one provider name
    ([src/src/providers/pool.py]): requests rotate over the keys, a key whose
    account fails is parked for a while, and the request goes on to the next.

    What a key's own provider does is an event; other requests may move the
    rotation on and park keys while it is under way. *)
From S2P Require Import Prelude Errors Yaml Provider Coroutine.

(** ** The pool *)
Record KeyPoolProvider := mkPool {
  pool_name : string; members : list BaseProvider; labels : list string; cooldown_s : Q;
  _parked : list (Z * Q); _next : Z;
  pool_default_model : string; pool_tools : bool; pool_vision : bool; pool_embeddings : bool }.

(** The capabilities are the first key's. *)
Definition new_pool (name : string) (members : list BaseProvider) (labels : list string) (cooldown_s : Q) : res exn KeyPoolProvider :=
  match members with
  | first :: _ =>
    if (length members =? length labels)%nat
    then Ok (mkPool name members labels cooldown_s [] 0 (default_model first) (supports_tools first) (supports_vision first) (supports_embeddings first))
    else Raise (ValueError "a key pool needs one label per member")
  | [] => Raise (ValueError "a key pool needs one label per member")
  end.
Definition with_parked (p : KeyPoolProvider) parked : KeyPoolProvider :=
  mkPool (pool_name p) (members p) (labels p) (cooldown_s p) parked (_next p) (pool_default_model p) (pool_tools p) (pool_vision p) (pool_embeddings p).
Definition with_next (p : KeyPoolProvider) next : KeyPoolProvider :=
  mkPool (pool_name p) (members p) (labels p) (cooldown_s p) (_parked p) next (pool_default_model p) (pool_tools p) (pool_vision p) (pool_embeddings p).
Definition keys_of (p : KeyPoolProvider) : Z := Z.of_nat (length (members p)).

(** The totals of the keys' own counters. *)
Definition pool_requests (ts : list provider_totals) : Z := foldr Z.add 0 (total_requests <$> ts).
Definition pool_tokens (ts : list provider_totals) : Z := foldr Z.add 0 (total_tokens <$> ts).
Definition pool_cost (ts : list provider_totals) : Q := fsum (total_cost <$> ts).

Definition parked_until (p : KeyPoolProvider) (i : Z) : Q := default 0%Q (od_get i (_parked p)).
Definition key_states (now : Q) (p : KeyPoolProvider) : list (string * bool) :=
  imap (fun i lb => (lb, now <. parked_until p (Z.of_nat i))) (labels p).

Definition rotation (n start : Z) : list Z := (fun i => (start + i) mod n) <$> seqZ 0 n.
Definition _order (now : Q) (p : KeyPoolProvider) : list Z * KeyPoolProvider :=
  let n := keys_of p in
  let order := rotation n (_next p mod n) in
  let live := List.filter (fun i => parked_until p i <=. now) order in
  (match live with [] => order | _ => live end, with_next p ((_next p + 1) mod n)).

Definition _park (now : Q) (i : Z) (p : KeyPoolProvider) : KeyPoolProvider :=
  with_parked p (od_set i (now + cooldown_s p)%Q (_parked p)).

Section Requests.
Context `{TextLib}.
(** The pool's clock and the wall clock. *)
Record reading := mkReading { rd_clock : Q; rd_utc : Q }.
Definition _key_errors : list ErrorKind := [AUTH; QUOTA; RATE_LIMIT].
Definition is_key_error (now_utc : Q) (e : exn) : bool := bool_decide (kind (classify now_utc e) ∈ _key_errors).

Inductive key_event : Type -> Type :=
| EComplete (i : Z) (q : CompletionRequest) : key_event (res exn CompletionResponse)
| ENext (i : Z) (q : CompletionRequest) : key_event (res exn (option string))    (* [__anext__] of the key's stream *)
| EEmbed (i : Z) (texts : list string) (model : option string) : key_event (res exn (list (list Q) * Z * string)).

Abbreviation call := (coro reading KeyPoolProvider key_event).
Definition AssertionError : exn :=
  plain_exn (COther ["AssertionError"; "Exception"; "BaseException"; "object"] false false) ANone "".

(** [except Exception as e]: parked, and on to the next key; or raised. *)
Definition park_key (i : Z) (e : exn) : call bool :=
  seg (fun rd p => if is_key_error (rd_utc rd) e then (Ok true, _park (rd_clock rd) i p) else (Ok false, p)).
Fixpoint each_key {A} (ask : Z -> key_event (res exn A)) (order : list Z) (last : option exn) : call (Z * A) :=
  match order with
  | [] => throw (default AssertionError last)
  | i :: order =>
    out ← try_ (await (ask i) ≫= fun x => finish (of_res x));
    match out with
    | Return a => mret (i, a)
    | Cancel => finish Cancel
    | Throw e =>
      key_error ← park_key i e;
      if key_error : bool then each_key ask order (Some e) else throw e
    end
  end.
Definition with_keys {A} (ask : Z -> key_event (res exn A)) : call (Z * A) :=
  order ← seg (fun rd p => let '(order, p) := _order (rd_clock rd) p in (Ok order, p));
  each_key ask order None.

Definition complete (q : CompletionRequest) : call CompletionResponse :=
  x ← with_keys (fun i => EComplete i q); mret x.2.
Definition embed (texts : list string) (model : option string) : call (list (list Q) * Z * string) :=
  x ← with_keys (fun i => EEmbed i texts model); mret x.2.

(** [stream] is an async generator: it is suspended at a [yield] inside the
    stream of one key, which it stays with once that has given a chunk. *)
Inductive stream_state := Fresh (q : CompletionRequest) | Open (i : Z) (q : CompletionRequest) | Over.
Definition stream_next (g : stream_state) : call (option string * stream_state) :=
  match g with
  | Fresh q => x ← with_keys (fun i => ENext i q); mret (x.2, match x.2 with Some _ => Open x.1 q | None => Over end)
  | Open i q =>
    x ← (await (ENext i q) ≫= fun x => finish (of_res x));
    mret (x, match x with Some _ => Open i q | None => Over end)
  | Over => mret (None, Over)
  end.
End Requests.

(** ** The order of the keys *)
Section Order.
Implicit Types p : KeyPoolProvider.

Record pool_ok p : Prop := {
  po_keys : 0 < keys_of p;
  po_labels : length (labels p) = length (members p);
  po_next : 0 <= _next p < keys_of p }.

Lemma new_pool_ok name ms ls c p : new_pool name ms ls c = Ok p -> pool_ok p.
Proof.
  unfold new_pool. destruct ms as [|m ms]; [done|]. destruct (_ =? _)%nat eqn:E; [|done]. intros [= <-].
  apply Nat.eqb_eq in E. split; unfold keys_of; cbn [members labels _next length] in *; lia.
Qed.

Lemma rotation_elem n s i : 0 < n -> i ∈ rotation n s <-> 0 <= i < n.
Proof.
  intros Hn. unfold rotation. rewrite list_elem_of_fmap. split.
  - intros (j & -> & _). by apply Z.mod_pos_bound.
  - intros Hi. exists ((i - s) mod n). split; [|apply elem_of_seqZ; pose proof (Z.mod_pos_bound (i - s) n Hn); lia].
    rewrite Zplus_mod_idemp_r. replace (s + (i - s)) with i by lia. by rewrite Z.mod_small.
Qed.

Lemma rotation_NoDup n s : NoDup (rotation n s).
Proof.
  unfold rotation. apply NoDup_fmap_2_strong; [|apply NoDup_seqZ]. intros i j Hi Hj Hm.
  apply elem_of_seqZ in Hi, Hj. assert (Hd : (i - j) mod n = 0).
  { replace (i - j) with ((s + i) - (s + j)) by lia. rewrite Zminus_mod, Hm, Z.sub_diag. by apply Zmod_0_l. }
  apply Z.mod_divide in Hd as [q Hq]; [|lia]. assert (q = 0) by nia. lia.
Qed.

Lemma rotation_head n s : 0 <= s < n -> head (rotation n s) = Some s.
Proof.
  intros Hs. unfold rotation. rewrite seqZ_cons by lia. cbn. by rewrite Z.add_0_r, Z.mod_small.
Qed.

Lemma order_NoDup now p : NoDup (_order now p).1.
Proof.
  unfold _order. cbn. destruct (List.filter _ _) as [|i l] eqn:E; [apply rotation_NoDup|]. rewrite <- E.
  eapply sublist_NoDup; [apply (rotation_NoDup (keys_of p) (_next p mod keys_of p))|]. apply filter_sublist.
Qed.

Lemma order_nonempty now p : pool_ok p -> (_order now p).1 ≠ [].
Proof.
  intros Hp. unfold _order. cbn. destruct (List.filter _ _) as [|i l] eqn:E; [|done]. intros Hr.
  pose proof (rotation_elem (keys_of p) (_next p mod keys_of p) 0 (po_keys _ Hp)) as Hx. rewrite Hr in Hx.
  pose proof (po_keys _ Hp). apply (elem_of_nil (A := Z) 0), Hx. lia.
Qed.

Lemma order_ok now p : pool_ok p -> pool_ok (_order now p).2.
Proof.
  intros [H1 H2 H3]. unfold _order. split; cbn; [done|done|]. by apply Z.mod_pos_bound.
Qed.
Lemma park_ok now i p : pool_ok p -> pool_ok (_park now i p).
Proof. by intros [H1 H2 H3]. Qed.
End Order.

(** ** The answers of the keys *)
Section Answers.
Context `{TextLib}.

Lemma kind_of_classify t t' e : kind (classify t e) = kind (classify t' e).
Proof.
  unfold classify. destruct (ex_class e); try done; destruct (_status_of e); try done; unfold classify_by_type; repeat case_match; done.
Qed.

Context {A : Type} (ans : Z -> res exn A).
(** The key's account is the problem. *)
Definition fails_over (i : Z) : Prop := exists e, ans i = Raise e /\ is_key_error 0 e = true.
(** The first key whose account is not the problem decides; if there is none, the
    error of the last one surfaces. *)
Definition settled (order : list Z) (o : outcome (Z * A)) : Prop :=
  (exists before i rest, order = before ++ i :: rest /\ Forall fails_over before /\ ~ fails_over i /\
     o = match ans i with Ok a => Return (i, a) | Raise e => Throw e end) \/
  (exists before i e, order = before ++ [i] /\ Forall fails_over order /\ ans i = Raise e /\ o = Throw e).

Lemma is_key_error_now t e : is_key_error t e = is_key_error 0 e.
Proof. unfold is_key_error. by rewrite (kind_of_classify t 0). Qed.

Lemma settled_cons i order o : fails_over i -> settled order o -> settled (i :: order) o.
Proof.
  intros Hi [(before & j & rest & -> & Hb & Hj & Ho) | (before & j & e & -> & Hb & Hj & Ho)]; [left|right].
  - exists (i :: before), j, rest. split_and!; [done|by constructor|done|done].
  - exists (i :: before), j, e. split_and!; [done|by constructor|done|done].
Qed.

Variable ask : Z -> key_event (res exn A).
Variable genuine : forall X, key_event X -> X -> Prop.
Context (Hgenuine : forall i x, genuine _ (ask i) x -> x = ans i).
Abbreviation steady := (steady (R := reading) pool_ok genuine).

Lemma each_key_steady order : forall last,
  steady (each_key ask order last) (fun o => o = Cancel \/ settled order o \/ (order = [] /\ o = Throw (default AssertionError last))).
Proof.
  induction order as [|i order IH]; intros last; [by right; right|]. cbn [each_key].
  eapply (steady_after _ _ _ _ (fun o => o = Return Cancel \/ o = Return (of_res (ans i)))).
  - apply (steady_try _ _ _ (fun o => o = Cancel \/ o = of_res (ans i))); [|intros o [-> | ->]; [by left|by right]].
    apply (steady_bind _ _ _ _ (fun o => o = Cancel \/ o = Return (ans i))); [apply steady_await; [|by left]| | |].
    + intros x Hx. right. by rewrite (Hgenuine i x).
    + intros x [[=] | [= ->]]. by right.
    + by intros e [[=] | [=]].
    + by left.
  - intros o [-> | ->]; cbn [rethrow]; [by left|]. destruct (ans i) as [a|e] eqn:Ei; cbn [of_res].
    { right; left; left. exists [], i, order. split_and!; [done|constructor| |by rewrite Ei]. intros (e & He & _). congruence. }
    assert (Hi : is_key_error 0 e = true -> fails_over i) by (intros He; by exists e).
    apply (steady_bind _ _ _ _ (fun o => o = Return (is_key_error 0 e))).
    + apply steady_seg. intros rd p Hp. rewrite is_key_error_now. destruct (is_key_error 0 e); cbn; [split; [by apply park_ok|done]|done].
    + intros b [= ->]. destruct (is_key_error 0 e) eqn:Ee.
      * eapply steady_weaken; [apply IH|]. intros o [-> | [Ho|[-> ->]]]; [by left|right; left; by apply settled_cons; [apply Hi|]|].
        right; left; right. exists [], i, e. split_and!; [done|by apply Forall_singleton, Hi|done|done].
      * right; left; left. exists [], i, order. split_and!; [done|constructor| |by rewrite Ei].
        intros (e' & He' & Hk). rewrite Ei in He'. congruence.
    + by intros e' [=].
    + by intros [=].
Qed.

Lemma with_keys_steady :
  steady (with_keys ask) (fun o => o = Cancel \/ exists now p, pool_ok p /\ settled (_order now p).1 o).
Proof.
  unfold with_keys. apply (steady_bind _ _ _ _ (fun o => exists now p, pool_ok p /\ o = Return (_order now p).1)).
  - apply steady_seg. intros rd p Hp. pose proof (order_ok (rd_clock rd) p Hp) as Hp'.
    destruct (_order (rd_clock rd) p) as [order p'] eqn:E. cbn [fst snd of_res]. split; [done|]. exists (rd_clock rd), p. by rewrite E.
  - intros order (now & p & Hp & [= ->]). eapply steady_weaken; [apply each_key_steady|].
    intros o [-> | [Ho|[Ho _]]]; [by left|right; by exists now, p|]. by apply order_nonempty in Ho.
  - by intros e (now & p & _ & [=]).
  - by intros (now & p & _ & [=]).
Qed.
End Answers.

Section Theorems.
Context `{TextLib}.
Implicit Types (p : KeyPoolProvider) (q : CompletionRequest).

Definition complete_answers (ans : Z -> CompletionRequest -> res exn CompletionResponse) (X : Type) (e : key_event X) : X -> Prop :=
  match e in key_event X return X -> Prop with EComplete i q => fun x => x = ans i q | _ => fun _ => True end.
Definition without_key {A} (o : outcome (Z * A)) : outcome A :=
  match o with Return x => Return x.2 | Throw e => Throw e | Cancel => Cancel end.

(** However other requests turn the rotation and park keys meanwhile, a
    completion over several keys is the answer of the first key in the order whose
    account is not the problem, be it a response or an error of its own; when every
    key's account is the problem it is the last key's error. *)
Theorem first_working_key_answers ans q :
  steady (R := reading) pool_ok (complete_answers ans) (complete q)
    (fun o => o = Cancel \/ exists now p o', pool_ok p /\ settled (fun i => ans i q) (_order now p).1 o' /\ o = without_key o').
Proof.
  unfold complete. eapply steady_bind.
  - by apply (with_keys_steady (fun i => ans i q) (fun i => EComplete i q) (complete_answers ans)).
  - intros x [[=] | (now & p & Hp & Ho)]. right. by exists now, p, (Return x).
  - intros e [[=] | (now & p & Hp & Ho)]. right. by exists now, p, (Throw e).
  - by left.
Qed.

Definition asks_key (i : Z) (X : Type) (e : key_event X) : nat :=
  match e with EComplete j _ | ENext j _ | EEmbed j _ _ => if decide (j = i) then 1%nat else 0%nat end.

Lemma each_key_once {A} (ask : Z -> key_event (res exn A)) i order :
  (forall j, asks_key i _ (ask j) = if decide (j = i) then 1%nat else 0%nat) -> NoDup order ->
  forall last, at_most (R := reading) (S := KeyPoolProvider) anything (asks_key i) (each_key ask order last) (if decide (i ∈ order) then 1 else 0).
Proof.
  intros Hask. induction 1 as [|j order Hj Hnd IH]; intros last; [done|]. cbn [each_key].
  replace (if decide (i ∈ j :: order) then 1%nat else 0%nat) with ((if decide (j = i) then 1 else 0) + (if decide (i ∈ order) then 1 else 0))%nat.
  2:{ destruct (decide (j = i)) as [->|Hne]; [by rewrite (decide_False (P := i ∈ order)), decide_True by (done || by left)|].
      apply decide_ext. rewrite elem_of_cons. naive_solver. }
  apply at_most_bind.
  - apply at_most_try. rewrite <- (Nat.add_0_r (if decide (j = i) then 1 else 0)). apply at_most_bind; [apply at_most_await; [done|by rewrite Hask]|by intros].
  - intros [a|e|]; [done| |done]. change (if decide (i ∈ order) then 1 else 0)%nat with (0 + if decide (i ∈ order) then 1 else 0)%nat.
    apply at_most_bind; [apply at_most_seg|]. intros []; [apply IH|done].
Qed.

Lemma with_keys_once {A} (ask : Z -> key_event (res exn A)) i :
  (forall j, asks_key i _ (ask j) = if decide (j = i) then 1%nat else 0%nat) ->
  at_most (R := reading) (S := KeyPoolProvider) anything (asks_key i) (with_keys ask) 1.
Proof.
  intros Hask. unfold with_keys. apply (spends_bind _ _ _ _ (fun o k => k = 1%nat /\ forall order, o = Return order -> NoDup order)).
  - apply spends_seg. intros rd p. pose proof (order_NoDup (rd_clock rd) p) as Hnd. destruct (_order _ p) as [order p']. split; [done|].
    by intros ? [= <-].
  - intros order k [-> Hnd]. eapply spends_weaken; [|done|apply (each_key_once ask i order Hask (Hnd _ eq_refl))]. case_decide; lia.
  - done.
  - done.
Qed.

(** ** The rotation *)
Definition resting (now : Q) p (i : Z) : Prop := (now < parked_until p i)%Q.
(** The keys that consecutive requests start with. *)
Fixpoint turns (times : list Q) p : list (option Z) :=
  match times with [] => [] | now :: times => let '(order, p) := _order now p in head order :: turns times p end.

Lemma rotation_shift n k m : 0 < n -> (fun j => Some ((k + 1 + j) mod n)) <$> seqZ 0 m = (fun j => Some ((k + j) mod n)) <$> seqZ 1 m.
Proof.
  intros Hn. assert (seqZ 1 m = Z.add 1 <$> seqZ 0 m) as -> by (by rewrite fmap_add_seqZ). rewrite <- list_fmap_compose. apply list_fmap_ext. intros _ j _. cbn. f_equal. f_equal. lia.
Qed.

Lemma turns_rotate times : forall p, pool_ok p -> Forall (fun now => forall i, 0 <= i < keys_of p -> ~ resting now p i) times ->
  turns times p = (fun j => Some ((_next p + j) mod keys_of p)) <$> seqZ 0 (Z.of_nat (length times)).
Proof.
  induction times as [|now times IH]; intros p Hp Ht; [done|]. apply Forall_cons in Ht as [Hl Ht]. cbn [turns].
  assert (Ho : _order now p = (rotation (keys_of p) (_next p), with_next p ((_next p + 1) mod keys_of p))).
  { unfold _order. rewrite (Z.mod_small (_next p)) by apply Hp. rewrite filter_true; [by destruct (rotation _ _)|].
    intros i Hi%rotation_elem; [|apply Hp]. apply fleb_le. by apply Qnot_lt_le, Hl. }
  rewrite Ho, rotation_head by apply Hp. pose proof (order_ok now p Hp) as Hp'. rewrite Ho in Hp'. cbn [snd] in Hp'.
  rewrite (IH _ Hp' Ht). rewrite (seqZ_cons 0 (Z.of_nat (length (now :: times)))) by (cbn [length]; lia).
  replace (Z.pred _) with (Z.of_nat (length times)) by (cbn [length]; lia). cbn [fmap list_fmap].
  rewrite Z.add_0_r, (Z.mod_small (_next p)) by apply Hp. f_equal. rewrite <- rotation_shift by apply Hp.
  apply list_fmap_ext. intros _ j _. cbn. by rewrite Zplus_mod_idemp_l.
Qed.

(** A request is offered every key that is not parked, each once (every key if
    all are parked); a key whose account failed at [t] is not offered again in
    the cooldown while another is free; and while none is parked, the keys take
    turns: of any [n] requests in a row over [n] keys each starts with another. *)
Theorem keys_take_turns now p :
  pool_ok p ->
  (NoDup (_order now p).1 /\ forall i, i ∈ (_order now p).1 <-> 0 <= i < keys_of p /\ (~ resting now p i \/ forall j, 0 <= j < keys_of p -> resting now p j)) /\
  (forall t i j, 0 <= j < keys_of p -> i ≠ j -> ~ resting now p j -> (now < t + cooldown_s p)%Q -> i ∉ (_order now (_park t i p)).1) /\
  (forall times, Z.of_nat (length times) = keys_of p -> Forall (fun now => forall i, 0 <= i < keys_of p -> ~ resting now p i) times ->
     turns times p ≡ₚ Some <$> seqZ 0 (keys_of p)).
Proof.
  intros Hp. pose proof (po_keys _ Hp) as Hn. assert (Hel : forall p i, pool_ok p -> i ∈ (_order now p).1 <->
      0 <= i < keys_of p /\ (~ resting now p i \/ forall j, 0 <= j < keys_of p -> resting now p j)).
  { clear p Hp Hn. intros p i Hp. pose proof (fun i => rotation_elem (keys_of p) (_next p mod keys_of p) i (po_keys _ Hp)) as Hr.
    assert (Hf : forall j, j ∈ List.filter (fun i => parked_until p i <=. now) (rotation (keys_of p) (_next p mod keys_of p)) <->
        0 <= j < keys_of p /\ ~ resting now p j).
    { intros j. rewrite list_filter_In, fleb_le, Hr. unfold resting. split; intros [Hx Hy]; split; try done; [by apply Qle_not_lt|by apply Qnot_lt_le]. }
    unfold _order. cbn. destruct (List.filter _ _) as [|j l] eqn:E.
    - rewrite Hr. split; [intros Hi; split; [done|right]|by intros [? _]]. intros j Hj. unfold resting.
      apply Qnot_le_lt. intros Hle. apply (elem_of_nil (A := Z) j), Hf. split; [done|]. by apply Qle_not_lt.
    - rewrite Hf. split; [intros [? ?]; split; [done|by left]|]. intros [Hi [Hl|Hall]]; [done|].
      assert (Hj : j ∈ j :: l) by left. apply Hf in Hj as [Hj Hl]. by destruct Hl; apply Hall. }
  split_and!; [apply order_NoDup|intros; by apply Hel| |].
  - intros t i j Hj Hij Hl Ht Hin. apply (Hel (_park t i p)) in Hin; [|by apply park_ok].
    assert (Hpi : resting now (_park t i p) i) by (unfold resting, parked_until, _park; cbn; by rewrite od_get_set_eq).
    assert (Hpj : ~ resting now (_park t i p) j) by (unfold resting, parked_until, _park; cbn; by rewrite od_get_set_ne).
    destruct Hin as (_ & [Hx|Hx]); [done|]. by apply Hpj, Hx.
  - intros times Ht Hl. rewrite turns_rotate by done. rewrite Ht.
    change (fun j => Some ((_next p + j) mod keys_of p)) with ((Some : Z -> option Z) ∘ (fun j => (_next p + j) mod keys_of p)).
    rewrite list_fmap_compose. apply fmap_Permutation. apply NoDup_Permutation; [apply (rotation_NoDup (keys_of p))|apply NoDup_seqZ|].
    intros i. rewrite (rotation_elem (keys_of p) (_next p) i Hn : i ∈ _ <-> _), elem_of_seqZ. lia.
Qed.

(** Whatever happens meanwhile, a request asks each key once at most. *)
Theorem each_key_is_asked_once i q texts model :
  at_most (R := reading) (S := KeyPoolProvider) anything (asks_key i) (complete q) 1 /\ at_most anything (asks_key i) (embed texts model) 1 /\
  forall g, at_most anything (asks_key i) (stream_next g) 1.
Proof.
  assert (Hb : forall A B (c : coro reading KeyPoolProvider key_event (Z * A)) (f : Z * A -> B), at_most anything (asks_key i) c 1 ->
    at_most anything (asks_key i) (x ← c; mret (f x)) 1).
  { intros A B c f Hc. change 1%nat with (1 + 0)%nat. by apply at_most_bind. }
  split_and!; [apply Hb, with_keys_once; done..|]. intros [q'|j q'|]; cbn [stream_next].
  - apply (Hb _ _ _ (fun x => (x.2, match x.2 with Some _ => Open x.1 q' | None => Over end))), with_keys_once; done.
  - change 1%nat with (1 + 0)%nat. apply at_most_bind; [|done]. change 1%nat with (1 + 0)%nat.
    apply at_most_bind; [|by intros]. apply at_most_await; [done|]. cbn. case_decide; lia.
  - done.
Qed.
End Theorems.

(** ** Examples *)
Module KeyPoolDemo.
Definition key : BaseProvider :=
  mkProvider "openai" "m" false [] false false false (fun _ => None) (fun _ _ _ => Ok 0%Q) (fun _ _ _ => Ok 0%Q).
Definition pool : KeyPoolProvider := mkPool "openai" [key; key; key] ["a"; "b"; "c"] 60 [] 1 "m" false false false.

Lemma keys_take_turns_witness :
  pool_ok pool /\ turns [5; 6; 7]%Q pool ≡ₚ Some <$> seqZ 0 3 /\ (2 ∉ (_order 50 (_park 10 2 pool)).1).
Proof.
  assert (Hp : pool_ok pool) by (split; [reflexivity|reflexivity|split; [discriminate|reflexivity]]).
  split; [exact Hp|]. split.
  - destruct (keys_take_turns 0 pool Hp) as (_ & _ & Hturns). apply (Hturns [5; 6; 7]%Q eq_refl).
    repeat apply List.Forall_cons; [..|constructor]; intros i _ Hr; vm_compute in Hr; discriminate.
  - destruct (keys_take_turns 50 pool Hp) as (_ & Hrest & _). apply (Hrest 10%Q 2 0); [split; [discriminate|reflexivity]|done|intros Hr; vm_compute in Hr; discriminate|reflexivity].
Defined.

(** The second key is parked: the rotation starts at it, so the third is first. *)
Example parked_is_skipped : (_order 50 (_park 10 1 pool)).1 = [2; 0] /\ (_order 70 (_park 10 1 pool)).1 = [1; 2; 0].
Proof. vm_compute. done. Qed.
Example all_parked : (_order 50 (_park 10 0 (_park 10 1 (_park 10 2 pool)))).1 = [1; 2; 0].
Proof. vm_compute. done. Qed.
End KeyPoolDemo.
