(* ===== verification/RouterState.v ===== *)
(** Component: the router's configuration, state and bookkeeping
    ([src/src/coreai/router.py], [RoutingConfig] and the counters of [Router]).
    Planning is in RouterPlan, calling providers in RouterCall. *)
From S2P Require Import Prelude Errors Yaml CircuitBreaker Limiter Retry Cache Health Policy Provider.

Inductive RoutingStrategy := CHEAPEST | FASTEST | BALANCED | ROUND_ROBIN | FALLBACK.
#[export] Instance RoutingStrategy_eq_dec : EqDecision RoutingStrategy.
Proof. solve_decision. Defined.
Definition strategy_value (s : RoutingStrategy) : string :=
  match s with
  | CHEAPEST => "cheapest" | FASTEST => "fastest" | BALANCED => "balanced"
  | ROUND_ROBIN => "round_robin" | FALLBACK => "fallback"
  end.

Definition LATENCY_BUCKETS_MS : list Z := [50; 100; 250; 500; 1000; 2500; 5000; 10000; 30000].
Definition _MAX_MODELS_PER_PROVIDER : Z := 50.
Definition _IMAGE_CHARS : Z := 4000.
Definition _LATENCY_HISTORY_SIZE : nat := 20.
Definition _MIN_SAMPLES : nat := 3.
Definition _DEFAULT_PROVIDER_TIMEOUTS : list (string * Q) := [("deepseek", 120%Q)].

(** ** Configuration *)
Record RoutingConfig := mkRoutingConfig {
  rc_strategy : RoutingStrategy;
  enable_cache : bool;
  cache_ttl_seconds : Z;
  enable_retry : bool;
  max_retry_attempts : Z;
  rc_cost_weight : Q;
  rc_latency_weight : Q;
  enable_failover : bool;
  request_timeout_seconds : Q;
  provider_timeouts : list (string * Q);
  deadline_seconds : option Q;
  max_attempts_before_failover : Z;
  retry_initial_wait_seconds : Q;
  retry_max_wait_seconds : Q;
  circuit_failure_threshold : Z;
  circuit_reset_seconds : Q;
  cache_max_entries : Z;
  health_weight : Q;
  health_half_life_seconds : Q;
  hedge_after_seconds : option Q;
  rate_limits : list (string * RateLimitConfig) }.

(** The constructor's keyword defaults. *)
Definition RoutingConfig_args : RoutingConfig :=
  mkRoutingConfig BALANCED true 3600 true 3 (70 # 100) (30 # 100) true 60 [] (Some 120%Q) 2 1 30 5 30 1000
                  (1 # 2) 60 None [].

(** [{**defaults, **overrides}] *)
Definition dict_merge {V} (d overrides : list (string * V)) : list (string * V) :=
  fold_left (fun d kv => od_set kv.1 kv.2 d) overrides d.

Definition ZeroDivisionError : exn :=
  plain_exn (COther ["ZeroDivisionError"; "ArithmeticError"; "Exception"; "BaseException"; "object"] false false)
            ANone "float division by zero".

(** [RoutingConfig.__init__] on the arguments: provider timeouts are completed,
    the weights normalised. *)
Definition new_config (a : RoutingConfig) : res exn RoutingConfig :=
  if match hedge_after_seconds a with Some h => h <=. 0 | None => false end
  then Raise (ValueError "hedge_after_seconds must be positive or None")
  else
    let total := (rc_cost_weight a + rc_latency_weight a)%Q in
    if Qeq_bool total 0 then Raise ZeroDivisionError
    else Ok (mkRoutingConfig (rc_strategy a) (enable_cache a) (cache_ttl_seconds a) (enable_retry a)
               (max_retry_attempts a) (rc_cost_weight a / total) (rc_latency_weight a / total) (enable_failover a)
               (request_timeout_seconds a) (dict_merge _DEFAULT_PROVIDER_TIMEOUTS (provider_timeouts a))
               (deadline_seconds a) (max_attempts_before_failover a) (retry_initial_wait_seconds a)
               (retry_max_wait_seconds a) (circuit_failure_threshold a) (circuit_reset_seconds a)
               (cache_max_entries a) (health_weight a) (health_half_life_seconds a) (hedge_after_seconds a)
               (rate_limits a)).

(** ** Router state *)
Record provider_stat := mkStat {
  ps_requests : Z; ps_errors : Z; ps_cost : Q; latency_ms_history : list Q;
  error_kinds : list (string * Z); error_statuses : list (Z * Z) }.
Definition new_stat : provider_stat := mkStat 0 0 0 [] [] [].

Record model_entry := mkEntry {
  me_requests : Z; me_input : Z; me_output : Z; latency_sum_ms : Q; latency_buckets : list Z }.
Definition new_entry : model_entry := mkEntry 0 0 0 0 (repeat 0 (S (length LATENCY_BUCKETS_MS))).

Record Router := mkRouter {
  providers : list (string * BaseProvider);
  config : RoutingConfig;
  policies : option PolicyStore;
  _model_registry : ModelRegistry;
  _policy_rr : list (string * Z);
  aliases : list (string * string);
  model_aliases : list (string * string);
  cache : option (ResponseCache (B := MemoryCache CompletionResponse));
  retry_manager : option RetryManager;
  limiter : GlobalRateLimiter;
  breakers : list (string * CircuitBreaker);
  failover_count : Z;
  hedge_count : Z;
  hedge_wins : Z;
  health : list (string * HealthTracker);
  request_count : Z;
  _rr_index : Z;
  model_stats : list ((string * string) * model_entry);
  streams_estimated : list (string * Z);
  provider_stats : list (string * provider_stat) }.

Definition DEFAULT_ALIASES : list (string * string) :=
  [("fast", "low_latency"); ("cheap", "bulk"); ("best", "high_quality")].

(** What [__init__] and [set_provider] create for a new name. *)
Definition config_breaker (c : RoutingConfig) (name : string) : res exn CircuitBreaker :=
  new_breaker name (circuit_failure_threshold c) (circuit_reset_seconds c) 1.
Definition config_limits (c : RoutingConfig) (name : string) : RateLimitConfig :=
  default RateLimitConfig_default (od_get name (rate_limits c)).

(** Every value a fallible constructor gives, or its first exception. *)
Fixpoint build_table {V} (f : string -> res exn V) (names : list string) : res exn (list (string * V)) :=
  match names with
  | [] => Ok []
  | n :: ns => v ← f n; rest ← build_table f ns; Ok ((n, v) :: rest)
  end.

Definition new_router (now : Q) (ps : list (string * BaseProvider)) (c : RoutingConfig)
    (store : option PolicyStore) (registry : ModelRegistry) : res exn Router :=
  let names := od_keys ps in
  mem ← (if enable_cache c
         then b ← new_memory_cache (AInt (cache_max_entries c)); Ok (Some (new_response_cache b))
         else Ok None);
  let retry := if enable_retry c
               then Some (new_retry_manager (Some (mkRetryConfig (max_retry_attempts c)
                            (retry_initial_wait_seconds c) (retry_max_wait_seconds c) 2 true)))
               else None in
  let lim := fold_left (fun g n => register_provider now n (config_limits c n) g) names [] in
  brs ← build_table (config_breaker c) names;
  hs ← build_table (fun _ => new_health (health_half_life_seconds c) 200) names;
  Ok (mkRouter ps c store registry [] DEFAULT_ALIASES [] mem retry lim brs 0 0 0 hs 0 0 [] []
        ((fun n => (n, new_stat)) <$> names)).

(** Field updates. *)
Definition with_providers (r : Router) (ps : list (string * BaseProvider)) : Router :=
  mkRouter ps (config r) (policies r) (_model_registry r) (_policy_rr r) (aliases r) (model_aliases r) (cache r)
    (retry_manager r) (limiter r) (breakers r) (failover_count r) (hedge_count r) (hedge_wins r) (health r)
    (request_count r) (_rr_index r) (model_stats r) (streams_estimated r) (provider_stats r).
Definition with_policies (r : Router) (s : option PolicyStore) : Router :=
  mkRouter (providers r) (config r) s (_model_registry r) (_policy_rr r) (aliases r) (model_aliases r) (cache r)
    (retry_manager r) (limiter r) (breakers r) (failover_count r) (hedge_count r) (hedge_wins r) (health r)
    (request_count r) (_rr_index r) (model_stats r) (streams_estimated r) (provider_stats r).
Definition with_policy_rr (r : Router) (p : list (string * Z)) : Router :=
  mkRouter (providers r) (config r) (policies r) (_model_registry r) p (aliases r) (model_aliases r) (cache r)
    (retry_manager r) (limiter r) (breakers r) (failover_count r) (hedge_count r) (hedge_wins r) (health r)
    (request_count r) (_rr_index r) (model_stats r) (streams_estimated r) (provider_stats r).
Definition with_model_aliases (r : Router) (a : list (string * string)) : Router :=
  mkRouter (providers r) (config r) (policies r) (_model_registry r) (_policy_rr r) (aliases r) a (cache r)
    (retry_manager r) (limiter r) (breakers r) (failover_count r) (hedge_count r) (hedge_wins r) (health r)
    (request_count r) (_rr_index r) (model_stats r) (streams_estimated r) (provider_stats r).
Definition with_cache (r : Router) (c : option (ResponseCache (B := MemoryCache CompletionResponse))) : Router :=
  mkRouter (providers r) (config r) (policies r) (_model_registry r) (_policy_rr r) (aliases r) (model_aliases r) c
    (retry_manager r) (limiter r) (breakers r) (failover_count r) (hedge_count r) (hedge_wins r) (health r)
    (request_count r) (_rr_index r) (model_stats r) (streams_estimated r) (provider_stats r).
Definition with_retry_manager (r : Router) (m : option RetryManager) : Router :=
  mkRouter (providers r) (config r) (policies r) (_model_registry r) (_policy_rr r) (aliases r) (model_aliases r)
    (cache r) m (limiter r) (breakers r) (failover_count r) (hedge_count r) (hedge_wins r) (health r)
    (request_count r) (_rr_index r) (model_stats r) (streams_estimated r) (provider_stats r).
Definition with_limiter (r : Router) (g : GlobalRateLimiter) : Router :=
  mkRouter (providers r) (config r) (policies r) (_model_registry r) (_policy_rr r) (aliases r) (model_aliases r)
    (cache r) (retry_manager r) g (breakers r) (failover_count r) (hedge_count r) (hedge_wins r) (health r)
    (request_count r) (_rr_index r) (model_stats r) (streams_estimated r) (provider_stats r).
Definition with_breakers (r : Router) (b : list (string * CircuitBreaker)) : Router :=
  mkRouter (providers r) (config r) (policies r) (_model_registry r) (_policy_rr r) (aliases r) (model_aliases r)
    (cache r) (retry_manager r) (limiter r) b (failover_count r) (hedge_count r) (hedge_wins r) (health r)
    (request_count r) (_rr_index r) (model_stats r) (streams_estimated r) (provider_stats r).
Definition with_failovers (r : Router) (n : Z) : Router :=
  mkRouter (providers r) (config r) (policies r) (_model_registry r) (_policy_rr r) (aliases r) (model_aliases r)
    (cache r) (retry_manager r) (limiter r) (breakers r) n (hedge_count r) (hedge_wins r) (health r)
    (request_count r) (_rr_index r) (model_stats r) (streams_estimated r) (provider_stats r).
Definition with_hedges (r : Router) (n w : Z) : Router :=
  mkRouter (providers r) (config r) (policies r) (_model_registry r) (_policy_rr r) (aliases r) (model_aliases r)
    (cache r) (retry_manager r) (limiter r) (breakers r) (failover_count r) n w (health r)
    (request_count r) (_rr_index r) (model_stats r) (streams_estimated r) (provider_stats r).
Definition with_health (r : Router) (h : list (string * HealthTracker)) : Router :=
  mkRouter (providers r) (config r) (policies r) (_model_registry r) (_policy_rr r) (aliases r) (model_aliases r)
    (cache r) (retry_manager r) (limiter r) (breakers r) (failover_count r) (hedge_count r) (hedge_wins r) h
    (request_count r) (_rr_index r) (model_stats r) (streams_estimated r) (provider_stats r).
Definition with_request_count (r : Router) (n : Z) : Router :=
  mkRouter (providers r) (config r) (policies r) (_model_registry r) (_policy_rr r) (aliases r) (model_aliases r)
    (cache r) (retry_manager r) (limiter r) (breakers r) (failover_count r) (hedge_count r) (hedge_wins r) (health r)
    n (_rr_index r) (model_stats r) (streams_estimated r) (provider_stats r).
Definition with_rr_index (r : Router) (n : Z) : Router :=
  mkRouter (providers r) (config r) (policies r) (_model_registry r) (_policy_rr r) (aliases r) (model_aliases r)
    (cache r) (retry_manager r) (limiter r) (breakers r) (failover_count r) (hedge_count r) (hedge_wins r) (health r)
    (request_count r) n (model_stats r) (streams_estimated r) (provider_stats r).
Definition with_model_stats (r : Router) (m : list ((string * string) * model_entry)) : Router :=
  mkRouter (providers r) (config r) (policies r) (_model_registry r) (_policy_rr r) (aliases r) (model_aliases r)
    (cache r) (retry_manager r) (limiter r) (breakers r) (failover_count r) (hedge_count r) (hedge_wins r) (health r)
    (request_count r) (_rr_index r) m (streams_estimated r) (provider_stats r).
Definition with_streams_estimated (r : Router) (s : list (string * Z)) : Router :=
  mkRouter (providers r) (config r) (policies r) (_model_registry r) (_policy_rr r) (aliases r) (model_aliases r)
    (cache r) (retry_manager r) (limiter r) (breakers r) (failover_count r) (hedge_count r) (hedge_wins r) (health r)
    (request_count r) (_rr_index r) (model_stats r) s (provider_stats r).
Definition with_stats (r : Router) (s : list (string * provider_stat)) : Router :=
  mkRouter (providers r) (config r) (policies r) (_model_registry r) (_policy_rr r) (aliases r) (model_aliases r)
    (cache r) (retry_manager r) (limiter r) (breakers r) (failover_count r) (hedge_count r) (hedge_wins r) (health r)
    (request_count r) (_rr_index r) (model_stats r) (streams_estimated r) s.

(** [set_provider]: swap the object behind a name, or add everything a new
    provider needs. *)
Definition set_provider (now : Q) (n : string) (p : BaseProvider) (r : Router) : res exn unit * Router :=
  if od_mem n (providers r) then (Ok tt, with_providers r (od_set n p (providers r)))
  else
    let r := with_providers r (od_set n p (providers r)) in
    let r := with_limiter r (register_provider now n (config_limits (config r) n) (limiter r)) in
    match config_breaker (config r) n with
    | Raise e => (Raise e, r)
    | Ok b =>
      let r := with_breakers r (od_set n b (breakers r)) in
      match new_health (health_half_life_seconds (config r)) 200 with
      | Raise e => (Raise e, r)
      | Ok h => (Ok tt, with_stats (with_health r (od_set n h (health r))) (od_set n new_stat (provider_stats r)))
      end
    end.

Definition drop_provider (n : string) (r : Router) : Router :=
  let r := with_limiter (with_providers r (od_del n (providers r))) (od_del n (limiter r)) in
  with_stats (with_health (with_breakers r (od_del n (breakers r))) (od_del n (health r))) (od_del n (provider_stats r)).

(** ** Bookkeeping *)
Abbreviation RM := (SE Router exn).
Definition get_router : RM Router := se_get.

(** [table[name]] *)
Definition at_key {V} (n : string) (t : list (string * V)) : res exn V :=
  match od_get n t with Some v => Ok v | None => Raise (KeyError ("'" +:+ n +:+ "'")) end.

Definition update_stat (n : string) (f : provider_stat -> provider_stat) : RM unit :=
  r ← get_router;
  s ← se_lift (at_key n (provider_stats r));
  se_modify (fun r => with_stats r (od_set n (f s) (provider_stats r))).

Definition note_health (now : Q) (n : string) (ok : bool) : RM unit :=
  r ← get_router;
  h ← se_lift (at_key n (health r));
  se_modify (fun r => with_health r (od_set n (Health.record now ok h) (health r))).

Definition bump_kind (k : string) (s : provider_stat) : provider_stat :=
  mkStat (ps_requests s) (ps_errors s) (ps_cost s) (latency_ms_history s)
         (counter_incr k (error_kinds s)) (error_statuses s).

(** Appending to the rolling window: the oldest sample leaves when it is full. *)
Definition push_latency (latency_ms : Q) (history : list Q) : list Q :=
  let history := history ++ [latency_ms] in
  if (_LATENCY_HISTORY_SIZE <? length history)%nat then drop 1 history else history.

Definition _record_success (now : Q) (n : string) (cost_usd latency_ms : Q) : RM unit :=
  update_stat n (fun s => mkStat (ps_requests s + 1) (ps_errors s) (ps_cost s) (latency_ms_history s)
                                 (error_kinds s) (error_statuses s));;
  note_health now n true;;
  update_stat n (fun s => mkStat (ps_requests s) (ps_errors s) (ps_cost s + cost_usd)%Q
                                 (push_latency latency_ms (latency_ms_history s)) (error_kinds s) (error_statuses s)).

Definition _record_error (now : Q) (n : string) (k : option ErrorKind) (status : option Z) : RM unit :=
  update_stat n (fun s => mkStat (ps_requests s) (ps_errors s + 1) (ps_cost s) (latency_ms_history s)
                                 (error_kinds s) (error_statuses s));;
  (if bool_decide (k = Some BAD_REQUEST) then mret tt else note_health now n false);;
  update_stat n (fun s =>
    let s := bump_kind (kind_value (default UNKNOWN k)) s in
    match status with
    | Some st => mkStat (ps_requests s) (ps_errors s) (ps_cost s) (latency_ms_history s) (error_kinds s)
                        (counter_incr st (error_statuses s))
    | None => s
    end).

Definition _count_local_rate_limit (n : string) : RM unit := update_stat n (bump_kind "local_rate_limit").

(** [sorted(history)[len(history) // 2]] *)
Definition median (history : list Q) : option Q := py_sorted fleb history !! (length history / 2)%nat.
Definition _p50_latency (n : string) (r : Router) : res exn (option Q) :=
  s ← at_key n (provider_stats r); Ok (median (latency_ms_history s)).

(** The label a (provider, model) pair is counted under. *)
Definition model_key (n model : string) (t : list ((string * string) * model_entry)) : string * string :=
  match od_get (n, model) t with
  | Some _ => (n, model)
  | None =>
    let known := Z.of_nat (length (List.filter (fun k => bool_decide (k.1 = n)) (od_keys t))) in
    if _MAX_MODELS_PER_PROVIDER <=? known then (n, "other") else (n, model)
  end.

(** The bucket a latency falls in: the first bound it does not exceed. *)
Fixpoint bucket_index (latency : Q) (bounds : list Z) : nat :=
  match bounds with
  | [] => 0
  | b :: bs => if latency <=. inject_Z b then 0 else S (bucket_index latency bs)
  end.

Definition observe (latency_ms : option Q) (tin tout : option Z) (e : model_entry) : model_entry :=
  let e := mkEntry (me_requests e + 1) (me_input e + Z.max 0 (default 0 tin)) (me_output e + Z.max 0 (default 0 tout))
                   (latency_sum_ms e) (latency_buckets e) in
  match latency_ms with
  | None => e
  | Some l =>
    mkEntry (me_requests e) (me_input e) (me_output e) (latency_sum_ms e + l)%Q
            (alter (Z.add 1) (bucket_index l LATENCY_BUCKETS_MS) (latency_buckets e))
  end.

(** [_record_usage] through [_model_entry]. *)
Definition _record_usage (n model : string) (latency_ms : option Q) (tin tout : option Z) (r : Router) : Router :=
  let k := model_key n (str_or (Some model) "unknown") (model_stats r) in
  let e := default new_entry (od_get k (model_stats r)) in
  with_model_stats r (od_set k (observe latency_ms tin tout e) (model_stats r)).

(** ** Estimates *)
Definition text_length (s : string) : Z := Z.of_nat (String.length s).
Definition prompt_chars (q : CompletionRequest) : Z :=
  fold_right (fun m n => text_length (content m) + n) 0 (messages q) + text_length (default EmptyString (system_prompt q)).
Definition _estimate_tokens (q : CompletionRequest) : Z :=
  Z.max 100 ((prompt_chars q + _IMAGE_CHARS * Z.of_nat (length (request_images q))) / 4).
Definition _estimate_output_tokens (q : CompletionRequest) (fallback : Z) : Z :=
  if max_tokens q =? 0 then fallback else max_tokens q.

(** [_resolve_model_profile]: the catalogue's [KeyError] means unknown. *)
Definition _resolve_model_profile (n : string) (m : option string) (r : Router) : option ModelProfile :=
  match str_or m EmptyString with
  | EmptyString => match default_for n (_model_registry r) with Ok p => Some p | Raise _ => None end
  | id => reg_get id (_model_registry r)
  end.

(** ** Settling a stream *)

(** [_settle_stream]: the usage object after the stream, and the router. Its
    exceptions are logged and dropped; what was changed before stays. *)
Definition settle_usage (n : string) (q : CompletionRequest) (chars : Z) (completed : bool)
    (p : BaseProvider) (u : StreamUsage) : StreamUsage * bool :=
  let model := str_or (Some (u_model u)) (str_or (rq_model q) (default_model p)) in
  let u := mkStreamUsage (u_input u) (u_output u) model (u_reported u) (u_estimated u) completed
             (u_cost u) n (u_opened_model u) (u_finish_reason u) in
  if u_reported u then (u, false)
  else (mkStreamUsage (Z.max 1 (prompt_chars q / 4)) (Z.max 1 (chars / 4)) model false true completed
          (u_cost u) n (u_opened_model u) (u_finish_reason u), true).

Definition set_cost (u : StreamUsage) (c : Q) : StreamUsage :=
  mkStreamUsage (u_input u) (u_output u) (u_model u) (u_reported u) (u_estimated u) (u_completed u) c
    (u_provider u) (u_opened_model u) (u_finish_reason u).

Definition _settle_stream (n : string) (q : CompletionRequest) (u : StreamUsage) (chars : Z)
    (delivered completed : bool) (r : Router) : StreamUsage * Router :=
  if negb delivered then (u, r)
  else match od_get n (providers r) with
  | None => (u, r)
  | Some p =>
    let '(u, estimated) := settle_usage n q chars completed p u in
    let r := if estimated then with_streams_estimated r (counter_incr n (streams_estimated r)) else r in
    match bill p (u_input u) (u_output u) (u_model u) with
    | Raise _ => (u, r)
    | Ok c =>
      let u := set_cost u c in
      match update_stat n (fun s => mkStat (ps_requests s) (ps_errors s) (ps_cost s + c)%Q (latency_ms_history s)
                                           (error_kinds s) (error_statuses s)) r with
      | (Raise _, r) => (u, r)
      | (Ok _, r) => (u, _record_usage n (u_model u) None (Some (u_input u)) (Some (u_output u)) r)
      end
    end
  end.

(** ** Lemmas *)
Definition provider_keys (n : string) (t : list ((string * string) * model_entry)) : list (string * string) :=
  List.filter (fun k => bool_decide (k.1 = n)) (od_keys t).
Definition is_other (k : string * string) : bool := bool_decide (k.2 = "other").
Definition bucket_sum (e : model_entry) : Z := fold_right Z.add 0 (latency_buckets e).

Record entry_ok (e : model_entry) : Prop := {
  eo_len : length (latency_buckets e) = S (length LATENCY_BUCKETS_MS);
  eo_sum : 0 <= bucket_sum e <= me_requests e;
  eo_tokens : 0 <= me_input e /\ 0 <= me_output e }.

Record stats_ok (t : list ((string * string) * model_entry)) : Prop := {
  so_keys : NoDup (od_keys t);
  so_named : forall n, Z.of_nat (length (List.filter (fun k => negb (is_other k)) (provider_keys n t))) <= _MAX_MODELS_PER_PROVIDER;
  so_entries : Forall (fun ke => entry_ok ke.2) t }.

Lemma sum_alter i l : (i < length l)%nat -> fold_right Z.add 0 (alter (Z.add 1) i l) = fold_right Z.add 0 l + 1.
Proof.
  revert i. induction l as [|x l IH]; intros i Hi; simpl in *; [lia|].
  destruct i as [|i]; simpl; [lia|]. change (list_alter (Z.add 1) i l) with (alter (Z.add 1) i l).
  rewrite IH by lia. lia.
Qed.

Lemma bucket_index_le l bs : (bucket_index l bs <= length bs)%nat.
Proof. induction bs as [|b bs IH]; simpl; [lia|]. case_match; lia. Qed.

Lemma observe_ok lat i o e : entry_ok e -> entry_ok (observe lat i o e) /\ me_requests (observe lat i o e) = me_requests e + 1.
Proof.
  intros [H1 H2 [H3 H4]]. unfold observe. destruct lat as [l|]; split; try done.
  - split; cbn [latency_buckets me_requests me_input me_output bucket_sum]; [|unfold bucket_sum; cbn [latency_buckets]|lia].
    + by rewrite length_alter.
    + rewrite sum_alter by (rewrite H1; pose proof (bucket_index_le l LATENCY_BUCKETS_MS); lia).
      unfold bucket_sum in H2. lia.
  - split; cbn [latency_buckets me_requests me_input me_output]; [done| |lia]. unfold bucket_sum in *. cbn [latency_buckets]. lia.
Qed.

Lemma new_entry_ok : entry_ok new_entry.
Proof. split; [reflexivity | vm_compute; split; discriminate | vm_compute; split; discriminate]. Qed.

Lemma filter_set_count (f : string * string -> bool) k (e : model_entry) t :
  (length (List.filter f (od_keys (od_set k e t))) <=
   length (List.filter f (od_keys t)) + (if f k && negb (od_mem k t) then 1 else 0))%nat.
Proof.
  rewrite od_keys_set. unfold od_mem. case_decide as Hin; [lia|].
  apply od_get_None in Hin. rewrite Hin, List.filter_app, length_app. simpl. destruct (f k); simpl; lia.
Qed.

Lemma record_usage_ok n m lat i o r :
  stats_ok (model_stats r) -> stats_ok (model_stats (_record_usage n m lat i o r)).
Proof.
  intros [H1 H2 H3]. unfold _record_usage. cbn [model_stats with_model_stats].
  set (t := model_stats r) in *. set (model := str_or (Some m) "unknown"). set (k := model_key n model t).
  split.
  - auto with pydict.
  - intros n'. unfold provider_keys in *. rewrite filter_filter.
    pose proof (filter_set_count (fun x => negb (is_other x) && bool_decide (x.1 = n')) k
      (observe lat i o (default new_entry (od_get k t))) t) as Hc.
    specialize (H2 n'). rewrite filter_filter in H2. cbn beta in Hc.
    destruct (negb (is_other k) && bool_decide (k.1 = n') && negb (od_mem k t)) eqn:E; [|lia].
    apply andb_true_iff in E as [E Ek]. apply andb_true_iff in E as [Eo En].
    assert (Hknown : Z.of_nat (length (List.filter (fun k => bool_decide (k.1 = n)) (od_keys t))) < _MAX_MODELS_PER_PROVIDER
                     /\ k.1 = n).
    { unfold k, model_key in *. destruct (od_get (n, model) t) as [e|] eqn:Eg; [unfold od_mem in Ek; by rewrite Eg in Ek|].
      destruct (_MAX_MODELS_PER_PROVIDER <=? _) eqn:Em; [done|]. split; [lia|done]. }
    destruct Hknown as [Hknown Hk]. apply bool_decide_eq_true in En. assert (n' = n) as -> by congruence.
    pose proof (filter_filter (fun x => negb (is_other x)) (fun x => bool_decide (x.1 = n)) (od_keys t)) as Hff.
    pose proof (List.filter_length_le (fun x => negb (is_other x)) (List.filter (fun k => bool_decide (k.1 = n)) (od_keys t))) as Hle.
    rewrite Hff in Hle. lia.
  - apply (Forall_od_set entry_ok); [|done]. apply observe_ok.
    destruct (od_get k t) as [e|] eqn:Eg; simpl; [by eapply (Forall_od_get entry_ok) in Eg | apply new_entry_ok].
Qed.

Lemma label_bound n t : stats_ok t -> (length (provider_keys n t) <= 51)%nat.
Proof.
  intros [H1 H2 _]. specialize (H2 n). unfold _MAX_MODELS_PER_PROVIDER in H2.
  rewrite (filter_split is_other).
  assert (Hother : (length (List.filter is_other (provider_keys n t)) <= 1)%nat).
  { assert (Hnd : NoDup (List.filter is_other (provider_keys n t))).
    { eapply sublist_NoDup; [exact H1|]. etrans; [apply filter_sublist|]. apply filter_sublist. }
    assert (Hall : forall k, k ∈ List.filter is_other (provider_keys n t) -> k = (n, "other")).
    { intros [p m] Hin. apply list_elem_of_In, List.filter_In in Hin as [Hin Ho].
      apply List.filter_In in Hin as [_ Hp]. apply bool_decide_eq_true in Ho, Hp. simpl in *. by subst. }
    destruct (List.filter is_other (provider_keys n t)) as [|a [|b l]]; simpl; [lia..|].
    exfalso. apply NoDup_cons in Hnd as [Hnin _]. apply Hnin.
    rewrite (Hall a) by left. rewrite <- (Hall b) by (right; left). left. }
  lia.
Qed.

(** One priced call: provider, model, latency when it counts, tokens. *)
Definition usage_note : Type := string * string * option Q * option Z * option Z.
Definition do_note (r : Router) (u : usage_note) : Router :=
  let '(n, m, lat, i, o) := u in _record_usage n m lat i o r.

Definition requests_total (t : list ((string * string) * model_entry)) : Z :=
  fold_right (fun ke n => me_requests ke.2 + n) 0 t.

Lemma requests_total_set k e t :
  requests_total (od_set k e t) = requests_total t - (match od_get k t with Some e' => me_requests e' | None => 0 end) + me_requests e.
Proof.
  unfold requests_total. induction t as [|[k' e'] t IH]; simpl; [lia|]. destruct (decide (k = k')); simpl; lia.
Qed.

(** ** Properties *)

(** whatever models clients name, each provider has at most 51 metric
    labels (50 models and "other"); every counted request lands under exactly
    one label, and a label's histogram holds at most its requests, in ten
    buckets. *)
Theorem model_labels_bounded r us :
  model_stats r = [] ->
  let t := model_stats (fold_left do_note us r) in
  (forall n, (length (provider_keys n t) <= 51)%nat) /\
  requests_total t = Z.of_nat (length us) /\
  Forall (fun ke => entry_ok ke.2) t.
Proof.
  intros H0 t.
  assert (Hgen : forall r, stats_ok (model_stats r) ->
    stats_ok (model_stats (fold_left do_note us r)) /\
    requests_total (model_stats (fold_left do_note us r)) = requests_total (model_stats r) + Z.of_nat (length us)).
  { induction us as [|[[[[n m] lat] i] o] us IH]; intros r0 Hr0; cbn [fold_left length]; [split; [done|lia]|].
    destruct (IH (do_note r0 (n, m, lat, i, o)) (record_usage_ok n m lat i o r0 Hr0)) as [I1 I2].
    split; [done|]. rewrite I2. unfold do_note, _record_usage. cbn [model_stats with_model_stats].
    rewrite requests_total_set. set (k := model_key _ _ _).
    assert (Hok : entry_ok (default new_entry (od_get k (model_stats r0)))).
    { destruct (od_get k (model_stats r0)) as [e|] eqn:Eg; simpl; [|apply new_entry_ok].
      by eapply (Forall_od_get entry_ok) in Eg; [|apply so_entries]. }
    destruct (observe_ok lat i o _ Hok) as [_ Hobs]. rewrite Hobs.
    destruct (od_get k (model_stats r0)); simpl; lia. }
  assert (Hr : stats_ok (model_stats r)).
  { rewrite H0. split; [constructor | intros n; vm_compute; discriminate | constructor]. }
  destruct (Hgen r Hr) as [I1 I2]. split_and!.
  - intros n. by apply label_bound.
  - unfold t. rewrite I2, H0. simpl. lia.
  - apply so_entries, I1.
Qed.

Definition empty_router : Router :=
  mkRouter [] RoutingConfig_args None MODEL_CATALOGUE [] DEFAULT_ALIASES [] None None [] [] 0 0 0 [] 0 0 [] [] [].

Lemma model_labels_witness :
  requests_total (model_stats (fold_left do_note
    [("openai", "gpt-4o", Some 70%Q, Some 5, Some 9); ("openai", "", None, None, Some 4)] empty_router)) = 2.
Proof.
  apply (model_labels_bounded empty_router
    [("openai", "gpt-4o", Some 70%Q, Some 5, Some 9); ("openai", "", None, None, Some 4)]).
  reflexivity.
Defined.
