(* ===== verification/RouterPlan.v ===== *)
(** Component: planning in the router ([src/src/coreai/router.py]): aliases,
    model ownership, provider selection, policies, the candidate plan, the
    per-candidate checks and the dry run [explain].

    Planning has no suspension points, so one clock reading and one look at the
    policy file ([plan_env]) stand for those it makes. *)
From stdpp Require Import pretty.
From S2P Require Import Prelude Errors Yaml CircuitBreaker Retry Health Policy Provider RouterState.

Record plan_env := mkEnv {
  e_now : Q;                          (* the router's clock *)
  e_path : string;                    (* the policy file, its mtime and contents *)
  e_stat : option Q;
  e_read : res read_error yaml }.

(** Float products with a weight that may not be a number. *)
Definition xmulq (a : xfloat) (q : Q) : xfloat :=
  match a with
  | Fin x => Fin (x * q)%Q
  | NaN => NaN
  | PInf => if 0 <. q then PInf else if q <. 0 then NInf else NaN
  | NInf => if 0 <. q then NInf else if q <. 0 then PInf else NaN
  end.

Definition xround (digits : positive) (v : xfloat) : xfloat := match v with Fin x => Fin (py_round digits x) | v => v end.

(** [max(values) or 1.0] *)
Definition max_or_one (l : list Q) : Q :=
  match l with
  | [] => 1%Q
  | x :: l => let m := fmax_list x l in if Qeq_bool m 0 then 1%Q else m
  end.

(** Candidate names and, in parallel, the model each should use. *)
Abbreviation plan := (list string * list (option string))%type.

Section Plan.
Context `{PyStr} `{HalfPow}.
Variable env : plan_env.
Implicit Types (q : CompletionRequest) (n : string) (names available : list string).

(** ** Table lookups and breakers *)
Definition provider_at n : RM BaseProvider := r ← get_router; se_lift (at_key n (providers r)).
Definition breaker_at n : RM CircuitBreaker := r ← get_router; se_lift (at_key n (breakers r)).

Definition breaker_would_allow n : RM bool :=
  b ← breaker_at n;
  let '(ok, b) := would_allow (e_now env) b in
  se_modify (fun r => with_breakers r (od_set n b (breakers r)));; mret ok.

Fixpoint filter_allowed names : RM (list string) :=
  match names with
  | [] => mret []
  | n :: names => ok ← breaker_would_allow n; rest ← filter_allowed names; mret (if (ok : bool) then n :: rest else rest)
  end.

Definition _soonest_retry_after (r : Router) : option Q :=
  match omap (CircuitBreaker.retry_after (e_now env)) (od_values (breakers r)) with
  | [] => None
  | w :: ws => Some (fmin_list w ws)
  end.

Definition unavailable {A} (failures : list (string * ErrorKind)) : RM A :=
  r ← get_router; se_raise (AllProvidersUnavailable failures (_soonest_retry_after r)).

(** ** Ownership and aliases *)
Definition _owner_of (m : option string) (r : Router) : option string :=
  match str_or m EmptyString with
  | EmptyString => None
  | id =>
    match reg_get id (_model_registry r) with
    | Some p => Some (mp_provider p)
    | None =>
      match List.find (fun '(_, p) => is_local p && bool_decide (id ∈ local_models p)) (providers r) with
      | Some (n, _) => Some n
      | None => None
      end
    end
  end.

Definition add_model_alias (alias model : string) (r : Router) : res exn unit * Router :=
  if od_mem alias (_model_registry r) || od_mem alias (aliases r)
  then (Raise (ValueError ("alias " +:+ repr alias +:+ " is already a model or policy alias")), r)
  else if negb (od_mem model (_model_registry r)) then (Raise (ValueError ("unknown model " +:+ repr model)), r)
  else (Ok tt, with_model_aliases r (od_set alias model (model_aliases r))).

(** What leaves the policy store besides policies. *)
Definition policy_error (e : policy_exn) : exn :=
  match e with
  | PolicyError ps => value_error "PolicyError" (joined ps)
  | SortTypeError => plain_exn (COther ["TypeError"; "Exception"; "BaseException"; "object"] false false) ANone
                       "'<' not supported between instances"
  | NumberOverflow => float_overflow
  | ReadFailed e => e
  end.

(** [self.policies.current()] *)
Definition current_policies : RM (option PolicySet) :=
  r ← get_router;
  match policies r with
  | None => mret None
  | Some s =>
    let '(out, s) := current (e_path env) (e_now env) (e_stat env) (e_read env) s in
    se_modify (fun r => with_policies r (Some s));;
    match out with Ok ps => mret (Some ps) | Raise e => se_raise (policy_error e) end
  end.

Definition alias_policy (m : option string) : RM (option string) :=
  r ← get_router;
  match match str_or m EmptyString with EmptyString => None | id => od_get id (aliases r) end with
  | None => mret None
  | Some target =>
    ps ← current_policies;
    mret (match ps with
          | Some ps => match policy_get (Some target) ps with Some _ => Some target | None => None end
          | None => None
          end)
  end.

Definition with_model q (m : option string) : CompletionRequest :=
  mkRequest (messages q) m (max_tokens q) (temperature q) (rq_stream q) (system_prompt q) (metadata q)
            (tools q) (tool_choice q) (response_format q).
Definition with_metadata q (md : list (string * yaml)) : CompletionRequest :=
  mkRequest (messages q) (rq_model q) (max_tokens q) (temperature q) (rq_stream q) (system_prompt q) md
            (tools q) (tool_choice q) (response_format q).

(** The request after [resolve_alias] has updated it. *)
Definition resolve_alias q : RM CompletionRequest :=
  r ← get_router;
  let m := str_or (rq_model q) EmptyString in
  if od_mem m (_model_registry r) then mret q
  else match od_get m (model_aliases r) with
  | Some target =>
    mret (with_model (with_metadata q (od_set "model_alias" (opt_text (rq_model q)) (metadata q))) (Some target))
  | None =>
    p ← alias_policy (rq_model q);
    match p with
    | None => mret q
    | Some p =>
      mret (with_model (with_metadata q (od_set "alias" (opt_text (rq_model q)) (od_set "policy" (YStr p) (metadata q)))) None)
    end
  end.

(** ** Selection *)
Definition cost_of q n : RM Q :=
  p ← provider_at n;
  let est := _estimate_tokens q in
  se_lift (estimate_cost p est (_estimate_output_tokens q est) (str_or (rq_model q) (default_model p))).

(** Keep [best] unless [n] is strictly better; [None] is infinity. *)
Fixpoint select_min (value : string -> RM xfloat) names (best : string) (best_value : xfloat) : RM string :=
  match names with
  | [] => mret best
  | n :: names =>
    v ← value n;
    if xlt v best_value then select_min value names n v else select_min value names best best_value
  end.

Definition _select_cheapest q (first : string) available : RM string :=
  select_min (fun n => c ← cost_of q n; mret (Fin c)) available first PInf.

Definition history_of n : RM (list Q) :=
  r ← get_router; s ← se_lift (at_key n (provider_stats r)); mret (latency_ms_history s).

Fixpoint under_sampled available : RM (list string) :=
  match available with
  | [] => mret []
  | n :: rest => h ← history_of n; us ← under_sampled rest;
                 mret (if (length h <? _MIN_SAMPLES)%nat then n :: us else us)
  end.

(** [names[index % len(names)]] for a non-empty list. *)
Definition rotate_pick (index : Z) (first : string) (rest : list string) : string :=
  default first ((first :: rest) !! Z.to_nat (index `mod` Z.of_nat (length (first :: rest)))).

Definition _select_fastest (first : string) available : RM string :=
  us ← under_sampled available;
  match us with
  | u :: us =>
    r ← get_router;
    se_modify (fun r => with_rr_index r (_rr_index r + 1));; mret (rotate_pick (_rr_index r) u us)
  | [] => select_min (fun n => h ← history_of n; mret (match median h with Some m => Fin m | None => NaN end))
                     available first PInf
  end.

Definition _select_round_robin (first : string) (rest : list string) : RM string :=
  r ← get_router;
  se_modify (fun r => with_rr_index r (_rr_index r + 1));; mret (rotate_pick (_rr_index r) first rest).

Fixpoint raw_values q available : RM (list (string * (Q * Q))) :=
  match available with
  | [] => mret []
  | n :: rest =>
    c ← cost_of q n;
    h ← history_of n;
    vs ← raw_values q rest;
    mret ((n, (c, default 500%Q (median h))) :: vs)
  end.

Definition health_of n : RM Q := r ← get_router; h ← se_lift (at_key n (health r)); mret (score (e_now env) h).

Fixpoint score_all (cost_w latency_w : xfloat) (max_cost max_latency hw : Q) (raw : list (string * (Q * Q)))
    : RM (list (string * xfloat)) :=
  match raw with
  | [] => mret []
  | (n, (c, l)) :: raw =>
    h ← health_of n;
    rest ← score_all cost_w latency_w max_cost max_latency hw raw;
    mret ((n, xadd (xadd (xdiv (xmulq cost_w c) (Fin max_cost)) (xdiv (xmulq latency_w l) (Fin max_latency)))
                   (Fin (hw * (1 - h))%Q)) :: rest)
  end.

(** [_balanced_scores] *)
Definition _balanced_scores q available (weights : option (xfloat * xfloat)) : RM (list (string * xfloat)) :=
  raw ← raw_values q available;
  r ← get_router;
  let '(cost_w, latency_w) := default (Fin (rc_cost_weight (config r)), Fin (rc_latency_weight (config r))) weights in
  score_all cost_w latency_w (max_or_one (raw.*2.*1)) (max_or_one (raw.*2.*2)) (health_weight (config r)) raw.

Definition score_in (scores : list (string * xfloat)) n : xfloat := default NaN (od_get n scores).
(** [sorted(names, key=lambda n: scores[n])] *)
Definition by_score (scores : list (string * xfloat)) (a b : string) : bool :=
  negb (xlt (score_in scores b) (score_in scores a)).

Definition _select_balanced q (first : string) available : RM string :=
  scores ← _balanced_scores q available None;
  select_min (fun n => mret (score_in scores n)) available first PInf.

Definition _select_provider q available : RM string :=
  match available with
  | [] => se_raise (ValueError "No providers available")
  | first :: rest =>
    r ← get_router;
    match rc_strategy (config r) with
    | CHEAPEST => _select_cheapest q first available
    | FASTEST => _select_fastest first available
    | BALANCED => _select_balanced q first available
    | ROUND_ROBIN => _select_round_robin first rest
    | FALLBACK => mret first
    end
  end.

Definition _failover_order q names : RM (list string) :=
  r ← get_router;
  if bool_decide (rc_strategy (config r) = FALLBACK) || (length names <? 2)%nat then mret names
  else scores ← _balanced_scores q names None; mret (py_sorted (by_score scores) names).

(** ** Policies *)
Definition _policy_for q (pname : option string) : RM (option Policy) :=
  r ← get_router;
  match policies r with
  | None => mret None
  | Some _ =>
    let named := match str_or pname EmptyString with
                 | EmptyString => default YNull (od_get "policy" (metadata q))
                 | s => YStr s
                 end in
    ps ← current_policies;
    let ps := default [] ps in
    let unknown := se_raise (ValueError ("Unknown routing policy '" +:+ py_str named +:+ "'. Available: ["
                     +:+ String.concat ", " (map repr (policy_names ps)) +:+ "]")) in
    if negb (ytruthy named) then mret (policy_get None ps)
    else match named with
    | YStr s => match policy_get (Some s) ps with Some p => mret (Some p) | None => unknown end
    | YList _ | YMap _ => se_raise (plain_exn (COther ["TypeError"; "Exception"; "BaseException"; "object"] false false)
                                      ANone "unhashable type")
    | _ => unknown
    end
  end.

(** One row of the plan's trace. *)
Record trace_row := mkTrace {
  tr_eligible : bool; tr_reason : option string; tr_p50 : option Q; tr_score : option xfloat;
  tr_health : option Q; tr_note : option string; tr_position : option Z }.
Definition new_trace (eligible : bool) (reason : option string) : trace_row :=
  mkTrace eligible reason None None None None None.
Abbreviation traces := (list (string * trace_row)).

Definition set_p50 (v : Q) (t : trace_row) : trace_row :=
  mkTrace (tr_eligible t) (tr_reason t) (Some v) (tr_score t) (tr_health t) (tr_note t) (tr_position t).
Definition set_score (v : xfloat) (h : Q) (t : trace_row) : trace_row :=
  mkTrace (tr_eligible t) (tr_reason t) (tr_p50 t) (Some v) (Some h) (tr_note t) (tr_position t).
Definition set_note (v : string) (t : trace_row) : trace_row :=
  mkTrace (tr_eligible t) (tr_reason t) (tr_p50 t) (tr_score t) (tr_health t) (Some v) (tr_position t).
Definition default_note (v : string) (t : trace_row) : trace_row :=
  match tr_note t with Some _ => t | None => set_note v t end.
Definition set_position (v : Z) (t : trace_row) : trace_row :=
  mkTrace (tr_eligible t) (tr_reason t) (tr_p50 t) (tr_score t) (tr_health t) (tr_note t) (Some v).
Definition on_trace n (f : trace_row -> trace_row) (t : traces) : traces :=
  match od_get n t with Some row => od_set n (f row) t | None => t end.

(** Why the policy keeps a provider out, apart from its breaker. *)
Definition excluded_reason (p : Policy) n : option string :=
  match permits n p with
  | Some reason => Some reason
  | None =>
    if bool_decide (strategy p = "explicit") || (bool_decide (strategy p = "fallback") && negb (bool_decide (fallback_chain p = [])))
    then if bool_decide (Policy.provider p = Some n) || bool_decide (n ∈ fallback_chain p) then None
         else Some "not in policy fallback chain"
    else None
  end.

(** The first loop: eligible names, names with an open breaker, and the trace. *)
Fixpoint classify_providers (p : Policy) names : RM (list string * list (string * ErrorKind) * traces) :=
  match names with
  | [] => mret ([], [], [])
  | n :: names =>
    match excluded_reason p n with
    | Some reason =>
      '(el, bl, tr) ← classify_providers p names; mret (el, bl, (n, new_trace false (Some reason)) :: tr)
    | None =>
      ok ← breaker_would_allow n;
      '(el, bl, tr) ← classify_providers p names;
      mret (if (ok : bool) then (n :: el, bl, (n, new_trace true None) :: tr)
            else (el, (n, CIRCUIT_OPEN) :: bl, (n, new_trace false (Some "circuit open")) :: tr))
    end
  end.

Definition p50_of n : RM (option Q) := r ← get_router; se_lift (_p50_latency n r).
(** [self._p50_latency(n) or default] *)
Definition p50_or (d : Q) (o : option Q) : Q := match o with Some v => if Qeq_bool v 0 then d else v | None => d end.

Fixpoint p50_table (d : Q) names : RM (list (string * Q)) :=
  match names with
  | [] => mret []
  | n :: names => o ← p50_of n; rest ← p50_table d names; mret ((n, p50_or d o) :: rest)
  end.

Fixpoint health_table names : RM (list (string * Q)) :=
  match names with
  | [] => mret []
  | n :: names => h ← health_of n; rest ← health_table names; mret ((n, h) :: rest)
  end.

(** [q <= ceiling] *)
Definition qlex (v : Q) (c : xfloat) : bool :=
  match c with Fin x => v <=. x | PInf => true | _ => false end.

Definition rotate (k : nat) names : list string := drop k names ++ take k names.

(** The latency ceiling's partition: providers within it first. (The note's
    text leaves the number out.) *)
Definition apply_ceiling (ceiling : option xfloat) (ordered : list string) (tr : traces)
    : RM (list string * traces) :=
  match ceiling with
  | None => mret (ordered, tr)
  | Some c =>
    lat ← p50_table 0 ordered;
    let within := List.filter (fun n => qlex (default 0%Q (od_get n lat)) c) ordered in
    let over := List.filter (fun n => negb (bool_decide (n ∈ within))) ordered in
    mret (within ++ over, fold_left (fun t n => on_trace n (set_note "p50 above latency ceiling") t) over tr)
  end.

Definition _rank_for_policy q (p : Policy) (eligible : list string) (tr : traces) : RM (list string * traces) :=
  if bool_decide (strategy p = "fallback")
  then mret (List.filter (fun n => bool_decide (n ∈ eligible)) (fallback_chain p), tr)
  else if bool_decide (strategy p = "round_robin") then
    r ← get_router;
    let k := Z.to_nat (default 0 (od_get (Policy.name p) (_policy_rr r)) `mod` Z.of_nat (length eligible)) in
    mret (rotate k eligible, tr)
  else if bool_decide (strategy p = "fastest") then
    lat ← p50_table 500 eligible;
    let tr := fold_left (fun t '(n, v) => on_trace n (set_p50 v) t) lat tr in
    let ordered := py_sorted (fun a b => default 0%Q (od_get a lat) <=. default 0%Q (od_get b lat)) eligible in
    apply_ceiling (latency_ceiling_ms p) ordered tr
  else
    let weights := if bool_decide (strategy p = "cheapest") then (Fin 1, Fin 0) else (cost_weight p, latency_weight p) in
    scores ← _balanced_scores q eligible (Some weights);
    hs ← health_table eligible;
    let tr := fold_left (fun t '(n, h) => on_trace n (set_score (xround 6 (score_in scores n)) (py_round 4 h)) t) hs tr in
    apply_ceiling (latency_ceiling_ms p) (py_sorted (by_score scores) eligible) tr.

(** An explicit policy's pinned provider goes first when it can serve. *)
Definition pin_explicit (p : Policy) (eligible ranked : list string) (tr : traces) : list string * traces :=
  if bool_decide (strategy p = "explicit") then
    let pinned := default EmptyString (Policy.provider p) in
    if bool_decide (pinned ∈ eligible)
    then (pinned :: List.filter (fun n => negb (bool_decide (n = pinned))) ranked, tr)
    else (ranked, on_trace pinned (default_note "pinned provider unavailable") tr)
  else (ranked, tr).

(** The fallback chain behind the chosen head. *)
Definition apply_chain (p : Policy) (eligible ranked : list string) : list string :=
  if negb (bool_decide (fallback_chain p = [])) && negb (bool_decide (strategy p = "fallback")) then
    let chain := List.filter (fun n => bool_decide (n ∈ eligible)) (fallback_chain p) in
    let head := take 1 ranked in
    head ++ List.filter (fun n => negb (bool_decide (n ∈ head))) chain
  else ranked.

(** The registered owner of a model, when it is among the eligible names. *)
Definition owner_in (eligible : list string) (r : Router) (m : option string) : option string :=
  match _owner_of m r with Some o => if bool_decide (o ∈ eligible) then Some o else None | None => None end.

Definition _apply_policy_models (p : Policy) (order eligible : list string) (r : Router) : list string :=
  let free := negb (bool_decide (strategy p = "explicit")) && negb (bool_decide (strategy p = "fallback")) in
  let order :=
    if free && negb (bool_decide (str_or (Policy.model p) EmptyString = EmptyString)) then
      match owner_in eligible r (Policy.model p) with
      | Some o => o :: List.filter (fun n => negb (bool_decide (n = o))) order
      | None => order
      end
    else order in
  match order with
  | [] => order
  | head :: tl =>
    if negb (bool_decide (str_or (fallback_model p) EmptyString = EmptyString)) && enable_failover (config r) then
      match owner_in eligible r (fallback_model p) with
      | Some o => if bool_decide (o = head) || free
                  then head :: o :: List.filter (fun n => negb (bool_decide (n = o))) tl else order
      | None => order
      end
    else order
  end.

(** [_policy_models]: the policy's model for the first candidate, its fallback
    model for the later ones, where the provider owns it. *)
Definition policy_model_for (wanted : option string) n (r : Router) : option string :=
  match str_or wanted EmptyString with
  | EmptyString => None
  | _ => match _owner_of wanted r with
         | None => wanted
         | Some o => if decide (o = n) then wanted else None
         end
  end.
Definition _policy_models (p : Policy) (order : list string) (r : Router) : list (option string) :=
  match order with
  | [] => []
  | n :: rest => policy_model_for (Policy.model p) n r :: ((fun n => policy_model_for (fallback_model p) n r) <$> rest)
  end.

Definition mark_order (order eligible : list string) (tr : traces) : traces :=
  let tr := snd (fold_left (fun '(i, t) n => (i + 1, on_trace n (set_position i) t)) order (1, tr)) in
  fold_left (fun t n => if bool_decide (n ∈ order) then t
                        else on_trace n (set_note "eligible but not used (failover disabled/pinned model)") t) eligible tr.

Definition _plan_with_policy q (p : Policy) (advance : bool) : RM (list string * traces) :=
  r ← get_router;
  '(eligible, blocked, tr) ← classify_providers p (od_keys (providers r));
  match eligible with
  | [] =>
    match blocked with
    | [] => se_raise (ValueError ("Policy '" +:+ Policy.name p +:+ "' permits no registered provider"))
    | _ => unavailable blocked
    end
  | _ =>
    '(ranked, tr) ← _rank_for_policy q p eligible tr;
    let '(ranked, tr) := pin_explicit p eligible ranked tr in
    let order := apply_chain p eligible ranked in
    (if advance && bool_decide (strategy p = "round_robin")
     then se_modify (fun r => with_policy_rr r (counter_incr (Policy.name p) (_policy_rr r)))
     else mret tt);;
    r ← get_router;
    let order := match rq_model q with None => _apply_policy_models p order eligible r | Some _ => order end in
    let order := if (match rq_model q with Some _ => true | None => false end) || negb (enable_failover (config r))
                 then take 1 order else order in
    mret (order, mark_order order eligible tr)
  end.

(** ** The candidate plan *)

Definition has_model q : bool := match rq_model q with Some _ => true | None => false end.
Definition model_repr q : string := match rq_model q with Some m => m | None => "None" end.

Definition all_open {A} : RM A := r ← get_router; unavailable ((fun n => (n, CIRCUIT_OPEN)) <$> od_keys (providers r)).

(** [_plan_any], once a policy or its absence is known. *)
Definition plan_owned q n (p : option Policy) : RM plan :=
  r ← get_router;
  if negb (od_mem n (providers r))
  then se_raise (ValueError ("Model '" +:+ model_repr q +:+ "' needs provider '" +:+ n +:+ "', which is not configured"))
  else match match p with Some p => (fun reason => (Policy.name p, reason)) <$> permits n p | None => None end with
  | Some (pname, reason) =>
    se_raise (ValueError ("Policy '" +:+ pname +:+ "' does not allow provider '" +:+ n +:+ "' for model '"
                +:+ model_repr q +:+ "': " +:+ reason))
  | None =>
    ok ← breaker_would_allow n;
    if (ok : bool) then mret ([n], [rq_model q]) else unavailable [(n, CIRCUIT_OPEN)]
  end.

Definition plan_by_policy q (p : Policy) : RM plan :=
  '(order, _) ← _plan_with_policy q p true;
  r ← get_router;
  mret (order, match rq_model q with
               | Some m => repeat (Some m) (length order)
               | None => _policy_models p order r
               end).

Definition plan_by_strategy q : RM plan :=
  r ← get_router;
  healthy ← filter_allowed (od_keys (providers r));
  match healthy with
  | [] => all_open
  | _ =>
    primary ← _select_provider q healthy;
    r ← get_router;
    if negb (enable_failover (config r)) || has_model q then mret ([primary], [rq_model q])
    else
      order ← _failover_order q (List.filter (fun n => negb (bool_decide (n = primary))) healthy);
      mret (primary :: order, repeat None (S (length order)))
  end.

Definition _plan_any q (preferred : option string) : RM plan :=
  r ← get_router;
  let owner := _owner_of (rq_model q) r in
  match preferred with
  | Some pref =>
    match owner with
    | Some o =>
      if bool_decide (o = pref) then mret ([pref], [rq_model q])
      else se_raise (ValueError ("Model '" +:+ model_repr q +:+ "' belongs to provider '" +:+ o +:+ "', not '" +:+ pref +:+ "'"))
    | None => mret ([pref], [rq_model q])
    end
  | None =>
    p ← _policy_for q None;
    match owner, p with
    | Some o, _ => plan_owned q o p
    | None, Some p => plan_by_policy q p
    | None, None => plan_by_strategy q
    end
  end.

(** [getattr(self.providers[n], "is_local", False) is True] *)
Definition local_at n (r : Router) : res exn bool := p ← at_key n (providers r); Ok (is_local p).

Fixpoint split_local (want : bool) (pairs : list (string * option string)) (r : Router)
    : res exn (list (string * option string) * list (string * option string)) :=
  match pairs with
  | [] => Ok ([], [])
  | x :: xs =>
    match local_at x.1 r with
    | Raise e => Raise e
    | Ok l =>
      match split_local want xs r with
      | Raise e => Raise e
      | Ok (yes, no) => if Bool.eqb l want then Ok (x :: yes, no) else Ok (yes, x :: no)
      end
    end
  end.

Definition _apply_difficulty (pl : plan) (difficulty : yaml) (r : Router) : res exn plan :=
  if is_text "easy" difficulty || is_text "hard" difficulty then
    '(first, rest) ← split_local (is_text "easy" difficulty) (combine pl.1 pl.2) r;
    Ok ((first ++ rest).*1, (first ++ rest).*2)
  else Ok pl.

Definition metadata_of q (key : string) : yaml := default YNull (od_get key (metadata q)).

Definition _plan q (preferred : option string) : RM plan :=
  '(order, models) ← _plan_any q preferred;
  r ← get_router;
  if negb (ytruthy (metadata_of q "private")) then
    if bool_decide (preferred = None) && (1 <? length order)%nat
    then se_lift (_apply_difficulty (order, models) (metadata_of q "difficulty") r)
    else mret (order, models)
  else
    '(kept, _) ← se_lift (split_local true (combine order models) r);
    match kept with
    | [] => se_raise (ValueError "Request is private but no local provider can serve it; it was not sent to a cloud provider.")
    | _ => mret (kept.*1, kept.*2)
    end.

Definition _candidates q (preferred : option string) : RM (list string) := pl ← _plan q preferred; mret pl.1.

(** ** What a candidate cannot serve *)
Definition tilde (n : Z) : string := "~" +:+ pretty n.

Definition profile_problem (p : ModelProfile) q : option string :=
  let input := _estimate_tokens q in
  let out := max_tokens q in
  if negb (bool_decide (request_images q = [])) && negb (bool_decide (VISION ∈ modalities p))
  then Some (model_id p +:+ " does not accept image input.")
  else if nonempty (tools q) && negb (supports_function_calling p)
  then Some (model_id p +:+ " does not support tool calling.")
  else if negb (fits_context p (input + out))
  then Some ("Request (" +:+ tilde input +:+ " input + " +:+ pretty out +:+ " max_tokens = " +:+ tilde (input + out)
             +:+ " tokens) exceeds " +:+ model_id p +:+ "'s " +:+ pretty (context_window p) +:+ "-token context window.")
  else if negb (max_output_tokens p =? 0) && (max_output_tokens p <? out)
  then Some ("max_tokens=" +:+ pretty out +:+ " exceeds " +:+ model_id p +:+ "'s output limit of "
             +:+ pretty (max_output_tokens p) +:+ " tokens.")
  else if rq_stream q && negb (supports_streaming p)
  then Some (model_id p +:+ " does not support streaming.")
  else None.

Definition _model_problem q n (r : Router) : res exn (option string) :=
  p ← at_key n (providers r);
  Ok (if negb (bool_decide (request_images q = [])) && negb (supports_vision p)
      then Some ("Provider '" +:+ n +:+ "' does not accept image input.")
      else if nonempty (tools q) && rq_stream q then Some "Tool calling is not supported with streaming yet."
      else if nonempty (tools q) && negb (supports_tools p)
      then Some ("Provider '" +:+ n +:+ "' does not support tool calling.")
      else match capability_problem p q with
      | Some problem => Some problem
      | None =>
        match _resolve_model_profile n (rq_model q) r with
        | None => None
        | Some profile => profile_problem profile q
        end
      end).

(** The probe's tools when the request brings none. *)
Definition probe_tools : list yaml := [YMap [(YStr "type", YStr "function")]].
Definition with_probe q : CompletionRequest :=
  mkRequest (messages q) (rq_model q) (max_tokens q) (temperature q) false (system_prompt q) (metadata q)
            (if nonempty (tools q) then tools q else Some probe_tools) (tool_choice q) (response_format q).

(** [needle in text] *)
Fixpoint contains (needle text : string) : bool :=
  String.prefix needle text ||
  match text with EmptyString => false | String.String _ rest => contains needle rest end.

Fixpoint some_offers_tools q names (r : Router) : res exn bool :=
  match names with
  | [] => Ok false
  | n :: names =>
    o ← _model_problem q n r;
    match o with
    | Some problem => if contains "tool calling" problem then some_offers_tools q names r else Ok true
    | None => Ok true
    end
  end.

Definition can_offer_tools q (preferred : option string) : RM bool :=
  let probe := with_probe q in
  out ← se_try (_candidates probe preferred);
  match out with
  | Raise _ => mret true
  | Ok names => r ← get_router; se_lift (some_offers_tools probe names r)
  end.

(** ** The dry run *)
Record explanation := mkExplanation {
  ex_policy : option Policy; ex_pinned : bool; ex_strategy : option RoutingStrategy;
  ex_order : list string; ex_providers : traces }.

Definition provider_missing {A} n (r : Router) : res exn A :=
  Raise (ValueError ("Provider '" +:+ n +:+ "' not available. Available: ["
    +:+ String.concat ", " (map repr (py_sorted String.leb (od_keys (providers r)))) +:+ "]")).

Definition _candidates_no_side_effects q (healthy : list string) : RM (list string) :=
  r ← get_router;
  let saved := _rr_index r in
  out ← se_try (_select_provider q healthy);
  se_modify (fun r => with_rr_index r saved);;
  primary ← se_lift out;
  r ← get_router;
  if negb (enable_failover (config r)) || has_model q then mret [primary]
  else
    order ← _failover_order q (List.filter (fun n => negb (bool_decide (n = primary))) healthy);
    mret (primary :: order).

(** [order.index(n) + 1] for a listed name. *)
Fixpoint position_of n (order : list string) : option Z :=
  match order with
  | [] => None
  | m :: order => if decide (n = m) then Some 1 else Z.succ <$> position_of n order
  end.

Definition strategy_row (healthy order : list string) n : string * trace_row :=
  (n, mkTrace (bool_decide (n ∈ healthy)) (if bool_decide (n ∈ healthy) then None else Some "circuit open")
        None None None None (position_of n order)).

Definition explain q (policy_name preferred : option string) : RM explanation :=
  r ← get_router;
  match preferred with
  | Some pref =>
    if negb (od_mem pref (providers r)) then se_lift (provider_missing pref r)
    else mret (mkExplanation None true None [pref]
      ((fun n => (n, if decide (n = pref) then new_trace true None
                     else new_trace false (Some "request pinned another provider"))) <$> od_keys (providers r)))
  | None =>
    p ← _policy_for q policy_name;
    r ← get_router;
    match p with
    | None =>
      healthy ← filter_allowed (od_keys (providers r));
      match healthy with
      | [] => all_open
      | _ =>
        order ← _candidates_no_side_effects q healthy;
        mret (mkExplanation None false (Some (rc_strategy (config r))) order
                            (strategy_row healthy order <$> od_keys (providers r)))
      end
    | Some p =>
      '(order, tr) ← _plan_with_policy q p false;
      mret (mkExplanation (Some p) false None order tr)
    end
  end.

(** ** Screening

    The model gate is the budget check the API installs; it has a state of its
    own ([W]), which the rest of planning does not touch. *)
Section Gate.
Context {W : Type} (model_gate : option (string -> SE W exn unit)).
Abbreviation RW := (SE (Router * W) exn).

Definition lift_router {A} (m : RM A) : RW A := fun s => let '(x, r) := m s.1 in (x, (r, s.2)).
Definition lift_world {A} (m : SE W exn A) : RW A := fun s => let '(x, w) := m s.2 in (x, (s.1, w)).

Definition _admit_model q n : RW unit :=
  match model_gate with
  | None => mret tt
  | Some gate =>
    p ← lift_router (provider_at n);
    lift_world (gate (str_or (rq_model q) (default_model p)))
  end.

Definition is_budget (e : exn) : bool := match ex_class e with CBudgetExceeded _ _ _ _ => true | _ => false end.

Fixpoint screen_loop q (hard : bool) (cands : list (string * option string)) (problem : option string)
    (budget_exc : option exn) (keep : list (string * CompletionRequest)) : RW (list (string * CompletionRequest)) :=
  match cands with
  | [] =>
    match keep, budget_exc with
    | _ :: _, _ => mret keep
    | [], Some e => se_raise e
    | [], None => se_raise (ValueError (default "No provider can serve this request" problem))
    end
  | (n, model) :: cands =>
    let req := with_model q model in
    reason ← lift_router (r ← get_router; se_lift (_model_problem req n r));
    if negb (bool_decide (default EmptyString reason = EmptyString)) then
      if hard then se_raise (ValueError (default EmptyString reason))
      else screen_loop q hard cands (or_else problem reason) budget_exc keep
    else
      out ← se_try (_admit_model req n);
      match out with
      | Ok _ => screen_loop q hard cands problem budget_exc (keep ++ [(n, req)])
      | Raise e =>
        if negb (is_budget e) || hard then se_raise e
        else screen_loop q hard cands problem (or_else budget_exc (Some e)) keep
      end
  end.

Definition _screen q (preferred : option string) : RW (list (string * CompletionRequest)) :=
  '(names, models) ← lift_router (_plan q preferred);
  let pinned := negb (bool_decide (preferred = None)) || has_model q in
  screen_loop q (pinned || (length names =? 1)%nat) (combine names models) None None [].
End Gate.
End Plan.
