(* ===== verification/RouterPlanProps.v ===== *)
(** Properties of the router's planning (RouterPlan): what a plan may contain,
    what planning leaves alone, and that the dry run tells the truth. *)
From S2P Require Import Prelude Errors Yaml CircuitBreaker Retry Health Policy Provider RouterState RouterPlan.

(** ** What planning may change *)
Definition nudge (now : Q) (b : CircuitBreaker) : CircuitBreaker := (would_allow now b).2.

Lemma nudge_idem now b : nudge now (nudge now b) = nudge now b.
Proof.
  unfold nudge, would_allow, CircuitBreaker.state. cbn.
  destruct (bool_decide (cb_state b = OPEN) && _) eqn:E; cbn; [done|]. by rewrite E.
Qed.

Lemma would_allow_nudge now b : (would_allow now (nudge now b)).1 = (would_allow now b).1.
Proof.
  pose proof (nudge_idem now b) as H. unfold nudge, would_allow in *. cbn in *. by rewrite H.
Qed.

(** Everything but the policy store, the breakers and the round-robin counters. *)
Definition core (r : Router) : Router := with_rr_index (with_policy_rr (with_policies (with_breakers r []) None) []) 0.

Definition nudged (now : Q) (t t' : list (string * CircuitBreaker)) : Prop :=
  od_keys t' = od_keys t /\
  forall n b, od_get n t = Some b -> exists b', od_get n t' = Some b' /\ (b' = b \/ b' = nudge now b).

Record moved (now : Q) (rr prr : bool) (r r' : Router) : Prop := {
  mv_core : core r' = core r;
  mv_breakers : nudged now (breakers r) (breakers r');
  mv_rr : rr = false -> _rr_index r' = _rr_index r;
  mv_prr : prr = false -> _policy_rr r' = _policy_rr r }.

Lemma moved_refl now rr prr r : moved now rr prr r r.
Proof. split; [done | split; [done|]; eauto | done | done]. Qed.

Lemma moved_trans now rr prr r1 r2 r3 : moved now rr prr r1 r2 -> moved now rr prr r2 r3 -> moved now rr prr r1 r3.
Proof.
  intros [A1 [A2 A3] A4 A5] [B1 [B2 B3] B4 B5]. split; [congruence| |intros; rewrite B4, A4; done|intros; rewrite B5, A5; done].
  split; [congruence|]. intros n b Hb. destruct (A3 n b Hb) as (b' & Hb' & Hn).
  destruct (B3 n b' Hb') as (b'' & Hb'' & Hn'). exists b''. split; [done|].
  destruct Hn as [->| ->], Hn' as [->| ->]; rewrite ?nudge_idem; auto.
Qed.

Lemma moved_weaken now rr prr rr' prr' r r' :
  (rr = true -> rr' = true) -> (prr = true -> prr' = true) -> moved now rr prr r r' -> moved now rr' prr' r r'.
Proof.
  intros H1 H2 [A1 A2 A3 A4]. split; [done|done| |].
  - intros ->. apply A3. destruct rr; [by specialize (H1 eq_refl)|done].
  - intros ->. apply A4. destruct prr; [by specialize (H2 eq_refl)|done].
Qed.

(** A provider's breaker would admit a call. *)
Definition allowed (now : Q) (r : Router) (n : string) : Prop :=
  exists b, od_get n (breakers r) = Some b /\ (would_allow now b).1 = true.

Lemma allowed_fwd now rr prr r r' n : moved now rr prr r r' -> allowed now r n -> allowed now r' n.
Proof.
  intros [_ [Hk Hb] _ _] (b & Hn & Ha). destruct (Hb n b Hn) as (b' & Hb' & Hc). exists b'. split; [done|].
  destruct Hc as [->| ->]; [done|]. by rewrite would_allow_nudge.
Qed.

Lemma allowed_back now rr prr r r' n : moved now rr prr r r' -> allowed now r' n -> allowed now r n.
Proof.
  intros [_ [Hk Hb] _ _] (b' & Hb' & Ha).
  destruct (od_get n (breakers r)) as [b|] eqn:E.
  - exists b. split; [done|]. destruct (Hb n b E) as (b2 & Hb2 & Hn). assert (b2 = b') as -> by congruence.
    destruct Hn as [->| ->]; [done|]. by rewrite would_allow_nudge in Ha.
  - apply od_get_None in E. rewrite <- Hk in E. apply od_get_None in E. congruence.
Qed.

(** ** A logic of planning steps

    [plans r0 m P]: started in a state planning from [r0] may have reached, [m]
    stays within what planning may change, and its value, if any, satisfies [P]. *)
Section Logic.
Context (now : Q) (rr prr : bool) (r0 : Router).
Abbreviation reach := (moved now rr prr r0).

Definition plans {A} (m : RM A) (P : A -> Prop) : Prop :=
  forall r, reach r -> reach (m r).2 /\ match (m r).1 with Ok a => P a | Raise _ => True end.

Lemma plans_ret {A} (a : A) P : P a -> plans (mret a) P.
Proof. intros HP r Hr. done. Qed.
Lemma plans_raise {A} (e : exn) (P : A -> Prop) : plans (se_raise e) P.
Proof. intros r Hr. done. Qed.
Lemma plans_lift {A} (x : res exn A) (P : A -> Prop) : (forall a, x = Ok a -> P a) -> plans (se_lift x) P.
Proof. intros HP r Hr. split; [done|]. destruct x; simpl; auto. Qed.
Lemma plans_get : plans get_router reach.
Proof. intros r Hr. done. Qed.
Lemma plans_bind {A B} (m : RM A) (f : A -> RM B) Q P :
  plans m Q -> (forall a, Q a -> plans (f a) P) -> plans (m ≫= f) P.
Proof.
  intros Hm Hf r Hr. destruct (Hm r Hr) as [H1 H2]. unfold mbind, SE_bind.
  destruct (m r) as [[a|e] r'] eqn:E; simpl in *; [by apply Hf|done].
Qed.
Lemma plans_modify f : (forall r, moved now rr prr r (f r)) -> plans (se_modify f) (fun _ => True).
Proof. intros Hf r Hr. split; [|done]. eapply moved_trans; [exact Hr|apply Hf]. Qed.
Lemma plans_weaken {A} (m : RM A) (P Q : A -> Prop) : plans m P -> (forall a, P a -> Q a) -> plans m Q.
Proof. intros Hm HQ r Hr. destruct (Hm r Hr) as [H1 H2]. split; [done|]. destruct (m r).1; auto. Qed.
Lemma plans_try {A} (m : RM A) (P : A -> Prop) :
  plans m P -> plans (se_try m) (fun x => match x with Ok a => P a | Raise _ => True end).
Proof. intros Hm r Hr. destruct (Hm r Hr) as [H1 H2]. unfold se_try. destruct (m r) as [x r']. done. Qed.

(** The cut used when the value does not matter. *)
Lemma plans_bind_any {A B} (m : RM A) (f : A -> RM B) P :
  plans m (fun _ => True) -> (forall a, plans (f a) P) -> plans (m ≫= f) P.
Proof. intros Hm Hf. eapply plans_bind; [exact Hm|]. auto. Qed.
End Logic.

Create HintDb plans.
#[export] Hint Resolve plans_raise moved_refl : plans.

(** One step on the head of the computation. *)
Ltac pstep :=
  match goal with
  | |- plans _ _ _ _ (mret _) _ => apply plans_ret
  | |- plans _ _ _ _ (se_raise _) _ => apply plans_raise
  | |- plans _ _ _ _ (se_lift _) _ => apply plans_lift; let a := fresh "a" in let Ha := fresh "Ha" in intros a Ha
  | |- plans _ _ _ _ get_router _ => eapply plans_weaken; [apply plans_get|]; auto
  | |- plans _ _ _ _ (get_router ≫= _) _ =>
    eapply plans_bind; [apply plans_get|]; let r := fresh "r" in let Hr := fresh "Hr" in intros r Hr
  | |- plans _ _ _ _ (se_modify _ ≫= _) _ => eapply plans_bind; [apply plans_modify; intros ?|intros ? _]
  | |- plans _ _ _ _ (se_modify _) _ => eapply plans_weaken; [apply plans_modify; intros ?|auto]
  | |- plans _ _ _ _ (se_lift _ ≫= _) _ =>
    eapply plans_bind; [apply plans_lift; let a := fresh "a" in let Ha := fresh "Ha" in intros a Ha; exact Ha|
                        let a := fresh "a" in let Ha := fresh "Ha" in intros a Ha]
  | |- plans _ _ _ _ (_ ≫= _) _ => eapply plans_bind; [solve [eauto with plans]|intros ? ?]
  | |- plans _ _ _ _ (if ?b then _ else _) _ => let E := fresh "E" in destruct b eqn:E
  | |- plans _ _ _ _ (match ?x with _ => _ end) _ => let E := fresh "E" in destruct x eqn:E
  | |- plans _ _ _ _ (let '(_, _) := ?x in _) _ => let E := fresh "E" in destruct x eqn:E
  end.
Ltac psteps := repeat pstep; try done; eauto with plans.

Lemma od_get_set_cases {K V} `{EqDecision K} (k k' : K) (v : V) d :
  od_get k' (od_set k v d) = if decide (k = k') then Some v else od_get k' d.
Proof. case_decide as E; [subst; apply od_get_set_eq | by apply od_get_set_ne]. Qed.

(** ** Each step *)
#[local] Opaque would_allow.

Section Steps.
Context `{PyStr} `{HalfPow}.
Variable env : plan_env.
Abbreviation now := (e_now env).
Context (rr prr : bool) (r0 : Router).
Abbreviation pl := (plans now rr prr r0).
Implicit Types (q : CompletionRequest) (n : string) (names available : list string).

Lemma plans_unavailable {A} fs (P : A -> Prop) : pl (unavailable env fs) P.
Proof. unfold unavailable. psteps. Qed.
Lemma plans_all_open {A} (P : A -> Prop) : pl (all_open env) P.
Proof. unfold all_open. pstep. apply plans_unavailable. Qed.
Lemma plans_provider_at n : pl (provider_at n) (fun _ => True).
Proof. unfold provider_at. psteps. Qed.

Lemma breakers_set_nudge n b r :
  od_get n (breakers r) = Some b -> nudged now (breakers r) (od_set n (nudge now b) (breakers r)).
Proof.
  intros Hb. split.
  - rewrite od_keys_set. rewrite decide_True; [done|]. apply od_get_elem in Hb.
    apply list_elem_of_fmap. by exists (n, b).
  - intros n' b' Hb'. rewrite od_get_set_cases. case_decide as E; [|eauto].
    subst. exists (nudge now b). split; [done|]. right. congruence.
Qed.

Lemma plans_would_allow n : pl (breaker_would_allow env n) (fun ok => ok = true <-> allowed now r0 n).
Proof.
  intros r Hr. unfold breaker_would_allow, breaker_at, at_key, get_router, se_get, se_lift, se_modify, mbind, SE_bind, mret, SE_ret.
  cbn. destruct (od_get n (breakers r)) as [b|] eqn:E; [|done].
  destruct (would_allow now b) as [ok b'] eqn:Ew. cbn. split.
  - eapply moved_trans; [exact Hr|]. split; [done| |done|done]. cbn.
    replace b' with (nudge now b) by (unfold nudge; by rewrite Ew). by apply breakers_set_nudge.
  - split.
    + intros ->. eapply allowed_back; [exact Hr|]. exists b. split; [done|]. by rewrite Ew.
    + intros Ha. destruct (allowed_fwd _ _ _ _ _ _ Hr Ha) as (b2 & Hb2 & Ha2).
      assert (b2 = b) as -> by congruence. by rewrite Ew in Ha2.
Qed.

Lemma plans_filter_allowed names :
  pl (filter_allowed env names) (fun l => l `sublist_of` names /\ forall n, n ∈ l <-> n ∈ names /\ allowed now r0 n).
Proof.
  induction names as [|n names IH]; cbn [filter_allowed]; [pstep; split; [constructor|]; intros n; split; [intros Hn; inversion Hn | by intros [? _]]|].
  eapply plans_bind; [apply plans_would_allow|]. intros ok Hok.
  eapply plans_bind; [exact IH|]. intros l [Hs Ha]. pstep.
  split; [destruct ok; by constructor|]. intros m. rewrite elem_of_cons. destruct ok.
  - rewrite elem_of_cons, Ha. destruct Hok as [Hok _]. specialize (Hok eq_refl). naive_solver.
  - rewrite Ha. destruct Hok as [_ Hok]. split; [naive_solver|]. intros [[->|Hm] Hal]; [|done]. by specialize (Hok Hal).
Qed.
Hint Resolve plans_provider_at plans_unavailable plans_all_open : plans.

Lemma plans_current_policies : pl (current_policies env) (fun _ => True).
Proof.
  unfold current_policies. repeat pstep; try done; eauto with plans.
  split; try done. split; [done|]. eauto.
Qed.
Hint Resolve plans_current_policies : plans.

Lemma plans_policy_for q pname : pl (_policy_for env q pname) (fun _ => True).
Proof. unfold _policy_for. psteps. Qed.

Lemma plans_cost_of q n : pl (cost_of q n) (fun _ => True).
Proof. unfold cost_of. psteps. Qed.
Lemma plans_history_of n : pl (history_of n) (fun _ => True).
Proof. unfold history_of. psteps. Qed.
Lemma plans_health_of n : pl (health_of env n) (fun _ => True).
Proof. unfold health_of. psteps. Qed.
Lemma plans_p50_of n : pl (p50_of n) (fun _ => True).
Proof. unfold p50_of. psteps. Qed.
Hint Resolve plans_cost_of plans_history_of plans_health_of plans_p50_of : plans.

Lemma plans_raw_values q available : pl (raw_values q available) (fun _ => True).
Proof. induction available; cbn [raw_values]; psteps. Qed.
Lemma plans_score_all cw lw mc ml hw raw : pl (score_all env cw lw mc ml hw raw) (fun _ => True).
Proof. induction raw as [|[n [c l]] raw IH]; cbn [score_all]; psteps. Qed.
Hint Resolve plans_raw_values plans_score_all : plans.
Lemma plans_balanced_scores q available w : pl (_balanced_scores env q available w) (fun _ => True).
Proof. unfold _balanced_scores. psteps. Qed.
Lemma plans_p50_table d names : pl (p50_table d names) (fun _ => True).
Proof. induction names; cbn [p50_table]; psteps. Qed.
Lemma plans_health_table names : pl (health_table env names) (fun _ => True).
Proof. induction names; cbn [health_table]; psteps. Qed.
Hint Resolve plans_balanced_scores plans_p50_table plans_health_table : plans.

Lemma plans_select_min value names best bv (Q : string -> Prop) :
  (forall n, pl (value n) (fun _ => True)) -> Q best -> Forall Q names -> pl (select_min value names best bv) Q.
Proof.
  intros Hv Hb Hn. revert best bv Hb. induction Hn as [|n names Hq Hn IH]; intros best bv Hb; cbn [select_min].
  - by pstep.
  - eapply plans_bind_any; [apply Hv|]. intros v. destruct (xlt v bv); apply IH; done.
Qed.

Lemma plans_under_sampled available : pl (under_sampled available) (fun l => l `sublist_of` available).
Proof.
  induction available as [|n l IH]; cbn [under_sampled]; [by pstep|].
  eapply plans_bind_any; [apply plans_history_of|]. intros h.
  eapply plans_bind; [exact IH|]. intros us Hs. pstep. destruct (_ <? _)%nat; by constructor.
Qed.

Lemma rotate_pick_elem i first rest : rotate_pick i first rest ∈ first :: rest.
Proof.
  unfold rotate_pick. destruct ((first :: rest) !! _) as [x|] eqn:E; cbn [default]; [|left].
  by eapply list_elem_of_lookup_2.
Qed.

Lemma plans_select_provider q available :
  rr = true -> pl (_select_provider env q available) (fun n => n ∈ available).
Proof.
  intros Hrr. unfold _select_provider. destruct available as [|first rest]; [auto with plans|].
  assert (Hall : Forall (fun n => n ∈ first :: rest) (first :: rest)) by (by apply Forall_forall).
  assert (Hf : first ∈ first :: rest) by left.
  assert (Hmv : forall r k, moved now rr prr r (with_rr_index r k)).
  { intros r k. split; try done; [split; [done|]; eauto | by rewrite Hrr]. }
  pstep. destruct (rc_strategy (config r)).
  - apply plans_select_min; [|done|done]. intros n. eapply plans_bind_any; [apply plans_cost_of|]. intros c. by pstep.
  - unfold _select_fastest. eapply plans_bind; [apply plans_under_sampled|]. intros us Hs. destruct us as [|u us].
    + apply plans_select_min; [|done|done]. intros n. eapply plans_bind_any; [apply plans_history_of|]. intros h. by pstep.
    + repeat pstep; [apply Hmv|]. eapply elem_of_submseteq; [apply (rotate_pick_elem _ u us)|by apply sublist_submseteq].
  - unfold _select_balanced. eapply plans_bind_any; [apply plans_balanced_scores|]. intros sc.
    apply plans_select_min; [|done|done]. intros n. by pstep.
  - unfold _select_round_robin. repeat pstep; [apply Hmv|]. apply rotate_pick_elem.
  - by pstep.
Qed.

Lemma plans_failover_order q names : pl (_failover_order env q names) (fun l => l ≡ₚ names).
Proof.
  unfold _failover_order. pstep. destruct (_ || _); [by pstep|].
  eapply plans_bind_any; [apply plans_balanced_scores|]. intros sc. pstep. apply py_sorted_perm.
Qed.

(** A name the policy and its breaker let through. *)
Definition usable (p : Policy) (keys : list string) n : Prop :=
  n ∈ keys /\ excluded_reason p n = None /\ allowed now r0 n.

Lemma plans_classify p names :
  pl (classify_providers env p names) (fun x => x.1.1 `sublist_of` names /\ Forall (usable p names) x.1.1).
Proof.
  assert (Hmono : forall n l names, Forall (usable p names) l -> Forall (usable p (n :: names)) l).
  { intros n l ns Hl. eapply Forall_impl; [exact Hl|]. intros m (A & B & C). split; [by right|done]. }
  induction names as [|n names IH]; cbn [classify_providers]; [pstep; split; constructor|].
  destruct (excluded_reason p n) as [why|] eqn:Ee.
  - eapply plans_bind; [exact IH|]. intros [[el bl] tr] [Hs Hu]. pstep. cbn in *.
    split; [by constructor | by apply Hmono].
  - eapply plans_bind; [apply plans_would_allow|]. intros ok Hok.
    eapply plans_bind; [exact IH|]. intros [[el bl] tr] [Hs Hu]. pstep. cbn in *.
    destruct ok; cbn; split; try by constructor.
    + constructor; [|by apply Hmono]. split; [left|]. split; [done|]. by apply Hok.
    + by apply Hmono.
Qed.

Definition within (eligible : list string) : list string -> Prop := Forall (fun n => n ∈ eligible).

Lemma within_perm eligible l l' : l ≡ₚ l' -> within eligible l -> within eligible l'.
Proof. unfold within. intros E. by rewrite E. Qed.

Lemma within_filter eligible f l : within eligible l -> within eligible (List.filter f l).
Proof. unfold within. rewrite !Forall_forall. intros Hl x Hx. apply list_elem_of_In, List.filter_In in Hx as [Hx _]. by apply Hl, list_elem_of_In. Qed.

Lemma within_chain eligible chain : within eligible (List.filter (fun n => bool_decide (n ∈ eligible)) chain).
Proof.
  unfold within. rewrite Forall_forall. intros x Hx. apply list_elem_of_In, List.filter_In in Hx as [_ Hx].
  by apply bool_decide_eq_true in Hx.
Qed.

Lemma partition_perm (P : string -> bool) (l : list string) :
  List.filter P l ++ List.filter (fun n => negb (bool_decide (n ∈ List.filter P l))) l ≡ₚ l.
Proof.
  assert (Hext : List.filter (fun n => negb (bool_decide (n ∈ List.filter P l))) l = List.filter (fun n => negb (P n)) l).
  { apply List.filter_ext_in. intros x Hx. f_equal. apply eq_true_iff_eq. rewrite bool_decide_eq_true.
    rewrite list_elem_of_In, List.filter_In. tauto. }
  rewrite Hext. clear Hext. induction l as [|x l IH]; simpl; [done|].
  destruct (P x); simpl; [by rewrite IH|]. rewrite <- Permutation_middle. by rewrite IH.
Qed.

Lemma plans_apply_ceiling c ordered tr : pl (apply_ceiling c ordered tr) (fun x => x.1 ≡ₚ ordered).
Proof.
  unfold apply_ceiling. destruct c as [c|]; [|by pstep].
  eapply plans_bind_any; [apply plans_p50_table|]. intros lat. pstep. cbn [fst]. apply partition_perm.
Qed.

Lemma plans_rank q p eligible tr : pl (_rank_for_policy env q p eligible tr) (fun x => within eligible x.1).
Proof.
  assert (Hall : within eligible eligible) by (by apply Forall_forall).
  unfold _rank_for_policy. pstep; [pstep; apply within_chain|]. pstep.
  { pstep. pstep. cbn [fst]. unfold rotate. eapply within_perm; [|exact Hall].
    rewrite (Permutation_app_comm (drop _ _)). by rewrite take_drop. }
  pstep.
  - eapply plans_bind_any; [apply plans_p50_table|]. intros lat.
    eapply plans_weaken; [apply plans_apply_ceiling|]. intros x Hx. cbn beta in Hx.
    eapply within_perm; [symmetry; etrans; [exact Hx|apply py_sorted_perm]|exact Hall].
  - eapply plans_bind_any; [apply plans_balanced_scores|]. intros sc.
    eapply plans_bind_any; [apply plans_health_table|]. intros hs.
    eapply plans_weaken; [apply plans_apply_ceiling|]. intros x Hx. cbn beta in Hx.
    eapply within_perm; [symmetry; etrans; [exact Hx|apply py_sorted_perm]|exact Hall].
Qed.

Lemma pin_within p eligible ranked tr : within eligible ranked -> within eligible (pin_explicit p eligible ranked tr).1.
Proof.
  intros Hr. unfold pin_explicit. case_bool_decide; [|done]. case_bool_decide as Hp; [|done].
  cbn [fst]. constructor; [done | by apply within_filter].
Qed.

Lemma chain_within p eligible ranked : within eligible ranked -> within eligible (apply_chain p eligible ranked).
Proof.
  intros Hr. unfold apply_chain. destruct (_ && _); [|done]. apply Forall_app. split.
  - by apply Forall_take.
  - apply within_filter, within_chain.
Qed.

Lemma models_within p order eligible r : within eligible order -> within eligible (_apply_policy_models p order eligible r).
Proof.
  intros Ho. unfold _apply_policy_models.
  assert (Hown : forall m o, owner_in eligible r m = Some o -> o ∈ eligible).
  { intros m o. unfold owner_in. destruct (_owner_of m r); [|done]. case_bool_decide; [|done]. by intros [= ->]. }
  cbv zeta. set (order1 := if _ && _ then _ else order).
  assert (H1 : within eligible order1).
  { unfold order1. destruct (_ && _); [|done]. destruct (owner_in eligible r (Policy.model p)) as [o|] eqn:E; [|done].
    constructor; [by eapply Hown | by apply within_filter]. }
  clearbody order1. destruct order1 as [|head tl]; [done|].
  inversion H1; subst. destruct (_ && _); [|done].
  destruct (owner_in eligible r (fallback_model p)) as [o|] eqn:E; [|done].
  destruct (_ || _); [|done]. constructor; [done|]. constructor; [by eapply Hown | by apply within_filter].
Qed.

Lemma core_providers r r' : core r' = core r -> providers r' = providers r.
Proof. intros H'. change (providers (core r') = providers (core r)). by rewrite H'. Qed.
Lemma core_config r r' : core r' = core r -> config r' = config r.
Proof. intros H'. change (config (core r') = config (core r)). by rewrite H'. Qed.
Lemma core_owner m r r' : core r' = core r -> _owner_of m r' = _owner_of m r.
Proof. intros H'. change (_owner_of m (core r') = _owner_of m (core r)). by rewrite H'. Qed.

Lemma plans_with_policy q p advance :
  (advance = true -> prr = true) ->
  pl (_plan_with_policy env q p advance) (fun x => Forall (usable p (od_keys (providers r0))) x.1).
Proof.
  intros Hadv. unfold _plan_with_policy. pstep. rewrite (core_providers r0 r) by apply Hr.
  eapply plans_bind; [apply plans_classify|]. intros [[eligible blocked] tr] [Hs Hu]. cbn [fst] in *.
  destruct eligible as [|e eligible'].
  - destruct blocked; [by pstep|apply plans_unavailable].
  - set (eligible := e :: eligible') in *.
    eapply plans_bind; [apply plans_rank|]. intros [ranked tr1] Hrank. cbn [fst] in Hrank.
    pose proof (pin_within p eligible ranked tr1 Hrank) as Hpin.
    destruct (pin_explicit p eligible ranked tr1) as [ranked' tr2]. cbn [fst] in Hpin.
    pose proof (chain_within p eligible ranked' Hpin) as Hchain. set (order := apply_chain p eligible ranked') in *.
    eapply plans_bind with (Q := fun _ => True).
    { destruct (advance && _) eqn:E; pstep; [|done]. apply andb_true_iff in E as [E _].
      rewrite Hadv by done. split; [done | split; [done|]; eauto | done | done]. }
    intros _ _. pstep. pstep. cbn [fst]. 
    match goal with |- Forall _ (if _ then take 1 ?o else _) => set (order2 := o) end.
    assert (H2 : within eligible order2) by (unfold order2; destruct (rq_model q); [done | by apply models_within]).
    assert (H3 : Forall (usable p (od_keys (providers r0))) order2).
    { rewrite Forall_forall in Hu. pose proof (proj1 (Forall_forall _ _) H2) as H2'. apply Forall_forall. intros x Hx. by apply Hu, H2'. }
    destruct (_ || _); [by apply Forall_take|done].
Qed.

Lemma plans_resolved {A} (m : RM A) x r1 P : m r0 = (x, r1) -> pl m P -> moved now rr prr r0 r1 /\ match x with Ok a => P a | Raise _ => True end.
Proof. intros E Hm. specialize (Hm r0 (moved_refl _ _ _ _)). by rewrite E in Hm. Qed.

Lemma plans_owned q n p :
  pl (plan_owned env q n p)
     (fun x => x = ([n], [rq_model q]) /\ n ∈ od_keys (providers r0) /\ allowed now r0 n /\
               forall p', p = Some p' -> permits n p' = None).
Proof.
  unfold plan_owned. pstep. rewrite (core_providers r0 r) by apply Hr.
  pstep; [apply plans_raise|]. pstep; [pstep; apply plans_raise|].
  eapply plans_bind; [apply plans_would_allow|]. intros ok Hok. destruct ok; [|apply plans_unavailable].
  pstep. split_and!; [done| |by apply Hok|].
  - apply negb_false_iff in E. unfold od_mem in E. destruct (od_get n (providers r0)) as [b|] eqn:Eg; [|done].
    apply list_elem_of_fmap. exists (n, b). split; [done|]. by apply od_get_elem.
  - intros p' ->. destruct (permits n p'); [done|done].
Qed.

Lemma models_length p order r : length (_policy_models p order r) = length order.
Proof. destruct order; cbn; [done|]. by rewrite length_fmap. Qed.

Lemma plans_by_policy q p :
  prr = true ->
  pl (plan_by_policy env q p)
     (fun x => length x.2 = length x.1 /\ Forall (usable p (od_keys (providers r0))) x.1).
Proof.
  intros Hp. unfold plan_by_policy. eapply plans_bind; [by apply plans_with_policy|]. intros [order tr] Hu. cbn [fst] in Hu.
  pstep. pstep. cbn [fst snd]. split; [|done]. destruct (rq_model q); [by rewrite repeat_length | apply models_length].
Qed.

(** A permutation of the healthy names with the chosen one first. *)
Definition healthy_plan (q : CompletionRequest) (failover : bool) (x : plan) : Prop :=
  length x.2 = length x.1 /\
  exists healthy, healthy `sublist_of` od_keys (providers r0) /\
    (forall n, n ∈ healthy <-> n ∈ od_keys (providers r0) /\ allowed now r0 n) /\
    exists primary rest, primary ∈ healthy /\ x.1 = primary :: rest /\
      if negb failover || has_model q then rest = [] else rest ≡ₚ List.filter (fun n => negb (bool_decide (n = primary))) healthy.

Lemma plans_by_strategy q :
  rr = true -> pl (plan_by_strategy env q) (healthy_plan q (enable_failover (config r0))).
Proof.
  intros Hrr. unfold plan_by_strategy. pstep. rewrite (core_providers r0 r) by apply Hr.
  eapply plans_bind; [apply plans_filter_allowed|]. intros healthy [Hs Ha].
  destruct healthy as [|h hs]; [apply plans_all_open|]. set (healthy := h :: hs) in *.
  eapply plans_bind; [by apply plans_select_provider|]. intros primary Hp. cbn beta in Hp.
  pstep. rewrite (core_config r0 r1) by apply Hr0.
  destruct (negb (enable_failover (config r0)) || has_model q) eqn:E.
  - pstep. split; [done|]. exists healthy. split; [done|]. split; [done|]. exists primary, []. by rewrite E.
  - eapply plans_bind; [apply plans_failover_order|]. intros order Ho. pstep. cbn beta in Ho.
    split; [cbn [fst snd length]; by rewrite repeat_length|]. exists healthy. split; [done|]. split; [done|].
    exists primary, order. by rewrite E.
Qed.
End Steps.

Lemma healthy_plan_all `{PyStr} `{HalfPow} env r0 q f x :
  healthy_plan env r0 q f x ->
  Forall (fun n => n ∈ od_keys (providers r0) /\ allowed (e_now env) r0 n) x.1.
Proof.
  intros (_ & healthy & _ & Hh & primary & rest & Hp & -> & Hrest).
  constructor; [by apply Hh|]. apply Forall_forall. intros n Hn.
  destruct (_ || _); [subst; inversion Hn|]. rewrite Hrest in Hn.
  apply list_elem_of_In, List.filter_In in Hn as [Hn _]. by apply Hh, list_elem_of_In.
Qed.

Lemma excluded_permits p n : excluded_reason p n = None -> permits n p = None.
Proof. unfold excluded_reason. by destruct (permits n p). Qed.

(** ** The whole plan *)
Section Plans.
Context `{PyStr} `{HalfPow}.
Variable env : plan_env.
Abbreviation now := (e_now env).
Implicit Types (q : CompletionRequest) (n : string).

Definition candidate_ok (r : Router) (pol : option Policy) n : Prop :=
  n ∈ od_keys (providers r) /\ allowed now r n /\ forall p, pol = Some p -> permits n p = None.

Definition plan_ok (r : Router) (pol : option Policy) (x : plan) : Prop :=
  length x.2 = length x.1 /\ Forall (candidate_ok r pol) x.1.

Lemma plan_any_sound q r x r' :
  _plan_any env q None r = (Ok x, r') ->
  exists pol r1, _policy_for env q None r = (Ok pol, r1) /\ plan_ok r pol x /\ moved now true true r r'.
Proof.
  intros Hx. unfold _plan_any in Hx. apply se_bind_inv in Hx as (? & ? & [= <- <-] & Hx).
  apply se_bind_inv in Hx as (pol & r1 & Ep & Hx). exists pol, r1. split; [done|].
  destruct (plans_resolved env true true r _ _ _ _ Ep (plans_policy_for env true true r q None)) as [Hm _].
  assert (Hpl : plans now true true r
    (match _owner_of (rq_model q) r with
     | Some o => plan_owned env q o pol
     | None => match pol with Some p => plan_by_policy env q p | None => plan_by_strategy env q end
     end) (plan_ok r pol)).
  { destruct (_owner_of (rq_model q) r) as [o|]; [|destruct pol as [p|]].
    - eapply plans_weaken; [apply plans_owned|]. intros y (-> & H1 & H2 & H3). split; [done|]. by repeat constructor.
    - eapply plans_weaken; [by apply plans_by_policy|]. intros y [H1 H2]. split; [done|].
      eapply Forall_impl; [exact H2|]. intros n (A & B & C). split; [done|]. split; [done|]. intros p' [= <-].
      by apply excluded_permits.
    - eapply plans_weaken; [by apply plans_by_strategy|]. intros y Hy. split; [apply Hy|].
      eapply Forall_impl; [eapply healthy_plan_all; exact Hy|]. intros n [A B]. split; [done|]. by split. }
  destruct (Hpl r1 Hm) as [Hm' Hok].
  destruct (_owner_of (rq_model q) r) as [o|]; [|destruct pol as [p|]]; rewrite Hx in Hm', Hok; done.
Qed.

(** Sorting pairs by whether their provider is local loses and adds nothing. *)
Lemma split_local_spec want pairs r yes no :
  split_local want pairs r = Ok (yes, no) ->
  yes ++ no ≡ₚ pairs /\ Forall (fun x => local_at x.1 r = Ok want) yes /\ Forall (fun x => local_at x.1 r = Ok (negb want)) no.
Proof.
  revert yes no. induction pairs as [|x xs IH]; intros yes no; cbn [split_local]; [intros [= <- <-]; split_and!; constructor|].
  destruct (local_at x.1 r) as [l|e] eqn:El; [|done].
  destruct (split_local want xs r) as [[ys ns]|e]; [|done].
  destruct (IH ys ns eq_refl) as (Hp & Hy & Hn).
  destruct (Bool.eqb l want) eqn:Eb; intros [= <- <-].
  - apply Bool.eqb_prop in Eb as ->. split_and!; [simpl; by rewrite Hp | by constructor | done].
  - apply Bool.eqb_false_iff in Eb. split_and!; [by rewrite <- Permutation_middle, Hp | done |].
    constructor; [|done]. rewrite El. f_equal. by destruct l, want.
Qed.

Lemma plan_ok_pairs r pol order models l :
  plan_ok r pol (order, models) -> (forall x, x ∈ l -> x ∈ combine order models) -> plan_ok r pol (l.*1, l.*2).
Proof.
  intros [_ Hc] Hsub. split; [cbn [fst snd]; by rewrite !length_fmap|]. cbn [fst] in *.
  rewrite Forall_forall in *. intros n Hn. apply list_elem_of_fmap in Hn as ([n' m] & -> & Hin).
  apply Hc. apply Hsub, list_elem_of_In, in_combine_l in Hin. by apply list_elem_of_In.
Qed.

Lemma difficulty_spec pl d r x :
  length pl.2 = length pl.1 ->
  _apply_difficulty pl d r = Ok x ->
  length x.2 = length x.1 /\ combine x.1 x.2 ≡ₚ combine pl.1 pl.2.
Proof.
  intros Hl. unfold _apply_difficulty. destruct (_ || _); [|by intros [= <-]].
  destruct (split_local _ (combine pl.1 pl.2) r) as [[yes no]|e] eqn:E; [|done].
  cbn. intros [= <-]. cbn [fst snd]. rewrite combine_pairs, !length_fmap. split; [done|].
  by destruct (split_local_spec _ _ _ _ _ E) as [Hp _].
Qed.

Definition is_private q : bool := ytruthy (metadata_of q "private").

Lemma core_local n r r' : core r' = core r -> local_at n r' = local_at n r.
Proof. intros Hc. change (local_at n (core r') = local_at n (core r)). by rewrite Hc. Qed.

Lemma pinned_plan q p r order models r' :
  _plan env q (Some p) r = (Ok (order, models), r') ->
  order = [p] /\ models = [rq_model q] /\ (forall o, _owner_of (rq_model q) r = Some o -> o = p) /\
  (is_private q = true -> local_at p r = Ok true) /\ r' = r.
Proof.
  unfold _plan, is_private. intros Hx. apply se_bind_inv in Hx as ([order0 models0] & r2 & Ea & Hx).
  assert (Hpin : order0 = [p] /\ models0 = [rq_model q] /\ (forall o, _owner_of (rq_model q) r = Some o -> o = p) /\ r2 = r).
  { unfold _plan_any in Ea. rewrite (se_bind_ok get_router _ r r r eq_refl) in Ea. cbv beta zeta in Ea.
    destruct (_owner_of (rq_model q) r) as [o|]; [destruct (bool_decide (o = p)) eqn:Ho; [apply bool_decide_eq_true in Ho|done]|]; injection Ea as <- <- <-; naive_solver. }
  destruct Hpin as (-> & -> & Ho & ->). apply se_bind_inv in Hx as (? & ? & [= <- <-] & Hx).
  destruct (ytruthy (metadata_of q "private")); cbn [negb] in Hx.
  2: { change (1 <? length [p])%nat with false in Hx. rewrite andb_false_r in Hx. by injection Hx as <- <- <-. }
  apply se_bind_inv in Hx as ([yes no] & ? & [= Es <-] & Hx). cbn in Es.
  destruct (local_at p r) as [[|]|e]; cbn in Es; [|by injection Es as <- <-|done].
  injection Es as <- <-. by injection Hx as <- <- <-.
Qed.

(** C3: a plan is sound. A pinned provider is the whole plan, with the model
    asked for, which is not another provider's; neither its breaker nor the
    policy is consulted, and nothing changes; a private request is pinned to a
    local provider only. Without a pin, every candidate is a registered provider
    whose breaker admits a call and whom the routing policy in force permits, with
    as many models as candidates; a private request is planned onto local
    providers only; and planning changes nothing but the policy store, expired
    breakers and the round-robin counters. *)
Theorem plan_sound q preferred r order models r' :
  _plan env q preferred r = (Ok (order, models), r') ->
  match preferred with
  | Some p =>
    order = [p] /\ models = [rq_model q] /\ (forall o, _owner_of (rq_model q) r = Some o -> o = p) /\
    (is_private q = true -> local_at p r = Ok true) /\ r' = r
  | None =>
    exists pol r1, _policy_for env q None r = (Ok pol, r1) /\
      length models = length order /\ Forall (candidate_ok r pol) order /\
      (is_private q = true -> order ≠ [] /\ Forall (fun n => local_at n r = Ok true) order) /\
      moved now true true r r'
  end.
Proof.
  destruct preferred as [p|]; [apply pinned_plan|]. 
  unfold _plan, is_private. intros Hx. apply se_bind_inv in Hx as ([order0 models0] & r2 & Ea & Hx).
  destruct (plan_any_sound q r _ _ Ea) as (pol & r1 & Hpol & Hok & Hm). exists pol, r1. split; [done|].
  apply se_bind_inv in Hx as (? & ? & [= <- <-] & Hx).
  destruct (ytruthy (metadata_of q "private")) eqn:Epriv; cbn [negb] in Hx.
  - apply se_bind_inv in Hx as ([yes no] & ? & [= Es <-] & Hx).
    apply split_local_spec in Es as (Hp & Hy & _).
    destruct yes as [|y ys]; [done|]. set (yes := y :: ys) in *. injection Hx as <- <- <-.
    destruct (plan_ok_pairs r pol order0 models0 yes Hok) as [H1 H2].
    { intros x Hx. rewrite <- Hp. apply elem_of_app. by left. }
    split_and!; [done|done| |done]. intros _. split; [done|].
    change (Forall (fun n => local_at n r = Ok true) (fst <$> yes)). apply Forall_fmap. eapply Forall_impl; [exact Hy|]. intros x Hl. simpl. rewrite <- (core_local _ r r2) by apply Hm. done.
  - assert (Hord : plan_ok r pol (order, models) /\ r' = r2).
    { destruct (_ && _); [|by injection Hx as <- <- <-]. injection Hx as Ed <-.
      apply difficulty_spec in Ed as [Hl Hp]; [|apply Hok]. cbn [fst snd] in *. split; [|done].
      pose proof (plan_ok_pairs r pol order0 models0 (combine order models) Hok) as Hpk.
      rewrite combine_fst, combine_snd in Hpk by done. apply Hpk. intros x. by rewrite Hp. }
    destruct Hord as [[H1 H2] ->]. split_and!; done.
Qed.

(** C34: with no policy, no pinned model and failover on, the plan lists every
    registered provider whose breaker admits a call, each exactly once, and no
    other. *)
Theorem default_plan_complete q r order models r' :
  NoDup (od_keys (providers r)) -> rq_model q = None -> enable_failover (config r) = true ->
  (_policy_for env q None r).1 = Ok None ->
  _plan_any env q None r = (Ok (order, models), r') ->
  NoDup order /\ (forall n, n ∈ order <-> n ∈ od_keys (providers r) /\ allowed now r n) /\
  length models = length order.
Proof.
  intros Hnd Hmodel Hfo Hpol Hx. unfold _plan_any in Hx.
  apply se_bind_inv in Hx as (? & ? & [= <- <-] & Hx). apply se_bind_inv in Hx as (pol & r1 & Ep & Hx).
  rewrite Ep in Hpol. injection Hpol as ->.
  destruct (plans_resolved env true true r _ _ _ _ Ep (plans_policy_for env true true r q None)) as [Hm _].
  rewrite Hmodel in Hx. cbn [_owner_of str_or] in Hx.
  destruct (plans_by_strategy env true true r q eq_refl r1 Hm) as [_ Hp]. cbn [_owner_of] in Hx.
  change (plan_by_strategy env q r1 = (Ok (order, models), r')) in Hx. rewrite Hx in Hp.
  destruct Hp as (Hlen & healthy & Hs & Hh & primary & rest & Hprim & Hord & Hrest).
  unfold has_model in Hrest. rewrite Hfo, Hmodel in Hrest. cbn [fst snd negb orb] in *. subst order.
  assert (Hnh : NoDup healthy) by (by eapply sublist_NoDup).
  set (f := fun n => negb (bool_decide (n = primary))) in *.
  assert (Hf : forall n, n ∈ List.filter f healthy <-> n ∈ healthy /\ n ≠ primary).
  { intros n. rewrite list_elem_of_In, List.filter_In, <- list_elem_of_In. unfold f. rewrite negb_true_iff, bool_decide_eq_false. done. }
  split_and!; [| |done].
  - apply NoDup_cons. rewrite Hrest. split; [by rewrite Hf; intros [_ ?]|]. eapply sublist_NoDup; [exact Hnh|apply filter_sublist].
  - intros n. rewrite elem_of_cons, Hrest, Hf, <- Hh. destruct (decide (n = primary)) as [->|]; naive_solver.
Qed.

(** ** The dry run *)
Lemma plans_no_side_effects prr r0 q healthy :
  plans now false prr r0 (_candidates_no_side_effects env q healthy) (fun _ => True).
Proof.
  intros r Hr. unfold _candidates_no_side_effects.
  assert (Hr' : moved now true prr r r) by apply moved_refl.
  destruct (plans_select_provider env true prr r q healthy eq_refl r Hr') as [Hm _].
  rewrite (se_bind_ok get_router _ r r r eq_refl). unfold se_try.
  destruct (_select_provider env q healthy r) as [out r1] eqn:E. cbn [fst snd] in Hm.
  erewrite (se_bind_ok _ _ r out r1) by (by rewrite E).
  erewrite (se_bind_ok (se_modify _)) by reflexivity.
  assert (Hback : moved now false prr r0 (with_rr_index r1 (_rr_index r))).
  { eapply moved_trans; [exact Hr|]. destruct Hm as [A1 A2 A3 A4]. split; done. }
  revert Hback. generalize (with_rr_index r1 (_rr_index r)). 
  match goal with |- forall r2, _ -> _ (?m r2).2 /\ _ => change (plans now false prr r0 m (fun _ => True)) end.
  pstep. pstep. pstep; [by pstep|].
  eapply plans_bind; [apply plans_failover_order|]. intros order _. by pstep.
Qed.

Lemma plans_explain r0 q policy_name preferred :
  plans now false false r0 (explain env q policy_name preferred) (fun _ => True).
Proof.
  unfold explain. pstep. destruct preferred as [pref|].
  - pstep; [|by pstep]. pstep. done.
  - eapply plans_bind_any; [apply plans_policy_for|]. intros p. pstep. destruct p as [p|].
    + eapply plans_bind; [by apply plans_with_policy|]. intros [order tr] _. by pstep.
    + eapply plans_bind; [apply plans_filter_allowed|]. intros healthy _. destruct healthy; [apply plans_all_open|].
      eapply plans_bind; [apply plans_no_side_effects|]. intros order _. by pstep.
Qed.

(** The computations that do not look at the warm-up counter. *)
Definition blind {A} (m : RM A) : Prop := forall r k, m (with_rr_index r k) = ((m r).1, with_rr_index (m r).2 k).
Lemma blind_ret {A} (a : A) : blind (mret a : RM A).
Proof. done. Qed.
Lemma blind_bind {A B} (m : RM A) (f : A -> RM B) : blind m -> (forall a, blind (f a)) -> blind (m ≫= f).
Proof.
  intros Hm Hf r k. unfold mbind, SE_bind. rewrite Hm. destruct (m r) as [[a|e] r1]; cbn [fst snd]; [apply Hf|done].
Qed.
Lemma blind_get {A} (f : Router -> RM A) : (forall r k, f (with_rr_index r k) = f r) -> (forall r, blind (f r)) -> blind (get_router ≫= f).
Proof. intros H1 H2 r k. change ((get_router ≫= f) (with_rr_index r k)) with (f (with_rr_index r k) (with_rr_index r k)). rewrite H1. apply H2. Qed.
Lemma blind_lift {A} (x : res exn A) : blind (se_lift x).
Proof. done. Qed.
Hint Resolve blind_ret blind_lift : plans.

Ltac bstep :=
  match goal with
  | |- blind (mret _) => apply blind_ret
  | |- blind (se_lift _) => apply blind_lift
  | |- blind (get_router ≫= _) => apply blind_get; [reflexivity|intros ?]
  | |- blind (_ ≫= _) => apply blind_bind; [solve [eauto with plans]|intros ?]
  | |- blind (if ?b then _ else _) => destruct b
  | |- blind (match ?x with _ => _ end) => destruct x
  end.

Lemma blind_provider_at n : blind (provider_at n).
Proof. unfold provider_at. repeat bstep. Qed.
Hint Resolve blind_provider_at : plans.
Lemma blind_cost_of q n : blind (cost_of q n).
Proof. unfold cost_of. repeat bstep. Qed.
Lemma blind_history_of n : blind (history_of n).
Proof. unfold history_of. repeat bstep. Qed.
Lemma blind_health_of n : blind (health_of env n).
Proof. unfold health_of. repeat bstep. Qed.
Hint Resolve blind_cost_of blind_history_of blind_health_of : plans.
Lemma blind_raw_values q available : blind (raw_values q available).
Proof. induction available; cbn [raw_values]; repeat bstep. Qed.
Lemma blind_score_all cw lw mc ml hw raw : blind (score_all env cw lw mc ml hw raw).
Proof. induction raw as [|[n [c l]] raw IH]; cbn [score_all]; repeat bstep. Qed.
Hint Resolve blind_raw_values blind_score_all : plans.
Lemma blind_balanced_scores q available w : blind (_balanced_scores env q available w).
Proof. unfold _balanced_scores. repeat bstep. eauto with plans. Qed.
Hint Resolve blind_balanced_scores : plans.
Lemma blind_failover_order q names : blind (_failover_order env q names).
Proof. unfold _failover_order. repeat bstep. Qed.

Lemma strategy_agrees q healthy r :
  res_map (fun o => o) (_candidates_no_side_effects env q healthy r).1
  = res_map fst ((primary ← _select_provider env q healthy;
                  r ← get_router;
                  if negb (enable_failover (config r)) || has_model q then mret ([primary], [rq_model q])
                  else order ← _failover_order env q (List.filter (fun n => negb (bool_decide (n = primary))) healthy);
                       mret (primary :: order, repeat None (S (length order)))) r).1.
Proof.
  unfold _candidates_no_side_effects, mbind, SE_bind, se_try, get_router, se_get, se_modify, se_lift.
  destruct (_select_provider env q healthy r) as [[primary|e] r1]; [|done].
  cbn [fst snd config with_rr_index]. destruct (_ || _); [done|].
  rewrite blind_failover_order. destruct (_failover_order env q _ r1) as [[order|e] r2]; done.
Qed.

Lemma with_policy_advance q p r : (_plan_with_policy env q p false r).1 = (_plan_with_policy env q p true r).1.
Proof.
  unfold _plan_with_policy, mbind, SE_bind, get_router, se_get.
  destruct (classify_providers env p _ r) as [[[[eligible blocked] tr]|e] r1]; [|done].
  destruct eligible as [|x l]; [by destruct blocked|].
  destruct (_rank_for_policy env q p (x :: l) tr r1) as [[[ranked tr1]|e] r2]; [|done].
  destruct (pin_explicit p (x :: l) ranked tr1) as [ranked' tr2]. cbn [andb].
  destruct (bool_decide (strategy p = "round_robin")); done.
Qed.

(** What [_plan] makes of an order once it has one: a private request keeps the
    local providers, of several candidates an easy one moves them to the front and
    a hard one to the back. *)
Definition is_local_at (r : Router) n : bool := match local_at n r with Ok l => l | Raise _ => false end.
Definition narrowed q (order : list string) (r : Router) : res exn (list string) :=
  let near := List.filter (is_local_at r) order in
  let far := List.filter (fun n => negb (is_local_at r n)) order in
  if is_private q then
    match near with
    | [] => Raise (ValueError "Request is private but no local provider can serve it; it was not sent to a cloud provider.")
    | _ => Ok near
    end
  else if (length order <=? 1)%nat then Ok order
  else if is_text "easy" (metadata_of q "difficulty") then Ok (near ++ far)
  else if is_text "hard" (metadata_of q "difficulty") then Ok (far ++ near)
  else Ok order.

Lemma split_local_filter want pairs r :
  Forall (fun x => exists b, local_at x.1 r = Ok b) pairs ->
  exists yes no, split_local want pairs r = Ok (yes, no) /\
    yes.*1 = List.filter (fun n => Bool.eqb (is_local_at r n) want) pairs.*1 /\
    no.*1 = List.filter (fun n => negb (Bool.eqb (is_local_at r n) want)) pairs.*1.
Proof.
  induction 1 as [|x xs [b Hb] _ (ys & ns & E & Hy & Hn)]; [by exists [], []|].
  assert (Hl : is_local_at r x.1 = b) by (unfold is_local_at; by rewrite Hb).
  cbn [split_local fmap list_fmap List.filter]. rewrite Hb, E, Hl.
  destruct (Bool.eqb b want); eexists _, _; (split; [done|]); cbn [fmap list_fmap negb]; by rewrite ?Hy, ?Hn.
Qed.

Lemma filter_eqb_true (f : string -> bool) l : List.filter (fun n => Bool.eqb (f n) true) l = List.filter f l.
Proof. apply List.filter_ext. intros n. by destruct (f n). Qed.
Lemma filter_eqb_false (f : string -> bool) l : List.filter (fun n => Bool.eqb (f n) false) l = List.filter (fun n => negb (f n)) l.
Proof. apply List.filter_ext. intros n. by destruct (f n). Qed.
Lemma filter_eqb_not_false (f : string -> bool) l : List.filter (fun n => negb (Bool.eqb (f n) false)) l = List.filter f l.
Proof. apply List.filter_ext. intros n. by destruct (f n). Qed.
Lemma filter_eqb_not_true (f : string -> bool) l : List.filter (fun n => negb (Bool.eqb (f n) true)) l = List.filter (fun n => negb (f n)) l.
Proof. apply List.filter_ext. intros n. by destruct (f n). Qed.

(** [_plan] is [_plan_any] narrowed; [r2] is the state [_plan_any] leaves. *)
Lemma plan_narrows q preferred r order models r2 :
  _plan_any env q preferred r = (Ok (order, models), r2) -> length models = length order ->
  Forall (fun n => exists b, local_at n r2 = Ok b) order -> (forall p, preferred = Some p -> length order = 1%nat) ->
  res_map fst (_plan env q preferred r).1 = narrowed q order r2.
Proof.
  intros Ea Hlen Hreg Hone. unfold _plan, narrowed, is_private.
  rewrite (se_bind_ok _ _ _ _ _ Ea), (se_bind_ok get_router _ r2 r2 r2 eq_refl). cbv beta iota zeta.
  assert (Hpairs : Forall (fun x => exists b, local_at x.1 r2 = Ok b) (combine order models)).
  { apply Forall_fmap with (f := fst) (P := fun n => exists b, local_at n r2 = Ok b). by rewrite combine_fst. }
  destruct (ytruthy (metadata_of q "private")); cbn [negb].
  - destruct (split_local_filter true _ _ Hpairs) as (yes & no & E & Hy & _). rewrite combine_fst in Hy by done.
    rewrite filter_eqb_true in Hy. unfold mbind, SE_bind, se_lift, se_raise, mret, SE_ret. rewrite E. rewrite <- Hy.
    by destruct yes.
  - destruct (bool_decide (preferred = None) && (1 <? length order)%nat) eqn:Eb.
    + apply andb_true_iff in Eb as [_ Hl]. apply Nat.ltb_lt in Hl. replace (length order <=? 1)%nat with false by (symmetry; apply Nat.leb_gt; lia).
      unfold se_lift, _apply_difficulty. cbn [fst snd].
      destruct (is_text "easy" (metadata_of q "difficulty")) eqn:Ee; cbn [orb].
      * destruct (split_local_filter true _ _ Hpairs) as (yes & no & E & Hy & Hn). rewrite combine_fst in Hy, Hn by done.
        rewrite E. cbn. by rewrite fmap_app, Hy, Hn, filter_eqb_true, filter_eqb_not_true.
      * destruct (is_text "hard" (metadata_of q "difficulty")) eqn:Eh; [|done].
        destruct (split_local_filter false _ _ Hpairs) as (yes & no & E & Hy & Hn). rewrite combine_fst in Hy, Hn by done.
        rewrite E. cbn. by rewrite fmap_app, Hy, Hn, filter_eqb_false, filter_eqb_not_false.
    + assert (Hl : (length order <=? 1)%nat = true); [|by rewrite Hl].
      apply andb_false_iff in Eb as [Eb|Eb]; apply Nat.leb_le.
      * apply bool_decide_eq_false in Eb. destruct preferred as [p|]; [|done]. by rewrite (Hone p).
      * apply Nat.ltb_ge in Eb. lia.
Qed.

Lemma explain_plan_any q r : _owner_of (rq_model q) r = None ->
  res_map ex_order (explain env q None None r).1 = res_map fst (_plan_any env q None r).1.
Proof.
  intros Ho. unfold explain, _plan_any. rewrite !(se_bind_ok get_router _ r r r eq_refl). cbv beta zeta. rewrite Ho.
  destruct (_policy_for env q None r) as [[p|e] r1] eqn:Ep; [|by rewrite !(se_bind_raise _ _ _ _ _ Ep)].
  rewrite !(se_bind_ok _ _ _ _ _ Ep), (se_bind_ok get_router _ r1 r1 r1 eq_refl). cbv beta. destruct p as [p|].
  - unfold plan_by_policy. pose proof (with_policy_advance q p r1) as Hadv.
    unfold mbind, SE_bind, get_router, se_get.
    destruct (_plan_with_policy env q p false r1) as [[[o t]|e] r2], (_plan_with_policy env q p true r1) as [[[o' t']|e'] r2'];
      cbn [fst] in Hadv; simplify_eq; done.
  - unfold plan_by_strategy. rewrite (se_bind_ok get_router _ r1 r1 r1 eq_refl). cbv beta.
    destruct (filter_allowed env (od_keys (providers r1)) r1) as [[healthy|e] r2] eqn:Ef;
      [|by rewrite !(se_bind_raise _ _ _ _ _ Ef)].
    rewrite !(se_bind_ok _ _ _ _ _ Ef). destruct healthy as [|h hs]; [done|].
    rewrite <- strategy_agrees. unfold mbind, SE_bind. by destruct (_candidates_no_side_effects env q (h :: hs) r2) as [[o|e] r3].
Qed.

Lemma registered_local n r r' : core r' = core r -> n ∈ od_keys (providers r) -> exists b, local_at n r' = Ok b.
Proof.
  intros Hc Hn. destruct (od_get n (providers r)) as [p|] eqn:Hp; [|by apply od_get_None in Hp]. exists (is_local p). rewrite (core_local _ _ _ Hc). unfold local_at, at_key, mbind.
  by rewrite Hp.
Qed.

Lemma narrowed_core q order r r' : core r' = core r -> narrowed q order r' = narrowed q order r.
Proof.
  intros Hc. assert (Hf : forall n, is_local_at r' n = is_local_at r n) by (intros n; unfold is_local_at; by rewrite (core_local _ _ _ Hc)).
  unfold narrowed. rewrite (List.filter_ext _ _ Hf order).
  rewrite (List.filter_ext (fun n => negb (is_local_at r' n)) (fun n => negb (is_local_at r n))); [done|]. intros n. by rewrite Hf.
Qed.

Lemma explain_pinned q p r : p ∈ od_keys (providers r) ->
  exists x, (explain env q None (Some p) r).1 = Ok x /\ ex_order x = [p].
Proof.
  intros Hp. unfold explain. rewrite (se_bind_ok get_router _ r r r eq_refl). cbv beta. unfold od_mem.
  destruct (od_get p (providers r)) eqn:E; [by eexists|by apply od_get_None in E].
Qed.

(** C33: the dry run is faithful up to what it does not look at: where no
    provider owns the model asked for, the providers a request is planned onto are
    those [explain] reports, in its order, with the local ones kept (a private
    request) or moved to the front or the back (an easy or hard one); planning
    fails where [explain] fails, with the same error, or where a private request
    has no local provider left; and explaining changes neither round-robin
    counter, nor anything else planning may not change. A pinned provider must be
    registered, which [explain] checks and routing checks before it plans. *)
Theorem explain_predicts_plan q preferred r :
  _owner_of (rq_model q) r = None -> (forall p, preferred = Some p -> p ∈ od_keys (providers r)) ->
  res_map fst (_plan env q preferred r).1 =
    match (explain env q None preferred r).1 with Ok x => narrowed q (ex_order x) r | Raise e => Raise e end /\
  moved now false false r (explain env q None preferred r).2.
Proof.
  intros Ho Hpin. split; [|by apply plans_explain, moved_refl]. destruct preferred as [p|].
  - assert (Hp : p ∈ od_keys (providers r)) by auto. destruct (explain_pinned q p r Hp) as (x & -> & ->).
    apply (plan_narrows q (Some p) r [p] [rq_model q]); [|done| |by intros].
    + unfold _plan_any. rewrite (se_bind_ok get_router _ r r r eq_refl). cbv beta zeta. by rewrite Ho.
    + apply Forall_singleton. by apply (registered_local p r).
  - pose proof (explain_plan_any q r Ho) as He. destruct (_plan_any env q None r) as [[[order models]|e] r2] eqn:Ea.
    + destruct (plan_any_sound q r _ _ Ea) as (pol & r1 & _ & [Hlen Hok] & Hm). cbn [fst snd] in *.
      destruct (explain env q None None r) as [[x|e] r3]; [|done]. cbn in He. injection He as He. cbn [fst]. rewrite He.
      rewrite <- (narrowed_core q order r r2) by apply Hm. apply (plan_narrows q None r order models); [done|done| |done].
      eapply Forall_impl; [exact Hok|]. intros n (Hn & _). by apply (registered_local n r); [apply Hm|].
    + cbn in He. destruct (explain env q None None r) as [[x|e'] r3]; [done|]. injection He as ->. cbn.
      unfold _plan. by rewrite (se_bind_raise _ _ _ _ _ Ea).
Qed.
End Plans.

(** ** Screening *)
Section Screens.
Context `{PyStr} `{HalfPow}.
Variable env : plan_env.
Context {W : Type} (gate : option (string -> SE W exn unit)).
Implicit Types (q : CompletionRequest) (n : string).

(** A kept candidate: nothing it cannot serve, and the gate let it through. *)
Definition cleared q (r : Router) (c : string * CompletionRequest) : Prop :=
  c.2 = with_model q (rq_model c.2) /\
  (exists problem, _model_problem c.2 c.1 r = Ok problem /\ default EmptyString problem = EmptyString) /\
  exists w w', _admit_model gate c.2 c.1 (r, w) = (Ok tt, (r, w')).

Lemma admit_model_frame q n r w x r' w' : _admit_model gate q n (r, w) = (x, (r', w')) -> r' = r.
Proof.
  unfold _admit_model, lift_router, lift_world, provider_at, mbind, SE_bind, mret, SE_ret, get_router, se_get, se_lift.
  destruct gate as [g|]; [|by intros [= _ <- _]]. cbn [fst snd].
  destruct (at_key n (providers r)) as [p|e]; cbn [fst snd]; [|by intros [= _ <- _]].
  destruct (g _ w) as [y w1]. by intros [= _ <- _].
Qed.

Lemma screen_loop_spec q hard cands problem budget_exc keep r w out r' w' :
  screen_loop gate q hard cands problem budget_exc keep (r, w) = (Ok out, (r', w')) ->
  r' = r /\ out ≠ [] /\
  exists new, out = keep ++ new /\ ((fun c => (c.1, rq_model c.2)) <$> new) `sublist_of` cands /\ Forall (cleared q r) new.
Proof.
  revert problem budget_exc keep w. induction cands as [|[n model] cands IH]; intros problem budget_exc keep w Hx; cbn [screen_loop] in Hx.
  - destruct keep as [|k keep]; [by destruct budget_exc|]. injection Hx as <- <- _.
    split_and!; [done|done|]. exists []. rewrite app_nil_r. split_and!; [done|constructor|constructor].
  - apply se_bind_inv in Hx as (reason & [r1 w1] & Hreason & Hx).
    assert (Hrw : r1 = r /\ w1 = w /\ _model_problem (with_model q model) n r = Ok reason).
    { unfold lift_router in Hreason. cbn in Hreason. by injection Hreason as -> <- <-. }
    destruct Hrw as (-> & -> & Hp). clear Hreason.
    assert (Hskip : forall p b w, screen_loop gate q hard cands p b keep (r, w) = (Ok out, (r', w')) ->
      r' = r /\ out ≠ [] /\ exists new, out = keep ++ new /\
        ((fun c => (c.1, rq_model c.2)) <$> new) `sublist_of` (n, model) :: cands /\ Forall (cleared q r) new).
    { intros p b w0 Hs. destruct (IH _ _ _ _ Hs) as (H1 & H2 & new & H3 & H4 & H5). split_and!; [done|done|].
      exists new. split_and!; [done|by constructor|done]. }
    destruct (negb (bool_decide (default EmptyString reason = EmptyString))) eqn:Er.
    + destruct hard; [done|]. by apply Hskip in Hx.
    + apply negb_false_iff, bool_decide_eq_true in Er.
      apply se_bind_inv in Hx as (adm & [r1 w1] & Hadm & Hx). unfold se_try in Hadm.
      destruct (_admit_model gate (with_model q model) n (r, w)) as [y [r2 w2]] eqn:Ead. injection Hadm as <- <- <-.
      pose proof (admit_model_frame _ _ _ _ _ _ _ Ead) as ->. destruct y as [[]|e].
      * destruct (IH _ _ _ _ Hx) as (H1 & H2 & new & H3 & H4 & H5). split_and!; [done|done|].
        exists ((n, with_model q model) :: new). split_and!; [by rewrite H3, <- app_assoc| |].
        -- rewrite fmap_cons. by constructor.
        -- constructor; [|done]. split; [done|]. cbn [fst snd]. split; [by exists reason|]. by exists w, w2.
      * destruct (_ || _); [done|]. by apply Hskip in Hx.
Qed.

Lemma private_plan_local q preferred r order models r1 :
  is_private q = true -> _plan env q preferred r = (Ok (order, models), r1) -> Forall (fun n => local_at n r1 = Ok true) order.
Proof.
  unfold is_private, _plan. intros Hp Hx. apply se_bind_inv in Hx as ([order0 models0] & r2 & _ & Hx).
  apply se_bind_inv in Hx as (? & ? & [= <- <-] & Hx). rewrite Hp in Hx. cbn [negb] in Hx.
  apply se_bind_inv in Hx as ([yes no] & ? & [= Es <-] & Hx). apply split_local_spec in Es as (_ & Hy & _).
  destruct yes as [|y ys]; [done|]. set (yes := y :: ys) in *. injection Hx as <- <- <-.
  change (Forall (fun n => local_at n r2 = Ok true) (fst <$> yes)). by apply Forall_fmap.
Qed.

(** C14: whatever screening keeps, from a pinned or an automatic plan, is part
    of the plan in its order; each kept request is the client's with only its
    model replaced, is one its model can serve (modalities, tools, context
    window, output limit, streaming) and passed the model gate; something is
    kept; and a private request keeps local providers only. *)
Theorem screen_sound q preferred r w keep r' w' :
  _screen env gate q preferred (r, w) = (Ok keep, (r', w')) ->
  exists order models,
    _plan env q preferred r = (Ok (order, models), r') /\
    keep ≠ [] /\ ((fun c => (c.1, rq_model c.2)) <$> keep) `sublist_of` combine order models /\
    Forall (cleared q r') keep /\
    (is_private q = true -> Forall (fun c => local_at c.1 r' = Ok true) keep).
Proof.
  unfold _screen. intros Hx. apply se_bind_inv in Hx as ([names models] & [r1 w1] & Hp & Hx).
  unfold lift_router in Hp. cbn [fst snd] in Hp. destruct (_plan env q preferred r) as [x r2] eqn:Ep.
  injection Hp as -> -> ->. apply screen_loop_spec in Hx as (-> & Hne & new & -> & Hsub & Hcl). cbn [app] in *.
  exists names, models. split_and!; [done|done|done|done|]. intros Hpriv.
  pose proof (private_plan_local _ _ _ _ _ _ Hpriv Ep) as Hl. apply Forall_forall. intros c Hc. apply (proj1 (Forall_forall _ _) Hl).
  assert (Hin : (c.1, rq_model c.2) ∈ combine names models).
  { eapply elem_of_submseteq; [|by apply sublist_submseteq]. apply list_elem_of_fmap. by exists c. }
  apply list_elem_of_In, in_combine_l in Hin. by apply list_elem_of_In.
Qed.
End Screens.

(** ** Witnesses: a cloud provider and a local server *)
Module PlanDemo.
#[local] Instance demo_repr : PyStr := {| py_repr := fun _ => "?" |}.
#[local] Instance hyperbola : HalfPow := {| half_pow := fun x => (1 / (1 + x))%Q |}.

Definition cloud : BaseProvider :=
  mkProvider "openai" "gpt-4o-mini" false [] true true true (fun _ => None) (fun i o _ => Ok (inject_Z (i + o)))
             (fun i o _ => Ok (inject_Z (i + o))).
Definition home : BaseProvider :=
  mkProvider "ollama" "llama3" true ["llama3"] false false false (fun _ => None) (fun _ _ _ => Ok 0%Q) (fun _ _ _ => Ok 0%Q).
Definition demo_router : Router :=
  match new_router 0 [("openai", cloud); ("ollama", home)] RoutingConfig_args None MODEL_CATALOGUE with
  | Ok r => r
  | Raise _ => empty_router
  end.
Definition demo_env : plan_env := mkEnv 1 "routing.yml" None (Raise (Unreadable "missing")).
Definition hello (md : list (string * yaml)) : CompletionRequest :=
  mkRequest [mkMessage "user" "hello" None None None] None 100 (7 # 10) false None md None None None.
Definition private_hello : CompletionRequest := hello [("private", YBool true)].

Lemma plan_sound_witness :
  exists order models r', _plan demo_env private_hello None demo_router = (Ok (order, models), r') /\
    Forall (fun n => local_at n demo_router = Ok true) order.
Proof.
  eexists _, _, _. split; [vm_compute; reflexivity|].
  edestruct (plan_sound demo_env private_hello None demo_router) as (pol & r1 & H1 & H2 & H3 & H4 & H5); [vm_compute; reflexivity|].
  by apply H4.
Defined.

Lemma default_plan_witness :
  exists order models r', _plan_any demo_env (hello []) None demo_router = (Ok (order, models), r') /\ NoDup order.
Proof.
  eexists _, _, _. split; [vm_compute; reflexivity|].
  eapply (default_plan_complete demo_env (hello []) demo_router);
    [by repeat constructor; vm_compute; set_solver | done | done | done | vm_compute; reflexivity].
Defined.

(** A hard request: [explain] puts the local server wherever the strategy does,
    planning moves it behind the cloud. *)
Definition hard_hello : CompletionRequest := hello [("difficulty", YStr "hard")].
Lemma explain_witness :
  res_map fst (_plan demo_env hard_hello None demo_router).1 = Ok ["openai"; "ollama"] /\
  exists x, (explain demo_env hard_hello None None demo_router).1 = Ok x /\ narrowed hard_hello (ex_order x) demo_router = Ok ["openai"; "ollama"].
Proof.
  destruct (explain_predicts_plan demo_env hard_hello None demo_router) as [H1 _]; [reflexivity|done|].
  assert (E : res_map fst (_plan demo_env hard_hello None demo_router).1 = Ok ["openai"; "ollama"]) by (vm_compute; reflexivity).
  split; [exact E|]. rewrite E in H1. destruct (explain demo_env hard_hello None None demo_router) as [[x|e] r1]; [|done].
  exists x. split; [reflexivity|]. symmetry. exact H1.
Defined.

(** A gate with a counter, as the API's budget check is. *)
Definition counting_gate (m : string) : SE Z exn unit := fun n => (Ok tt, n + 1).
Lemma screen_witness :
  exists keep s, _screen demo_env (Some counting_gate) private_hello None (demo_router, 0) = (Ok keep, s) /\ keep ≠ [].
Proof.
  eexists _, (_, _). split; [vm_compute; reflexivity|].
  edestruct (screen_sound demo_env (Some counting_gate) private_hello None demo_router 0) as (order & models & H1 & H2 & _);
    [vm_compute; reflexivity|]. exact H2.
Defined.
End PlanDemo.
