(* ===== verification/RouterCall.v ===== *)
(** Component: calling providers from the router ([src/src/coreai/router.py]):
    admission, one call with its timeout, retries and accounting, hedged calls,
    the failover loop of [_route], caching and embeddings.

    The async methods are coroutines over the router and the outside state [W]
    of the model gate. What they wait for is an [event]; between suspension
    points they are atomic, as on one event loop. *)
From stdpp Require Import pretty.
From S2P Require Import Prelude Errors Deadline Yaml CircuitBreaker Limiter Retry Cache Health Policy Provider.
From S2P Require Import Coroutine RouterState RouterPlan.

(** What a segment reads from outside: the clock and the policy file, UTC time
    (for dates in Retry-After) and the random number a retry may draw. *)
Record reading := mkReading { rd_env : plan_env; rd_utc : Q; rd_rng : Q }.
Definition now_of (rd : reading) : Q := e_now (rd_env rd).

(** What the router waits for. Provider calls are under [asyncio.wait_for], so
    their answer may be a [TimeoutError]; a stream's end is [None]. [EFirst] opens
    the provider's stream of a request, which [ENext] and [EClose] then mean. *)
Inductive event : Type -> Type :=
| ESlot (n : string) (timeout : option Q) : event bool           (* a permit in time? *)
| ESleep (seconds : Q) : event unit
| ETimer (due : xfloat) : event unit                                 (* until the clock shows [due] *)
| EComplete (n : string) (q : CompletionRequest) (timeout : option Q) : event (res exn CompletionResponse)
| EEmbed (n : string) (texts : list string) (model : option string) (timeout : option Q)
  : event (res exn (list (list Q) * Z * string))
| EFirst (n : string) (q : CompletionRequest) (timeout : option Q) : event (res exn (option string))
| ENext (n : string) (q : CompletionRequest) (timeout : Q) : event (res exn (option string))
| EClose (n : string) (q : CompletionRequest) : event (res exn unit)
| EEither (X Y : Type) (e : event X) (e' : event Y) : event (X + Y)   (* whichever is first *)
| ECancelling (X : Type) (e : event X) : event (option X).   (* cancelled, unless it is ready already *)
Arguments EEither {X Y} e e'.
Arguments ECancelling {X} e.

(** Screened candidates, each with its request. *)
Abbreviation candidates := (list (string * CompletionRequest)).

(** [f"{seconds:.1f}"] *)
Class SecondsText := { show_tenths : Q -> string }.

Record cache_options := mkCacheOptions {
  co_system : option string; co_temperature : Q; co_max_tokens : Z; co_format : option yaml }.

(** [_call_hedged]'s result: the provider that answered, or [HedgeFailure] with
    the errors in the order they came; and the providers tried as a hedge. *)
Inductive hedged :=
| Answered (n : string) (r : CompletionResponse) (skip : list string)
| HedgeFailure (errors : list (string * exn)) (skip : list string).

Section Call.
Context `{PyStr} `{HalfPow} `{TextLib} `{SecondsText} `{KeyDigest (list (string * string)) cache_options}.
Context {W : Type} (model_gate : option (string -> SE W exn unit)).
Abbreviation S := (Router * W)%type.
Abbreviation call := (coro reading S event).
Implicit Types (q : CompletionRequest) (n : string) (dl : Deadline) (rd : reading).

Definition router_seg {A} (m : reading -> RM A) : call A := seg (fun rd => lift_router (m rd)).
Definition clock : call Q := seg (fun rd => se_gets (fun _ => now_of rd)).

(** The breaker and the limiter of a provider, updated in place. *)
Definition breaker_do n (f : CircuitBreaker -> CircuitBreaker) : RM unit :=
  se_modify (fun r => match od_get n (breakers r) with
                      | Some b => with_breakers r (od_set n (f b) (breakers r))
                      | None => r
                      end).
Definition limiter_do n (f : ProviderLimiter -> acquire_outcome * ProviderLimiter) : RM acquire_outcome :=
  r ← get_router;
  match od_get n (limiter r) with
  | Some l => let '(o, l) := f l in se_modify (fun r => with_limiter r (od_set n l (limiter r)));; mret o
  | None => mret (Passed 0)
  end.
Definition limiter_set n (f : ProviderLimiter -> ProviderLimiter) : RM acquire_outcome :=
  limiter_do n (fun l => (HasSlot, f l)).
Definition limiter_release n : RM unit := se_modify (fun r => with_limiter r (global_release n (limiter r))).

(** ** Admission *)

(** [ProviderLimiter.acquire] with a slot in hand. *)
Definition limiter_reserve n (est : Q) (max_wait : option Q) (started : Q) : call unit :=
  o ← router_seg (fun rd => let t := now_of rd in limiter_do n (acquire_reserve started t t t t est max_wait));
  match o with
  | Rejected e => throw e
  | AwaitSleep d =>
    woken ← try_ (await (ESleep d));
    match woken with
    | Return _ => router_seg (fun rd => limiter_do n (acquire_finish started (now_of rd)));; mret tt
    | _ => router_seg (fun _ => limiter_set n (acquire_abort est));; finish Cancel
    end
  | _ => mret tt
  end.

Definition limiter_acquire n (est : Q) (max_wait : option Q) : call unit :=
  started ← clock;
  o ← router_seg (fun rd => limiter_do n (acquire_start started (now_of rd) max_wait));
  match o with
  | Rejected e => throw e
  | HasSlot => limiter_reserve n est max_wait started
  | AwaitSlot timeout =>
    granted ← try_ (await (ESlot n timeout));
    match granted with
    | Return true =>
      router_seg (fun _ => limiter_set n acquire_granted);; limiter_reserve n est max_wait started
    | Return false =>
      o ← router_seg (fun _ => limiter_do n acquire_slot_timeout);
      match o with Rejected e => throw e | _ => mret tt end
    | _ => router_seg (fun _ => limiter_set n acquire_slot_cancel);; finish Cancel
    end
  | _ => mret tt
  end.

Definition is_rate_limited (e : exn) : bool := match ex_class e with CRateLimited _ _ => true | _ => false end.

Definition _admit n q dl : call unit :=
  max_wait ← router_seg (fun rd => mret (remaining (now_of rd) dl));
  out ← try_ (limiter_acquire n (inject_Z (_estimate_tokens q)) max_wait);
  match out with
  | Return _ => mret tt
  | Throw e =>
    router_seg (fun _ => (if is_rate_limited e then _count_local_rate_limit n else mret tt);; breaker_at n;; breaker_do n CircuitBreaker.release);;
    throw e
  | Cancel => router_seg (fun _ => breaker_at n;; breaker_do n CircuitBreaker.release);; finish Cancel
  end.

(** ** Retries: [RetryManager.execute] over a coroutine *)

(** What to do about a failed attempt: the wait before the next one, counted by
    [note], or [None] to give up. *)
Definition retry_decide (c : RetryConfig) dl (attempt : Z) (e : exn) rd : RM (option Q) :=
  let info := classify (rd_utc rd) e in
  if negb (retryable info) || (max_attempts c <=? attempt) then mret None
  else
    match fst (compute_wait (fun _ : unit => (rd_rng rd, tt)) attempt info (initial_wait_seconds c)
                 (max_wait_seconds c) (exponential_base c) (jitter c) tt) with
    | None => mret None
    | Some wait =>
      if match remaining (now_of rd) dl with Some left_ => left_ <=. wait | None => false end then mret None
      else
        se_modify (fun r => with_retry_manager r (note e info <$> retry_manager r));; mret (Some wait)
    end.

(** [run_with_retry]; [more] attempts may follow this one. *)
Fixpoint retry_attempts {A} (more : nat) (c : RetryConfig) dl (attempt : Z) (func : call A) : call A :=
  out ← try_ func;
  match out with
  | Throw e =>
    wait ← router_seg (retry_decide c dl attempt e);
    match wait, more with
    | Some wait, Datatypes.S more => await (ESleep wait);; retry_attempts more c dl (attempt + 1) func
    | _, _ => throw e
    end
  | _ => finish out
  end.

Definition limited_config (m : RetryManager) (attempts : Z) : RetryConfig :=
  let c := rm_config m in
  mkRetryConfig (if attempts =? 0 then max_attempts c else attempts) (initial_wait_seconds c) (max_wait_seconds c)
                (exponential_base c) (jitter c).

Definition manager_execute {A} (m : RetryManager) dl (attempts : Z) (func : call A) : call A :=
  let c := limited_config m attempts in
  out ← try_ (retry_attempts (Z.to_nat (max_attempts c - 1)) c dl 1 func);
  match out with
  | Throw e =>
    router_seg (fun _ => se_modify (fun r => with_retry_manager r (count_failure <$> retry_manager r)));; throw e
  | _ => finish out
  end.

(** ** Calling one provider *)
Definition _timeout_for n (r : Router) : Q :=
  default (request_timeout_seconds (config r)) (od_get n (provider_timeouts (config r))).

(** [seconds or timeout] *)
Definition or_seconds (seconds : option Q) (timeout : Q) : Q :=
  match seconds with Some s => if Qeq_bool s 0 then timeout else s | None => timeout end.

(** What [asyncio.TimeoutError] becomes: the deadline, or the provider's own
    timeout. *)
Definition timed_out {A} n dl (seconds : option Q) (timeout : Q) : call A :=
  router_seg (fun rd =>
    if expired (now_of rd) dl then se_raise (DeadlineExceeded ("deadline exceeded waiting on " +:+ n))
    else let s := or_seconds seconds timeout in se_raise (ProviderTimeout n s (show_tenths s))).

(** The time an attempt may take, if any is left. *)
Definition attempt_seconds dl (timeout : Q) : call (option Q) :=
  router_seg (fun rd =>
    let seconds := clamp (now_of rd) dl (Some timeout) in
    if match seconds with Some s => s <=. 0 | None => false end
    then se_raise (DeadlineExceeded "request deadline exceeded") else mret seconds).

Definition one_call n q dl (timeout : Q) : call CompletionResponse :=
  seconds ← attempt_seconds dl timeout;
  out ← await (EComplete n q seconds);
  match out with
  | Ok resp => mret resp
  | Raise e => if isinstance_TimeoutError e then timed_out n dl seconds timeout else throw e
  end.

(** [except Exception]: count the error, then the breaker's verdict. *)
Definition settle_failure n (e : exn) rd : RM unit :=
  let info := classify (rd_utc rd) e in
  _record_error (now_of rd) n (Some (kind info)) (status_of e);;
  breaker_do n (if counts_against_breaker info then record_failure (now_of rd) (now_of rd) else CircuitBreaker.release).

Definition check_deadline n dl : call unit :=
  router_seg (fun rd =>
    match check (now_of rd) dl with
    | Ok _ => mret tt
    | Raise e => breaker_do n CircuitBreaker.release;; se_raise e
    end).

Definition with_retries {A} dl (attempts : Z) (func : call A) : call A :=
  r ← router_seg (fun _ => get_router);
  match retry_manager r with
  | Some m => if enable_retry (config r) then manager_execute m dl attempts func else func
  | None => func
  end.

(** [_call_provider]: [_call_provider_untraced] in a tracing span. *)
Definition _call_provider n q dl (attempts : Z) : call CompletionResponse :=
  timeout ← router_seg (fun _ => provider_at n;; breaker_at n;; r ← get_router; mret (_timeout_for n r));
  check_deadline n dl;;
  _admit n q dl;;
  out ← try_ (with_retries dl attempts (one_call n q dl timeout));
  settled ← try_ (router_seg (fun rd =>
    match out with
    | Return _ => breaker_do n (record_success (now_of rd))
    | Throw e => settle_failure n e rd
    | Cancel => breaker_do n CircuitBreaker.release
    end));
  router_seg (fun _ => limiter_release n);;
  rethrow settled (fun _ => finish out).

(** ** Hedging *)
Definition breaker_allow n rd : RM bool :=
  b ← breaker_at n;
  let '(ok, b) := CircuitBreaker.allow (now_of rd) b in
  se_modify (fun r => with_breakers r (od_set n b (breakers r)));; mret ok.

(** [asyncio.wait({t}, timeout=...)] on a task: [late] gets the task as it
    stands when the timer is first. A cancelled wait leaves the task running. *)
Fixpoint with_timer {A B} (c : call A) (due : xfloat) (done : outcome A -> call B) (late : call A -> call B) : call B :=
  match c with
  | Done o => done o
  | Seg f => Seg (fun rd s => match f rd s with (c, s) => (with_timer c due done late, s) end)
  | Await e k =>
    Await (EEither e (ETimer due)) (fun x =>
      match x with
      | Some (inl v) => with_timer (k (Some v)) due done late
      | Some (inr _) => late (Await e k)
      | None => after (Await e k) (fun _ => finish Cancel)
      end)
  end.

(** [t.cancel()] and waiting for [t] to end; whether the waiter itself was
    cancelled meanwhile. *)
Fixpoint cancel_leg {A} (c : call A) (outer : bool) : call bool :=
  match c with
  | Done _ => mret outer
  | Seg f => Seg (fun rd s => match f rd s with (c, s) => (cancel_leg c outer, s) end)
  | Await e k =>
    Await (ECancelling e) (fun x =>
      match x with
      | Some y => cancel_leg (k y) outer
      | None => cancel_leg (k None) true
      end)
  end.

Definition cancel_both {A B} (c1 c2 : call A) : call B := cancel_leg c1 false;; cancel_leg c2 false;; finish Cancel.

(** Two tasks, until the first of them ends: [first] gets whether it is the
    first task, its outcome and the other task as it stands. *)
Fixpoint race {A B} (c1 : call A) (first : bool -> outcome A -> call A -> call B) : call A -> call B :=
  match c1 with
  | Done o => fun c2 => first true o c2
  | Seg f => fun c2 => Seg (fun rd s => match f rd s with (c1, s) => (race c1 first c2, s) end)
  | Await e1 k1 =>
    fix go (c2 : call A) : call B :=
      match c2 with
      | Done o => first false o (Await e1 k1)
      | Seg f => Seg (fun rd s => match f rd s with (c2, s) => (go c2, s) end)
      | Await e2 k2 =>
        Await (EEither e1 e2) (fun x =>
          match x with
          | Some (inl v) => race (k1 (Some v)) first (Await e2 k2)
          | Some (inr v) => go (k2 (Some v))
          | None => cancel_both (Await e1 k1) (Await e2 k2)
          end)
      end
  end.

Definition count_win (won : bool) : RM unit :=
  se_modify (fun r => if won then with_hedges r (hedge_count r) (hedge_wins r + 1) else r).

(** The [while pending] loop once one leg has ended. *)
Definition leg_done (primary partner : string) (skip : list string) (is_primary : bool) (o : outcome CompletionResponse)
    (other : call CompletionResponse) : call hedged :=
  let n := if is_primary then primary else partner in
  let m := if is_primary then partner else primary in
  match o with
  | Return resp =>
    outer ← cancel_leg other false;
    if (outer : bool) then finish Cancel
    else router_seg (fun _ => count_win (negb is_primary));; mret (Answered n resp skip)
  | Throw e =>
    o' ← try_ other;
    match o' with
    | Return resp => router_seg (fun _ => count_win is_primary);; mret (Answered m resp skip)
    | Throw e' => mret (HedgeFailure [(n, e); (m, e')] skip)
    | Cancel => finish Cancel
    end
  | Cancel => cancel_leg other false;; finish Cancel
  end.

(** The partner's breaker is asked, and a launch counted, in one segment. *)
Definition launch_partner (partner : string) rd : RM bool :=
  ok ← breaker_allow partner rd;
  se_modify (fun r => if (ok : bool) then with_hedges r (hedge_count r + 1) (hedge_wins r) else r);; mret ok.

Definition _call_hedged (primary partner : string) q (partner_request : CompletionRequest) dl (attempts partner_attempts : Z)
    (delay : xfloat) (skip : list string) : call hedged :=
  started ← clock;
  with_timer (_call_provider primary q dl attempts) (xadd (Yaml.Fin started) delay)
    (fun o => rethrow o (fun resp => mret (Answered primary resp skip)))
    (fun leg =>
      ok ← try_ (router_seg (launch_partner partner));
      match ok with
      | Return true =>
        race leg (leg_done primary partner (skip ++ [partner])) (_call_provider partner partner_request dl partner_attempts)
      | Return false => resp ← leg; mret (Answered primary resp skip)
      | Throw e => after leg (fun _ => throw e)
      | Cancel => after leg (fun _ => finish Cancel)
      end).

Definition _hedge_delay (env : plan_env) q (preferred : option string) : RM (option xfloat) :=
  if negb (bool_decide (preferred = None)) || rq_stream q || has_model q then mret None
  else
    p ← _policy_for env q None;
    r ← get_router;
    mret (match p with
          | Some p => match hedge_after_ms p with
                      | Some ms => Some (xmulq ms (1 # 1000))
                      | None => Yaml.Fin <$> hedge_after_seconds (config r)
                      end
          | None => Yaml.Fin <$> hedge_after_seconds (config r)
          end).

(** ** The response cache *)
Definition _cache_options q : cache_options :=
  mkCacheOptions (system_prompt q) (temperature q) (max_tokens q) (response_format q).
Definition messages_dict q : list (string * string) := (fun m => (role m, content m)) <$> messages q.
Definition always {V} (_ : V) : bool := true.      (* a response's dict is never empty *)

Definition cache_lookup n (model : option string) q rd : RM (option CompletionResponse) :=
  r ← get_router;
  match cache r with
  | None => mret None
  | Some c =>
    let '(hit, c) := cache_get always (now_of rd) n (str_or model "*") (messages_dict q) (Some (_cache_options q)) c in
    se_modify (fun r => with_cache r (Some c));; mret hit
  end.

(** The answer made from a hit: nothing spent, the original figures kept. *)
Definition answer_of_hit (t0 t1 : Q) (hit : CompletionResponse) : CompletionResponse :=
  Provider.mkResponse (rs_content hit) (rs_model hit) (rs_provider hit) (rs_input hit) (rs_output hit) 0
    ((t1 - t0) * 1000)%Q true
    (od_set "original_latency_ms" (YFloat (Yaml.Fin (rs_latency hit)))
       (od_set "original_cost_usd" (YFloat (Yaml.Fin (rs_cost hit))) (rs_metadata hit))).

Definition _cache_response n q (resp : CompletionResponse) rd : RM unit :=
  r ← get_router;
  match cache r with
  | Some c =>
    if negb (rq_stream q) && cacheable q then
      let '(out, c) := cache_set (now_of rd) (now_of rd) n (str_or (rq_model q) "*") (messages_dict q) resp
                         (AInt (cache_ttl_seconds (config r))) (Some (_cache_options q)) c in
      se_modify (fun r => with_cache r (Some c));; se_lift out
    else mret tt
  | None => mret tt
  end.

(** ** Routing *)
Definition with_meta (key : string) (v : yaml) (resp : CompletionResponse) : CompletionResponse :=
  Provider.mkResponse (rs_content resp) (rs_model resp) (rs_provider resp) (rs_input resp) (rs_output resp)
    (rs_cost resp) (rs_latency resp) (rs_cached resp) (od_set key v (rs_metadata resp)).

(** What [_route] returns: who failed before, and whether a hedge ran. *)
Definition annotate (failures : list (string * ErrorKind)) (skip : list string) (resp : CompletionResponse)
    : CompletionResponse :=
  let resp := match failures with
              | [] => resp
              | _ => with_meta "failed_over_from" (YList (YStr <$> failures.*1)) resp
              end in
  match skip with [] => resp | _ => with_meta "hedged" (YBool true) resp end.

Definition served n q (failures : list (string * ErrorKind)) (skip : list string) (resp : CompletionResponse)
    : call CompletionResponse :=
  router_seg (_cache_response n q resp);;
  router_seg (fun rd =>
    _record_success (now_of rd) n (rs_cost resp) (rs_latency resp);;
    se_modify (_record_usage n (rs_model resp) (Some (rs_latency resp)) (Some (rs_input resp)) (Some (rs_output resp))));;
  mret (annotate failures skip resp).

Definition may_fail_over (r : Router) (i : ErrorInfo) : bool := enable_failover (config r) && failover i.

(** [if not is_last: self.failover_count += 1] *)
Definition count_failover (is_last : bool) : RM unit :=
  se_modify (fun r => if is_last then r else with_failovers r (failover_count r + 1)).

(** After a failed call: raise it, or note the failure and go on. *)
Definition failed_call n (e : exn) (is_last : bool) rd : RM ErrorKind :=
  let info := classify (rd_utc rd) e in
  r ← get_router;
  if bool_decide (kind info = DEADLINE) || negb (may_fail_over r info) then se_raise e
  else count_failover is_last;; mret (kind info).

(** After both legs of a hedged call failed. *)
Definition failed_hedge (primary : string) (errors : list (string * exn)) (e : exn) (is_last : bool) rd
    : RM (list (string * ErrorKind)) :=
  let kinds := (fun '(n, e) => (n, kind (classify (rd_utc rd) e))) <$> errors in
  r ← get_router;
  if bool_decide (DEADLINE ∈ kinds.*2) || negb (may_fail_over r (classify (rd_utc rd) e)) then se_raise e
  else count_failover is_last;; mret kinds.

Definition attempts_for (c : RoutingConfig) (is_last : bool) : Z :=
  if is_last then max_retry_attempts c else Z.min (max_retry_attempts c) (max_attempts_before_failover c).

Definition is_nil {A} (l : list A) : bool := match l with [] => true | _ => false end.

(** The next candidate, when it may be asked as a hedge. *)
Definition hedge_partner (hedge : option xfloat) (stream : bool) (skip : list string) n (rest : candidates)
    : option (xfloat * string * CompletionRequest * bool) :=
  match hedge, rest with
  | Some delay, (m, mreq) :: rest' =>
    if negb stream && negb (bool_decide (m ∈ skip)) && negb (bool_decide (m = n))
    then Some (delay, m, mreq, is_nil rest') else None
  | _, _ => None
  end.

Fixpoint route_loop (single stream : bool) (hedge : option xfloat) dl (cands : candidates)
    (failures : list (string * ErrorKind)) (last : option exn) (skip : list string) : call CompletionResponse :=
  match cands with
  | [] =>
    match single, last with
    | true, Some e => throw e
    | _, _ => router_seg (fun rd => unavailable (rd_env rd) failures)
    end
  | (n, req) :: rest =>
    if bool_decide (n ∈ skip) then route_loop single stream hedge dl rest failures last skip
    else
      ok ← router_seg (breaker_allow n);
      if negb ok then
        ra ← router_seg (fun rd => b ← breaker_at n; mret (CircuitBreaker.retry_after (now_of rd) b));
        route_loop single stream hedge dl rest (failures ++ [(n, CIRCUIT_OPEN)]) (Some (CircuitOpenError n ra)) skip
      else
        let is_last := is_nil rest in
        c ← router_seg (fun _ => r ← get_router; mret (config r));
        let partner := hedge_partner hedge stream skip n rest in
        out ← try_ (match partner with
                    | Some (delay, m, mreq, m_last) =>
                      _call_hedged n m req mreq dl (attempts_for c is_last) (attempts_for c m_last) delay skip
                    | None => resp ← _call_provider n req dl (attempts_for c is_last); mret (Answered n resp skip)
                    end);
        match out with
        | Return (Answered w resp skip) =>
          let wreq := match partner with
                      | Some (_, m, mreq, _) => if bool_decide (w = m) then mreq else req
                      | None => req
                      end in
          served w wreq failures skip resp
        | Return (HedgeFailure errors skip) =>
          match od_get n errors with
          | Some e =>
            kinds ← router_seg (failed_hedge n errors e is_last);
            route_loop single stream hedge dl rest (failures ++ kinds) (Some e) skip
          | None => throw (KeyError ("'" +:+ n +:+ "'"))
          end
        | Throw e =>
          k ← router_seg (failed_call n e is_last);
          route_loop single stream hedge dl rest (failures ++ [(n, k)]) (Some e) skip
        | Cancel => finish Cancel
        end
  end.

(** Everything before the first suspension: counting, aliases, validation, the
    deadline and screening. *)
Definition prepare q (preferred : option string) (deadline_override : option Q) rd
    : SE S exn (CompletionRequest * Deadline * candidates) :=
  lift_router (se_modify (fun r => with_request_count r (request_count r + 1)));;
  q ← lift_router (resolve_alias (rd_env rd) q);
  lift_router (r ← get_router;
               match preferred with
               | Some n => if od_mem n (providers r) then mret tt else se_lift (provider_missing n r)
               | None => mret tt
               end);;
  se_lift (validate_conversation (messages q));;
  dl ← lift_router (r ← get_router;
                    mret (new_deadline (now_of rd) (match deadline_override with
                                                    | Some s => Some s
                                                    | None => deadline_seconds (config r)
                                                    end)));
  cands ← _screen (rd_env rd) model_gate q preferred;
  mret (q, dl, cands).

Definition _route q (preferred : option string) (deadline_override : option Q) : call CompletionResponse :=
  '(q, dl, cands) ← seg (prepare q preferred deadline_override);
  let first := match cands with (n, req) :: _ => Some (n, rq_model req) | [] => None end in
  t0 ← clock;
  hit ← (if negb (rq_stream q) && cacheable q
         then match first with
              | Some (n, model) =>
                router_seg (fun rd =>
                  h ← cache_lookup n model q rd; mret ((fun h => answer_of_hit t0 (now_of rd) h) <$> h))
              | None => mret None
              end
         else mret None);
  match hit with
  | Some resp => mret resp
  | None =>
    hedge ← router_seg (fun rd => _hedge_delay (rd_env rd) q preferred);
    route_loop (length cands =? 1)%nat (rq_stream q) hedge dl cands [] None []
  end.

(** ** Embeddings *)
Fixpoint embed_loop (texts : list string) (model : option string) (names : list string)
    (errors : list (string * ErrorKind)) (last : option exn) : call (list (list Q) * Z * string * string) :=
  match names with
  | [] =>
    match last, errors with
    | Some e, [_] => throw e
    | _, _ :: _ => router_seg (fun rd => unavailable (rd_env rd) errors)
    | _, [] => throw (ValueError "No configured provider supports embeddings")
    end
  | n :: names =>
    p ← router_seg (fun _ => r ← get_router;
                    match od_get n (providers r) with
                    | Some p => mret p
                    | None => se_raise (ValueError ("Provider '" +:+ n +:+ "' not available"))
                    end);
    if negb (supports_embeddings p) then embed_loop texts model names errors last
    else
      ok ← router_seg (breaker_allow n);
      if negb ok then embed_loop texts model names (errors ++ [(n, CIRCUIT_OPEN)]) last
      else
        timeout ← router_seg (fun _ => r ← get_router; mret (_timeout_for n r));
        out ← try_ (x ← await (EEmbed n texts model (Some timeout)); finish (of_res x));
        match out with
        | Return (vectors, tokens, used) =>
          router_seg (fun rd => breaker_at n;; breaker_do n (record_success (now_of rd));;
                      se_modify (_record_usage n used None (Some tokens) (Some 0)));;
          mret (vectors, tokens, used, n)
        | Throw e =>
          k ← router_seg (fun rd =>
            settle_failure n e rd;;
            r ← get_router;
            let info := classify (rd_utc rd) e in
            if may_fail_over r info then mret (kind info) else se_raise e);
          embed_loop texts model names (errors ++ [(n, k)]) (Some e)
        | Cancel => finish Cancel
        end
  end.

(** [embed]: [preferred], when it is not empty, or every provider. *)
Definition embed (texts : list string) (model preferred : option string) : call (list (list Q) * Z * string * string) :=
  r ← router_seg (fun _ => get_router);
  embed_loop texts model
    (match str_or preferred EmptyString with EmptyString => od_keys (providers r) | s => [s] end) [] None.
End Call.
