(* ===== verification/RouterCallProps.v ===== *)
(** Properties of the router's calls (RouterCall): what a client can be told,
    how a provider's slots are settled, and that no call outlives the deadline. *)
From S2P Require Import Prelude Errors Deadline Yaml CircuitBreaker Limiter Retry Cache Health Policy Provider.
From S2P Require Import Coroutine RouterState RouterPlan RouterCall.

Lemma od_get_set_some {K V} `{EqDecision K} (k k' : K) (v : V) d :
  is_Some (od_get k' d) -> is_Some (od_get k' (od_set k v d)).
Proof.
  intros Hs. destruct (decide (k = k')) as [->|Hne]; [rewrite od_get_set_eq; by eexists | by rewrite od_get_set_ne].
Qed.

(** ** An invariant of the router under concurrent requests

    The configuration stays, and the named providers stay registered. *)
Record set_up (names : list string) (cfg : RoutingConfig) (r : Router) : Prop := {
  su_config : config r = cfg;
  su_providers : Forall (fun n => is_Some (od_get n (providers r))) names;
  su_breakers : Forall (fun n => is_Some (od_get n (breakers r))) names;
  su_stats : Forall (fun n => is_Some (od_get n (provider_stats r))) names;
  su_health : Forall (fun n => is_Some (od_get n (health r))) names }.

Section SetUp.
Context (names : list string) (cfg : RoutingConfig).
Abbreviation J := (set_up names cfg).

Lemma su_set_breaker n b r : J r -> J (with_breakers r (od_set n b (breakers r))).
Proof. intros [A O B C D]. split; try done. eapply Forall_impl; [exact B|]. intros. by apply od_get_set_some. Qed.
Lemma su_set_stat n b r : J r -> J (with_stats r (od_set n b (provider_stats r))).
Proof. intros [A O B C D]. split; try done. eapply Forall_impl; [exact C|]. intros. by apply od_get_set_some. Qed.
Lemma su_set_health n b r : J r -> J (with_health r (od_set n b (health r))).
Proof. intros [A O B C D]. split; try done. eapply Forall_impl; [exact D|]. intros. by apply od_get_set_some. Qed.
Lemma su_same r r' : config r' = config r -> providers r' = providers r -> breakers r' = breakers r -> provider_stats r' = provider_stats r ->
  health r' = health r -> J r -> J r'.
Proof. intros E1 E2 E3 E4 E5 [A O B C D]. split; rewrite ?E1, ?E2, ?E3, ?E4, ?E5; done. Qed.

(** [steps m P]: [m] keeps the invariant and ends in [P]. *)
Definition steps {A} (m : RM A) (P : res exn A -> Prop) : Prop := forall r, J r -> J (m r).2 /\ P (m r).1.
Definition keep {A} (m : RM A) : Prop := steps m (fun _ => True).

Lemma steps_ret {A} (a : A) (P : res exn A -> Prop) : P (Ok a) -> steps (mret a) P.
Proof. by intros HP r Hr. Qed.
Lemma steps_raise {A} (e : exn) (P : res exn A -> Prop) : P (Raise e) -> steps (se_raise e) P.
Proof. by intros HP r Hr. Qed.
Lemma steps_lift {A} (x : res exn A) (P : res exn A -> Prop) : P x -> steps (se_lift x) P.
Proof. by intros HP r Hr. Qed.
Lemma steps_get (P : res exn Router -> Prop) : (forall r, J r -> P (Ok r)) -> steps get_router P.
Proof. intros HP r Hr. split; [done|]. by apply HP. Qed.
Lemma steps_modify f (P : res exn unit -> Prop) : (forall r, J r -> J (f r)) -> P (Ok tt) -> steps (se_modify f) P.
Proof. intros Hf HP r Hr. split; [by apply Hf|done]. Qed.
Lemma steps_weaken {A} (m : RM A) (P Q : res exn A -> Prop) : steps m P -> (forall x, P x -> Q x) -> steps m Q.
Proof. intros Hm HQ r Hr. destruct (Hm r Hr). auto. Qed.
Lemma steps_bind {A B} (m : RM A) (f : A -> RM B) (P : res exn A -> Prop) (Q : res exn B -> Prop) :
  steps m P -> (forall a, P (Ok a) -> steps (f a) Q) -> (forall e, P (Raise e) -> Q (Raise e)) -> steps (m ≫= f) Q.
Proof.
  intros Hm Hf He r Hr. destruct (Hm r Hr) as [H1 H2]. unfold mbind, SE_bind.
  destruct (m r) as [[a|e] r1]; simpl in *; [by apply Hf | split; auto].
Qed.
Lemma keep_bind {A B} (m : RM A) (f : A -> RM B) : keep m -> (forall a, keep (f a)) -> keep (m ≫= f).
Proof. intros Hm Hf. eapply steps_bind; [exact Hm | intros a _; apply Hf | done]. Qed.
End SetUp.

Create HintDb calls.
#[export] Hint Resolve su_set_breaker su_set_stat su_set_health : calls.

(** Peels one operation off a [keep] goal. *)
Ltac kstep :=
  match goal with
  | |- keep _ _ (mret _) => by apply steps_ret
  | |- keep _ _ (se_raise _) => by apply steps_raise
  | |- keep _ _ (se_lift _) => by apply steps_lift
  | |- keep _ _ get_router => by apply steps_get
  | |- keep _ _ (se_modify _) => apply steps_modify; [intros ? ?; cbv beta; repeat case_match; auto with calls; try (eapply su_same; cycle 5; [eassumption|done..]) |done]
  | |- keep _ _ (_ ≫= _) => apply keep_bind; [|intros ?]
  | |- keep _ _ (if ?b then _ else _) => destruct b
  | |- keep _ _ (match ?x with _ => _ end) => destruct x
  end.
Ltac ksolve := repeat (first [kstep | solve [eauto with calls]]).

Section Segments.
Context `{PyStr} `{HalfPow} `{TextLib} `{SecondsText} `{KeyDigest (list (string * string)) cache_options}.
Context (names : list string) (cfg : RoutingConfig).
Abbreviation keep := (keep names cfg).
Implicit Types (n : string) (rd : reading).

Lemma keep_breaker_at n : keep (breaker_at n).
Proof. unfold breaker_at. ksolve. Qed.
Lemma keep_provider_at n : keep (provider_at n).
Proof. unfold provider_at. ksolve. Qed.
Lemma keep_breaker_do n f : keep (breaker_do n f).
Proof. unfold breaker_do. ksolve. Qed.
Lemma keep_limiter_do n f : keep (limiter_do n f).
Proof. unfold limiter_do. ksolve. Qed.
Lemma keep_update_stat n f : keep (update_stat n f).
Proof. unfold update_stat. ksolve. Qed.
Lemma keep_note_health now n ok : keep (note_health now n ok).
Proof. unfold note_health. ksolve. Qed.
Hint Resolve keep_breaker_at keep_provider_at keep_breaker_do keep_limiter_do keep_update_stat keep_note_health : calls.
Lemma keep_limiter_set n f : keep (limiter_set n f).
Proof. unfold limiter_set. ksolve. Qed.
Lemma keep_limiter_release n : keep (limiter_release n).
Proof. unfold limiter_release. ksolve. Qed.
Lemma keep_record_error now n k s : keep (_record_error now n k s).
Proof. unfold _record_error. ksolve. Qed.
Hint Resolve keep_limiter_set keep_limiter_release keep_record_error : calls.
Lemma keep_settle_failure n e rd : keep (settle_failure n e rd).
Proof. unfold settle_failure. ksolve. Qed.
Lemma keep_retry_decide c dl k e rd : keep (retry_decide c dl k e rd).
Proof. unfold retry_decide. ksolve. Qed.
Lemma keep_breaker_allow n rd : keep (breaker_allow n rd).
Proof. unfold breaker_allow. ksolve. Qed.
Hint Resolve keep_breaker_allow keep_settle_failure keep_retry_decide : calls.
Lemma keep_launch n rd : keep (launch_partner n rd).
Proof. unfold launch_partner. ksolve. Qed.
Lemma keep_count_win b : keep (count_win b).
Proof. unfold count_win. ksolve. Qed.
Lemma keep_count_local n : keep (_count_local_rate_limit n).
Proof. unfold _count_local_rate_limit. ksolve. Qed.
Lemma keep_cache_response n q resp rd : keep (_cache_response n q resp rd).
Proof. unfold _cache_response. ksolve. Qed.
End Segments.
#[export] Hint Resolve keep_update_stat keep_note_health keep_breaker_at keep_provider_at keep_breaker_do keep_limiter_do keep_limiter_set keep_limiter_release
  keep_settle_failure keep_retry_decide keep_breaker_allow keep_launch keep_count_win keep_count_local keep_cache_response : calls.

(** ** Segments that do not fail

    [sound E m]: [m] keeps the invariant, and raises nothing but [E]. *)
Section Sound.
Context `{PyStr} `{HalfPow} `{TextLib} `{SecondsText} `{KeyDigest (list (string * string)) cache_options}.
Context (names : list string) (cfg : RoutingConfig).
Implicit Types (n : string) (rd : reading).

Lemma present {V} (f : Router -> list (string * V)) n r :
  Forall (fun n => is_Some (od_get n (f r))) names -> n ∈ names -> exists v, od_get n (f r) = Some v.
Proof. rewrite Forall_forall. intros Hf Hn. destruct (Hf n Hn) as [v Hv]. by exists v. Qed.

Lemma steps_keep_ok {A} (m : RM A) (Q : res exn A -> Prop) :
  keep names cfg m -> (forall r, set_up names cfg r -> Q (m r).1) -> steps names cfg m Q.
Proof. intros Hk Hq r Hr. split; [by apply Hk | by apply Hq]. Qed.

Lemma breaker_allow_ok n rd : n ∈ names -> steps names cfg (breaker_allow n rd) (fun x => exists b, x = Ok b).
Proof.
  intros Hn. apply steps_keep_ok; [auto with calls|]. intros r [_ _ Hb _ _].
  destruct (present breakers n r Hb Hn) as [b Eb].
  unfold breaker_allow, breaker_at, at_key, mbind, SE_bind, get_router, se_get, se_lift, se_modify, mret, SE_ret.
  rewrite Eb. destruct (CircuitBreaker.allow (now_of rd) b) as [ok b']. by eexists.
Qed.

Lemma breaker_at_ok n : n ∈ names -> steps names cfg (breaker_at n) (fun x => exists b, x = Ok b).
Proof.
  intros Hn. apply steps_keep_ok; [auto with calls|]. intros r [_ _ Hb _ _].
  destruct (present breakers n r Hb Hn) as [b Eb]. unfold breaker_at, at_key, mbind, SE_bind, get_router, se_get, se_lift.
  rewrite Eb. by eexists.
Qed.

Lemma update_stat_ok n f : n ∈ names -> steps names cfg (update_stat n f) (fun x => x = Ok tt).
Proof.
  intros Hn. apply steps_keep_ok; [auto with calls|]. intros r [_ _ _ Hs _].
  destruct (present provider_stats n r Hs Hn) as [b Eb].
  unfold update_stat, at_key, mbind, SE_bind, get_router, se_get, se_lift, se_modify. by rewrite Eb.
Qed.

Lemma note_health_ok now n ok : n ∈ names -> steps names cfg (note_health now n ok) (fun x => x = Ok tt).
Proof.
  intros Hn. apply steps_keep_ok; [auto with calls|]. intros r [_ _ _ _ Hh].
  destruct (present health n r Hh Hn) as [b Eb].
  unfold note_health, at_key, mbind, SE_bind, get_router, se_get, se_lift, se_modify. by rewrite Eb.
Qed.

Lemma record_success_ok now n c l : n ∈ names -> steps names cfg (_record_success now n c l) (fun x => x = Ok tt).
Proof.
  intros Hn. unfold _record_success.
  eapply steps_bind; [by apply update_stat_ok| |by intros]. intros _ _.
  eapply steps_bind; [by apply note_health_ok| |by intros]. intros _ _. by apply update_stat_ok.
Qed.

Definition sound {A} (E : exn -> Prop) (m : RM A) : Prop :=
  steps names cfg m (fun x => match x with Ok _ => True | Raise e => E e end).
Lemma sound_of_ok {A} E (m : RM A) (Q : res exn A -> Prop) :
  steps names cfg m Q -> (forall x, Q x -> exists a, x = Ok a) -> sound E m.
Proof. intros Hm HQ. eapply steps_weaken; [exact Hm|]. intros x (a & ->)%HQ. done. Qed.
Lemma sound_bind {A B} E (m : RM A) (f : A -> RM B) : sound E m -> (forall a, sound E (f a)) -> sound E (m ≫= f).
Proof. intros Hm Hf. eapply steps_bind; [exact Hm|intros a _; apply Hf|done]. Qed.
Lemma sound_total {A} E (m : RM A) : (forall r, exists a, (m r).1 = Ok a) -> keep names cfg m -> sound E m.
Proof. intros Ht Hk. apply steps_keep_ok; [exact Hk|]. intros r _. by destruct (Ht r) as [a ->]. Qed.

Lemma sound_breaker_at E n : n ∈ names -> sound E (breaker_at n).
Proof. intros Hn. by eapply sound_of_ok; [apply breaker_at_ok|]. Qed.
Lemma sound_breaker_allow E n rd : n ∈ names -> sound E (breaker_allow n rd).
Proof. intros Hn. by eapply sound_of_ok; [apply breaker_allow_ok|]. Qed.
Lemma sound_update_stat E n f : n ∈ names -> sound E (update_stat n f).
Proof. intros Hn. eapply sound_of_ok; [by apply update_stat_ok|]. intros ? ->. by eexists. Qed.
Lemma sound_note_health E now n ok : n ∈ names -> sound E (note_health now n ok).
Proof. intros Hn. eapply sound_of_ok; [by apply note_health_ok|]. intros ? ->. by eexists. Qed.
Lemma sound_provider_at E n : n ∈ names -> sound E (provider_at n).
Proof.
  intros Hn. apply steps_keep_ok; [auto with calls|]. intros r [_ Ho _ _ _]. destruct (present providers n r Ho Hn) as [p Ep].
  unfold provider_at, at_key, mbind, SE_bind, get_router, se_get, se_lift. by rewrite Ep.
Qed.
Lemma sound_breaker_do E n f : sound E (breaker_do n f).
Proof. apply sound_total; [intros r; by eexists|auto with calls]. Qed.
Lemma sound_limiter_release E n : sound E (limiter_release n).
Proof. apply sound_total; [intros r; by eexists|auto with calls]. Qed.
Lemma sound_limiter_do E n f : sound E (limiter_do n f).
Proof.
  apply sound_total; [intros r|auto with calls]. unfold limiter_do, mbind, SE_bind, get_router, se_get.
  destruct (od_get n (limiter r)); [|by eexists]. destruct (f _). by eexists.
Qed.
End Sound.
#[export] Hint Resolve sound_breaker_at sound_breaker_allow sound_update_stat sound_note_health sound_provider_at
  sound_breaker_do sound_limiter_release sound_limiter_do : calls.

(** Peels one operation off a [sound] goal. *)
Ltac sound_step :=
  match goal with
  | |- sound _ _ _ (mret _) => by apply steps_ret
  | |- sound _ _ _ (se_raise _) => apply steps_raise; eauto with calls
  | |- sound _ _ _ get_router => by apply steps_get
  | |- sound _ _ _ (se_modify _) => apply sound_total; [intros ?; by eexists|kstep]
  | |- sound _ _ _ (_ ≫= _) => apply sound_bind; [|intros ?]
  | |- sound _ _ _ (if ?b then _ else _) => destruct b
  | |- sound _ _ _ (match ?x with _ => _ end) => destruct x
  end.
Ltac sound_solve := repeat (first [solve [eauto with calls] | sound_step]).

Section SoundSegments.
Context `{PyStr} `{HalfPow} `{TextLib} `{SecondsText} `{KeyDigest (list (string * string)) cache_options}.
Context (names : list string) (cfg : RoutingConfig) (n : string) (Hn : n ∈ names).
Abbreviation sound := (sound names cfg).
Lemma sound_limiter_set E f : sound E (limiter_set n f).
Proof. apply sound_limiter_do. Qed.
Lemma sound_settle_failure E e rd : sound E (settle_failure n e rd).
Proof. unfold settle_failure, _record_error. sound_solve. Qed.
Lemma sound_retry_decide E c dl k e rd : sound E (retry_decide c dl k e rd).
Proof. unfold retry_decide. sound_solve. Qed.
Lemma sound_launch E rd : sound E (launch_partner n rd).
Proof. unfold launch_partner. sound_solve. Qed.
Lemma sound_count_win E b : sound E (count_win b).
Proof. unfold count_win. sound_solve. Qed.
Lemma sound_count_local E : sound E (_count_local_rate_limit n).
Proof. unfold _count_local_rate_limit. sound_solve. Qed.
End SoundSegments.
#[export] Hint Resolve sound_limiter_set sound_settle_failure sound_retry_decide sound_launch sound_count_win sound_count_local : calls.

(** ** Whose answers and errors may come out

    [P n q resp]: provider [n] gave [resp] to the request [q]; [raised n q e]:
    it raised [e]. The events' answers are genuine when every result of
    [EComplete] is such. *)
Section Delivers.
Context `{PyStr} `{HalfPow} `{TextLib} `{SecondsText} `{KeyDigest (list (string * string)) cache_options}.
Context {W : Type} (names : list string) (cfg : RoutingConfig).
Context (P : string -> CompletionRequest -> CompletionResponse -> Prop) (raised : string -> CompletionRequest -> exn -> Prop).
Abbreviation S := (Router * W)%type.
Abbreviation call := (coro reading S event).
Implicit Types (n : string) (rd : reading) (q : CompletionRequest) (E : exn -> Prop).

Definition inv (s : S) : Prop := set_up names cfg s.1.

Fixpoint genuine {X} (e : event X) : X -> Prop :=
  match e with
  | EComplete n q _ => fun x => match x with Ok resp => P n q resp | Raise e => raised n q e end
  | EEither e1 e2 => fun x => match x with inl v => genuine e1 v | inr v => genuine e2 v end
  | ECancelling e => fun x => match x with Some v => genuine e v | None => True end
  | _ => fun _ => True
  end.

(** What a call of [n] may fail with: what the provider raised, its own
    timeout, the request's deadline, or the local rate limit. *)
Inductive call_error n q : exn -> Prop :=
| provider_raised e : raised n q e -> call_error n q e
| provider_late seconds text : call_error n q (ProviderTimeout n seconds text)
| out_of_time text : call_error n q (DeadlineExceeded text)
| turned_away e : is_rate_limited e = true -> call_error n q e.

Abbreviation steady_ := (steady inv (@genuine)).

(** How a coroutine may end: with a value in [G], with an error in [E], or
    cancelled. *)
Definition ends {A} (G : A -> Prop) E (o : outcome A) : Prop :=
  match o with Return a => G a | Throw e => E e | Cancel => True end.
Definition delivers {A} (c : call A) (G : A -> Prop) E : Prop := steady_ c (ends G E).
Definition never (e : exn) : Prop := False.

Lemma del_weaken {A} (c : call A) (F G : A -> Prop) E E' :
  delivers c F E -> (forall a, F a -> G a) -> (forall e, E e -> E' e) -> delivers c G E'.
Proof. intros Hc HFG HE. eapply steady_weaken; [exact Hc|]. intros [a|e|]; simpl; auto. Qed.
Lemma del_bind {A B} (c : call A) (f : A -> call B) F G E :
  delivers c F E -> (forall a, F a -> delivers (f a) G E) -> delivers (c ≫= f) G E.
Proof. intros Hc Hf. eapply steady_bind; [exact Hc|auto|done|done]. Qed.
Lemma del_bind_any {A B} (c : call A) (f : A -> call B) G E :
  delivers c (fun _ => True) E -> (forall a, delivers (f a) G E) -> delivers (c ≫= f) G E.
Proof. intros Hc Hf. eapply del_bind; [exact Hc|]. auto. Qed.
Lemma del_try {A} (c : call A) (F : A -> Prop) E E' : delivers c F E -> delivers (try_ c) (ends F E) E'.
Proof. intros Hc. eapply steady_try; [exact Hc|]. done. Qed.
Lemma del_ret {A} (a : A) (G : A -> Prop) E : G a -> delivers (mret a) G E.
Proof. done. Qed.
Lemma del_throw {A} e (G : A -> Prop) E : E e -> delivers (throw e) G E.
Proof. done. Qed.
Lemma del_finish {A} (o : outcome A) (G : A -> Prop) E : ends G E o -> delivers (finish o) G E.
Proof. done. Qed.
Lemma del_seg {A} (m : reading -> RM A) E : (forall rd, sound names cfg E (m rd)) -> delivers (router_seg m) (fun _ => True) E.
Proof.
  intros Hm. apply steady_seg. intros rd [r w] Hs. unfold lift_router. cbn [fst snd].
  destruct (Hm rd r Hs) as [HJ Hx]. destruct (m rd r) as [x r']. split; [exact HJ|]. by destruct x.
Qed.
Lemma del_clock E : delivers clock (fun _ => True) E.
Proof. by apply steady_seg. Qed.
Lemma del_await {X} (e : event X) E : delivers (await e) (genuine e) E.
Proof. apply steady_await; done. Qed.
Lemma del_await_any {X} (e : event X) E : delivers (await e) (fun _ => True) E.
Proof. by apply steady_await. Qed.
Hint Resolve del_clock del_await_any : calls.
Hint Constructors call_error : calls.

(** One operation of a coroutine whose value does not matter. *)
Ltac dstep :=
  match goal with
  | |- delivers (mret _) _ _ => apply del_ret; try done
  | |- delivers (throw _) _ _ => apply del_throw; try done; eauto with calls
  | |- delivers (finish _) _ _ => apply del_finish; try done
  | |- delivers (router_seg _) _ _ => apply del_seg; intros ?; solve [sound_solve]
  | |- delivers (await _) (fun _ => True) _ => apply del_await_any
  | |- delivers (try_ _ ≫= _) _ _ => eapply del_bind; [apply del_try|intros ? ?]
  | |- delivers (_ ≫= _) _ _ => apply del_bind_any; [solve [eauto with calls] || (apply del_seg; intros ?; solve [sound_solve])|intros ?]
  | |- delivers (if ?b then _ else _) _ _ => destruct b
  | |- delivers (match ?x with _ => _ end) _ _ => destruct x
  end.
Ltac dsolve := repeat (first [dstep | solve [eauto with calls]]).

(** *** One call of a provider *)
Section OneProvider.
Context (n : string) (Hn : n ∈ names).
Definition refused (e : exn) : Prop := is_rate_limited e = true.
Definition rejects (o : acquire_outcome) : Prop := match o with Rejected e => refused e | _ => True end.

Lemma del_limiter (f : reading -> ProviderLimiter -> acquire_outcome * ProviderLimiter) E :
  (forall rd l, rejects (f rd l).1) -> delivers (router_seg (fun rd => limiter_do n (f rd))) rejects E.
Proof.
  intros Hf. apply steady_seg. intros rd [r w] Hs. unfold lift_router. cbn [fst snd].
  pose proof (keep_limiter_do names cfg n (f rd) r Hs) as [HJ _].
  revert HJ. unfold limiter_do, mbind, SE_bind, get_router, se_get, se_modify, mret, SE_ret.
  destruct (od_get n (limiter r)) as [l|]; [|done]. specialize (Hf rd l). destruct (f rd l) as [o l']. done.
Qed.

Lemma start_rejects t t' mw l : rejects (acquire_start t t' mw l).1.
Proof. unfold acquire_start. by repeat case_match; simplify_eq. Qed.
Lemma reserve_rejects s t1 t2 t3 t4 est mw l : rejects (acquire_reserve s t1 t2 t3 t4 est mw l).1.
Proof. unfold acquire_reserve, acquire_finish. by repeat case_match; simplify_eq. Qed.

Lemma del_limiter_reserve est mw t : delivers (limiter_reserve n est mw t) (fun _ => True) refused.
Proof.
  unfold limiter_reserve. eapply del_bind; [apply del_limiter; intros; apply reserve_rejects|].
  intros [|e| | |] Ho; dsolve.
Qed.
Hint Resolve del_limiter_reserve : calls.
Lemma del_limiter_acquire est mw : delivers (limiter_acquire n est mw) (fun _ => True) refused.
Proof.
  unfold limiter_acquire. dstep. eapply del_bind; [apply del_limiter; intros; apply start_rejects|].
  intros [|e|timeout| |] Ho; [dsolve|dsolve| |dsolve|dsolve].
  eapply del_bind; [apply del_try with (E := never), del_await_any|]. intros [[|]|e|] _; [dsolve| |dsolve|dsolve].
  eapply del_bind; [by apply del_limiter|]. intros [|e| | |] Ho'; dsolve.
Qed.
Hint Resolve del_limiter_acquire : calls.

Lemma del_admit q dl : delivers (_admit n q dl) (fun _ => True) (call_error n q).
Proof.
  unfold _admit. dstep. eapply del_bind; [apply del_try, del_limiter_acquire|]. intros [u|e|] Ho; dsolve.
Qed.

Lemma del_retry {A} more c dl k (func : call A) (G : A -> Prop) E :
  delivers func G E -> delivers (retry_attempts more c dl k func) G E.
Proof.
  intros Hf. revert k. induction more as [|more IH]; intros k; cbn [retry_attempts].
  all: eapply del_bind; [apply del_try, Hf|]; intros [a|e|] Ho; dsolve.
Qed.

Lemma del_execute {A} m dl k (func : call A) (G : A -> Prop) E : delivers func G E -> delivers (manager_execute m dl k func) G E.
Proof.
  intros Hf. unfold manager_execute. eapply del_bind; [apply del_try, del_retry, Hf|]. intros [a|e|] Ho; dsolve.
Qed.

Lemma del_timed_out {A} q dl s t (G : A -> Prop) : delivers (timed_out (A := A) n dl s t) G (call_error n q).
Proof.
  unfold timed_out. apply steady_seg. intros rd [r w] Hs. unfold lift_router. cbn [fst snd].
  destruct (expired _ _); (split; [exact Hs|]); [apply out_of_time|apply provider_late].
Qed.
Hint Resolve del_timed_out : calls.

Lemma del_one_call q dl t : delivers (one_call n q dl t) (P n q) (call_error n q).
Proof.
  unfold one_call, attempt_seconds. dstep. eapply del_bind; [apply del_await|].
  intros [resp|e] Hx; cbn [genuine] in Hx; dsolve.
Qed.

Lemma del_with_retries {A} dl k (func : call A) (G : A -> Prop) E : delivers func G E -> delivers (with_retries dl k func) G E.
Proof.
  intros Hf. unfold with_retries. dstep. destruct (retry_manager _); [|done].
  destruct (enable_retry _); [by apply del_execute|done].
Qed.

Lemma del_check q dl : delivers (check_deadline n dl) (fun _ => True) (call_error n q).
Proof.
  unfold check_deadline. apply del_seg. intros rd. unfold Deadline.check. destruct (expired _ _); sound_solve.
Qed.
Hint Resolve del_check del_admit : calls.

Lemma del_call_provider q dl k : delivers (_call_provider n q dl k) (P n q) (call_error n q).
Proof.
  unfold _call_provider. dstep. dstep. dstep.
  eapply del_bind; [apply del_try, del_with_retries, del_one_call|]. intros out Hout.
  eapply del_bind; [apply del_try with (F := fun _ => True) (E := never); apply del_seg; intros rd; destruct out; sound_solve|].
  intros settled Hs. dstep. by destruct settled as [u|e|].
Qed.
End OneProvider.

(** *** Hedged calls *)
Lemma del_with_timer {A B} (c : call A) due (done : outcome A -> call B) (late : call A -> call B) (F : A -> Prop) E G E' :
  delivers c F E ->
  (forall o, ends F E o -> delivers (done o) G E') -> (forall c, delivers c F E -> delivers (late c) G E') ->
  delivers (with_timer c due done late) G E'.
Proof.
  intros Hc Hd Hl. revert Hc.
  refine ((fix go (c : call A) : delivers c F E -> delivers (with_timer c due done late) G E' :=
    match c with
    | Done o => fun Hst => Hd o Hst
    | Seg f => fun Hst r s Hs => _
    | Await e k => fun Hst => conj (fun x Hx => _) _
    end) c).
  - specialize (Hst r s Hs). clear -go Hst. destruct (f r s) as [c' s']. exact (conj (proj1 Hst) (go c' (proj2 Hst))).
  - destruct x as [v|v]; [exact (go (k (Some v)) (proj1 Hst v Hx)) | apply Hl; exact Hst].
  - by apply (steady_after _ _ (Await e k) _ (ends F E)).
Qed.

Lemma del_cancel_leg {A} (c : call A) outer (F : A -> Prop) E E' :
  delivers c F E -> delivers (cancel_leg c outer) (fun _ => True) E'.
Proof.
  intros Hc. revert outer Hc.
  refine ((fix go (c : call A) : forall outer, delivers c F E -> delivers (cancel_leg c outer) (fun _ => True) E' :=
    match c with
    | Done o => fun outer Hst => Logic.I
    | Seg f => fun outer Hst r s Hs => _
    | Await e k => fun outer Hst => conj (fun x Hx => _) (go (k None) true (proj2 Hst))
    end) c).
  - specialize (Hst r s Hs). clear -go Hst. destruct (f r s) as [c' s']. exact (conj (proj1 Hst) (go c' outer (proj2 Hst))).
  - destruct x as [v|]; [exact (go (k (Some v)) outer (proj1 Hst v Hx)) | exact (go (k None) outer (proj2 Hst))].
Qed.

Lemma del_cancel_both {A B} (c1 c2 : call A) (F1 F2 : A -> Prop) E1 E2 (G : B -> Prop) E :
  delivers c1 F1 E1 -> delivers c2 F2 E2 -> delivers (cancel_both c1 c2) G E.
Proof.
  intros H1' H2'. unfold cancel_both. apply del_bind_any; [by eapply del_cancel_leg|]. intros _.
  apply del_bind_any; [by eapply del_cancel_leg|]. done.
Qed.

Lemma del_race {A B} (first : bool -> outcome A -> call A -> call B) (F1 F2 : A -> Prop) E1 E2 (G : B -> Prop) E c1 c2 :
  (forall o c, ends F1 E1 o -> delivers c F2 E2 -> delivers (first true o c) G E) ->
  (forall o c, ends F2 E2 o -> delivers c F1 E1 -> delivers (first false o c) G E) ->
  delivers c1 F1 E1 -> delivers c2 F2 E2 -> delivers (race c1 first c2) G E.
Proof.
  intros Hf1 Hf2 Hc1. revert Hc1 c2.
  refine ((fix go (c1 : call A) : delivers c1 F1 E1 -> forall c2, delivers c2 F2 E2 -> delivers (race c1 first c2) G E :=
    match c1 with
    | Done o => fun Hst c2 Hc2 => Hf1 o c2 Hst Hc2
    | Seg f => fun Hst c2 Hc2 r s Hs => _
    | Await e1 k1 => fun Hst =>
      fix go2 (c2 : call A) : delivers c2 F2 E2 -> delivers (race (Await e1 k1) first c2) G E :=
        match c2 with
        | Done o => fun Hst2 => Hf2 o (Await e1 k1) Hst2 Hst
        | Seg f => fun Hst2 r s Hs => _
        | Await e2 k2 => fun Hst2 => conj (fun x Hx => _) _
        end
    end) c1).
  - specialize (Hst r s Hs). clear -go Hst Hc2. destruct (f r s) as [c' s']. exact (conj (proj1 Hst) (go c' (proj2 Hst) c2 Hc2)).
  - specialize (Hst2 r s Hs). clear -go2 Hst2. destruct (f r s) as [c' s']. exact (conj (proj1 Hst2) (go2 c' (proj2 Hst2))).
  - destruct x as [v|v].
    + exact (go (k1 (Some v)) (proj1 Hst v Hx) (Await e2 k2) Hst2).
    + exact (go2 (k2 (Some v)) (proj1 Hst2 v Hx)).
  - by apply (del_cancel_both (Await e1 k1) (Await e2 k2) F1 F2 E1 E2).
Qed.

Section Hedge.
Context (primary partner : string) (Hp : primary ∈ names) (Hm : partner ∈ names).
Context (q pq : CompletionRequest) (skip : list string).

Definition hedged_ok (h : hedged) : Prop :=
  match h with
  | Answered w resp skip' =>
    (w = primary /\ P primary q resp /\ (skip' = skip \/ skip' = skip ++ [partner])) \/
    (w = partner /\ P partner pq resp /\ skip' = skip ++ [partner])
  | HedgeFailure errs skip' =>
    skip' = skip ++ [partner] /\
    exists e e', call_error primary q e /\ call_error partner pq e' /\
      (errs = [(primary, e); (partner, e')] \/ errs = [(partner, e'); (primary, e)])
  end.

Definition leg_answer (is_primary : bool) : CompletionResponse -> Prop := if is_primary then P primary q else P partner pq.
Definition leg_error (is_primary : bool) : exn -> Prop := if is_primary then call_error primary q else call_error partner pq.

Lemma del_leg_done o other is_primary E :
  ends (leg_answer is_primary) (leg_error is_primary) o ->
  delivers other (leg_answer (negb is_primary)) (leg_error (negb is_primary)) ->
  delivers (leg_done primary partner (skip ++ [partner]) is_primary o other) hedged_ok E.
Proof.
  intros Ho Hother. unfold leg_done. destruct o as [resp|e|].
  - apply del_bind_any; [by eapply del_cancel_leg|]. intros outer. dsolve.
    destruct is_primary; simpl in *; auto.
  - eapply del_bind; [apply del_try, Hother|]. intros o' Ho'. destruct o' as [resp|e'|]; dsolve.
    + destruct is_primary; simpl in *; auto.
    + split; [done|]. destruct is_primary; [exists e, e'|exists e', e]; simpl in *; auto.
  - apply del_bind_any; [by eapply del_cancel_leg|]. done.
Qed.

(** A hedged call raises the primary's error only. *)
Lemma del_call_hedged dl k k' delay :
  delivers (_call_hedged primary partner q pq dl k k' delay skip) hedged_ok (call_error primary q).
Proof.
  unfold _call_hedged. dstep. eapply del_with_timer with (F := P primary q) (E := call_error primary q).
  - by apply del_call_provider.
  - intros [resp|e|] Ho; dsolve. left. auto.
  - intros leg Hleg. eapply del_bind; [apply del_try with (F := fun _ => True) (E := never); apply del_seg; intros rd; auto with calls|].
    intros ok Hok. destruct ok as [[]|e|]; [| |done|].
    + apply del_race with (F1 := leg_answer true) (E1 := leg_error true) (F2 := leg_answer false) (E2 := leg_error false);
        [..|exact Hleg|by apply del_call_provider]; intros; by apply del_leg_done.
    + eapply del_bind; [exact Hleg|]. intros resp Hr. dsolve. left. auto.
    + by eapply steady_after.
Qed.
End Hedge.

(** ** The failover loop *)

(** An error no other provider is tried after. *)
Definition final (e : exn) : Prop :=
  exists utc, kind (classify utc e) = DEADLINE \/ (enable_failover cfg && failover (classify utc e)) = false.

Section Candidates.
Context (all : candidates) (hedge : option xfloat).

(** An error the loop has from a candidate: of its call, or its breaker's refusal. *)
Definition candidate_error n q (e : exn) : Prop := call_error n q e \/ exists ra, e = CircuitOpenError n ra.

(** The noted failures: every one is a candidate's, with the kind of its error. *)
Definition truthful (failures : list (string * ErrorKind)) : Prop :=
  Forall (fun '(n, k) => exists q, (n, q) ∈ all /\
    (k = CIRCUIT_OPEN \/ exists e utc, call_error n q e /\ k = kind (classify utc e))) failures.

(** How the loop may end. An error other than [AllProvidersUnavailable] is the
    sole candidate's; or a candidate's that is final; or the first error of a
    hedged pair, the second one's saying that the deadline is spent. *)
Definition route_ok (o : outcome CompletionResponse) : Prop :=
  match o with
  | Return resp =>
    exists n q resp0 failures skip, (n, q) ∈ all /\ P n q resp0 /\ resp = annotate failures skip resp0 /\
      truthful failures /\ (hedge = None -> skip = [])
  | Throw e =>
    (exists failures ra, e = AllProvidersUnavailable failures ra /\ truthful failures /\
       (forall n, n ∈ all.*1 -> n ∈ failures.*1) /\ length all ≠ 1%nat) \/
    (exists n q, all = [(n, q)] /\ candidate_error n q e) \/
    (exists n q, (n, q) ∈ all /\ call_error n q e /\ final e) \/
    (hedge ≠ None /\ exists n q m mq e', (n, q) ∈ all /\ (m, mq) ∈ all /\ m ≠ n /\
       call_error n q e /\ call_error m mq e' /\ exists utc, kind (classify utc e') = DEADLINE)
  | Cancel => True
  end.

(** What the loop knows of the candidates behind it. *)
Record so_far (done : candidates) (failures : list (string * ErrorKind)) (last : option exn) (skip : list string) : Prop := {
  pg_done : forall n, n ∈ done.*1 -> n ∈ failures.*1;
  pg_skip : forall n, n ∈ skip -> n ∈ failures.*1;
  pg_true : truthful failures;
  pg_last : match last with Some e => exists n q, (n, q) ∈ all /\ candidate_error n q e | None => failures = [] end;
  pg_hedge : hedge = None -> skip = [] }.

Lemma progress_start : so_far [] [] None [].
Proof. split; try done; try (intros n Hn; inversion Hn). constructor. Qed.

Lemma progress_skip done failures last skip n q :
  so_far done failures last skip -> n ∈ skip -> so_far (done ++ [(n, q)]) failures last skip.
Proof.
  intros [Hd Hsk Ht Hl Hh] Hn. split; try done. intros m. rewrite fmap_app, elem_of_app; cbn [fmap list_fmap fst]; rewrite list_elem_of_singleton.
  intros [Hm| ->]; auto.
Qed.

(** One candidate's failure, or those of a hedged pair. *)
Lemma progress_add done failures last skip n q kinds e skip' :
  so_far done failures last skip -> (n, q) ∈ all -> candidate_error n q e -> truthful kinds -> n ∈ kinds.*1 ->
  (forall m, m ∈ skip' -> m ∈ kinds.*1) -> (hedge = None -> skip' = []) ->
  so_far (done ++ [(n, q)]) (failures ++ kinds) (Some e) (skip ++ skip').
Proof.
  intros [Hd Hsk Ht Hl Hh] Hin He Ht' Hn Hs Hh'. split.
  - intros m. rewrite !fmap_app, !elem_of_app; cbn [fmap list_fmap fst]; rewrite list_elem_of_singleton. intros [Hm| ->]; auto.
  - intros m. rewrite fmap_app, !elem_of_app. intros [Hm|Hm]; auto.
  - by apply Forall_app.
  - eauto.
  - intros E. by rewrite Hh, Hh'.
Qed.

Lemma truthful_one n q k :
  (n, q) ∈ all -> (k = CIRCUIT_OPEN \/ exists e utc, call_error n q e /\ k = kind (classify utc e)) -> truthful [(n, k)].
Proof. intros Hin Hk. apply Forall_singleton. by exists q. Qed.
End Candidates.

Lemma failed_call_ok n q e is_last rd : 
  call_error n q e -> steps names cfg (failed_call n e is_last rd)
    (fun x => match x with Ok k => exists utc, k = kind (classify utc e) | Raise e' => e' = e /\ final e end).
Proof.
  intros He. apply steps_keep_ok.
  - unfold failed_call, count_failover. ksolve.
  - intros r [Hc _ _ _ _]. unfold failed_call, mbind, SE_bind, get_router, se_get, se_raise, count_failover, se_modify, mret, SE_ret.
    destruct (bool_decide _ || _) eqn:E; [|by eexists]. split; [done|]. exists (rd_utc rd).
    apply orb_true_iff in E as [E|E]; [left; by apply bool_decide_eq_true in E|right].
    apply negb_true_iff in E. unfold may_fail_over in E. by rewrite Hc in E.
Qed.

Definition kinds_of (utc : Q) (errs : list (string * exn)) : list (string * ErrorKind) :=
  (fun '(n, e) => (n, kind (classify utc e))) <$> errs.

Lemma failed_hedge_ok n errs e is_last rd :
  steps names cfg (failed_hedge n errs e is_last rd) (fun x => match x with
    | Ok kinds => exists utc, kinds = kinds_of utc errs
    | Raise e' => e' = e /\ (final e \/ exists utc m e2, (m, e2) ∈ errs /\ kind (classify utc e2) = DEADLINE) end).
Proof.
  apply steps_keep_ok.
  - unfold failed_hedge, count_failover. ksolve.
  - intros r [Hc _ _ _ _]. unfold failed_hedge, mbind, SE_bind, get_router, se_get, se_raise, count_failover, se_modify, mret, SE_ret.
    destruct (bool_decide _ || _) eqn:E; [|by eexists]. split; [done|].
    apply orb_true_iff in E as [E|E].
    + apply bool_decide_eq_true in E. right. exists (rd_utc rd). apply list_elem_of_fmap in E as ([m k] & Hk & Hin).
      apply list_elem_of_fmap in Hin as ([m' e2] & [= -> ->] & Hin). by exists m', e2.
    + left. exists (rd_utc rd). right. apply negb_true_iff in E. unfold may_fail_over in E. by rewrite Hc in E.
Qed.

Lemma cache_set_total now n m ms resp ttl o (c : ResponseCache (B := MemoryCache CompletionResponse)) :
  0 <= ttl -> exists c', cache_set now now n m ms resp (AInt ttl) o c = (Ok tt, c').
Proof.
  intros Httl. unfold cache_set, Cache.backend_set, memory_backend, Cache.set, _validate_ttl.
  assert (Hneg : ttl <? 0 = false) by lia. rewrite Hneg. destruct (ttl =? 0); by eexists.
Qed.

Lemma cache_response_ok n q resp rd :
  0 <= cache_ttl_seconds cfg -> steps names cfg (_cache_response n q resp rd) (fun x => x = Ok tt).
Proof.
  intros Httl. apply steps_keep_ok; [auto with calls|]. intros r [Hc _ _ _ _].
  unfold _cache_response, mbind, SE_bind, get_router, se_get, se_lift, se_modify.
  destruct (cache r) as [c|]; [|done]. destruct (_ && _); [|done]. rewrite Hc.
  by edestruct cache_set_total as [c' ->].
Qed.

Lemma seg_ok {A} (m : reading -> RM A) (Q : res exn A -> Prop) (G : outcome A -> Prop) :
  (forall rd, steps names cfg (m rd) Q) -> (forall x, Q x -> G (of_res x)) -> steady_ (router_seg m) G.
Proof.
  intros Hm HQ. apply steady_seg. intros rd [r w] Hs. unfold lift_router. cbn [fst snd].
  destruct (Hm rd r Hs) as [HJ Hq]. destruct (m rd r) as [x r']. split; [exact HJ|]. by apply HQ.
Qed.

Lemma served_ok n q failures skip resp (G : outcome CompletionResponse -> Prop) :
  n ∈ names -> 0 <= cache_ttl_seconds cfg -> G (Return (annotate failures skip resp)) ->
  steady_ (served n q failures skip resp) G.
Proof.
  intros Hn Httl HG. unfold served.
  eapply steady_bind; [eapply seg_ok with (Q := fun x => x = Ok tt) (G := fun o => o = Return tt); [by intros; apply cache_response_ok|by intros ? ->] | |done|done].
  intros [] _.
  eapply steady_bind with (P := fun o => o = Return tt); [| |done|done].
  - eapply seg_ok with (Q := fun x => x = Ok tt); [|by intros ? ->]. intros rd.
    eapply steps_bind; [by apply record_success_ok| |by intros]. intros _ _. apply steps_modify; [|done].
    intros r Hr. unfold _record_usage. eapply su_same; cycle 5; [exact Hr|done..].
  - intros [] _. exact HG.
Qed.

Lemma hedge_partner_some hedge stream skip n rest delay m mreq last :
  hedge_partner hedge stream skip n rest = Some (delay, m, mreq, last) ->
  m ≠ n /\ (m, mreq) ∈ rest /\ hedge ≠ None.
Proof.
  unfold hedge_partner. destruct hedge as [d|]; [|done]. destruct rest as [|[m' mreq'] rest']; [done|].
  destruct (_ && _) eqn:E; [|done]. apply andb_true_iff in E as [_ Hmn]. intros [= _ <- <- _].
  split_and!; [by apply negb_true_iff, bool_decide_eq_false in Hmn|left|done].
Qed.

Section Loop.
Context (all : candidates) (stream : bool) (hedge : option xfloat) (dl : Deadline).
Context (Hnames : forall n, n ∈ all.*1 -> n ∈ names) (Httl : 0 <= cache_ttl_seconds cfg).
Abbreviation single := (length all =? 1)%nat.
Abbreviation ok := (route_ok all hedge).
Abbreviation so_far := (so_far all hedge).

(** The ends of the loop and the reads on its way. *)
Lemma exhausted_ok failures last skip :
  so_far all failures last skip -> steady_ (route_loop single stream hedge dl [] failures last skip) ok.
Proof.
  intros Hp. cbn [route_loop].
  assert (Hun : length all ≠ 1%nat -> steady_ (router_seg (fun rd => unavailable (rd_env rd) failures)) ok).
  { intros Hl. apply seg_ok with (Q := fun x => exists ra, x = Raise (AllProvidersUnavailable failures ra)); [|].
    - intros rd. apply steps_keep_ok; [unfold unavailable; ksolve|]. intros r _. by eexists.
    - intros x [ra ->]. left. exists failures, ra. split_and!; [done|apply Hp|apply Hp|done]. }
  destruct (Nat.eqb_spec (length all) 1) as [Hl|Hl]; [|by destruct last; apply Hun].
  pose proof (pg_done _ _ _ _ _ _ Hp) as Hd. pose proof (pg_last _ _ _ _ _ _ Hp) as Hlast.
  destruct all as [|[n q] [|? ?]] eqn:Eall; try done.
  destruct last as [e|].
  - right. left. destruct Hlast as (n' & q' & Hin & He). apply list_elem_of_singleton in Hin as [= -> ->]. by exists n, q.
  - exfalso. subst failures. specialize (Hd n). cbn in Hd. assert (Hn : n ∈ (@nil string)) by (apply Hd; left). by apply not_elem_of_nil in Hn.
Qed.

Lemma read_ok {A} (f : reading -> RM A) (K : A -> call CompletionResponse) :
  (forall rd, steps names cfg (f rd) (fun x => exists a, x = Ok a)) ->
  (forall a, steady_ (K a) ok) -> steady_ (a ← router_seg f; K a) ok.
Proof.
  intros Hf HK. eapply steady_bind with (P := fun o => exists a, o = Return a); [| |by intros ? [? ?]|by intros [? ?]].
  - eapply seg_ok with (Q := fun x => exists a, x = Ok a); [done|]. by intros ? [a ->]; exists a.
  - intros a _. apply HK.
Qed.

Lemma gate_ok n (K : bool -> call CompletionResponse) :
  n ∈ names -> (forall b, steady_ (K b) ok) -> steady_ (b ← router_seg (breaker_allow n); K b) ok.
Proof. intros Hn. apply read_ok. intros rd. by apply breaker_allow_ok. Qed.

Lemma open_hint_ok n (K : option Q -> call CompletionResponse) :
  n ∈ names -> (forall ra, steady_ (K ra) ok) ->
  steady_ (ra ← router_seg (fun rd => b ← breaker_at n; mret (CircuitBreaker.retry_after (now_of rd) b)); K ra) ok.
Proof.
  intros Hn. apply read_ok. intros rd.
  eapply steps_bind; [by apply breaker_at_ok| |by intros ? [? ?]]. intros b _. apply steps_ret. by eexists.
Qed.

Lemma config_read_ok (K : RoutingConfig -> call CompletionResponse) :
  (forall c, steady_ (K c) ok) -> steady_ (c ← router_seg (fun _ => r ← get_router; mret (config r)); K c) ok.
Proof.
  apply read_ok. intros rd.
  eapply steps_bind with (P := fun x => exists r, x = Ok r); [by apply steps_get; intros; eexists| |by intros ? [? ?]].
  intros r _. apply steps_ret. by eexists.
Qed.

(** One candidate, once its breaker lets it through: its leg and, perhaps, the
    next candidate's as a hedge. [K] is the rest of the loop. *)
Section Candidate.
Context (n : string) (req : CompletionRequest) (rest done : candidates).
Context (failures : list (string * ErrorKind)) (last : option exn) (skip : list string) (is_last : bool).
Context (K : list (string * ErrorKind) -> option exn -> list string -> call CompletionResponse).
Hypothesis Hall : all = (done ++ [(n, req)]) ++ rest.
Hypothesis Hpg : so_far done failures last skip.
Hypothesis HK : forall failures last skip,
  so_far (done ++ [(n, req)]) failures last skip -> steady_ (K failures last skip) ok.

Lemma candidate_in : (n, req) ∈ all /\ n ∈ names.
Proof.
  assert (Hin : (n, req) ∈ all).
  { rewrite Hall, <- app_assoc. apply elem_of_app. right. left. }
  split; [done|]. apply Hnames, list_elem_of_fmap. by exists (n, req).
Qed.

(** After a failed call: the loop ends with its error, or goes on knowing its kind. *)
Lemma next_after_failure e : call_error n req e ->
  steady_ (k ← router_seg (failed_call n e is_last); K (failures ++ [(n, k)]) (Some e) skip) ok.
Proof.
  destruct candidate_in as [Hin Hn]. intros He.
  eapply steady_bind with (P := fun o => match o with
    | Return k => exists utc, k = kind (classify utc e) | Throw e' => e' = e /\ final e | Cancel => False end); [| | |done].
  - eapply seg_ok; [intros; by eapply failed_call_ok|]. by intros [k|e2].
  - intros k (utc & ->). apply HK. rewrite <- (app_nil_r skip). eapply progress_add; try done.
    + by left.
    + eapply truthful_one; [done|]. right. eauto.
    + left.
    + intros m Hm. inversion Hm.
  - intros e2 [-> Hf]. right. right. left. eauto.
Qed.

Lemma plain_candidate_ok k :
  steady_ (out ← try_ (resp ← _call_provider n req dl k; mret (Answered n resp skip));
           match out with
           | Return (Answered w resp skip) => served w req failures skip resp
           | Return (HedgeFailure errors skip) =>
             match od_get n errors with
             | Some e => kinds ← router_seg (failed_hedge n errors e is_last); K (failures ++ kinds) (Some e) skip
             | None => throw (KeyError ("'" +:+ n +:+ "'"))
             end
           | Throw e => k ← router_seg (failed_call n e is_last); K (failures ++ [(n, k)]) (Some e) skip
           | Cancel => finish Cancel
           end) ok.
Proof.
  destruct candidate_in as [Hin Hn].
  eapply steady_bind; [eapply steady_try with (Q := fun o => match o with
      | Return o => ends (fun h => exists resp, h = Answered n resp skip /\ P n req resp) (call_error n req) o | _ => False end);
    [|by intros]| |done|done].
  { eapply steady_bind; [by apply del_call_provider| |done|done]. intros resp Hresp. by exists resp. }
  intros [h|e|] Hout.
  - destruct Hout as (resp & -> & Hp). apply served_ok; [done|done|]. exists n, req, resp, failures, skip.
    split_and!; [done..|apply Hpg|apply Hpg].
  - by apply next_after_failure.
  - done.
Qed.

(** After a hedged pair failed. *)
Lemma next_after_hedge m mreq errs e e' :
  (m, mreq) ∈ all -> m ≠ n -> hedge ≠ None -> call_error n req e -> call_error m mreq e' ->
  errs = [(n, e); (m, e')] \/ errs = [(m, e'); (n, e)] ->
  steady_ (kinds ← router_seg (failed_hedge n errs e is_last); K (failures ++ kinds) (Some e) (skip ++ [m])) ok.
Proof.
  destruct candidate_in as [Hin Hn]. intros Hm Hmn Hh He He' Herrs.
  eapply steady_bind; [eapply seg_ok with (G := fun o => match o with
      | Return kinds => exists utc, kinds = kinds_of utc errs
      | Throw e2 => e2 = e /\ (final e \/ exists utc m2 e2, (m2, e2) ∈ errs /\ kind (classify utc e2) = DEADLINE)
      | Cancel => False end); [intros; apply failed_hedge_ok|by intros [kinds|e2]]| | |done].
  - intros kinds (utc & ->). apply HK. eapply progress_add; [exact Hpg|done|by left| | | |done].
    + destruct Herrs as [->| ->]; repeat constructor; cbn; eauto 10.
    + destruct Herrs as [->| ->]; cbn; set_solver.
    + intros x Hx. apply list_elem_of_singleton in Hx as ->. destruct Herrs as [->| ->]; cbn; set_solver.
  - intros e2 [-> [Hf|(utc & m2 & e2' & Hin2 & Hk)]]; [right; right; left; eauto|].
    assert (Hc : e2' = e \/ e2' = e') by (destruct Herrs as [->| ->]; set_solver).
    right. right. destruct Hc as [->| ->]; [left|right].
    + exists n, req. split_and!; [done..|]. exists utc. by left.
    + split; [done|]. exists n, req, m, mreq, e'. split_and!; eauto.
Qed.

Lemma hedged_candidate_ok delay m mreq m_last k k' :
  hedge_partner hedge stream skip n rest = Some (delay, m, mreq, m_last) ->
  steady_ (out ← try_ (_call_hedged n m req mreq dl k k' delay skip);
           match out with
           | Return (Answered w resp skip) => served w (if bool_decide (w = m) then mreq else req) failures skip resp
           | Return (HedgeFailure errors skip) =>
             match od_get n errors with
             | Some e => kinds ← router_seg (failed_hedge n errors e is_last); K (failures ++ kinds) (Some e) skip
             | None => throw (KeyError ("'" +:+ n +:+ "'"))
             end
           | Throw e => k ← router_seg (failed_call n e is_last); K (failures ++ [(n, k)]) (Some e) skip
           | Cancel => finish Cancel
           end) ok.
Proof.
  intros (Hmn & Hm & Hh)%hedge_partner_some. destruct candidate_in as [Hin Hn].
  assert (Hma : (m, mreq) ∈ all) by (rewrite Hall; apply elem_of_app; by right).
  assert (Hmn' : m ∈ names) by (apply Hnames, list_elem_of_fmap; by exists (m, mreq)).
  eapply steady_bind; [eapply steady_try with (Q := fun o => match o with
      | Return o => ends (hedged_ok n m req mreq skip) (call_error n req) o | _ => False end);
    [by apply del_call_hedged|by intros]| |done|done].
  intros [[w resp skip'|errs skip']|e|] Hout.
  - assert (Hw : w ∈ names /\ exists wreq, (if bool_decide (w = m) then mreq else req) = wreq /\ (w, wreq) ∈ all /\ P w wreq resp).
    { destruct Hout as [(-> & Hp & _)|(-> & Hp & _)].
      - split; [done|]. exists req. rewrite bool_decide_false by done. done.
      - split; [done|]. exists mreq. by rewrite bool_decide_true. }
    destruct Hw as (Hw & wreq & -> & Hwa & Hp). apply served_ok; [done|done|]. exists w, wreq, resp, failures, skip'.
    split_and!; [done..|apply Hpg|done].
  - destruct Hout as (-> & e & e' & He & He' & Herrs).
    assert (Hget : od_get n errs = Some e).
    { destruct Herrs as [->| ->]; cbn [od_get]; [by rewrite decide_True|]. rewrite decide_False by done. by rewrite decide_True. }
    rewrite Hget. by eapply next_after_hedge.
  - by apply next_after_failure.
  - done.
Qed.
End Candidate.

Lemma route_loop_ok cands done failures last skip :
  all = done ++ cands -> so_far done failures last skip ->
  steady_ (route_loop single stream hedge dl cands failures last skip) ok.
Proof.
  revert done failures last skip. induction cands as [|[n req] rest IH]; intros done failures last skip Hall Hpg.
  { apply exhausted_ok. rewrite app_nil_r in Hall. by subst done. }
  assert (Hall' : all = (done ++ [(n, req)]) ++ rest) by (by rewrite <- app_assoc).
  pose proof (candidate_in _ _ _ _ Hall') as [Hin Hn].
  cbn [route_loop]. case_bool_decide as Hskip.
  { apply (IH (done ++ [(n, req)])); [done|]. by apply progress_skip. }
  apply gate_ok; [done|]. intros [|]; cbn [negb].
  2: { apply open_hint_ok; [done|]. intros ra. apply (IH (done ++ [(n, req)])); [done|]. rewrite <- (app_nil_r skip).
       eapply progress_add; [exact Hpg|done|by right; eexists|by eapply truthful_one; [done|left]|left|intros m Hm; inversion Hm|done]. }
  apply config_read_ok. intros c.
  assert (Hnext : forall failures last skip, so_far (done ++ [(n, req)]) failures last skip ->
            steady_ (route_loop single stream hedge dl rest failures last skip) ok) by (intros; by apply (IH (done ++ [(n, req)]))).
  destruct (hedge_partner hedge stream skip n rest) as [[[[delay m] mreq] m_last]|] eqn:Ehp.
  - by eapply (hedged_candidate_ok n req rest done failures last skip _ (route_loop single stream hedge dl rest)).
  - by apply (plain_candidate_ok n req rest done failures last skip _ (route_loop single stream hedge dl rest)).
Qed.
End Loop.
End Delivers.
