(* ===== verification/RouterSettle.v ===== *)
(** One provider call, settled: whatever the call does, its rate-limit permit
    comes back, its breaker gets exactly one verdict, and no attempt outlives the
    request's deadline. *)
From S2P Require Import Prelude Errors Deadline Yaml CircuitBreaker Limiter Retry Cache Health Policy Provider.
From S2P Require Import Coroutine RouterState RouterPlan RouterPlanProps RouterCall RouterCallProps.

(** ** Permits along [acquire] and [release] *)
Definition same_permits (l l' : ProviderLimiter) : Prop :=
  slots l' = slots l /\ slot_waiters l' = slot_waiters l /\ active_requests l' = active_requests l.
(** A permit taken, not yet counted as an active request. *)
Definition slot_taken (l l' : ProviderLimiter) : Prop :=
  slots l' = slots l - 1 /\ slot_waiters l' = slot_waiters l /\ active_requests l' = active_requests l.
Definition admitted (l l' : ProviderLimiter) : Prop :=
  slots l' = slots l - 1 /\ slot_waiters l' = slot_waiters l /\ active_requests l' = active_requests l + 1.

Lemma start_permits t t' mw l o l' :
  acquire_start t t' mw l = (o, l') ->
  match o with
  | Rejected _ => same_permits l l'
  | HasSlot => slot_taken l l'
  | AwaitSlot _ => slots l' = slots l /\ slot_waiters l' = slot_waiters l + 1 /\ active_requests l' = active_requests l
  | _ => False
  end.
Proof. unfold acquire_start. intros E. repeat (case_match; simplify_eq); by repeat split. Qed.

Lemma reserve_permits t1 t2 t3 t4 t5 est mw l0 l o l' :
  slot_taken l0 l ->
  acquire_reserve t1 t2 t3 t4 t5 est mw l = (o, l') ->
  match o with
  | Rejected _ => same_permits l0 l'
  | Passed _ => admitted l0 l'
  | AwaitSleep _ => slot_taken l0 l'
  | _ => False
  end.
Proof.
  intros (A & B & C) E. unfold acquire_reserve in E.
  destruct (reserve t2 1 (request_bucket l)) as [w1 rb], (reserve t3 est (token_bucket l)) as [w2 tb].
  unfold acquire_finish in E. repeat (case_match; simplify_eq); repeat split; cbn; lia.
Qed.

Lemma release_permits l0 l : 0 <= active_requests l0 -> admitted l0 l -> same_permits l0 (Limiter.release l).
Proof.
  intros Ha (A & B & C). unfold Limiter.release. replace (0 <? active_requests l) with true by lia.
  repeat split; cbn; lia.
Qed.

(** ** What the call sees of its provider *)
Record view (n : string) (cfg : RoutingConfig) (l : ProviderLimiter) (b : CircuitBreaker) (r : Router) : Prop := {
  vw_setup : set_up [n] cfg r;
  vw_limiter : od_get n (limiter r) = Some l;
  vw_breaker : od_get n (breakers r) = Some b;
  vw_provider : is_Some (od_get n (providers r)) }.

Section View.
Context `{PyStr} `{HalfPow} `{TextLib} `{SecondsText} `{KeyDigest (list (string * string)) cache_options}.
Context (n : string) (cfg : RoutingConfig).
Abbreviation vw := (view n cfg).
Implicit Types (l : ProviderLimiter) (b : CircuitBreaker) (rd : reading).

Definition vstep {A} (m : RM A) l b (Q : res exn A -> ProviderLimiter -> CircuitBreaker -> Prop) : Prop :=
  forall r, vw l b r -> exists l' b', vw l' b' (m r).2 /\ Q (m r).1 l' b'.

Lemma vs_keep {A} (m : RM A) l b (Q : res exn A -> ProviderLimiter -> CircuitBreaker -> Prop) :
  (forall r, vw l b r -> vw l b (m r).2 /\ Q (m r).1 l b) -> vstep m l b Q.
Proof. intros Hm r Hr. exists l, b. by apply Hm. Qed.

Lemma vs_weaken {A} (m : RM A) l b (P Q : res exn A -> ProviderLimiter -> CircuitBreaker -> Prop) :
  vstep m l b P -> (forall x l' b', P x l' b' -> Q x l' b') -> vstep m l b Q.
Proof. intros Hm HQ r Hr. destruct (Hm r Hr) as (l' & b' & Hv & HP). exists l', b'. auto. Qed.

Lemma vs_bind {A B} (m : RM A) (f : A -> RM B) l b P (Q : res exn B -> ProviderLimiter -> CircuitBreaker -> Prop) :
  vstep m l b P -> (forall a l' b', P (Ok a) l' b' -> vstep (f a) l' b' Q) ->
  (forall e l' b', P (Raise e) l' b' -> Q (Raise e) l' b') -> vstep (m ≫= f) l b Q.
Proof.
  intros Hm Hf He r Hr. destruct (Hm r Hr) as (l' & b' & Hv & HP). unfold mbind, SE_bind.
  destruct (m r) as [[a|e] r1]; cbn in *; [by eapply Hf | by exists l', b'; auto].
Qed.

Lemma vs_get l b : vstep get_router l b (fun x l' b' => l' = l /\ b' = b /\ exists r, x = Ok r /\ vw l b r).
Proof. apply vs_keep. intros r Hr. split; [done|]. by repeat split; eauto. Qed.

Lemma vw_same l b r r' :
  config r' = config r -> breakers r' = breakers r -> limiter r' = limiter r -> provider_stats r' = provider_stats r ->
  health r' = health r -> providers r' = providers r -> vw l b r -> vw l b r'.
Proof.
  intros E1 E2 E3 E4 E5 E6 [A B C D]. split; [|by rewrite E3|by rewrite E2|by rewrite E6]. by eapply su_same; [..|exact A].
Qed.

Lemma vs_limiter_do (f : ProviderLimiter -> acquire_outcome * ProviderLimiter) l b :
  vstep (limiter_do n f) l b (fun x l' b' => x = Ok (f l).1 /\ l' = (f l).2 /\ b' = b).
Proof.
  intros r [A B C D]. unfold limiter_do, mbind, SE_bind, get_router, se_get, se_modify, mret, SE_ret. rewrite B.
  destruct (f l) as [o l'] eqn:E. exists l', b. cbn. split; [|by rewrite ?E].
  split; [|cbn; by rewrite od_get_set_eq|done|done]. eapply su_same; [..|exact A]; done.
Qed.

Lemma vs_limiter_set f l b : vstep (limiter_set n f) l b (fun x l' b' => l' = f l /\ b' = b /\ x = Ok HasSlot).
Proof. eapply vs_weaken; [apply vs_limiter_do|]. by intros x l' b' (-> & -> & ->). Qed.

Lemma vs_limiter_release l b : vstep (limiter_release n) l b (fun x l' b' => l' = Limiter.release l /\ b' = b /\ x = Ok tt).
Proof.
  intros r [A B C D]. unfold limiter_release, se_modify, global_release, get_limiter. rewrite B. exists (Limiter.release l), b.
  cbn. split; [|done]. split; [|cbn; by rewrite od_get_set_eq|done|done]. eapply su_same; [..|exact A]; done.
Qed.

Lemma vs_breaker_at l b : vstep (breaker_at n) l b (fun x l' b' => l' = l /\ b' = b /\ x = Ok b).
Proof.
  apply vs_keep. intros r [A B C D]. unfold breaker_at, at_key, mbind, SE_bind, get_router, se_get, se_lift. rewrite C. done.
Qed.

Lemma vs_breaker_do f l b : vstep (breaker_do n f) l b (fun x l' b' => l' = l /\ b' = f b /\ x = Ok tt).
Proof.
  intros r [A B C D]. unfold breaker_do, se_modify. exists l, (f b). cbn. rewrite C. split; [|done].
  split; [by apply su_set_breaker|done|cbn; by rewrite od_get_set_eq|done].
Qed.

Lemma vs_stat f l b : vstep (update_stat n f) l b (fun x l' b' => l' = l /\ b' = b /\ x = Ok tt).
Proof.
  apply vs_keep. intros r [A B C D].
  destruct (update_stat_ok [n] cfg n f (list_elem_of_here _ _) r A) as [A' ->]. split; [|done].
  split; [exact A'|..]; unfold update_stat, mbind, SE_bind, get_router, se_get, se_lift, se_modify; by destruct (at_key _ _).
Qed.

Lemma vs_health t ok l b : vstep (note_health t n ok) l b (fun x l' b' => l' = l /\ b' = b /\ x = Ok tt).
Proof.
  apply vs_keep. intros r [A B C D].
  destruct (note_health_ok [n] cfg t n ok (list_elem_of_here _ _) r A) as [A' ->]. split; [|done].
  split; [exact A'|..]; unfold note_health, mbind, SE_bind, get_router, se_get, se_lift, se_modify; by destruct (at_key _ _).
Qed.

Lemma vs_record_error t k st l b : vstep (_record_error t n k st) l b (fun x l' b' => l' = l /\ b' = b /\ x = Ok tt).
Proof.
  unfold _record_error. eapply vs_bind; [apply vs_stat| |by intros ? ? ? (? & ? & ?)]. intros _ ? ? (-> & -> & _).
  eapply vs_bind with (P := fun x l' b' => l' = l /\ b' = b /\ x = Ok tt); [| |by intros ? ? ? (? & ? & ?)].
  - case_bool_decide; [by apply vs_keep | apply vs_health].
  - intros _ ? ? (-> & -> & _). apply vs_stat.
Qed.

(** The verdict on the breaker after a failed call. *)
Definition verdict (e : exn) rd b : CircuitBreaker :=
  if counts_against_breaker (classify (rd_utc rd) e) then record_failure (now_of rd) (now_of rd) b else CircuitBreaker.release b.

Lemma vs_settle_failure e rd l b :
  vstep (settle_failure n e rd) l b (fun x l' b' => l' = l /\ b' = verdict e rd b /\ x = Ok tt).
Proof.
  unfold settle_failure. eapply vs_bind; [apply vs_record_error| |by intros ? ? ? (? & ? & ?)]. intros _ ? ? (-> & -> & _).
  eapply vs_weaken; [apply vs_breaker_do|]. intros x l' b' (-> & -> & ->). unfold verdict.
  by destruct (counts_against_breaker _).
Qed.
End View.

(** ** Running the call while others leave its provider alone *)
Section Settle.
Context `{PyStr} `{HalfPow} `{TextLib} `{SecondsText} `{KeyDigest (list (string * string)) cache_options}.
Context {W : Type} (n : string) (cfg : RoutingConfig) (q : CompletionRequest) (dl : Deadline) (timeout : Q).
Abbreviation S := (Router * W)%type.
Abbreviation call := (coro reading S event).
Abbreviation vw := (view n cfg).
Implicit Types (l : ProviderLimiter) (b : CircuitBreaker) (rd : reading).

Definition others (s s' : S) : Prop := forall l b, vw l b s.1 -> vw l b s'.1.

(** An attempt is a call to [n] with [q], told to stop within the provider's
    timeout and before the deadline; so is the opening of a stream. *)
Definition in_time rd X (e : event X) : Prop :=
  match e with
  | EComplete n' q' t | EFirst n' q' t =>
    n' = n /\ q' = q /\
    exists seconds, t = Some seconds /\ (0 < seconds)%Q /\ (seconds <= timeout)%Q /\
      forall d, d_end dl = Some d -> (now_of rd + seconds <= d)%Q
  | ENext n' q' t => n' = n /\ q' = q /\ t = timeout
  | _ => True
  end.

(** What the events have to satisfy is left open. *)
Context (asks : reading -> forall X, event X -> Prop) (Hasks : forall rd X (e : event X), in_time rd X e -> asks rd X e).

Definition vruns {A} (c : call A) l b rd (F : outcome A -> reading -> ProviderLimiter -> CircuitBreaker -> Prop) : Prop :=
  forall s, vw l b s.1 -> runs others asks c (fun o rd s => exists l b, vw l b s.1 /\ F o rd l b) rd s.

Lemma vr_weaken {A} (c : call A) l b rd (F G : outcome A -> reading -> ProviderLimiter -> CircuitBreaker -> Prop) :
  vruns c l b rd F -> (forall o rd l b, F o rd l b -> G o rd l b) -> vruns c l b rd G.
Proof. intros Hc HFG s Hs. eapply runs_weaken; [by apply Hc|]. intros o rd' s' (l' & b' & Hv & HF). eauto. Qed.

Lemma vr_after {A B} (c : call A) (f : outcome A -> call B) l b rd F G :
  vruns c l b rd F -> (forall o rd l b, F o rd l b -> vruns (f o) l b rd G) -> vruns (after c f) l b rd G.
Proof. intros Hc Hf s Hs. eapply runs_after; [by apply Hc|]. intros o rd' s' (l' & b' & Hv & HF). by eapply Hf. Qed.

Lemma vr_bind {A B} (c : call A) (f : A -> call B) l b rd F G :
  vruns c l b rd F -> (forall a rd l b, F (Return a) rd l b -> vruns (f a) l b rd G) ->
  (forall e rd l b, F (Throw e) rd l b -> G (Throw e) rd l b) -> (forall rd l b, F Cancel rd l b -> G Cancel rd l b) ->
  vruns (c ≫= f) l b rd G.
Proof.
  intros Hc H1' H2' H3'. eapply vr_after; [exact Hc|]. intros [a|e|] rd' l' b' HF; [by apply H1'| |];
    intros s Hs; exists l', b'; auto.
Qed.

Lemma vr_try {A B} (c : call A) (f : outcome A -> call B) l b rd F G :
  vruns c l b rd F -> (forall o rd l b, F o rd l b -> vruns (f o) l b rd G) -> vruns (try_ c ≫= f) l b rd G.
Proof.
  intros Hc Hf. eapply vr_bind with (F := fun o rd l b => match o with Return o => F o rd l b | _ => False end).
  - eapply vr_after; [exact Hc|]. intros o rd' l' b' HF s Hs. by exists l', b'.
  - auto.
  - done.
  - done.
Qed.

Lemma vr_fin {A} (o : outcome A) l b rd (F : outcome A -> reading -> ProviderLimiter -> CircuitBreaker -> Prop) :
  F o rd l b -> vruns (finish o) l b rd F.
Proof. intros HF s Hs. by exists l, b. Qed.

Lemma vr_seg {A} (m : reading -> RM A) l b rd Q (F : outcome A -> reading -> ProviderLimiter -> CircuitBreaker -> Prop) :
  (forall rd, vstep n cfg (m rd) l b (Q rd)) -> (forall rd x l b, Q rd x l b -> F (of_res x) rd l b) ->
  vruns (router_seg m) l b rd F.
Proof.
  intros Hm HQ [r w] Hs. apply runs_seg. intros rd'. unfold lift_router. cbn [fst snd] in *.
  destruct (Hm rd' r Hs) as (l' & b' & Hv & HF). destruct (m rd' r) as [x r']. cbn in *. exists l', b'. auto.
Qed.

Lemma vr_await {X} (e : event X) l b rd (F : outcome X -> reading -> ProviderLimiter -> CircuitBreaker -> Prop) :
  in_time rd X e -> (forall x, F (Return x) rd l b) -> F Cancel rd l b -> vruns (await e) l b rd F.
Proof.
  intros He H1' H2' s Hs. apply runs_await; [by apply Hasks| |]; intros; exists l, b; split; auto.
Qed.

Lemma vr_clock l b rd (F : outcome Q -> reading -> ProviderLimiter -> CircuitBreaker -> Prop) :
  (forall rd t, F (Return t) rd l b) -> vruns clock l b rd F.
Proof. intros HF [r w] Hs. apply runs_seg. intros rd'. exists l, b. split; [exact Hs | apply HF]. Qed.

(** One segment on the limiter, one on the breaker, one that leaves both. *)
Lemma vr_do {A} (f : reading -> ProviderLimiter -> acquire_outcome * ProviderLimiter) (k : acquire_outcome -> call A) l b rd F :
  (forall rd, vruns (k (f rd l).1) (f rd l).2 b rd F) ->
  vruns (router_seg (fun rd => limiter_do n (f rd)) ≫= k) l b rd F.
Proof.
  intros Hk. eapply vr_bind with (F := fun o rd' l' b' => o = Return (f rd' l).1 /\ l' = (f rd' l).2 /\ b' = b).
  - eapply vr_seg; [intros rd'; apply vs_limiter_do|]. by intros rd' x l' b' (-> & -> & ->).
  - intros a rd' l' b' ([= ->] & -> & ->). apply Hk.
  - by intros ? ? ? ? [? _].
  - by intros ? ? ? [? _].
Qed.
Lemma vr_set {A} (f : ProviderLimiter -> ProviderLimiter) (k : call A) l b rd F :
  (forall rd, vruns k (f l) b rd F) -> vruns (router_seg (fun _ => limiter_set n f);; k) l b rd F.
Proof. intros Hk. by apply vr_do with (f := fun _ l => (HasSlot, f l)). Qed.
Lemma vr_unit {A} (m : reading -> RM unit) (k : call A) l b (l1 : ProviderLimiter) (b1 : reading -> CircuitBreaker) rd F :
  (forall rd, vstep n cfg (m rd) l b (fun x l' b' => l' = l1 /\ b' = b1 rd /\ x = Ok tt)) ->
  (forall rd, vruns k l1 (b1 rd) rd F) -> vruns (router_seg m;; k) l b rd F.
Proof.
  intros Hm Hk. eapply vr_bind with (F := fun o rd' l' b' => o = Return tt /\ l' = l1 /\ b' = b1 rd').
  - eapply vr_seg; [exact Hm|]. by intros rd' x l' b' (-> & -> & ->).
  - intros a rd' l' b' (_ & -> & ->). apply Hk.
  - by intros ? ? ? ? [? _].
  - by intros ? ? ? [? _].
Qed.

(** *** Admission *)
Definition taken_or_back l0 b0 {A} (o : outcome A) (_ : reading) l b : Prop :=
  b = b0 /\ match o with
            | Return _ => admitted l0 l
            | Throw e => same_permits l0 l /\ is_rate_limited e = true
            | Cancel => same_permits l0 l
            end.

Lemma vr_reserve l0 l b rd est mw t :
  slot_taken l0 l -> vruns (limiter_reserve n est mw t) l b rd (taken_or_back l0 b).
Proof.
  intros Hl. unfold limiter_reserve. apply vr_do. intros rd'.
  destruct (acquire_reserve t (now_of rd') (now_of rd') (now_of rd') (now_of rd') est mw l) as [o l'] eqn:E.
  pose proof (reserve_permits _ _ _ _ _ _ _ _ _ _ _ Hl E) as Ho.
  pose proof (reserve_rejects t (now_of rd') (now_of rd') (now_of rd') (now_of rd') est mw l) as Hrj. rewrite E in Hrj. cbn [fst snd] in *.
  destruct o as [w|e|to| |d]; try done; [by apply vr_fin|by apply vr_fin|]. destruct Ho as (A & B & C).
  apply vr_try with (F := fun o _ l'' b' => l'' = l' /\ b' = b); [by apply vr_await|].
  intros o rd2 ? ? (-> & ->). destruct o as [u|e|].
  - apply vr_do. intros rd3. apply vr_fin. split; [done|]. repeat split; cbn; lia.
  - apply vr_set. intros rd3. apply vr_fin. split; [done|]. repeat split; cbn; lia.
  - apply vr_set. intros rd3. apply vr_fin. split; [done|]. repeat split; cbn; lia.
Qed.

Lemma vr_acquire l b rd est mw : vruns (limiter_acquire n est mw) l b rd (taken_or_back l b).
Proof.
  unfold limiter_acquire. eapply vr_bind with (F := fun o _ l' b' => (exists t, o = Return t) /\ l' = l /\ b' = b);
    [apply vr_clock; eauto| |by intros ? ? ? ? [[? ?] _]|by intros ? ? ? [[? ?] _]].
  intros t rd1 ? ? (_ & -> & ->). apply vr_do. intros rd2.
  destruct (acquire_start t (now_of rd2) mw l) as [o l'] eqn:E. pose proof (start_permits _ _ _ _ _ _ E) as Ho.
  pose proof (start_rejects t (now_of rd2) mw l) as Hrj. rewrite E in Hrj. cbn [fst snd] in *.
  destruct o as [w|e|to| |d]; try done; [by apply vr_fin| |by apply vr_reserve].
  destruct Ho as (A & B & C).
  apply vr_try with (F := fun o _ l'' b' => l'' = l' /\ b' = b); [by apply vr_await|].
  intros o rd3 ? ? (-> & ->). destruct o as [[]|e|].
  - apply vr_set. intros rd4. apply vr_reserve. repeat split; cbn; lia.
  - apply vr_do. intros rd4. apply vr_fin. split; [done|]. repeat split; cbn; lia.
  - apply vr_set. intros rd4. apply vr_fin. split; [done|]. repeat split; cbn; lia.
  - apply vr_set. intros rd4. apply vr_fin. split; [done|]. repeat split; cbn; lia.
Qed.

(** A call ends with its permit back and one verdict on the breaker: that of its
    outcome, but a plain release for a refusal of the local rate limit. *)
Definition settled l0 b0 {A} (o : outcome A) (_ : reading) l b : Prop :=
  same_permits l0 l /\
  match o with
  | Return _ => exists t, b = record_success t b0
  | Throw e => (is_rate_limited e = true /\ b = CircuitBreaker.release b0) \/ exists rd, b = verdict e rd b0
  | Cancel => b = CircuitBreaker.release b0
  end.

Lemma same_refl l : same_permits l l.
Proof. done. Qed.

Lemma vr_admit l b rd :
  vruns (_admit n q dl) l b rd (fun (o : outcome unit) rd l' b' =>
    match o with Return _ => b' = b /\ admitted l l' | _ => settled l b o rd l' b' end).
Proof.
  unfold _admit. eapply vr_bind with (F := fun o _ l' b' => (exists t, o = Return t) /\ l' = l /\ b' = b).
  - eapply vr_seg; [intros rd'; apply vs_keep with (Q := fun x l' b' => (exists t, x = Ok t) /\ l' = l /\ b' = b); intros r Hr; split; [exact Hr|by eauto]|].
    intros rd' x l' b' ([t ->] & -> & ->). eauto.
  - intros mw rd1 ? ? (_ & -> & ->). eapply vr_try; [apply vr_acquire|]. intros o rd2 l' b' [-> Ho]. destruct o as [u|e|].
    + by apply vr_fin.
    + apply vr_unit with (l1 := l') (b1 := fun _ => CircuitBreaker.release b).
      * intros rd3. eapply vs_bind with (P := fun x l'' b' => l'' = l' /\ b' = b /\ x = Ok tt); [| |by intros ? ? ? (_ & _ & ?)].
        -- destruct (is_rate_limited e); [apply vs_stat | by apply vs_keep].
        -- intros _ ? ? (-> & -> & _). eapply vs_bind; [apply vs_breaker_at| |by intros ? ? ? (_ & _ & ?)].
           intros _ ? ? (-> & -> & _). apply vs_breaker_do.
      * intros rd3. apply vr_fin. destruct Ho as [Ho He]. split; [done|]. by left.
    + apply vr_unit with (l1 := l') (b1 := fun _ => CircuitBreaker.release b).
      * intros rd3. eapply vs_bind; [apply vs_breaker_at| |by intros ? ? ? (_ & _ & ?)].
        intros _ ? ? (-> & -> & _). apply vs_breaker_do.
      * intros rd3. by apply vr_fin.
  - by intros ? ? ? ? [[? ?] _].
  - by intros ? ? ? [[? ?] _].
Qed.

(** *** Attempts *)
Definition untouched l0 b0 {A} (_ : outcome A) (_ : reading) l b : Prop := l = l0 /\ b = b0.

Lemma vr_read {A} (m : reading -> RM A) l b rd :
  (forall rd r, vw l b r -> vw l b (m rd r).2) -> vruns (router_seg m) l b rd (untouched l b).
Proof.
  intros Hm. eapply vr_seg with (Q := fun _ _ l' b' => l' = l /\ b' = b); [|done].
  intros rd'. apply vs_keep. intros r Hr. split; [by apply Hm|done].
Qed.

Lemma vr_seconds l b rd :
  vruns (attempt_seconds dl timeout) l b rd (fun o rd l' b' => untouched l b o rd l' b' /\
    forall t, o = Return t -> exists seconds, t = Some seconds /\ (0 < seconds)%Q /\ (seconds <= timeout)%Q /\
      forall d, d_end dl = Some d -> (now_of rd + seconds <= d)%Q).
Proof.
  unfold attempt_seconds. eapply vr_seg with (Q := fun rd x l' b' => l' = l /\ b' = b /\
    forall t, x = Ok t -> clamp (now_of rd) dl (Some timeout) = t /\ match t with Some c => c <=. 0 | None => false end = false).
  - intros rd'. apply vs_keep. intros r Hr.
    destruct (match clamp (now_of rd') dl (Some timeout) with Some s => s <=. 0 | None => false end) eqn:E;
      (split; [exact Hr|]; split; [done|]; split; [done|]); [done|]. intros t [= <-]. done.
  - intros rd' x l' b' (-> & -> & Hx). split; [done|]. intros t Ht. destruct x as [t'|e]; [|done]. injection Ht as ->.
    destruct (Hx t eq_refl) as [Hc Hpos]. assert (Hs : exists c, t = Some c).
    { unfold clamp in Hc. destruct (remaining (now_of rd') dl); eauto. }
    destruct Hs as [c ->]. fprops. exists c. split; [done|]. split; [done|]. split.
    + apply clamp_le in Hc as [Hle _]. by apply Hle.
    + intros d Hd. by eapply clamp_deadline.
Qed.

Lemma vr_one_call l b rd : vruns (one_call n q dl timeout) l b rd (untouched l b).
Proof.
  unfold one_call. eapply vr_bind; [apply vr_seconds| |by intros ? ? ? ? [? _]|by intros ? ? ? [? _]].
  intros t rd1 ? ? ([-> ->] & Ht). destruct (Ht t eq_refl) as (sec & -> & Hsec).
  eapply vr_bind with (F := untouched l b); [apply vr_await; [|done|done]| |done|done].
  { split; [done|]. split; [done|]. by exists sec. }
  intros x rd2 ? ? [-> ->]. destruct x as [resp|e]; [by apply vr_fin|].
  destruct (isinstance_TimeoutError e); [|by apply vr_fin].
  unfold timed_out. apply vr_read. intros rd3 r Hr. by destruct (expired _ _).
Qed.

Lemma vr_decide c k e l b rd : vruns (router_seg (retry_decide c dl k e)) l b rd (untouched l b).
Proof.
  apply vr_read. intros rd2 r Hr. unfold retry_decide, mbind, SE_bind, se_modify, mret, SE_ret.
  repeat case_match; try exact Hr; simplify_eq; (eapply vw_same; [..|exact Hr]; done).
Qed.

Definition leaves {A} (func : call A) : Prop := forall l b rd, vruns func l b rd (untouched l b).

Lemma vr_retry {A} (func : call A) more c k l b rd : leaves func ->
  vruns (retry_attempts more c dl k func) l b rd (untouched l b).
Proof.
  intros Hfunc. revert k rd. induction more as [|more IH]; intros k rd; cbn [retry_attempts].
  all: apply vr_try with (F := untouched l b); [apply Hfunc|].
  all: intros o rd1 ? ? [-> ->]; destruct o as [resp|e|]; [by apply vr_fin| |by apply vr_fin].
  all: eapply vr_bind with (F := untouched l b); [apply vr_decide| |done|done]; intros w rd2 ? ? [-> ->].
  - destruct w; by apply vr_fin.
  - destruct w as [w|]; [|by apply vr_fin].
    eapply vr_bind with (F := untouched l b); [by apply vr_await| |done|done].
    intros u rd3 ? ? [-> ->]. apply IH.
Qed.

Lemma vr_with_retries {A} (func : call A) k l b rd : leaves func ->
  vruns (with_retries dl k func) l b rd (untouched l b).
Proof.
  intros Hfunc. unfold with_retries. eapply vr_bind with (F := untouched l b); [by apply vr_read| |done|done].
  intros r rd1 ? ? [-> ->]. destruct (retry_manager r) as [m|]; [|apply Hfunc].
  destruct (enable_retry _); [|apply Hfunc]. unfold manager_execute.
  apply vr_try with (F := untouched l b); [by apply vr_retry|]. intros o rd2 ? ? [-> ->]. destruct o as [resp|e|]; [by apply vr_fin| |by apply vr_fin].
  eapply vr_bind with (F := untouched l b); [apply vr_read| |done|done].
  - intros rd3 r' Hr. eapply vw_same; [..|exact Hr]; done.
  - intros u rd3 ? ? [-> ->]. by apply vr_fin.
Qed.

(** *** The whole call *)
Lemma vr_check l b rd :
  vruns (check_deadline n dl) l b rd (fun o rd l' b' => match o with
    | Return _ => l' = l /\ b' = b | Throw e => l' = l /\ b' = verdict e rd b | Cancel => False end).
Proof.
  unfold check_deadline. eapply vr_seg with (Q := fun _ x l' b' => l' = l /\ match x with
    | Ok _ => b' = b | Raise e => (exists text, e = DeadlineExceeded text) /\ b' = CircuitBreaker.release b end).
  - intros rd'. unfold Deadline.check. destruct (expired (now_of rd') dl).
    + eapply vs_bind; [apply vs_breaker_do| |by intros ? ? ? (_ & _ & ?)]. intros _ ? ? (-> & -> & _). apply vs_keep. intros r Hr. split; [exact Hr|]. split; [done|]. split; [by eexists|done].
    + by apply vs_keep.
  - intros rd' x l' b' [-> Hx]. destruct x; [done|]. by destruct Hx as [[text ->] ->].
Qed.

Lemma vr_settle (o : outcome CompletionResponse) l0 l b rd :
  0 <= active_requests l0 -> admitted l0 l ->
  vruns (st ← try_ (router_seg (fun rd =>
           match o with
           | Return _ => breaker_do n (record_success (now_of rd))
           | Throw e => settle_failure n e rd
           | Cancel => breaker_do n CircuitBreaker.release
           end));
         router_seg (fun _ => limiter_release n);;
         rethrow st (fun _ => finish o)) l b rd (settled l0 b).
Proof.
  intros Ha Hl. eapply vr_try with (F := fun st rd l' b' => st = Return tt /\ l' = l /\ match o with
      | Return _ => b' = record_success (now_of rd) b | Throw e => b' = verdict e rd b | Cancel => b' = CircuitBreaker.release b end).
  - eapply vr_seg with (Q := fun rd x l' b' => x = Ok tt /\ l' = l /\ match o with
      | Return _ => b' = record_success (now_of rd) b | Throw e => b' = verdict e rd b | Cancel => b' = CircuitBreaker.release b end).
    + intros rd'. destruct o as [resp|e|]; (eapply vs_weaken; [apply vs_breaker_do || apply vs_settle_failure|]);
        by intros x l' b' (-> & -> & ->).
    + by intros rd' x l' b' (-> & -> & Hb).
  - intros st rd1 l1 b1 (-> & -> & Hb). apply vr_unit with (l1 := Limiter.release l) (b1 := fun _ => b1).
    + intros rd2. eapply vs_weaken; [apply vs_limiter_release|]. by intros x l' b' (-> & -> & ->).
    + intros rd2. cbn [rethrow]. apply vr_fin. split; [by apply release_permits|].
      destruct o as [resp|e|]; [by eexists|right; by exists rd1|done].
Qed.

Lemma vr_call k l b rd s :
  vw l b s.1 -> 0 <= active_requests l -> timeout = _timeout_for n s.1 ->
  runs others asks (_call_provider n q dl k) (fun o rd s => exists l' b', vw l' b' s.1 /\ settled l b o rd l' b') rd s.
Proof.
  intros Hv Ha Ht. destruct (vw_provider _ _ _ _ _ Hv) as [p Hp]. unfold _call_provider.
  eapply runs_bind with (P := fun o _ s' => o = Return timeout /\ vw l b s'.1); [| |by intros ? ? ? [? _]|by intros ? ? [? _]].
  { apply runs_seg. intros rd'. destruct s as [r w]. unfold lift_router, provider_at, breaker_at, at_key, mbind, SE_bind.
    cbn [fst snd get_router se_get se_lift] in *. rewrite Hp. cbn. rewrite (vw_breaker _ _ _ _ _ Hv). cbn. split; [by rewrite Ht|exact Hv]. }
  intros a rd1 s1 ([= ->] & Hv1). revert s1 Hv1.
  match goal with |- forall s1, _ -> runs _ _ ?c _ _ _ => change (vruns c l b rd1 (settled l b)) end.
  eapply vr_bind; [apply vr_check| | |done].
  2: { intros e rd2 l' b' [-> ->]. split; [done|]. right. by exists rd2. }
  intros u rd2 ? ? [-> ->].
  eapply vr_bind; [apply vr_admit| |done|done].
  intros u' rd3 l3 ? [-> Hl3]. apply vr_try with (F := untouched l3 b); [apply vr_with_retries; intros ? ? ?; apply vr_one_call|].
  intros o rd4 ? ? [-> ->]. by apply vr_settle.
Qed.
End Settle.

(** ** Properties *)
Section Properties.
Context `{PyStr} `{HalfPow} `{TextLib} `{SecondsText} `{KeyDigest (list (string * string)) cache_options}.
Context {W : Type}.

(** C2: however a provider call ends (answered, failed, timed out, turned away
    by its rate limit, past its deadline, cancelled at any suspension point), its
    rate-limit permit is back and its breaker has had exactly one verdict: a
    success for an answer, a failure for an error that counts, and a plain release
    for any other, for a refusal of the local rate limit and for a cancellation. Other requests may do anything meanwhile except touch
    this provider's limiter and breaker. *)
Theorem call_settles n cfg q dl k l b rd (s : Router * W) :
  view n cfg l b s.1 -> 0 <= active_requests l ->
  runs (others n cfg) (fun _ _ _ => True) (_call_provider n q dl k)
    (fun o rd s => exists l' b', view n cfg l' b' s.1 /\ settled l b o rd l' b') rd s.
Proof. intros Hv Ha. by eapply vr_call. Qed.

(** C15: no attempt outlives the request: every call a provider gets, in
    whatever retry, is for this request, under a positive time limit that fits
    both the provider's own timeout and what is left of the deadline. *)
Theorem attempts_respect_deadline n cfg q dl k l b rd (s : Router * W) :
  view n cfg l b s.1 -> 0 <= active_requests l ->
  runs (others n cfg) (in_time n q dl (_timeout_for n s.1)) (_call_provider n q dl k) (fun _ _ _ => True) rd s.
Proof. intros Hv Ha. eapply runs_weaken; [by eapply vr_call|]. done. Qed.

End Properties.

(** ** A probe that is never given back *)
Section Embed.
Context `{PyStr} `{HalfPow} `{TextLib} `{SecondsText} `{KeyDigest (list (string * string)) cache_options}.
Context {W : Type}.
Abbreviation call := (coro reading (Router * W) event).

(** Running to the next suspension point, and cancelling the task there. *)
Fixpoint drive {A} (rd : reading) (c : call A) (s : Router * W) : call A * (Router * W) :=
  match c with
  | Seg f => match f rd s with (c, s) => drive rd c s end
  | c => (c, s)
  end.
Definition drop_client {A} (rd : reading) (cs : call A * (Router * W)) : call A * (Router * W) :=
  match cs with
  | (Await e k, s) => drive rd (k None) s
  | cs => cs
  end.

Lemma drive_seg {A B} (m : reading -> RM A) (k : A -> call B) rd r w a r' :
  m rd r = (Ok a, r') -> drive rd (router_seg m ≫= k) (r, w) = drive rd (k a) (r', w).
Proof.
  intros E. unfold router_seg, seg, mbind, coro_bind, lift_router. cbn [after drive fst snd]. by rewrite E.
Qed.

(** an embedding request that is cancelled while it waits for the provider
    keeps the half-open breaker's probe: nothing releases it, and where the
    breaker allows one probe it never admits another call. *)
Theorem embed_cancel_keeps_probe texts model n p b rd (r : Router) (w : W) :
  n ≠ EmptyString -> od_get n (providers r) = Some p -> supports_embeddings p = true ->
  od_get n (breakers r) = Some b -> cb_state b = HALF_OPEN -> probes_in_flight b < half_open_max_calls b ->
  exists s b', drop_client rd (drive rd (embed texts model (Some n)) (r, w)) = (Done Cancel, s) /\
    od_get n (breakers s.1) = Some b' /\ b' = set_probes b (probes_in_flight b + 1) /\
    (half_open_max_calls b = probes_in_flight b + 1 -> forall t, fst (would_allow t b') = false).
Proof.
  intros Hn Hp He Hb Hs Hlt.
  assert (Hnames : forall ks : list string, match str_or (Some n) EmptyString with EmptyString => ks | s => [s] end = [n]).
  { intros ks. cbn. rewrite decide_False by done. by destruct n. }
  assert (Hst : forall t, CircuitBreaker.state t b = b) by (intros t; by apply state_half_open).
  exists (with_breakers r (od_set n (set_probes b (probes_in_flight b + 1)) (breakers r)), w), (set_probes b (probes_in_flight b + 1)).
  split_and!; [|cbn; by rewrite od_get_set_eq|done|].
  - unfold embed. erewrite drive_seg by done. rewrite Hnames. cbn [embed_loop].
    erewrite drive_seg; [|unfold mbind, SE_bind, get_router, se_get; rewrite Hp; done]. rewrite He. cbn [negb].
    erewrite drive_seg.
    2: { unfold breaker_allow, breaker_at, at_key, mbind, SE_bind, get_router, se_get, se_lift, se_modify. rewrite Hb.
         unfold CircuitBreaker.allow. rewrite Hst, Hs. replace (probes_in_flight b <? half_open_max_calls b) with true by lia. done. }
    cbn [negb]. by erewrite drive_seg by done.
  - intros Hmax t. unfold would_allow. rewrite state_half_open by done. cbn [fst cb_state set_probes set_fields].
    rewrite Hs. cbn. lia.
Qed.
End Embed.

(** ** Witnesses *)
Module CallDemo.
Import PlanDemo.
#[local] Instance demo_repr : PyStr := {| py_repr := fun _ => "?" |}.
#[local] Instance hyperbola : HalfPow := {| half_pow := fun x => (1 / (1 + x))%Q |}.
#[local] Instance lib : TextLib := {| py_float := fun _ => None; py_http_date := fun _ => None |}.
#[local] Instance tenths : SecondsText := {| show_tenths := fun _ => "?" |}.
#[local] Instance digest : KeyDigest (list (string * string)) cache_options :=
  {| payload_json := fun ms _ => String.concat "," ms.*2; no_options := mkCacheOptions None 0 0 None; sha256_hex := fun s => s |}.

Definition demo_limiter : ProviderLimiter := new_limiter 0 "openai" RateLimitConfig_default.
Definition demo_breaker : CircuitBreaker := init_breaker "openai" 5 30 1.
Definition demo_config : RoutingConfig := config demo_router.
Definition demo_dl : Deadline := new_deadline 1 (Some 120%Q).
Definition demo_reading : reading := mkReading demo_env 0 (1 # 2).

Lemma demo_view : view "openai" demo_config demo_limiter demo_breaker demo_router.
Proof. split; [split|..]; try reflexivity; repeat constructor; by eexists. Qed.

Lemma call_settles_witness :
  runs (others "openai" demo_config) (fun _ _ _ => True) (_call_provider "openai" (hello []) demo_dl 3)
    (fun o rd s => exists l' b', view "openai" demo_config l' b' s.1 /\ settled demo_limiter demo_breaker o rd l' b')
    demo_reading (demo_router, tt).
Proof.
  apply (call_settles "openai" demo_config (hello []) demo_dl 3 demo_limiter demo_breaker demo_reading (demo_router, tt)).
  - exact demo_view.
  - vm_compute. discriminate.
Defined.

Lemma attempts_witness :
  runs (others "openai" demo_config) (in_time "openai" (hello []) demo_dl (_timeout_for "openai" demo_router))
    (_call_provider "openai" (hello []) demo_dl 3) (fun _ _ _ => True) demo_reading (demo_router, tt).
Proof.
  apply (attempts_respect_deadline "openai" demo_config (hello []) demo_dl 3 demo_limiter demo_breaker demo_reading (demo_router, tt)).
  - exact demo_view.
  - vm_compute. discriminate.
Defined.

Definition from_provider (n : string) (_ : CompletionRequest) (r : CompletionResponse) : Prop := rs_provider r = n.
Definition raises_timeouts (n : string) (_ : CompletionRequest) (e : exn) : Prop := exists s t, e = ProviderTimeout n s t.

Definition half_open : CircuitBreaker := mkCircuitBreaker "openai" 5 30 1 HALF_OPEN 5 0 0 1 ["open"].
Lemma embed_keeps_probe_witness :
  exists s b, drop_client demo_reading (drive demo_reading (embed ["text"] None (Some "openai")) (with_breakers demo_router [("openai", half_open)], tt)) = (Done Cancel, s) /\
    od_get "openai" (breakers s.1) = Some b /\ forall t, fst (would_allow t b) = false.
Proof.
  destruct (embed_cancel_keeps_probe ["text"] None "openai" cloud half_open demo_reading (with_breakers demo_router [("openai", half_open)]) tt)
    as (s & b & H1 & H2 & _ & H3); [done|done|done|done|done|done|].
  exists s, b. split; [exact H1|]. split; [exact H2|]. intros t. apply H3. reflexivity.
Defined.
End CallDemo.
