(* ===== verification/RouterStream.v ===== *)
(** Component: streamed completions ([_open_stream], [_stream] and [stream] of
    [src/src/coreai/router.py]).

    An async generator is a state and two coroutines: [stream_next] runs from the
    last [yield] to the next one ([__anext__]), [stream_close] is [aclose], which
    raises [GeneratorExit] at the [yield] the generator is suspended at. The
    request's usage object, which the provider fills in while it streams, is a
    cell of the outside state. *)
From S2P Require Import Prelude Errors Deadline Yaml CircuitBreaker Limiter Retry Cache Health Policy Provider.
From S2P Require Import Coroutine RouterState RouterPlan RouterCall.

(** [request.stream_usage] in the outside state. *)
Class UsageCell (W : Type) := {
  stream_usage : W -> StreamUsage;
  set_stream_usage : StreamUsage -> W -> W;
  stream_usage_set u w : stream_usage (set_stream_usage u w) = u }.
#[export] Instance usage_beside (W : Type) : UsageCell (StreamUsage * W) :=
  { stream_usage := fst; set_stream_usage u w := (u, w.2); stream_usage_set _ _ := eq_refl }.

(** A generator suspended at a [yield] holds an open provider stream. *)
Record open_stream := mkOpen { os_name : string; os_req : CompletionRequest; os_timeout : Q; os_chars : Z }.
Inductive stream_state :=
| Fresh (q : CompletionRequest) (preferred : option string) (deadline_override : option Q)
| Open (o : open_stream)
| Over.

Section Stream.
Context `{PyStr} `{HalfPow} `{TextLib} `{SecondsText} `{KeyDigest (list (string * string)) cache_options}.
Context {W : Type} `{UsageCell W} (model_gate : option (string -> SE W exn unit)).
Abbreviation S := (Router * W)%type.
Abbreviation call := (coro reading S event).
Implicit Types (q : CompletionRequest) (n : string) (dl : Deadline) (rd : reading).

Definition set_usage (f : StreamUsage -> StreamUsage) : call unit :=
  seg (fun _ => se_modify (fun s : S => (s.1, set_stream_usage (f (stream_usage s.2)) s.2))).
Definition with_opened_model (m : string) (u : StreamUsage) : StreamUsage :=
  mkStreamUsage (u_input u) (u_output u) (u_model u) (u_reported u) (u_estimated u) (u_completed u)
    (u_cost u) (u_provider u) m (u_finish_reason u).

(** ** Opening a stream *)
Definition _close_stream n q : call unit := await (EClose n q);; mret tt.

Definition open_attempt n q dl (timeout : Q) : call (option string) :=
  seconds ← attempt_seconds dl timeout;
  out ← try_ (x ← await (EFirst n q seconds); finish (of_res x));
  match out with
  | Return first => mret first
  | Throw e =>
    _close_stream n q;;
    if isinstance_TimeoutError e then timed_out n dl seconds timeout else throw e
  | Cancel => _close_stream n q;; finish Cancel
  end.

(** The first chunk, or [None] for a stream that ended at once; the permit stays
    taken and the breaker's probe with it. *)
Definition _open_stream n q dl (attempts : Z) (timeout : Q) : call (option string) :=
  router_seg (fun _ => provider_at n;; mret tt);;
  check_deadline n dl;;
  _admit n q dl;;
  out ← try_ (with_retries dl attempts (open_attempt n q dl timeout));
  match out with
  | Return first => mret first
  | Throw e => router_seg (fun rd => settle_failure n e rd;; limiter_release n);; throw e
  | Cancel => router_seg (fun _ => breaker_do n CircuitBreaker.release;; limiter_release n);; finish Cancel
  end.

(** ** The candidates, until a stream opens *)
Fixpoint open_loop (single : bool) dl (cands : candidates) (failures : list (string * ErrorKind)) (last : option exn)
    : call (string * CompletionRequest * Q * option string) :=
  match cands with
  | [] =>
    match single, last with
    | true, Some e => throw e
    | _, _ => router_seg (fun rd => unavailable (rd_env rd) failures)
    end
  | (n, req) :: rest =>
    let is_last := is_nil rest in
    ok ← router_seg (breaker_allow n);
    if negb ok then
      ra ← router_seg (fun rd => b ← breaker_at n; mret (CircuitBreaker.retry_after (now_of rd) b));
      open_loop single dl rest (failures ++ [(n, CIRCUIT_OPEN)]) (Some (CircuitOpenError n ra))
    else
      r ← router_seg (fun _ => get_router);
      let timeout := _timeout_for n r in
      set_usage (fun _ => new_stream_usage);;
      out ← try_ (_open_stream n req dl (attempts_for (config r) is_last) timeout);
      match out with
      | Return first => mret (n, req, timeout, first)
      | Throw e =>
        k ← router_seg (failed_call n e is_last);
        open_loop single dl rest (failures ++ [(n, k)]) (Some e)
      | Cancel => finish Cancel
      end
  end.

(** ** Delivery *)

(** The [finally] clause: usage is settled, the permit returned, the provider's
    stream closed. A cancelled close takes the place of what was raised. *)
Definition settle_stream n q (chars : Z) (delivered completed : bool) : call unit :=
  seg (fun _ => se_modify (fun s : S =>
    let '(u, r) := _settle_stream n q (stream_usage s.2) chars delivered completed s.1 in
    (r, set_stream_usage u s.2))).
Definition finally_ n q (chars : Z) (delivered completed : bool) {A} (o : outcome A) : call A :=
  settle_stream n q chars delivered completed;;
  router_seg (fun _ => limiter_release n);;
  _close_stream n q;;
  finish o.

(** The stream ended by itself. *)
Definition completed_stream n q (chars : Z) (delivered : bool) : call (option string * stream_state) :=
  out ← try_ (router_seg (fun rd =>
    breaker_do n (record_success (now_of rd));;
    update_stat n (fun s => mkStat (ps_requests s + 1) (ps_errors s) (ps_cost s) (latency_ms_history s)
                                   (error_kinds s) (error_statuses s))));
  finally_ n q chars delivered true (match out with Return _ => Return (None, Over) | Throw e => Throw e | Cancel => Cancel end).

(** [except Exception] and [except BaseException]. *)
Definition interrupted n q (chars : Z) (e : exn) : call (option string * stream_state) :=
  out ← try_ (router_seg (settle_failure n e));
  finally_ n q chars true false (match out with Return _ => Throw e | Throw e' => Throw e' | Cancel => Cancel end).
Definition client_left {A} n q (chars : Z) (o : outcome A) : call A :=
  router_seg (fun _ => breaker_do n CircuitBreaker.release);;
  finally_ n q chars true false o.

Definition deliver n q (timeout : Q) (first : option string) : call (option string * stream_state) :=
  m ← router_seg (fun _ =>
    match str_or (rq_model q) EmptyString with
    | EmptyString => p ← provider_at n; mret (default_model p)
    | m => mret m
    end);
  set_usage (with_opened_model m);;
  match first with
  | Some chunk => mret (Some chunk, Open (mkOpen n q timeout (text_length chunk)))
  | None => completed_stream n q 0 false
  end.

Definition start dl (cands : candidates) : call (option string * stream_state) :=
  '(n, req, timeout, first) ← open_loop (length cands =? 1)%nat dl cands [] None;
  deliver n req timeout first.

(** [__anext__]: a chunk and the generator after it, or the end. *)
Definition stream_next (st : stream_state) : call (option string * stream_state) :=
  match st with
  | Fresh q preferred deadline_override =>
    '(_, dl, cands) ← seg (prepare model_gate q preferred deadline_override);
    start dl cands
  | Open (mkOpen n q timeout chars) =>
    out ← try_ (x ← await (ENext n q timeout); finish (of_res x));
    match out with
    | Return (Some chunk) => mret (Some chunk, Open (mkOpen n q timeout (chars + text_length chunk)))
    | Return None => completed_stream n q chars true
    | Throw e => interrupted n q chars (if isinstance_TimeoutError e then ProviderTimeout n timeout (show_tenths timeout) else e)
    | Cancel => client_left n q chars Cancel
    end
  | Over => mret (None, Over)
  end.

(** [aclose]: [GeneratorExit] at the [yield], which ends the call normally; a
    generator that has not started just ends. *)
Definition stream_close (st : stream_state) : call unit :=
  match st with
  | Open (mkOpen n q timeout chars) => client_left n q chars (Return tt)
  | _ => mret tt
  end.

(** [stream] and a client that takes at most [take] chunks before it leaves: the
    chunks it gets, and how the stream ends for it. *)
Definition received (rest : stream_state -> call (list string * outcome unit)) (c : call (option string * stream_state))
    : call (list string * outcome unit) :=
  out ← try_ c;
  match out with
  | Return (Some chunk, st) => '(chunks, e) ← rest st; mret (chunk :: chunks, e)
  | Return (None, _) => mret ([], Return tt)
  | Throw e => mret ([], Throw e)
  | Cancel => mret ([], Cancel)
  end.
Fixpoint take_chunks (take : nat) (st : stream_state) : call (list string * outcome unit) :=
  match take with
  | O => out ← try_ (stream_close st); mret ([], out)
  | Datatypes.S take => received (take_chunks take) (stream_next st)
  end.
Definition stream (take : nat) q (preferred : option string) (deadline_override : option Q) : call (list string * outcome unit) :=
  take_chunks take (Fresh q preferred deadline_override).
End Stream.
