(* ===== verification/RouterStreamProps.v ===== *)
(** Streamed completions settled: whatever becomes of a stream, every provider
    has its permits back and at most one new verdict on its breaker; and the
    client gets the chunks of one provider only. *)
From S2P Require Import Prelude Errors Deadline Yaml CircuitBreaker Limiter Retry Cache Health Policy Provider.
From S2P Require Import Coroutine RouterState RouterPlan RouterPlanProps RouterCall RouterCallProps RouterSettle RouterStream.

(** ** What leaves a provider alone *)
Section Frame.
Context `{PyStr} `{HalfPow} `{TextLib} `{SecondsText} `{KeyDigest (list (string * string)) cache_options}.
Context {W : Type} `{UsageCell W} (n : string) (cfg : RoutingConfig).
Abbreviation S := (Router * W)%type.
Abbreviation call := (coro reading S event).
Abbreviation vw := (view n cfg).
Implicit Types (l : ProviderLimiter) (b : CircuitBreaker) (rd : reading).

Definition framed {A} (m : RM A) : Prop := forall l b r, vw l b r -> vw l b (m r).2.

Lemma framed_pure {A} (x : res exn A) : framed (se_lift x).
Proof. by intros l b r. Qed.
Lemma framed_get : framed get_router.
Proof. by intros l b r. Qed.
Lemma framed_bind {A B} (m : RM A) (f : A -> RM B) : framed m -> (forall a, framed (f a)) -> framed (m ≫= f).
Proof.
  intros Hm Hf l b r Hr. unfold mbind, SE_bind. pose proof (Hm l b r Hr) as H5. destruct (m r) as [[a|e] r']; [by apply Hf|done].
Qed.
Lemma framed_modify f : (forall l b r, vw l b r -> vw l b (f r)) -> framed (se_modify f).
Proof. intros Hf l b r Hr. by apply Hf. Qed.

Lemma framed_stat m f : framed (update_stat m f).
Proof.
  intros l b r [A B C D]. unfold update_stat, mbind, SE_bind, get_router, se_get, se_lift, se_modify. destruct (at_key _ _); [|done].
  split; try done. cbn. by apply su_set_stat.
Qed.
Lemma framed_health t m ok : framed (note_health t m ok).
Proof.
  intros l b r [A B C D]. unfold note_health, mbind, SE_bind, get_router, se_get, se_lift, se_modify. destruct (at_key _ _); [|done].
  split; try done. cbn. by apply su_set_health.
Qed.
Lemma framed_breaker_at m : framed (breaker_at m).
Proof. intros l b r Hr. unfold breaker_at, mbind, SE_bind, get_router, se_get, se_lift. by destruct (at_key _ _). Qed.
Lemma framed_provider_at m : framed (provider_at m).
Proof. intros l b r Hr. unfold provider_at, mbind, SE_bind, get_router, se_get, se_lift. by destruct (at_key _ _). Qed.

Context (m : string) (Hmn : m ≠ n).
Lemma framed_breaker_do f : framed (breaker_do m f).
Proof.
  intros l b r [A B C D]. unfold breaker_do, se_modify. cbn. destruct (od_get m (breakers r)); [|done].
  split; [by apply su_set_breaker|done| |done]. cbn. by rewrite od_get_set_ne.
Qed.
Lemma framed_set_breaker b' : framed (se_modify (fun r => with_breakers r (od_set m b' (breakers r)))).
Proof. intros l b r [A B C D]. split; [by apply su_set_breaker|done| |done]. cbn. by rewrite od_get_set_ne. Qed.
Lemma framed_limiter_do f : framed (limiter_do m f).
Proof.
  intros l b r [A B C D]. unfold limiter_do, mbind, SE_bind, get_router, se_get, se_modify, mret, SE_ret.
  destruct (od_get m (limiter r)) as [l'|]; [|done]. destruct (f l') as [o l'']. cbn.
  split; [by eapply su_same; [..|exact A]| |done|done]. cbn. by rewrite od_get_set_ne.
Qed.
Lemma framed_limiter_set f : framed (limiter_set m f).
Proof. apply framed_limiter_do. Qed.
Lemma framed_limiter_release : framed (limiter_release m).
Proof.
  intros l b r [A B C D]. unfold limiter_release, se_modify, global_release, get_limiter. cbn.
  destruct (od_get m (limiter r)); cbn; (split; [by eapply su_same; [..|exact A]| |done|done]); cbn; rewrite ?od_get_set_ne by done; done.
Qed.
End Frame.

Create HintDb frame.
#[export] Hint Resolve framed_pure framed_get framed_stat framed_health framed_breaker_at framed_provider_at
  framed_breaker_do framed_set_breaker framed_limiter_do framed_limiter_set framed_limiter_release : frame.

Ltac framestep :=
  match goal with
  | |- framed _ _ (mret _) => by intros ? ? ?
  | |- framed _ _ (se_raise _) => by intros ? ? ?
  | |- framed _ _ (_ ≫= _) => apply framed_bind; [|intros ?]
  | |- framed _ _ (if ?b then _ else _) => destruct b
  | |- framed _ _ (match ?x with _ => _ end) => destruct x
  | |- framed _ _ (se_modify _) => apply framed_modify; intros ? ? ? ?; cbv beta; repeat case_match; try done; by eapply vw_same; [..|eassumption]
  end.
Ltac frames := repeat (first [solve [auto with frame] | framestep]).

(** ** Coroutines that leave a provider alone *)
Section Foreign.
Context `{PyStr} `{HalfPow} `{TextLib} `{SecondsText} `{KeyDigest (list (string * string)) cache_options}.
Context {W : Type} `{UsageCell W} (n : string) (cfg : RoutingConfig).
Abbreviation S := (Router * W)%type.
Abbreviation call := (coro reading S event).
Abbreviation vw := (view n cfg).
Abbreviation framed := (framed n cfg).
Implicit Types (l : ProviderLimiter) (b : CircuitBreaker) (rd : reading).

Definition anything (_ : reading) (X : Type) (_ : event X) : Prop := True.
Abbreviation foreign := (leaves (W := W) n cfg anything).
Abbreviation vrun := (vruns (W := W) n cfg anything).

Lemma any_ok m q dl timeout rd X (e : event X) : in_time m q dl timeout rd X e -> anything rd X e.
Proof. done. Qed.

Lemma fo_fin {A} (o : outcome A) : foreign (finish o).
Proof. intros l b rd. by apply vr_fin. Qed.
Lemma fo_ret {A} (a : A) : foreign (mret a).
Proof. apply (fo_fin (Return a)). Qed.
Lemma fo_throw {A} e : foreign (throw (A := A) e).
Proof. apply (fo_fin (Throw e)). Qed.
Lemma fo_bind {A B} (c : call A) (f : A -> call B) : foreign c -> (forall a, foreign (f a)) -> foreign (c ≫= f).
Proof.
  intros Hc Hf l b rd. eapply vr_bind; [apply Hc| |done|done]. intros a rd' ? ? [-> ->]. apply Hf.
Qed.
Lemma fo_try {A} (c : call A) : foreign c -> foreign (try_ c).
Proof.
  intros Hc l b rd. eapply vr_after; [apply Hc|]. intros o rd' ? ? [-> ->]. by apply vr_fin.
Qed.
Lemma fo_seg {A} (m : reading -> RM A) : (forall rd, framed (m rd)) -> foreign (router_seg m).
Proof. intros Hm l b rd. apply vr_read. intros rd' r Hr. by apply Hm. Qed.
Lemma fo_await {X} (e : event X) : foreign (await e).
Proof. intros l b rd s Hs. apply runs_await; [done| |]; intros; exists l, b; (split; [|done]); auto. Qed.
Lemma fo_state {A} (m : reading -> SE S exn A) :
  (forall l b rd s, vw l b s.1 -> vw l b (m rd s).2.1) -> foreign (seg m).
Proof. intros Hm l b rd s Hs. apply runs_seg. intros rd'. exists l, b. split; [by apply Hm|done]. Qed.
Lemma fo_clock : foreign clock.
Proof. by apply fo_state. Qed.

Lemma fo_retries {A} dl k (func : call A) : foreign func -> foreign (with_retries dl k func).
Proof.
  intros Hf l b rd. unshelve eapply vr_with_retries; [exact (mkRequest [] None 0 0 false None [] None None None)|exact 0%Q|done|done].
Qed.
End Foreign.

#[export] Hint Resolve fo_fin fo_ret fo_throw fo_await fo_clock : frame.
Ltac foreignstep :=
  match goal with
  | |- leaves _ _ _ (router_seg _) => apply fo_seg; intros ?; solve [frames]
  | |- leaves _ _ _ (try_ _) => apply fo_try
  | |- leaves _ _ _ (_ ≫= _) => apply fo_bind; [|intros ?]
  | |- leaves _ _ _ (if ?b then _ else _) => destruct b
  | |- leaves _ _ _ (match ?x with _ => _ end) => destruct x
  end.
Ltac foreigns := repeat (first [solve [auto with frame] | foreignstep]).

Section ForeignCalls.
Context `{PyStr} `{HalfPow} `{TextLib} `{SecondsText} `{KeyDigest (list (string * string)) cache_options}.
Context {W : Type} `{UsageCell W} (n : string) (cfg : RoutingConfig).
Abbreviation S := (Router * W)%type.
Abbreviation call := (coro reading S event).
Abbreviation framed := (framed n cfg).
Abbreviation foreign := (leaves (W := W) n cfg anything).
Implicit Types (l : ProviderLimiter) (b : CircuitBreaker) (rd : reading).

Lemma framed_settle_stream m q u chars d c l b r : view n cfg l b r -> view n cfg l b (_settle_stream m q u chars d c r).2.
Proof.
  intros Hr. unfold _settle_stream. destruct d; [|done]. cbn [negb]. destruct (od_get m (providers r)) as [p|]; [|done].
  destruct (settle_usage m q chars c p u) as [u' e].
  assert (Hr' : view n cfg l b (if e then with_streams_estimated r (counter_incr m (streams_estimated r)) else r))
    by (destruct e; [|done]; by eapply vw_same; [..|exact Hr]).
  set (r1 := if e then _ else r) in *. destruct (bill p _ _ _) as [cost|?]; [|done].
  pose proof (framed_stat n cfg m (fun s => mkStat (ps_requests s) (ps_errors s) (ps_cost s + cost)%Q (latency_ms_history s)
    (error_kinds s) (error_statuses s)) l b r1 Hr') as Hs.
  destruct (update_stat _ _ r1) as [[?|?] r2]; [|done]. by eapply vw_same; [..|exact Hs].
Qed.

(** What the generator does with its usage and its provider stream concerns no
    limiter and no breaker. *)
Lemma fo_set_usage f : foreign (set_usage f).
Proof. apply fo_state. by intros l b rd [r w] Hr. Qed.
Lemma fo_settle_stream m q chars d c : foreign (settle_stream m q chars d c).
Proof.
  apply fo_state. intros l b rd [r w] Hr. unfold se_modify. cbn [fst snd] in *.
  pose proof (framed_settle_stream m q (stream_usage w) chars d c l b r Hr) as Hs.
  by destruct (_settle_stream _ _ _ _ _ _ r).
Qed.
Lemma fo_close m q : foreign (_close_stream m q).
Proof. unfold _close_stream. foreigns. Qed.
Hint Resolve fo_set_usage fo_settle_stream fo_close : frame.

Lemma fo_attempt_seconds dl t : foreign (attempt_seconds dl t).
Proof. unfold attempt_seconds. foreigns. Qed.
Lemma fo_timed_out {A} m dl s t : foreign (timed_out (A := A) m dl s t).
Proof. unfold timed_out. foreigns. Qed.
Hint Resolve fo_attempt_seconds fo_timed_out : frame.
Lemma fo_open_attempt m q dl t : foreign (open_attempt m q dl t).
Proof. unfold open_attempt. foreigns. Qed.
Lemma fo_failed_call m e is_last : foreign (router_seg (failed_call m e is_last)).
Proof. unfold failed_call, count_failover. foreigns. Qed.
Lemma fo_unavailable {A} failures : foreign (router_seg (fun rd => unavailable (A := A) (rd_env rd) failures)).
Proof. apply fo_seg. intros rd. unfold unavailable. frames. Qed.
Hint Resolve fo_open_attempt fo_failed_call fo_unavailable fo_retries : frame.

Context (m : string) (Hmn : m ≠ n).
Lemma fo_reserve est mw t : foreign (limiter_reserve m est mw t).
Proof using Hmn. unfold limiter_reserve. foreigns. Qed.
Hint Resolve fo_reserve : frame.
Lemma fo_acquire est mw : foreign (limiter_acquire m est mw).
Proof using Hmn. unfold limiter_acquire. foreigns. Qed.
Hint Resolve fo_acquire : frame.
Lemma fo_admit q dl : foreign (_admit m q dl).
Proof using Hmn. unfold _admit, _count_local_rate_limit. foreigns. Qed.
Lemma fo_check dl : foreign (check_deadline m dl).
Proof using Hmn. unfold check_deadline. foreigns. Qed.
Lemma framed_record_error t k st : framed (_record_error t m k st).
Proof using Hmn. unfold _record_error. frames. Qed.
Hint Resolve fo_admit fo_check framed_record_error : frame.
Lemma framed_settle_failure e rd : framed (settle_failure m e rd).
Proof using Hmn. unfold settle_failure. frames. Qed.
Lemma framed_allow rd : framed (breaker_allow m rd).
Proof using Hmn.
  unfold breaker_allow. apply framed_bind; [auto with frame|]. intros b.
  destruct (CircuitBreaker.allow (now_of rd) b) as [ok b']. frames.
Qed.
Hint Resolve framed_settle_failure framed_allow : frame.
Lemma fo_open_stream q dl k t : foreign (_open_stream m q dl k t).
Proof using Hmn. unfold _open_stream. foreigns. Qed.
Lemma fo_finally {A} q chars d c (o : outcome A) : foreign (finally_ m q chars d c o).
Proof using Hmn. unfold finally_. foreigns. Qed.
Hint Resolve fo_open_stream fo_finally : frame.
Lemma fo_completed q chars d : foreign (completed_stream m q chars d).
Proof using Hmn. unfold completed_stream. foreigns. Qed.
Lemma fo_interrupted q chars e : foreign (interrupted m q chars e).
Proof using Hmn. unfold interrupted. foreigns. Qed.
Lemma fo_client_left {A} q chars (o : outcome A) : foreign (client_left m q chars o).
Proof using Hmn. unfold client_left. foreigns. Qed.
End ForeignCalls.

(** ** The provider itself *)
Section Settled.
Context `{PyStr} `{HalfPow} `{TextLib} `{SecondsText} `{KeyDigest (list (string * string)) cache_options}.
Context {W : Type} `{UsageCell W} (model_gate : option (string -> SE W exn unit)) (n : string) (cfg : RoutingConfig).
Abbreviation S := (Router * W)%type.
Abbreviation call := (coro reading S event).
Abbreviation foreign := (leaves (W := W) n cfg anything).
Abbreviation vrun := (vruns (W := W) n cfg anything).
Implicit Types (l : ProviderLimiter) (b : CircuitBreaker) (rd : reading).

(** A step that leaves the provider alone, in a run that does not. *)
Lemma vr_foreign {A B} (c : call A) (f : A -> call B) l b rd F :
  foreign c -> (forall a rd, vrun (f a) l b rd F) ->
  (forall (o : outcome B) rd, (forall a, o ≠ Return a) -> F o rd l b) -> vrun (c ≫= f) l b rd F.
Proof.
  intros Hc Hf HF. eapply vr_bind; [apply Hc| | |].
  - intros a rd' ? ? [-> ->]. apply Hf.
  - intros e rd' ? ? [-> ->]. by apply HF.
  - intros rd' ? ? [-> ->]. by apply HF.
Qed.

(** Exactly one verdict. *)
Definition judged b b' : Prop :=
  (exists t, b' = record_success t b) \/ b' = CircuitBreaker.release b \/ exists e rd, b' = verdict e rd b.
Definition back l0 b0 {A} (_ : outcome A) (_ : reading) l b : Prop := same_permits l0 l /\ judged b0 b.

Lemma settled_back l b {A} (o : outcome A) rd l' b' : settled l b o rd l' b' -> back l b o rd l' b'.
Proof. intros [Hp Hv]. split; [done|]. unfold judged. destruct o; [by left|naive_solver|auto]. Qed.

Lemma vr_open_stream q dl k t l b rd : 0 <= active_requests l ->
  vrun (_open_stream n q dl k t) l b rd (fun o rd l' b' =>
    match o with Return _ => b' = b /\ admitted l l' | _ => settled l b o rd l' b' end).
Proof.
  intros Ha. unfold _open_stream.
  eapply vr_bind with (F := fun o _ l' b' => o = Return tt /\ l' = l /\ b' = b).
  { eapply vr_seg with (Q := fun _ x l' b' => x = Ok tt /\ l' = l /\ b' = b).
    - intros rd'. apply vs_keep. intros r Hr. destruct (vw_provider _ _ _ _ _ Hr) as [p Hp].
      unfold provider_at, at_key, mbind, SE_bind, get_router, se_get, se_lift. rewrite Hp. done.
    - by intros rd' x l' b' (-> & -> & ->). }
  2,3: by intros; destruct_and!.
  intros _ rd1 ? ? (_ & -> & ->).
  eapply vr_bind; [apply vr_check| | |done].
  2: { intros e rd2 l' b' [-> ->]. split; [done|]. right; by exists rd2. }
  intros _ rd2 ? ? [-> ->].
  eapply vr_bind; [by eapply (vr_admit n cfg q dl t)| |done|done].
  intros _ rd3 l3 ? [-> Hl3]. apply vr_try with (F := untouched l3 b).
  { apply fo_retries, fo_open_attempt. }
  intros o rd4 ? ? [-> ->]. destruct o as [first|e|]; [by apply vr_fin| |].
  - apply vr_unit with (l1 := Limiter.release l3) (b1 := fun rd => verdict e rd b).
    + intros rd5. eapply vs_bind; [apply vs_settle_failure| |by intros ? ? ? (_ & _ & ?)]. intros _ ? ? (-> & -> & _).
      eapply vs_weaken; [apply vs_limiter_release|]. by intros x l' b' (-> & -> & ->).
    + intros rd5. apply vr_fin. split; [by apply release_permits|]. right. by exists rd5.
  - apply vr_unit with (l1 := Limiter.release l3) (b1 := fun _ => CircuitBreaker.release b).
    + intros rd5. eapply vs_bind; [apply vs_breaker_do| |by intros ? ? ? (_ & _ & ?)]. intros _ ? ? (-> & -> & _).
      eapply vs_weaken; [apply vs_limiter_release|]. by intros x l' b' (-> & -> & ->).
    + intros rd5. apply vr_fin. split; [by apply release_permits|done].
Qed.

Lemma vr_finally q chars d c {A} (o : outcome A) l b rd :
  vrun (finally_ n q chars d c o) l b rd (fun o' _ l' b' => l' = Limiter.release l /\ b' = b /\ (o' = o \/ o' = Cancel)).
Proof.
  unfold finally_.
  eapply vr_bind with (F := fun (o : outcome unit) _ l' b' => o = Return tt /\ l' = l /\ b' = b).
  { intros s Hs. apply runs_seg. intros rd'. exists l, b. split.
    - destruct s as [r w]. unfold se_modify. cbn [fst snd] in *.
      pose proof (framed_settle_stream n cfg n q (stream_usage w) chars d c l b r Hs) as Hv. by destruct (_settle_stream _ _ _ _ _ _ r).
    - done. }
  2,3: by intros; destruct_and!.
  intros _ rd1 ? ? (_ & -> & ->). apply vr_unit with (l1 := Limiter.release l) (b1 := fun _ => b).
  { intros rd2. eapply vs_weaken; [apply vs_limiter_release|]. by intros x l' b' (-> & -> & ->). }
  intros rd2. unfold _close_stream.
  eapply vr_bind with (F := fun o' _ l' b' => l' = Limiter.release l /\ b' = b /\ (o' = Return tt \/ o' = Cancel)).
  - eapply vr_bind with (F := fun o' _ l' b' => l' = Limiter.release l /\ b' = b /\ forall e, o' ≠ Throw e).
    + intros s Hs. apply runs_await; [done| |]; intros; exists (Limiter.release l), b; (split; [|done]); auto.
    + intros x rd3 ? ? (-> & -> & _). apply (vr_fin _ _ _ (Return tt)). auto.
    + intros e rd3 ? ? (_ & _ & He). by destruct (He e).
    + intros rd3 ? ? (-> & -> & _). auto.
  - intros x rd3 ? ? (-> & -> & _). apply vr_fin. auto.
  - by intros e rd3 ? ? (-> & -> & [?|?]).
  - intros rd3 ? ? (-> & -> & _). auto.
Qed.

(** How a stream that holds a permit goes on. *)
Definition goes_on l0 l b (o : outcome (option string * stream_state)) (_ : reading) l' b' : Prop :=
  match o with
  | Return (Some _, st) => exists o, st = Open o /\ os_name o = n /\ l' = l /\ b' = b
  | Return (None, _) => same_permits l0 l' /\ exists t, b' = record_success t b
  | Throw e => same_permits l0 l' /\ exists rd, b' = verdict e rd b
  | Cancel => same_permits l0 l' /\ judged b b'
  end.

Lemma vr_completed q chars d l0 l b rd : 0 <= active_requests l0 -> admitted l0 l ->
  vrun (completed_stream n q chars d) l b rd (goes_on l0 l b).
Proof.
  intros Ha Hl. unfold completed_stream.
  apply vr_try with (F := fun o rd l' b' => o = Return tt /\ l' = l /\ exists t, b' = record_success t b).
  - eapply vr_seg with (Q := fun rd x l' b' => x = Ok tt /\ l' = l /\ b' = record_success (now_of rd) b).
    + intros rd'. eapply vs_bind; [apply vs_breaker_do| |by intros ? ? ? (_ & _ & ?)]. intros _ ? ? (-> & -> & _).
      eapply vs_weaken; [apply vs_stat|]. by intros x l' b' (-> & -> & ->).
    + intros rd' x l' b' (-> & -> & ->). eauto.
  - intros o rd1 ? ? (-> & -> & t & ->). eapply vr_weaken; [apply vr_finally|].
    intros o' rd2 ? ? (-> & -> & Ho). pose proof (release_permits _ _ Ha Hl) as Hp. unfold goes_on, judged.
    destruct Ho as [->| ->]; eauto.
Qed.

Lemma vr_interrupted q chars e l0 l b rd : 0 <= active_requests l0 -> admitted l0 l ->
  vrun (interrupted n q chars e) l b rd (goes_on l0 l b).
Proof.
  intros Ha Hl. unfold interrupted.
  apply vr_try with (F := fun o rd l' b' => o = Return tt /\ l' = l /\ b' = verdict e rd b).
  - eapply vr_seg; [intros rd'; apply vs_settle_failure|]. by intros rd' x l' b' (-> & -> & ->).
  - intros o rd1 ? ? (-> & -> & ->). eapply vr_weaken; [apply vr_finally|].
    intros o' rd2 ? ? (-> & -> & Ho). pose proof (release_permits _ _ Ha Hl) as Hp. unfold goes_on, judged.
    destruct Ho as [->| ->]; eauto 6.
Qed.

Lemma vr_client_left {A} q chars (o : outcome A) l0 l b rd : 0 <= active_requests l0 -> admitted l0 l ->
  vrun (client_left n q chars o) l b rd (fun o' rd l' b' => (o' = o \/ o' = Cancel) /\ same_permits l0 l' /\ b' = CircuitBreaker.release b).
Proof.
  intros Ha Hl. unfold client_left. apply vr_unit with (l1 := l) (b1 := fun _ => CircuitBreaker.release b).
  - intros rd1. eapply vs_weaken; [apply vs_breaker_do|]. by intros x l' b' (-> & -> & ->).
  - intros rd1. eapply vr_weaken; [apply vr_finally|]. intros o' rd2 ? ? (-> & -> & Ho). split; [done|].
    split; [by apply release_permits|done].
Qed.

Lemma vr_next o l0 l b rd : 0 <= active_requests l0 -> admitted l0 l -> os_name o = n ->
  vrun (stream_next model_gate (Open o)) l b rd (goes_on l0 l b).
Proof.
  intros Ha Hl Ho. destruct o as [n' q t chars]. cbn [os_name] in Ho. subst n'. cbn [stream_next].
  apply vr_try with (F := untouched l b); [apply fo_bind; intros; auto with frame|].
  intros o rd1 ? ? [-> ->]. destruct o as [[chunk|]|e|].
  - apply (vr_fin _ _ _ (Return _)). by eexists.
  - by apply vr_completed.
  - by apply vr_interrupted.
  - eapply vr_weaken; [by apply (vr_client_left (A := option string * stream_state))|].
    intros o rd2 l' b' (Ho & Hp & ->). unfold goes_on, judged. destruct Ho as [->| ->]; auto.
Qed.

(** However far the client reads. *)
Lemma vr_received take c l0 l b l1 b1 rd :
  (forall o rd, os_name o = n -> vrun (take_chunks model_gate take (Open o)) l b rd (back l0 b)) ->
  vrun c l1 b1 rd (goes_on l0 l b) -> vrun (received (take_chunks model_gate take) c) l1 b1 rd (back l0 b).
Proof.
  intros Hrest Hc. unfold received. eapply vr_try; [exact Hc|]. intros [[[chunk|] st]|e|] rd1 l' b'; cbn [goes_on].
  - intros (o' & -> & Ho' & -> & ->). eapply vr_bind; [by apply Hrest| |done|done].
    intros [chunks e] rd2 l2 b2 HF. by apply (vr_fin _ _ _ (Return _)).
  - intros [Hp [t ->]]. apply (vr_fin _ _ _ (Return _)). split; [done|]. left. by exists t.
  - intros [Hp [rd2 ->]]. apply (vr_fin _ _ _ (Return _)). split; [done|]. right. right. by exists e, rd2.
  - intros Hb. by apply (vr_fin _ _ _ (Return _)).
Qed.

Lemma vr_take take o l0 l b rd : 0 <= active_requests l0 -> admitted l0 l -> os_name o = n ->
  vrun (take_chunks model_gate take (Open o)) l b rd (back l0 b).
Proof.
  intros Ha. revert o rd. induction take as [|take IH]; intros o rd Hl Ho; cbn [take_chunks].
  - destruct o as [n' q t chars]. cbn [os_name] in Ho. subst n'. cbn [stream_close].
    eapply vr_try; [by apply (vr_client_left (A := unit))|]. intros o rd1 l' b' (_ & Hp & ->).
    apply (vr_fin _ _ _ (Return _)). split; [done|]. right. by left.
  - apply vr_received with (l := l); [|by apply vr_next]. intros o' rd1 Ho'. by apply IH.
Qed.
End Settled.

(** ** The candidates and the stream that opens *)
Section Session.
Context `{PyStr} `{HalfPow} `{TextLib} `{SecondsText} `{KeyDigest (list (string * string)) cache_options}.
Context {W : Type} `{UsageCell W} (model_gate : option (string -> SE W exn unit)) (n : string) (cfg : RoutingConfig).
Abbreviation S := (Router * W)%type.
Abbreviation call := (coro reading S event).
Abbreviation foreign := (leaves (W := W) n cfg anything).
Abbreviation vrun := (vruns (W := W) n cfg anything).
Implicit Types (l : ProviderLimiter) (b : CircuitBreaker) (rd : reading) (cands : list (string * CompletionRequest)).

Abbreviation opening := (string * CompletionRequest * Q * option string)%type.

(** Not asked, turned away by its breaker, or admitted and judged once; with
    every permit back in each case. *)
Definition asked_once b b' : Prop :=
  b' = b \/ exists t, match CircuitBreaker.allow t b with (true, b1) => judged b1 b' | (false, b1) => b' = b1 end.
Definition concluded l b l' b' : Prop := same_permits l l' /\ asked_once b b'.

Lemma concluded_refl l b : concluded l b l b.
Proof. split; [done|by left]. Qed.

(** Some other provider may have opened. *)
Definition elsewhere l b cands (o : outcome opening) (_ : reading) l' b' : Prop :=
  l' = l /\ b' = b /\ forall m q t first, o = Return (m, q, t, first) -> m ∈ cands.*1.

Lemma vr_unavailable {A} failures l b rd :
  vrun (router_seg (fun rd => unavailable (A := A) (rd_env rd) failures)) l b rd
    (fun o _ l' b' => l' = l /\ b' = b /\ exists e, o = Throw e).
Proof.
  eapply vr_seg with (Q := fun _ x l' b' => l' = l /\ b' = b /\ exists e, x = Raise e).
  - intros rd'. apply vs_keep. intros r Hr. split; [exact Hr|]. split_and!; [done|done|]. by eexists.
  - intros rd' x l' b' (-> & -> & e & ->). split_and!; [done|done|]. by exists e.
Qed.

Lemma vr_exhausted single failures last l b rd :
  vrun (match single, last with
        | true, Some e => throw e
        | _, _ => router_seg (fun rd => unavailable (A := opening) (rd_env rd) failures)
        end) l b rd (fun o _ l' b' => l' = l /\ b' = b /\ exists e, o = Throw e).
Proof. destruct single, last; try apply vr_unavailable. apply vr_fin. split_and!; [done|done|by eexists]. Qed.

Lemma fo_refusal m : foreign (router_seg (fun rd => b ← breaker_at m; mret (CircuitBreaker.retry_after (now_of rd) b))).
Proof. foreigns. Qed.
Lemma fo_get : foreign (router_seg (fun _ => get_router)).
Proof. foreigns. Qed.

(** Segments that cannot fail. *)
Lemma vr_sure {A B} (m : reading -> SE S exn A) (k : A -> call B) l b rd F :
  (forall rd (s : S), view n cfg l b s.1 -> view n cfg l b (m rd s).2.1 /\ exists a, (m rd s).1 = Ok a) ->
  (forall a rd, vrun (k a) l b rd F) -> vrun (seg m ≫= k) l b rd F.
Proof.
  intros Hm Hk. eapply vr_bind with (F := fun o _ l' b' => l' = l /\ b' = b /\ exists a, o = Return a).
  - intros s Hs. apply runs_seg. intros rd'. destruct (Hm rd' s Hs) as [Hv [a Ea]]. exists l, b. split; [exact Hv|].
    rewrite Ea. split_and!; [done|done|by exists a].
  - intros a rd' ? ? (-> & -> & _). apply Hk.
  - by intros e rd' ? ? (_ & _ & ? & ?).
  - by intros rd' ? ? (_ & _ & ? & ?).
Qed.
Lemma vr_get {B} (k : Router -> call B) l b rd F :
  (forall r rd, vrun (k r) l b rd F) -> vrun (router_seg (fun _ => get_router) ≫= k) l b rd F.
Proof. intros Hk. apply vr_sure; [|exact Hk]. intros rd' [r w] Hr. split; [exact Hr|by exists r]. Qed.
Lemma vr_usage {B} f (k : unit -> call B) l b rd F :
  (forall u rd, vrun (k u) l b rd F) -> vrun (set_usage f ≫= k) l b rd F.
Proof. intros Hk. apply vr_sure; [|exact Hk]. intros rd' [r w] Hr. split; [exact Hr|by eexists]. Qed.

(** Candidates that are not the provider. *)
Lemma vr_loop_elsewhere single dl cands failures last l b rd : n ∉ cands.*1 ->
  vrun (open_loop single dl cands failures last) l b rd (elsewhere l b cands).
Proof.
  revert failures last rd. induction cands as [|[m q] cands IH]; intros failures last rd Hn; cbn [open_loop].
  { eapply vr_weaken; [apply vr_exhausted|]. intros o rd' ? ? (-> & -> & e & ->). by split_and!. }
  cbn in Hn. apply not_elem_of_cons in Hn as [Hm Hn].
  assert (Hrest : forall failures last rd, vrun (open_loop single dl cands failures last) l b rd (elsewhere l b ((m, q) :: cands))).
  { intros f' l' rd'. eapply vr_weaken; [by apply IH|]. intros o rd2 l2 b2 (-> & -> & Ho). split_and!; try done.
    intros m' q' t' first E. right. by eapply Ho. }
  assert (Hend : forall (o : outcome opening) rd, (forall a, o ≠ Return a) -> elsewhere l b ((m, q) :: cands) o rd l b).
  { intros o rd' Ho. split_and!; try done. intros m' q' t' first E. by destruct (Ho _ E). }
  apply vr_foreign; [apply fo_seg; intros ?; by apply framed_allow| |by auto]. intros ok rd1.
  destruct ok; cbn [negb].
  - apply vr_foreign; [apply fo_get| |by auto]. intros r rd2. apply vr_foreign; [apply fo_set_usage| |by auto]. intros _ rd3.
    apply vr_try with (F := untouched l b); [by apply fo_open_stream|]. intros o rd4 ? ? [-> ->]. destruct o as [first|e|].
    + apply vr_fin. split_and!; [done|done|]. intros m' q' t' first' [= -> -> _ _]. left.
    + apply vr_foreign; [apply fo_failed_call| |by auto]. intros k rd5. apply Hrest.
    + apply vr_fin. by apply Hend.
  - apply vr_foreign; [apply fo_refusal| |by auto]. intros ra rd2. apply Hrest.
Qed.

(** The provider's breaker, asked. *)
Lemma vr_allow l b rd : vrun (router_seg (breaker_allow n)) l b rd
  (fun o _ l' b' => l' = l /\ exists t ok, o = Return ok /\ CircuitBreaker.allow t b = (ok, b')).
Proof.
  eapply vr_seg with (Q := fun _ x l' b' => l' = l /\ exists t ok, x = Ok ok /\ CircuitBreaker.allow t b = (ok, b')).
  - intros rd' r Hr. pose proof Hr as [A B C D]. exists l, (CircuitBreaker.allow (now_of rd') b).2.
    unfold breaker_allow, breaker_at, at_key, mbind, SE_bind, get_router, se_get, se_lift, se_modify, mret, SE_ret. rewrite C.
    destruct (CircuitBreaker.allow (now_of rd') b) as [ok b'] eqn:E. cbn. split.
    + split; [by apply su_set_breaker|done|cbn; by rewrite od_get_set_eq|done].
    + split; [done|]. by exists (now_of rd'), ok.
  - intros rd' x l' b' (-> & t & ok & -> & E). split; [done|]. by exists t, ok.
Qed.

(** The stream opened at the provider, with its permit and its probe in hand; or
    not. *)
Definition opened l b (o : outcome opening) (rd : reading) l' b' : Prop :=
  (exists q t first tm, o = Return (n, q, tm, first) /\ CircuitBreaker.allow t b = (true, b') /\ admitted l l') \/
  (concluded l b l' b' /\ forall q tm first, o ≠ Return (n, q, tm, first)).

Lemma vr_open_loop single dl cands failures last l b rd : 0 <= active_requests l -> NoDup cands.*1 ->
  vrun (open_loop single dl cands failures last) l b rd (opened l b).
Proof.
  intros Ha. revert failures last rd. induction cands as [|[m q] cands IH]; intros failures last rd Hnd; cbn [open_loop].
  { eapply vr_weaken; [apply vr_exhausted|]. intros o rd' ? ? (-> & -> & e & ->). right. split; [apply concluded_refl|done]. }
  cbn in Hnd. apply NoDup_cons in Hnd as [Hm Hnd].
  assert (Hend : forall l1 b1 (o : outcome opening) rd, concluded l b l1 b1 -> (forall a, o ≠ Return a) -> opened l b o rd l1 b1).
  { intros l1 b1 o rd' Hc Ho. right. split; [done|]. intros. apply Ho. }
  destruct (decide (m = n)) as [->|Hne].
  - assert (Hrest : forall f' x' l1 b1 rd, concluded l b l1 b1 -> vrun (open_loop single dl cands f' x') l1 b1 rd (opened l b)).
    { intros f' x' l1 b1 rd' Hc. eapply vr_weaken; [by apply vr_loop_elsewhere|]. intros o rd2 ? ? (-> & -> & Ho).
      right. split; [done|]. intros q' tm first ->. by eapply Hm, Ho. }
    eapply vr_bind; [apply vr_allow| |by intros ? ? ? ? (_ & ? & ? & ? & _)|by intros ? ? ? (_ & ? & ? & ? & _)].
    intros ok rd1 ? b1 (-> & t & ok' & [= ->] & Hok). destruct ok'; cbn [negb].
    + assert (Hj : forall l2 b2, same_permits l l2 -> judged b1 b2 -> concluded l b l2 b2).
      { intros l2 b2 Hp Hb. split; [done|]. right. exists t. by rewrite Hok. }
      apply vr_get. intros r rd2. apply vr_usage. intros _ rd3.
      eapply vr_try; [by apply vr_open_stream|]. intros o rd4 l4 b4 Ho. destruct o as [first|e|].
      * destruct Ho as [-> Hl]. apply vr_fin. left. by exists q, t, first, (_timeout_for n r).
      * apply settled_back in Ho as [Hp Hb]. apply vr_foreign; [apply fo_failed_call| |].
        -- intros k rd5. apply Hrest. by apply Hj.
        -- intros o rd5 Ho. apply Hend; [by apply Hj|done].
      * apply settled_back in Ho as [Hp Hb]. apply vr_fin. apply Hend; [by apply Hj|done].
    + apply vr_foreign; [apply fo_refusal| |].
      * intros ra rd2. apply Hrest. split; [done|]. right. exists t. by rewrite Hok.
      * intros o rd2 Ho. apply Hend; [|done]. split; [done|]. right. exists t. by rewrite Hok.
  - apply vr_foreign; [apply fo_seg; intros ?; by apply framed_allow| |by intros; apply Hend; [apply concluded_refl|]]. intros ok rd1.
    destruct ok; cbn [negb].
    + apply vr_get. intros r rd2. apply vr_usage. intros _ rd3.
      apply vr_try with (F := untouched l b); [by apply fo_open_stream|]. intros o rd4 ? ? [-> ->]. destruct o as [first|e|].
      * apply vr_fin. right. split; [apply concluded_refl|]. congruence.
      * apply vr_foreign; [apply fo_failed_call| |by intros; apply Hend; [apply concluded_refl|]]. intros k rd5. by apply IH.
      * apply vr_fin. apply Hend; [apply concluded_refl|done].
    + apply vr_foreign; [apply fo_refusal| |by intros; apply Hend; [apply concluded_refl|]]. intros ra rd2. by apply IH.
Qed.

(** Another provider's stream, to its end. *)
Definition away (st : stream_state) : Prop := match st with Open o => os_name o ≠ n | Over => True | Fresh _ _ _ => False end.
Definition still_away l b (o : outcome (option string * stream_state)) (_ : reading) l' b' : Prop :=
  l' = l /\ b' = b /\ forall x, o = Return x -> away x.2.

Lemma vr_away_end l b (o : outcome (option string * stream_state)) rd : (forall x, o ≠ Return x) -> still_away l b o rd l b.
Proof. intros Ho. split_and!; [done|done|]. intros x E. by destruct (Ho x). Qed.

Lemma vr_finally_away m q chars d c o l b rd : m ≠ n -> (forall x, o = Return x -> away x.2) ->
  vrun (finally_ m q chars d c o) l b rd (still_away l b).
Proof.
  intros Hm Ho. unfold finally_. apply vr_foreign; [apply fo_settle_stream| |apply vr_away_end]. intros _ rd1.
  apply vr_foreign; [apply fo_seg; intros ?; by apply framed_limiter_release| |apply vr_away_end]. intros _ rd2.
  apply vr_foreign; [apply fo_close| |apply vr_away_end]. intros _ rd3. by apply vr_fin.
Qed.

Lemma vr_completed_away m q chars d l b rd : m ≠ n -> vrun (completed_stream m q chars d) l b rd (still_away l b).
Proof.
  intros Hm. unfold completed_stream. apply vr_try with (F := untouched l b).
  - apply fo_seg. intros rd'. apply framed_bind; [by apply framed_breaker_do|]. intros _. apply framed_stat.
  - intros o rd1 ? ? [-> ->]. apply vr_finally_away; [done|]. destruct o; by intros x [= <-].
Qed.

Lemma vr_next_away o l b rd : os_name o ≠ n -> vrun (stream_next model_gate (Open o)) l b rd (still_away l b).
Proof.
  destruct o as [m q t chars]. cbn [os_name stream_next]. intros Hm.
  apply vr_try with (F := untouched l b); [apply fo_bind; intros; auto with frame|].
  intros o rd1 ? ? [-> ->]. destruct o as [[chunk|]|e|].
  - apply vr_fin. split_and!; [done|done|]. by intros x [= <-].
  - by apply vr_completed_away.
  - unfold interrupted. apply vr_try with (F := untouched l b); [apply fo_seg; intros ?; by apply framed_settle_failure|].
    intros o rd2 ? ? [-> ->]. apply vr_finally_away; [done|]. by destruct o.
  - unfold client_left. apply vr_foreign; [apply fo_seg; intros ?; by apply framed_breaker_do| |apply vr_away_end].
    intros _ rd2. by apply vr_finally_away.
Qed.

Lemma fo_received take c l b rd : (forall st, away st -> foreign (take_chunks model_gate take st)) ->
  vrun c l b rd (still_away l b) -> vrun (received (take_chunks model_gate take) c) l b rd (untouched l b).
Proof.
  intros Hrest Hc. unfold received. eapply vr_try; [exact Hc|]. intros [[[chunk|] st]|e|] rd1 ? ? (-> & -> & Hx).
  2-4: by apply (vr_fin _ _ _ (Return _)).
  eapply vr_bind; [apply Hrest, (Hx _ eq_refl)| |done|done]. intros [chunks e] rd2 ? ? [-> ->]. by apply (vr_fin _ _ _ (Return _)).
Qed.

Lemma fo_take take st : away st -> foreign (take_chunks model_gate take st).
Proof.
  revert st. induction take as [|take IH]; intros st Hst l b rd; cbn [take_chunks].
  - revert l b rd. apply fo_bind; [|auto with frame]. apply fo_try. destruct st as [| [m q t chars]|]; cbn [stream_close]; auto with frame.
    by apply fo_client_left.
  - apply fo_received; [exact IH|]. destruct st as [q p d|o|]; [done|by apply vr_next_away|].
    apply (vr_fin _ _ _ (Return _)). split_and!; [done|done|]. by intros x [= <-].
Qed.

Lemma vr_opened_model {A} m q (k : string -> call A) l b rd F :
  (m = n \/ forall (o : outcome A) rd, (forall a, o ≠ Return a) -> F o rd l b) ->
  (forall x rd, vrun (k x) l b rd F) ->
  vrun (router_seg (fun _ =>
    match str_or (rq_model q) EmptyString with
    | EmptyString => p ← provider_at m; mret (default_model p)
    | x => mret x
    end) ≫= k) l b rd F.
Proof.
  intros [->|HF] Hk.
  - apply vr_sure; [|exact Hk]. intros rd' [r w] Hr. unfold lift_router. cbn [fst snd] in *.
    destruct (str_or _ _) as [|c x]; [|split; [exact Hr|by eexists]]. destruct (vw_provider _ _ _ _ _ Hr) as [p Hp].
    unfold provider_at, at_key, mbind, SE_bind, get_router, se_get, se_lift. rewrite Hp. split; [exact Hr|by eexists].
  - apply vr_foreign; [|exact Hk|exact HF]. apply fo_seg. intros rd'. destruct (str_or _ _); frames.
Qed.

Lemma vr_session dl cands take l b rd : 0 <= active_requests l -> NoDup cands.*1 ->
  vrun (received (take_chunks model_gate take) (start dl cands)) l b rd (fun _ _ l' b' => concluded l b l' b').
Proof.
  intros Ha Hnd. unfold received.
  apply vr_try with (F := fun o rd l' b' =>
    (exists t b1, CircuitBreaker.allow t b = (true, b1) /\ exists l1, admitted l l1 /\ goes_on n l l1 b1 o rd l' b') \/
    (concluded l b l' b' /\ forall x, o = Return x -> away x.2)).
  - unfold start. eapply vr_bind; [by apply vr_open_loop| | |].
    + intros [[[m q] tm] first] rd1 l1 b1 Ho. unfold deliver.
      destruct Ho as [(q' & t & first' & tm' & [= -> -> -> ->] & Hok & Hl)|[Hc Hne]].
      * apply vr_opened_model; [by left|]. intros x rd2. apply vr_usage. intros _ rd3.
        eapply vr_weaken with (F := goes_on n l l1 b1).
        -- destruct first' as [chunk|]; [|by apply vr_completed]. apply (vr_fin _ _ _ (Return _)). by eexists.
        -- intros o rd4 l4 b4 Hg. left. eauto 6.
      * assert (Hm : m ≠ n) by (intros ->; by eapply Hne). apply vr_opened_model.
        { right. intros o rd2 Ho. right. split; [done|]. intros x E. by destruct (Ho x). }
        intros x rd2. apply vr_usage. intros _ rd3. eapply vr_weaken with (F := still_away l1 b1).
        -- destruct first as [chunk|]; [|by apply vr_completed_away]. apply (vr_fin _ _ _ (Return _)).
           split_and!; [done|done|]. by intros ? [= <-].
        -- intros o rd4 ? ? (-> & -> & Ho). right. auto.
    + intros e rd1 l1 b1 [(q & t & first & tm & Ho & _)|[Hc _]]; [done|]. right. done.
    + intros rd1 l1 b1 [(q & t & first & tm & Ho & _)|[Hc _]]; [done|]. right. done.
  - intros o rd1 l1 b1 [(t & b2 & Hok & l2 & Hl2 & Hg)|[Hc Hst]].
    + assert (Hback : forall l' b', same_permits l l' -> judged b2 b' -> concluded l b l' b').
      { intros l' b' Hp Hj. split; [done|]. right. exists t. by rewrite Hok. }
      destruct o as [[[chunk|] st]|e|]; cbn [goes_on] in Hg.
      * destruct Hg as (o & -> & Ho & -> & ->).
        eapply vr_bind; [by apply (vr_take model_gate n cfg take o l)| |by intros ? ? ? ? [? ?]; apply Hback|by intros ? ? ? [? ?]; apply Hback].
        intros [chunks e] rd2 l3 b3 [Hp Hj]. apply (vr_fin _ _ _ (Return _)). by apply Hback.
      * destruct Hg as [Hp [t' ->]]. apply (vr_fin _ _ _ (Return _)). apply Hback; [done|]. left. by eexists.
      * destruct Hg as [Hp [rd2 ->]]. apply (vr_fin _ _ _ (Return _)). apply Hback; [done|]. right. right. by exists e, rd2.
      * destruct Hg as [Hp Hj]. apply (vr_fin _ _ _ (Return _)). by apply Hback.
    + destruct o as [[[chunk|] st]|e|]. 2-4: by apply (vr_fin _ _ _ (Return _)).
      eapply vr_bind; [apply fo_take, (Hst _ eq_refl)| |by intros ? ? ? ? [-> ->]|by intros ? ? ? [-> ->]].
      intros [chunks e] rd2 ? ? [-> ->]. by apply (vr_fin _ _ _ (Return _)).
Qed.
End Session.

(** ** Whose chunks the client gets *)
Section Source.
Context `{PyStr} `{HalfPow} `{TextLib} `{SecondsText} `{KeyDigest (list (string * string)) cache_options}.
Context {W : Type} `{UsageCell W} (model_gate : option (string -> SE W exn unit)).
Context (P : string -> CompletionRequest -> string -> Prop).
Abbreviation S := (Router * W)%type.
Abbreviation call := (coro reading S event).

Definition returns {A} (G : A -> Prop) (o : outcome A) : Prop := match o with Return a => G a | _ => True end.

(** [P n q chunk]: provider [n] sent [chunk] for the request [q]. *)
Definition sent {X} (e : event X) : X -> Prop :=
  match e with
  | EFirst n q _ | ENext n q _ => fun x => match x with Ok (Some chunk) => P n q chunk | _ => True end
  | _ => fun _ => True
  end.
Abbreviation ends := (steady (R := reading) (S := S) (fun _ => True) (@sent)).
Abbreviation yields c G := (ends c (returns G)).

Lemma ends_any {A} (c : call A) : ends c (fun _ => True).
Proof.
  refine ((fix go (c : call A) : ends c (fun _ => True) :=
    match c with
    | Done o => Logic.I
    | Seg f => fun r s _ => _
    | Await e k => conj (fun x _ => go (k (Some x))) (go (k None))
    end) c).
  destruct (f r s) as [c' s']. exact (conj Logic.I (go c')).
Qed.
Lemma yields_weaken {A} (c : call A) (F G : A -> Prop) : yields c F -> (forall a, F a -> G a) -> yields c G.
Proof. intros Hc HFG. eapply steady_weaken; [exact Hc|]. intros [a|e|]; cbn; auto. Qed.
Lemma yields_bind {A B} (c : call A) (f : A -> call B) F G :
  yields c F -> (forall a, F a -> yields (f a) G) -> yields (c ≫= f) G.
Proof. intros Hc Hf. eapply steady_bind; [exact Hc|auto|done|done]. Qed.
Lemma yields_after {A B} (c : call A) (f : A -> call B) G : (forall a, yields (f a) G) -> yields (c ≫= f) G.
Proof. intros Hf. eapply yields_bind with (F := fun _ => True); [|auto]. eapply steady_weaken; [apply ends_any|]. by intros [?|?|]. Qed.
Lemma yields_try {A B} (c : call A) (f : outcome A -> call B) F G :
  yields c F -> (forall o, returns F o -> yields (f o) G) -> yields (try_ c ≫= f) G.
Proof.
  intros Hc Hf. eapply yields_bind with (F := returns F); [|exact Hf]. eapply steady_try; [exact Hc|]. done.
Qed.
Lemma yields_seg {A} (m : reading -> RM A) (G : A -> Prop) :
  (forall rd r, match (m rd r).1 with Ok a => G a | Raise _ => True end) -> yields (router_seg m) G.
Proof.
  intros Hm. apply steady_seg. intros rd [r w] _. split; [done|]. specialize (Hm rd r). unfold lift_router. cbn [fst snd].
  destruct (m rd r) as [[a|e] r']; exact Hm.
Qed.
Lemma yields_event {X} (e : event (res exn X)) (G : X -> Prop) :
  (forall x, sent e (Ok x) -> G x) -> yields (x ← await e; finish (of_res x)) G.
Proof.
  intros He. split; [|done]. intros [x|e'] Hx; cbn; [by apply He|done].
Qed.

Lemma yields_retry {A} more c dl k (func : call A) (G : A -> Prop) : yields func G -> yields (retry_attempts more c dl k func) G.
Proof.
  intros Hf. revert k. induction more as [|more IH]; intros k; cbn [retry_attempts]; (eapply yields_try; [exact Hf|]).
  all: intros [a|e|] Ho; [exact Ho| |exact Logic.I]; apply yields_after; intros [w|]; try exact Logic.I.
  apply yields_after. intros _. apply IH.
Qed.
Lemma yields_with_retries {A} dl k (func : call A) (G : A -> Prop) : yields func G -> yields (with_retries dl k func) G.
Proof.
  intros Hf. unfold with_retries. apply yields_after. intros r. destruct (retry_manager r) as [m|]; [|exact Hf].
  destruct (enable_retry _); [|exact Hf]. unfold manager_execute. eapply yields_try; [by apply yields_retry|].
  intros [a|e|] Ho; [exact Ho| |exact Logic.I]. apply yields_after. done.
Qed.

Definition first_ok n q (first : option string) : Prop := match first with Some chunk => P n q chunk | None => True end.

Lemma yields_open_stream n q dl k t : yields (_open_stream n q dl k t) (first_ok n q).
Proof.
  unfold _open_stream. apply yields_after. intros _. apply yields_after. intros _. apply yields_after. intros _.
  eapply yields_try with (F := first_ok n q).
  - apply yields_with_retries. unfold open_attempt. apply yields_after. intros s.
    eapply yields_try with (F := first_ok n q); [apply yields_event; by intros [?|]|].
    intros [first|e|] Ho; [exact Ho| |by apply yields_after]. apply yields_after. intros _.
    destruct (isinstance_TimeoutError e); [|done]. unfold timed_out. apply yields_seg. intros rd r. by destruct (expired _ _).
  - intros [first|e|] Ho; [exact Ho|by apply yields_after|by apply yields_after].
Qed.

Definition open_ok (cands : candidates) (x : string * CompletionRequest * Q * option string) : Prop :=
  let '(n, q, _, first) := x in (n, q) ∈ cands /\ first_ok n q first.

Lemma yields_open_loop single dl cands failures last : yields (open_loop single dl cands failures last) (open_ok cands).
Proof.
  revert failures last. induction cands as [|[n q] cands IH]; intros failures last; cbn [open_loop].
  { destruct single, last; try done; by apply yields_seg. }
  assert (Hrest : forall failures last, yields (open_loop single dl cands failures last) (open_ok ((n, q) :: cands))).
  { intros f' l'. eapply yields_weaken; [apply IH|]. intros [[[m q'] t] first] [Hin Hf]. split; [by right|done]. }
  apply yields_after. intros [|]; cbn [negb]; [|apply yields_after; intros ra; apply Hrest].
  apply yields_after. intros r. apply yields_after. intros _. eapply yields_try; [apply yields_open_stream|].
  intros [first|e|] Ho; [|by apply yields_after|exact Logic.I]. split; [left|exact Ho].
Qed.

(** A chunk of the open stream, or an end. *)
Definition next_ok (cands : candidates) (x : option string * stream_state) : Prop :=
  match x with
  | (Some chunk, st) => exists o, st = Open o /\ (os_name o, os_req o) ∈ cands /\ P (os_name o) (os_req o) chunk
  | (None, st) => st = Over
  end.

Lemma yields_finally n q chars d c (cands : candidates) o : returns (next_ok cands) o -> yields (finally_ n q chars d c o) (next_ok cands).
Proof. intros Ho. unfold finally_. do 3 (apply yields_after; intros _). exact Ho. Qed.
Lemma yields_completed n q chars d (cands : candidates) : yields (completed_stream n q chars d) (next_ok cands).
Proof. unfold completed_stream. apply yields_after. intros o. apply yields_finally. by destruct o. Qed.

Lemma yields_start dl cands : yields (start dl cands) (next_ok cands).
Proof.
  unfold start. eapply yields_bind; [apply yields_open_loop|]. intros [[[n q] t] first] [Hin Hf]. unfold deliver.
  apply yields_after. intros m. apply yields_after. intros _. destruct first as [chunk|]; [|apply yields_completed].
  exists (mkOpen n q t (text_length chunk)). done.
Qed.

Lemma yields_next o : yields (stream_next model_gate (Open o)) (next_ok [(os_name o, os_req o)]).
Proof.
  destruct o as [n q t chars]. cbn [stream_next os_name os_req].
  eapply yields_try with (F := first_ok n q); [apply yields_event; by intros [?|]|].
  intros [[chunk|]|e|] Ho.
  - exists (mkOpen n q t (chars + text_length chunk)). split; [done|]. split; [left|exact Ho].
  - apply yields_completed.
  - unfold interrupted. apply yields_after. intros o. apply yields_finally. by destruct o.
  - unfold client_left. apply yields_after. intros _. by apply yields_finally.
Qed.

Definition from_one (cands : candidates) (x : list string * outcome unit) : Prop :=
  x.1 = [] \/ exists n q, (n, q) ∈ cands /\ Forall (P n q) x.1.

Lemma yields_received take c (cands : candidates) :
  (forall o, yields (take_chunks model_gate take (Open o)) (from_one [(os_name o, os_req o)])) ->
  yields c (next_ok cands) -> yields (received (take_chunks model_gate take) c) (from_one cands).
Proof.
  intros Hrest Hc. unfold received. eapply yields_try; [exact Hc|]. intros [[[chunk|] st]|e|] Ho; try by left.
  destruct Ho as (o & -> & Hin & Hp). eapply yields_bind; [apply Hrest|]. intros [chunks e] Hx. cbn. right.
  exists (os_name o), (os_req o). split; [done|]. constructor; [done|].
  destruct Hx as [Hx|(n & q & Hnq & Hall)]; [cbn in Hx; rewrite Hx; constructor|]. apply list_elem_of_singleton in Hnq as [= -> ->]. done.
Qed.

Lemma yields_take take o : yields (take_chunks model_gate take (Open o)) (from_one [(os_name o, os_req o)]).
Proof.
  revert o. induction take as [|take IH]; intros o; cbn [take_chunks].
  - apply yields_after. intros e. by left.
  - apply yields_received; [exact IH|]. apply yields_next.
Qed.

(** all the chunks a client gets come from one candidate's provider, sent for
    that candidate's request, whatever fails and is retried before or after the
    first of them. *)
Theorem stream_has_one_source take dl cands :
  yields (received (take_chunks model_gate take) (start dl cands)) (from_one cands).
Proof. apply yields_received; [apply yields_take|apply yields_start]. Qed.
End Source.

(** ** Settlement *)
Section Settlement.
Context `{PyStr} `{HalfPow} `{TextLib} `{SecondsText} `{KeyDigest (list (string * string)) cache_options}.
Context {W : Type} `{UsageCell W} (model_gate : option (string -> SE W exn unit)).

(** C9: however a streamed completion goes (opened by the first candidate or by a
    later one, refused, failing before or after output, read to its end, left by
    its client after any number of chunks, cancelled anywhere), every provider
    ends with all its permits back, and its breaker is as before, has turned the
    request away, or has admitted it and had exactly one verdict. *)
Theorem streams_settle take dl cands n cfg l b rd (s : Router * W) :
  view n cfg l b s.1 -> 0 <= active_requests l -> NoDup cands.*1 ->
  runs (others n cfg) (fun _ _ _ => True) (received (take_chunks model_gate take) (start dl cands))
    (fun _ _ s => exists l' b', view n cfg l' b' s.1 /\ concluded l b l' b') rd s.
Proof. intros Hv Ha Hnd. by eapply vr_session. Qed.
End Settlement.

(** ** Witnesses *)
Module StreamDemo.
Import PlanDemo CallDemo.
#[local] Instance demo_repr : PyStr := {| py_repr := fun _ => "?" |}.
#[local] Instance hyperbola : HalfPow := {| half_pow := fun x => (1 / (1 + x))%Q |}.
#[local] Instance lib : TextLib := {| py_float := fun _ => None; py_http_date := fun _ => None |}.
#[local] Instance tenths : SecondsText := {| show_tenths := fun _ => "?" |}.
#[local] Instance digest : KeyDigest (list (string * string)) cache_options :=
  {| payload_json := fun ms _ => String.concat "," ms.*2; no_options := mkCacheOptions None 0 0 None; sha256_hex := fun s => s |}.

Abbreviation DemoState := (Router * (StreamUsage * unit))%type.
Definition demo_candidates : list (string * CompletionRequest) := [("openai", hello []); ("ollama", hello [])].

Lemma streams_settle_witness :
  runs (others "openai" demo_config) (fun _ _ _ => True) (received (take_chunks None 5) (start demo_dl demo_candidates))
    (fun _ _ s => exists l' b', view "openai" demo_config l' b' s.1 /\ concluded demo_limiter demo_breaker l' b')
    demo_reading (demo_router, (new_stream_usage, tt)).
Proof.
  apply (streams_settle None 5 demo_dl demo_candidates "openai" demo_config demo_limiter demo_breaker demo_reading
           (demo_router, (new_stream_usage, tt))).
  - exact demo_view.
  - vm_compute. discriminate.
  - repeat constructor; vm_compute; set_solver.
Defined.

(** A run in which [answers] says what the [k]-th event gives. *)
Fixpoint play {A} (answers : nat -> forall X, event X -> option X) (k : nat) (c : coro reading DemoState event A) (s : DemoState)
    : outcome A * DemoState :=
  match c with
  | Done o => (o, s)
  | Seg f => match f demo_reading s with (c, s) => play answers k c s end
  | Await e c => play answers (S k) (c (answers k _ e)) s
  end.

(** The first provider refuses the stream; the second sends two chunks. *)
Definition refused : exn := mkExn (COther ["APIStatusError"] false false) (AInt 503) ANone ANone ANone None "overloaded".
Definition two_chunks (k : nat) X (e : event X) : option X :=
  match e in event X return option X with
  | ESlot _ _ => Some true
  | EFirst n _ _ => Some (if decide (n = "openai") then Raise refused else Ok (Some "Hel"))
  | ENext _ _ _ => Some (Ok (if (k <? 9)%nat then Some "lo" else None))
  | EClose _ _ => Some (Ok tt)
  | ESleep _ => Some tt
  | _ => None
  end.

(** Both chunks arrive, in order, and every permit is back. *)
Definition demo_run := play two_chunks 0 (received (take_chunks None 5) (start demo_dl demo_candidates)) (demo_router, (new_stream_usage, tt)).
Example demo_delivers : demo_run.1 = Return (["Hel"; "lo"], Return tt).
Proof. vm_compute. reflexivity. Qed.
Example demo_permits : (fun l => slots l.2) <$> limiter demo_run.2.1 = (fun l => slots l.2) <$> limiter demo_router.
Proof. vm_compute. reflexivity. Qed.
End StreamDemo.
