(* ===== verification/Bytes.v ===== *)
(** Byte strings: Python's [bytes], the big-endian integer formats of
    [struct.pack], the binary64 reading of eight bytes, hexadecimal text, and
    SHA-256 and HMAC-SHA256 as [hashlib] and [hmac] compute them. *)
From S2P Require Import Prelude Errors Yaml.
From Stdlib Require Import NArith Strings.Byte.

Abbreviation bytes := (list byte).

#[export] Instance byte_eq_dec : EqDecision byte := Byte.byte_eq_dec.

Definition b2z (b : byte) : Z := Z.of_N (Byte.to_N b).
Definition z2b (v : Z) : byte := default x00 (Byte.of_N (Z.to_N (v mod 256))).

Lemma b2z_range b : 0 <= b2z b < 256.
Proof. unfold b2z. pose proof (Byte.to_N_bounded b). lia. Qed.

Lemma z2b_b2z b : z2b (b2z b) = b.
Proof.
  unfold z2b. rewrite Z.mod_small by apply b2z_range. unfold b2z. by rewrite N2Z.id, Byte.of_to_N.
Qed.

Lemma b2z_z2b v : b2z (z2b v) = v mod 256.
Proof.
  unfold z2b, b2z. pose proof (Z.mod_pos_bound v 256 ltac:(lia)) as Hv.
  destruct (Byte.of_N _) as [b|] eqn:E; simpl.
  - apply Byte.to_of_N in E. lia.
  - apply Byte.of_N_None_iff in E. lia.
Qed.

(** ** Big-endian integers *)
Fixpoint be_bytes (n : nat) (v : Z) : bytes :=
  match n with O => [] | S n => be_bytes n (v / 256) ++ [z2b v] end.
Definition be_val (bs : bytes) : Z := fold_left (fun a b => a * 256 + b2z b) bs 0.

Lemma be_val_snoc bs b : be_val (bs ++ [b]) = be_val bs * 256 + b2z b.
Proof. unfold be_val. by rewrite fold_left_app. Qed.

Lemma length_be_bytes n v : length (be_bytes n v) = n.
Proof. revert v. induction n as [|n IH]; intros v; simpl; [done|]. rewrite length_app, IH. simpl. lia. Qed.

Lemma be_val_range bs : 0 <= be_val bs < 256 ^ Z.of_nat (length bs).
Proof.
  induction bs as [|b bs IH] using rev_ind; [done|].
  rewrite be_val_snoc, length_app, Nat2Z.inj_add, Z.pow_add_r by lia. pose proof (b2z_range b). simpl. lia.
Qed.

Lemma be_val_bytes n v : 0 <= v < 256 ^ Z.of_nat n -> be_val (be_bytes n v) = v.
Proof.
  revert v. induction n as [|n IH]; intros v Hv; [simpl in *; unfold be_val; simpl; lia|].
  cbn [be_bytes]. rewrite Nat2Z.inj_succ, Z.pow_succ_r in Hv by lia.
  rewrite be_val_snoc, IH, b2z_z2b; [|split; [apply Z.div_pos; lia | apply Z.div_lt_upper_bound; lia]].
  pose proof (Z.div_mod v 256). lia.
Qed.

Lemma be_bytes_val bs : be_bytes (length bs) (be_val bs) = bs.
Proof.
  induction bs as [|b bs IH] using rev_ind; [done|].
  rewrite length_app, be_val_snoc, Nat.add_comm. cbn [plus length be_bytes]. pose proof (b2z_range b).
  rewrite Z.div_add_l, Z.div_small, Z.add_0_r, IH by lia. f_equal. f_equal.
  rewrite <- (z2b_b2z b) at 2. unfold z2b. by rewrite Z.add_comm, Z_mod_plus_full.
Qed.

(** [struct.pack] of one unsigned field of [n] bytes: out of range is
    [struct.error]. *)
Definition pack (n : nat) (v : Z) : option bytes :=
  if (0 <=? v) && (v <? 256 ^ Z.of_nat n) then Some (be_bytes n v) else None.

Lemma pack_Some n v bs : pack n v = Some bs -> length bs = n /\ be_val bs = v /\ 0 <= v < 256 ^ Z.of_nat n.
Proof.
  unfold pack. destruct (_ && _) eqn:E; intros [= <-]. apply andb_true_iff in E as [E1 E2].
  split; [apply length_be_bytes|]. split; [apply be_val_bytes|]; lia.
Qed.

Lemma pack_val bs : pack (length bs) (be_val bs) = Some bs.
Proof.
  unfold pack. pose proof (be_val_range bs) as [H1 H2].
  rewrite (proj2 (Z.leb_le _ _) H1), (proj2 (Z.ltb_lt _ _) H2). simpl. by rewrite be_bytes_val.
Qed.

(** ** Text *)
Definition encode_text (s : string) : bytes := map Ascii.byte_of_ascii (String.list_ascii_of_string s).
Definition decode_text (bs : bytes) : string := String.string_of_list_ascii (map Ascii.ascii_of_byte bs).

Lemma decode_encode_text s : decode_text (encode_text s) = s.
Proof.
  unfold decode_text, encode_text. rewrite map_map.
  rewrite (map_ext _ (fun c => c)) by apply Ascii.ascii_of_byte_of_ascii.
  by rewrite map_id, String.string_of_list_ascii_of_string.
Qed.

Lemma encode_text_inj s t : encode_text s = encode_text t -> s = t.
Proof. intros H. by rewrite <- (decode_encode_text s), <- (decode_encode_text t), H. Qed.

Definition hex_digit (v : Z) : Ascii.ascii := Ascii.ascii_of_nat (Z.to_nat (if v <? 10 then 48 + v else 87 + v)).
(** [bytes.hex()] *)
Fixpoint hex (bs : bytes) : string :=
  match bs with
  | [] => EmptyString
  | b :: bs => String.String (hex_digit (b2z b / 16)) (String.String (hex_digit (b2z b mod 16)) (hex bs))
  end.

(** ** Binary64

    A float on the wire is its 64 bits; [f64_value] is the number they stand
    for. *)
Definition f64_value (bits : Z) : xfloat :=
  let negative := Z.testbit bits 63 in
  let e := Z.land (Z.shiftr bits 52) 2047 in
  let m := Z.land bits (2 ^ 52 - 1) in
  let scaled (m k : Z) : Q := if 0 <=? k then inject_Z (m * 2 ^ k) else (inject_Z m / inject_Z (2 ^ (- k)))%Q in
  let sign (q : Q) : Q := if negative then (- q)%Q else q in
  if e =? 2047 then (if m =? 0 then (if negative then NInf else PInf) else NaN)
  else if e =? 0 then Fin (sign (scaled m (-1074)))
  else Fin (sign (scaled (m + 2 ^ 52) (e - 1075))).
