(* ===== verification/Sha256.v ===== *)
(** SHA-256 and HMAC-SHA256 on byte strings (Python's [hashlib.sha256] and
    [hmac.new(key, msg, "sha256")]), executable, with the two facts the library
    uses: a digest has 32 bytes, and the test vectors of the standards. *)
From S2P Require Import Prelude Bytes.
From Stdlib Require Import NArith Strings.Byte.

Section Words.
Local Open Scope N_scope.

Definition word_mask : N := N.ones 32.
Definition wadd (x y : N) : N := N.land (x + y) word_mask.
Definition rotr (n x : N) : N := N.lor (N.shiftr x n) (N.land (N.shiftl x (32 - n)) word_mask).
Definition wnot (x : N) : N := N.lxor x word_mask.
Definition choose (x y z : N) : N := N.lxor (N.land x y) (N.land (wnot x) z).
Definition majority (x y z : N) : N := N.lxor (N.land x y) (N.lxor (N.land x z) (N.land y z)).
Definition big_sigma (a b c x : N) : N := N.lxor (rotr a x) (N.lxor (rotr b x) (rotr c x)).
Definition small_sigma (a b c x : N) : N := N.lxor (rotr a x) (N.lxor (rotr b x) (N.shiftr x c)).

Definition round_constants : list N :=
  [1116352408; 1899447441; 3049323471; 3921009573; 961987163; 1508970993; 2453635748; 2870763221;
   3624381080; 310598401; 607225278; 1426881987; 1925078388; 2162078206; 2614888103; 3248222580;
   3835390401; 4022224774; 264347078; 604807628; 770255983; 1249150122; 1555081692; 1996064986;
   2554220882; 2821834349; 2952996808; 3210313671; 3336571891; 3584528711; 113926993; 338241895;
   666307205; 773529912; 1294757372; 1396182291; 1695183700; 1986661051; 2177026350; 2456956037;
   2730485921; 2820302411; 3259730800; 3345764771; 3516065817; 3600352804; 4094571909; 275423344;
   430227734; 506948616; 659060556; 883997877; 958139571; 1322822218; 1537002063; 1747873779;
   1955562222; 2024104815; 2227730452; 2361852424; 2428436474; 2756734187; 3204031479; 3329325298].

Record digest_state := mkDigest { da : N; db : N; dc : N; dd : N; de : N; df : N; dg : N; dh : N }.
Definition initial_state : digest_state :=
  mkDigest 1779033703 3144134277 1013904242 2773480762 1359893119 2600822924 528734635 1541459225.

Definition sha_round (s : digest_state) (kw : N * N) : digest_state :=
  let t1 := wadd (wadd (wadd (dh s) (big_sigma 6 11 25 (de s))) (wadd (choose (de s) (df s) (dg s)) kw.1)) kw.2 in
  let t2 := wadd (big_sigma 2 13 22 (da s)) (majority (da s) (db s) (dc s)) in
  mkDigest (wadd t1 t2) (da s) (db s) (dc s) (wadd (dd s) t1) (de s) (df s) (dg s).

(** The message schedule: the last sixteen words, newest first, and the words
    before them; [n] words are still to come. *)
Fixpoint schedule (n : nat) (ws : list N) : list N :=
  match n with
  | O => rev ws
  | S n =>
    let at_ i := nth i ws 0 in
    schedule n (wadd (wadd (small_sigma 17 19 10 (at_ 1%nat)) (at_ 6%nat))
                     (wadd (small_sigma 7 18 3 (at_ 14%nat)) (at_ 15%nat)) :: ws)
  end.

Definition sha_block (s : digest_state) (block : list N) : digest_state :=
  let s' := fold_left sha_round (combine round_constants (schedule 48 (rev block))) s in
  mkDigest (wadd (da s) (da s')) (wadd (db s) (db s')) (wadd (dc s) (dc s')) (wadd (dd s) (dd s'))
           (wadd (de s) (de s')) (wadd (df s) (df s')) (wadd (dg s) (dg s')) (wadd (dh s) (dh s')).
End Words.

(** Padding to whole blocks of 64 bytes, with the bit length at the end. *)
Definition sha_pad (m : bytes) : bytes :=
  let len := Z.of_nat (length m) in
  m ++ [x80] ++ repeat x00 (Z.to_nat ((55 - len) mod 64)) ++ be_bytes 8 ((8 * len) mod 2 ^ 64).

Fixpoint words_of (bs : bytes) : list N :=
  match bs with
  | a :: b :: c :: d :: bs => Z.to_N (be_val [a; b; c; d]) :: words_of bs
  | _ => []
  end.

Fixpoint sha_blocks (fuel : nat) (s : digest_state) (ws : list N) : digest_state :=
  match fuel, ws with
  | S fuel, _ :: _ => sha_blocks fuel (sha_block s (take 16 ws)) (drop 16 ws)
  | _, _ => s
  end.

Definition digest_bytes (s : digest_state) : bytes :=
  flat_map (fun w => be_bytes 4 (Z.of_N w)) [da s; db s; dc s; dd s; de s; df s; dg s; dh s].

Definition sha256 (m : bytes) : bytes :=
  let ws := words_of (sha_pad m) in digest_bytes (sha_blocks (length ws) initial_state ws).

Definition xor_byte (k : Z) (b : byte) : byte := z2b (Z.lxor k (b2z b)).
Definition hmac_sha256 (key m : bytes) : bytes :=
  let key := if (64 <? length key)%nat then sha256 key else key in
  let key := key ++ repeat x00 (64 - length key) in
  sha256 (map (xor_byte 92) key ++ sha256 (map (xor_byte 54) key ++ m)).

Lemma length_sha256 m : length (sha256 m) = 32%nat.
Proof. unfold sha256, digest_bytes. cbn [flat_map]. by rewrite !length_app, !length_be_bytes. Qed.

Lemma length_hmac key m : length (hmac_sha256 key m) = 32%nat.
Proof. apply length_sha256. Qed.

#[global] Opaque sha256.

(** FIPS 180-4 and RFC 4231. *)
Example sha256_empty :
  hex (sha256 []) = "e3b0c44298fc1c149afbf4c8996fb92427ae41e4649b934ca495991b7852b855".
Proof. vm_compute. reflexivity. Qed.

Example sha256_two_blocks :
  hex (sha256 (encode_text "abcdbcdecdefdefgefghfghighijhijkijkljklmklmnlmnomnopnopq"))
  = "248d6a61d20638b8e5c026930c3e6039a33ce45964ff2167f6ecedd419db06c1".
Proof. vm_compute. reflexivity. Qed.

Example hmac_rfc4231_2 :
  hex (hmac_sha256 (encode_text "Jefe") (encode_text "what do ya want for nothing?"))
  = "5bdcc146bf60754e6a042426089575c75a003f089d2739839dec58b964ec3843".
Proof. vm_compute. reflexivity. Qed.
