(* ===== verification/Json.v ===== *)
(** JSON text as Python's [json] module writes and reads it: [dumps] with its
    default separators, and [loads], executable, with the round trip between
    them. Text holds code points below 256; the shortest decimal form of a float
    ([float.__repr__]) is a class with its law. *)
From S2P Require Import Prelude Errors Yaml.
From Stdlib Require Import Ascii.

Abbreviation chars := (list ascii).
Definition chars_of (s : string) : chars := String.list_ascii_of_string s.
Definition text_of (cs : chars) : string := String.string_of_list_ascii cs.

Lemma text_of_chars s : text_of (chars_of s) = s.
Proof. apply String.string_of_list_ascii_of_string. Qed.

Lemma chars_of_text cs : chars_of (text_of cs) = cs.
Proof. apply String.list_ascii_of_string_of_list_ascii. Qed.

Definition code (c : ascii) : Z := Z.of_nat (nat_of_ascii c).
Definition chr (v : Z) : ascii := ascii_of_nat (Z.to_nat v).

Lemma code_range c : 0 <= code c < 256.
Proof. unfold code. pose proof (nat_ascii_bounded c). lia. Qed.

Lemma chr_code c : chr (code c) = c.
Proof. unfold chr, code. rewrite Nat2Z.id. apply ascii_nat_embedding. Qed.

Lemma code_chr v : 0 <= v < 256 -> code (chr v) = v.
Proof. intros H. unfold chr, code. rewrite nat_ascii_embedding; lia. Qed.

(** ** Decimal numbers *)
Definition digit (v : Z) : ascii := chr (48 + v).
Definition digit_value (c : ascii) : option Z :=
  if (48 <=? code c) && (code c <=? 57) then Some (code c - 48) else None.

Fixpoint print_nat (fuel : nat) (v : Z) : chars :=
  match fuel with
  | O => []
  | S fuel => if v <? 10 then [digit v] else print_nat fuel (v / 10) ++ [digit (v mod 10)]
  end.
Definition print_int (v : Z) : chars :=
  let digits v := print_nat (S (Z.to_nat (Z.log2 v))) v in
  if v <? 0 then "-"%char :: digits (- v) else digits v.

Definition digits_value (cs : chars) : option Z :=
  fold_left (fun acc c => match acc, digit_value c with Some a, Some d => Some (10 * a + d) | _, _ => None end) cs (Some 0).

(** An optional minus, then a zero or digits that do not start with one. *)
Definition parse_nat (cs : chars) : option Z :=
  match cs with
  | [] => None
  | c :: rest => if bool_decide (c = "0"%char) && negb (bool_decide (rest = [])) then None else digits_value cs
  end.
Definition parse_int (cs : chars) : option Z :=
  match cs with
  | c :: rest => if decide (c = "-"%char) then Z.opp <$> parse_nat rest else parse_nat cs
  | [] => None
  end.

(** ** Floats *)
Class FloatText := {
  float_repr : Q -> chars;
  float_parse : chars -> option xfloat;
  float_known : Q -> Prop }.                  (* the values of a double *)

Definition number_char (c : ascii) : bool :=
  bool_decide (is_Some (digit_value c)) || bool_decide (c ∈ ["-"; "+"; "."; "e"; "E"]%char).

(** [repr] gives a literal, of two characters or more, that is not an integer and
    reads back as the value. *)
Class FloatLaws `{FloatText} := {
  float_repr_literal q : float_known q -> Forall (fun c => number_char c = true) (float_repr q) /\ (2 <= length (float_repr q))%nat /\
                         parse_int (float_repr q) = None;
  float_parse_repr q : float_known q -> float_parse (float_repr q) = Some (Fin q) }.

(** ** Strings *)
Definition hex_char (v : Z) : ascii := if v <? 10 then chr (48 + v) else chr (87 + v).
Definition hex_value (c : ascii) : option Z :=
  let v := code c in
  if (48 <=? v) && (v <=? 57) then Some (v - 48)
  else if (97 <=? v) && (v <=? 102) then Some (v - 87)
  else if (65 <=? v) && (v <=? 70) then Some (v - 55) else None.

(** [ESCAPE_ASCII]: the short escapes, and [\u00XX] outside space to tilde. *)
Definition escape (c : ascii) : chars :=
  let v := code c in
  if v =? 34 then ["\"; chr 34]%char
  else if v =? 92 then ["\"; "\"]%char
  else if v =? 10 then ["\"; "n"]%char
  else if v =? 13 then ["\"; "r"]%char
  else if v =? 9 then ["\"; "t"]%char
  else if v =? 12 then ["\"; "f"]%char
  else if v =? 8 then ["\"; "b"]%char
  else if (32 <=? v) && (v <=? 126) then [c]
  else ["\"; "u"; "0"; "0"; hex_char (v / 16); hex_char (v mod 16)]%char.

Definition quote_char : ascii := chr 34.
Definition print_string (s : string) : chars := quote_char :: flat_map escape (chars_of s) ++ [quote_char].

(** The text up to the closing quote; control characters are refused, and so are
    code points above 255, which this text type cannot hold. *)
Fixpoint parse_string (fuel : nat) (cs : chars) : option (chars * chars) :=
  match fuel, cs with
  | S fuel, c :: cs =>
    let v := code c in
    let next c' cs := '(s, rest) ← parse_string fuel cs; Some (c' :: s, rest) in
    if v =? 34 then Some ([], cs)
    else if v <? 32 then None
    else if v =? 92 then
      match cs with
      | e :: cs =>
        let w := code e in
        if w =? 34 then next (chr 34) cs
        else if w =? 92 then next (chr 92) cs
        else if w =? 47 then next (chr 47) cs
        else if w =? 98 then next (chr 8) cs
        else if w =? 102 then next (chr 12) cs
        else if w =? 110 then next (chr 10) cs
        else if w =? 114 then next (chr 13) cs
        else if w =? 116 then next (chr 9) cs
        else if w =? 117 then
          match cs with
          | "0"%char :: "0"%char :: h :: l :: cs =>
            h ← hex_value h; l ← hex_value l; next (chr (16 * h + l)) cs
          | _ => None
          end
        else None
      | [] => None
      end
    else next c cs
  | _, _ => None
  end.

(** ** Values *)
Section Json.
Context `{FloatText}.

Fixpoint joined_chars (sep : chars) (l : list chars) : chars :=
  match l with
  | [] => []
  | [x] => x
  | x :: l => x ++ sep ++ joined_chars sep l
  end.

Definition print_key (k : yaml) : chars :=
  match k with
  | YStr s => print_string s
  | YInt z => quote_char :: print_int z ++ [quote_char]
  | YBool b => print_string (if b then "true" else "false")
  | YNull => print_string "null"
  | YFloat (Fin q) => quote_char :: float_repr q ++ [quote_char]
  | _ => []
  end.

(** [json.dumps(v)], for a value [jsonable] allows; other values raise
    [TypeError]. *)
Fixpoint json_print (v : yaml) : chars :=
  match v with
  | YNull => chars_of "null"
  | YBool b => chars_of (if b then "true" else "false")
  | YInt z => print_int z
  | YFloat (Fin q) => float_repr q
  | YFloat NaN => chars_of "NaN"
  | YFloat PInf => chars_of "Infinity"
  | YFloat NInf => chars_of "-Infinity"
  | YStr s => print_string s
  | YList l => "["%char :: joined_chars (chars_of ", ") (map json_print l) ++ ["]"%char]
  | YMap m =>
    "{"%char :: joined_chars (chars_of ", ") (map (fun kv => print_key kv.1 ++ chars_of ": " ++ json_print kv.2) m)
      ++ ["}"%char]
  | YOther _ => []
  end.

(** [dumps] succeeds. *)
Fixpoint jsonable (v : yaml) : bool :=
  match v with
  | YList l => forallb jsonable l
  | YMap m => forallb (fun kv => match kv.1 with YList _ | YMap _ | YOther _ => false | _ => true end && jsonable kv.2) m
  | YOther _ => false
  | _ => true
  end.
Definition json_dumps (v : yaml) : option chars := if jsonable v then Some (json_print v) else None.

Definition is_space (c : ascii) : bool := bool_decide (code c ∈ [32; 9; 10; 13]).
Fixpoint skip_ws (cs : chars) : chars :=
  match cs with c :: rest => if is_space c then skip_ws rest else cs | [] => [] end.

(** The longest prefix of number characters, and the rest. *)
Fixpoint span_number (cs : chars) : chars * chars :=
  match cs with
  | c :: rest => if number_char c then let '(n, r) := span_number rest in (c :: n, r) else ([], cs)
  | [] => ([], [])
  end.
Definition parse_number (cs : chars) : option (yaml * chars) :=
  let '(lit, rest) := span_number cs in
  match parse_int lit with
  | Some z => Some (YInt z, rest)
  | None => f ← float_parse lit; Some (YFloat f, rest)
  end.

Fixpoint strip (word cs : chars) : option chars :=
  match word, cs with
  | [], _ => Some cs
  | w :: word, c :: cs => if decide (w = c) then strip word cs else None
  | _ :: _, [] => None
  end.

Definition literals : list (string * yaml) :=
  [("null", YNull); ("true", YBool true); ("false", YBool false); ("NaN", YFloat NaN);
   ("Infinity", YFloat PInf); ("-Infinity", YFloat NInf)].
Fixpoint parse_literal (ws : list (string * yaml)) (cs : chars) : option (yaml * chars) :=
  match ws with
  | [] => None
  | (w, v) :: ws => match strip (chars_of w) cs with Some rest => Some (v, rest) | None => parse_literal ws cs end
  end.

Definition object_of (l : list (string * yaml)) : yaml :=
  YMap ((fun kv => (YStr kv.1, kv.2)) <$> fold_left (fun d kv => od_set kv.1 kv.2 d) l []).

Fixpoint parse_value (fuel : nat) (cs : chars) : option (yaml * chars) :=
  match fuel with
  | O => None
  | S fuel =>
    match skip_ws cs with
    | [] => None
    | c :: cs =>
      let v := code c in
      if v =? 34 then '(s, rest) ← parse_string (length cs) cs; Some (YStr (text_of s), rest)
      else if v =? 91 then
        match skip_ws cs with
        | c' :: rest => if code c' =? 93 then Some (YList [], rest)
                        else '(l, rest) ← parse_elements fuel (c' :: rest); Some (YList l, rest)
        | [] => None
        end
      else if v =? 123 then
        match skip_ws cs with
        | c' :: rest => if code c' =? 125 then Some (YMap [], rest)
                        else '(l, rest) ← parse_members fuel (c' :: rest); Some (object_of l, rest)
        | [] => None
        end
      else match parse_literal literals (c :: cs) with
           | Some r => Some r
           | None => parse_number (c :: cs)
           end
    end
  end
with parse_elements (fuel : nat) (cs : chars) : option (list yaml * chars) :=
  match fuel with
  | O => None
  | S fuel =>
    '(v, rest) ← parse_value fuel cs;
    match skip_ws rest with
    | c :: rest =>
      if code c =? 44 then '(l, rest) ← parse_elements fuel rest; Some (v :: l, rest)
      else if code c =? 93 then Some ([v], rest) else None
    | [] => None
    end
  end
with parse_members (fuel : nat) (cs : chars) : option (list (string * yaml) * chars) :=
  match fuel with
  | O => None
  | S fuel =>
    match skip_ws cs with
    | q :: cs =>
      if code q =? 34 then
        '(k, rest) ← parse_string (length cs) cs;
        match skip_ws rest with
        | colon :: rest =>
          if code colon =? 58 then
            '(v, rest) ← parse_value fuel rest;
            match skip_ws rest with
            | c :: rest =>
              if code c =? 44 then '(l, rest) ← parse_members fuel rest; Some ((text_of k, v) :: l, rest)
              else if code c =? 125 then Some ([(text_of k, v)], rest) else None
            | [] => None
            end
          else None
        | [] => None
        end
      else None
    | [] => None
    end
  end.

(** [json.loads]: one value and nothing but space after it. *)
Definition json_loads (cs : chars) : option yaml :=
  match parse_value (S (length cs)) cs with
  | Some (v, rest) => if bool_decide (skip_ws rest = []) then Some v else None
  | None => None
  end.
End Json.

(** * The round trip *)

Lemma digit_code v : 0 <= v < 10 -> code (digit v) = 48 + v.
Proof. intros. apply code_chr. lia. Qed.

Lemma digit_value_digit v : 0 <= v < 10 -> digit_value (digit v) = Some v.
Proof.
  intros Hv. unfold digit_value. rewrite digit_code by done.
  rewrite (proj2 (andb_true_iff _ _)) by (rewrite !Z.leb_le; lia). f_equal. lia.
Qed.

Lemma code_ne c c' : code c ≠ code c' -> c ≠ c'.
Proof. congruence. Qed.

Lemma digits_value_snoc cs c : digits_value (cs ++ [c]) =
  match digits_value cs, digit_value c with Some a, Some d => Some (10 * a + d) | _, _ => None end.
Proof. unfold digits_value. by rewrite fold_left_app. Qed.

Definition is_digit (c : ascii) : Prop := is_Some (digit_value c).

Lemma print_nat_spec fuel v : 0 <= v < 10 * 2 ^ Z.of_nat fuel ->
  digits_value (print_nat (S fuel) v) = Some v /\ Forall is_digit (print_nat (S fuel) v) /\
  exists c rest, print_nat (S fuel) v = c :: rest /\ (c = "0"%char -> v = 0 /\ rest = []).
Proof.
  revert v. induction fuel as [|fuel IH]; intros v Hv; remember (S _) as fuel' eqn:Ef in |- *; rewrite Ef;
    cbn [print_nat]; clear fuel' Ef;
    destruct (Z.ltb_spec v 10) as [H10|H10]; try (simpl in Hv; lia).
  1, 2: unfold digits_value; cbn [fold_left]; rewrite digit_value_digit by lia; split_and!;
    [f_equal; lia|repeat constructor; eexists; apply digit_value_digit; lia|];
    exists (digit v), []; split; [done|]; intros E; apply (f_equal code) in E; rewrite digit_code in E by lia;
    change (code "0") with 48 in E; split; [lia|done].
  - rewrite Nat2Z.inj_succ, Z.pow_succ_r in Hv by lia. fold print_nat.
    change (if v / 10 <? 10 then [digit (v / 10)] else print_nat fuel (v / 10 / 10) ++ [digit ((v / 10) mod 10)])
      with (print_nat (S fuel) (v / 10)).
    assert (Hd : 0 <= v mod 10 < 10) by (apply Z.mod_pos_bound; lia).
    destruct (IH (v / 10)) as (E1 & E2 & c & rest & E3 & E4).
    { split; [apply Z.div_pos; lia|]. apply Z.div_lt_upper_bound; lia. }
    rewrite digits_value_snoc, E1, digit_value_digit by done. split_and!.
    + f_equal. pose proof (Z.div_mod v 10). lia.
    + apply Forall_app. split; [done|]. repeat constructor. eexists. by apply digit_value_digit.
    + exists c, (rest ++ [digit (v mod 10)]). rewrite E3. split; [done|]. intros Hc. apply E4 in Hc as [Hc _].
      pose proof (Z.div_mod v 10 ltac:(lia)). lia.
Qed.

Lemma print_digits v : 0 <= v ->
  parse_nat (print_nat (S (Z.to_nat (Z.log2 v))) v) = Some v /\
  Forall is_digit (print_nat (S (Z.to_nat (Z.log2 v))) v) /\ print_nat (S (Z.to_nat (Z.log2 v))) v ≠ [].
Proof.
  intros Hv. destruct (print_nat_spec (Z.to_nat (Z.log2 v)) v) as (E1 & E2 & c & rest & E3 & E4).
  { split; [done|]. rewrite Z2Nat.id by apply Z.log2_nonneg.
    destruct (decide (v = 0)) as [->|]; [done|]. pose proof (Z.log2_spec v ltac:(lia)) as [_ Hl].
    rewrite Z.pow_succ_r in Hl by apply Z.log2_nonneg. lia. }
  rewrite E3 in *. split_and!; [|done|done]. unfold parse_nat.
  case_bool_decide as Hc; cbn [andb]; [|done]. apply E4 in Hc as [-> ->]. done.
Qed.

Lemma digit_number c : is_digit c -> number_char c = true.
Proof. intros Hd. unfold number_char. by rewrite bool_decide_true. Qed.

Lemma print_int_spec z : parse_int (print_int z) = Some z /\ Forall (fun c => number_char c = true) (print_int z) /\
  print_int z ≠ [].
Proof.
  unfold print_int. destruct (Z.ltb_spec z 0) as [Hz|Hz].
  - destruct (print_digits (- z) ltac:(lia)) as (E1 & E2 & _). split_and!; [|constructor; [done|]|done].
    + unfold parse_int. rewrite decide_True by done. rewrite E1. simpl. f_equal. lia.
    + eapply Forall_impl; [exact E2|]. apply digit_number.
  - destruct (print_digits z Hz) as (E1 & E2 & E3). split_and!; [|eapply Forall_impl; [exact E2|apply digit_number]|done].
    destruct (print_nat _ z) as [|c rest] eqn:E; [done|]. apply Forall_cons in E2 as [[d Hd] _].
    unfold parse_int. rewrite decide_False; [done|]. intros ->. done.
Qed.

Lemma span_number_app lit rest : Forall (fun c => number_char c = true) lit ->
  match rest with c :: _ => number_char c = false | [] => True end -> span_number (lit ++ rest) = (lit, rest).
Proof.
  intros Hl Hr. induction Hl as [|c lit Hc Hl IH]; cbn [app span_number].
  - destruct rest as [|c rest]; cbn [span_number]; [done|by rewrite Hr].
  - by rewrite Hc, IH.
Qed.

(** ** Strings *)
Lemma hex_value_char v : 0 <= v < 16 -> hex_value (hex_char v) = Some v.
Proof.
  intros Hv. unfold hex_char, hex_value. destruct (Z.ltb_spec v 10); rewrite code_chr by lia.
  - rewrite (proj2 (andb_true_iff _ _)) by (rewrite !Z.leb_le; lia). f_equal. lia.
  - rewrite (proj2 (andb_false_iff _ _)) by (rewrite !Z.leb_gt; lia).
    rewrite (proj2 (andb_true_iff _ _)) by (rewrite !Z.leb_le; lia). f_equal. lia.
Qed.

Lemma parse_escape fuel c rest :
  parse_string (S fuel) (escape c ++ rest) = '(s, r) ← parse_string fuel rest; Some (c :: s, r).
Proof.
  pose proof (code_range c) as Hc. unfold escape.
  repeat match goal with |- context [code c =? ?n] => destruct (Z.eqb_spec (code c) n) as [E|?];
    [cbn [app parse_string]; by rewrite <- (chr_code c), E|] end.
  destruct (_ && _) eqn:E; [apply andb_true_iff in E as [E1 E2]|].
  - cbn [app parse_string]. rewrite (proj2 (Z.eqb_neq _ _)) by done. rewrite (proj2 (Z.ltb_ge _ _)) by lia.
    by rewrite (proj2 (Z.eqb_neq _ _)) by done.
  - cbn [app parse_string]. change (code "\") with 92. change (code "u") with 117. cbn [Z.eqb Z.ltb Z.compare Pos.eqb Pos.compare Pos.compare_cont].
    rewrite !hex_value_char by (split; [apply Z.div_pos || apply Z.mod_pos_bound; lia|first [apply Z.div_lt_upper_bound; lia | apply Z.mod_pos_bound; lia]]).
    cbn [mbind option_bind]. rewrite <- (Z.div_mod (code c) 16) by lia. by rewrite chr_code.
Qed.

Lemma parse_print_chars fuel cs rest : (length cs < fuel)%nat ->
  parse_string fuel (flat_map escape cs ++ quote_char :: rest) = Some (cs, rest).
Proof.
  revert fuel. induction cs as [|c cs IH]; intros [|fuel] Hf; cbn [length] in Hf; [lia| |lia|].
  - reflexivity.
  - cbn [flat_map]. rewrite <- app_assoc, parse_escape, IH by lia. done.
Qed.

Lemma length_escape c : (1 <= length (escape c))%nat.
Proof. unfold escape. repeat case_match; cbn; lia. Qed.

Lemma length_flat_escape cs : (length cs <= length (flat_map escape cs))%nat.
Proof. induction cs as [|c cs IH]; cbn; [lia|]. rewrite length_app. pose proof (length_escape c). lia. Qed.

Lemma parse_print_string s rest :
  exists cs, print_string s ++ rest = quote_char :: cs /\ parse_string (length cs) cs = Some (chars_of s, rest).
Proof.
  exists (flat_map escape (chars_of s) ++ quote_char :: rest). split.
  - unfold print_string. cbn [app]. by rewrite <- app_assoc.
  - apply parse_print_chars. rewrite length_app. cbn [length]. pose proof (length_flat_escape (chars_of s)). lia.
Qed.

(** ** Values *)
Section RoundTrip.
Context `{FloatLaws}.

Inductive json_wf : yaml -> Prop :=
| wf_null : json_wf YNull
| wf_bool b : json_wf (YBool b)
| wf_int z : json_wf (YInt z)
| wf_float q : float_known q -> json_wf (YFloat (Fin q))
| wf_nonfinite f : f = NaN \/ f = PInf \/ f = NInf -> json_wf (YFloat f)
| wf_str s : json_wf (YStr s)
| wf_list l : Forall json_wf l -> json_wf (YList l)
| wf_map (m : list (string * yaml)) :
    NoDup m.*1 -> Forall (fun kv => json_wf kv.2) m -> json_wf (YMap ((fun kv => (YStr kv.1, kv.2)) <$> m)).

Definition delimited (rest : chars) : Prop := match rest with c :: _ => number_char c = false | [] => True end.

Lemma number_char_plain c : number_char c = true ->
  is_space c = false /\ (code c =? 34) = false /\ (code c =? 91) = false /\ (code c =? 123) = false /\
  c ∉ ["n"; "t"; "f"; "N"; "I"]%char.
Proof.
  intros Hc. cut (forallb (fun c => negb (number_char c) || (negb (is_space c) && negb (code c =? 34) && negb (code c =? 91)
    && negb (code c =? 123) && negb (bool_decide (c ∈ ["n"; "t"; "f"; "N"; "I"]%char)))) (ascii_of_nat <$> seq 0 256) = true).
  - rewrite forallb_forall. intros Hall. specialize (Hall c). rewrite Hc in Hall. cbn [negb orb] in Hall.
    assert (Hin : In c (ascii_of_nat <$> seq 0 256)).
    { rewrite <- (ascii_nat_embedding c). apply in_map, in_seq. pose proof (nat_ascii_bounded c). lia. }
    specialize (Hall Hin). rewrite !andb_true_iff, !negb_true_iff in Hall. destruct Hall as [[[[? ?] ?] ?] Hn].
    apply bool_decide_eq_false in Hn. done.
  - vm_compute. reflexivity.
Qed.

Lemma no_literal lit rest : Forall (fun c => number_char c = true) lit -> lit ≠ [] -> lit ≠ ["-"%char] ->
  parse_literal literals (lit ++ rest) = None.
Proof.
  intros Hl Hne Hm. destruct lit as [|c lit]; [done|]. apply Forall_cons in Hl as [Hc Hl].
  apply number_char_plain in Hc as (_ & _ & _ & _ & Hc).
  assert (Hd : forall x, x ∈ ["n"; "t"; "f"; "N"; "I"]%char -> x ≠ c) by (intros x Hx ->; done).
  unfold literals. cbn [parse_literal chars_of String.list_ascii_of_string app strip].
  rewrite (decide_False (P := "n"%char = c)), (decide_False (P := "t"%char = c)), (decide_False (P := "f"%char = c)),
    (decide_False (P := "N"%char = c)), (decide_False (P := "I"%char = c)) by (apply Hd; repeat constructor).
  cbn [strip]. destruct (decide ("-"%char = c)) as [<-|]; [|done].
  destruct lit as [|c' lit]; [done|]. apply Forall_cons in Hl as [Hc' _]. cbn [app].
  rewrite decide_False; [done|]. intros <-. done.
Qed.

Lemma parse_number_lit fuel lit rest v :
  Forall (fun c => number_char c = true) lit -> lit ≠ [] -> lit ≠ ["-"%char] -> delimited rest ->
  (exists z, parse_int lit = Some z /\ v = YInt z) \/ (exists f, parse_int lit = None /\ float_parse lit = Some f /\ v = YFloat f) ->
  parse_value (S fuel) (lit ++ rest) = Some (v, rest).
Proof.
  intros Hl Hne Hm Hr Hv. cbn [parse_value].
  assert (Hs : skip_ws (lit ++ rest) = lit ++ rest /\ exists c l, lit = c :: l /\ number_char c = true).
  { destruct lit as [|c l]; [done|]. apply Forall_cons in Hl as [Hc _]. cbn [app skip_ws].
    rewrite (proj1 (number_char_plain c Hc)). split; [done|]. by exists c, l. }
  destruct Hs as [-> (c & l & E & Hc)]. apply number_char_plain in Hc as (_ & E1 & E2 & E3 & _).
  rewrite E at 1. cbn [app]. rewrite E1, E2, E3. change (c :: l ++ rest) with ((c :: l) ++ rest). rewrite <- E.
  rewrite no_literal by done. unfold parse_number. rewrite span_number_app by done.
  destruct Hv as [(z & -> & ->)|(f & -> & -> & ->)]; reflexivity.
Qed.

Lemma fold_od_set {V} (l d : list (string * V)) : NoDup (d ++ l).*1 ->
  fold_left (fun d kv => od_set kv.1 kv.2 d) l d = d ++ l.
Proof.
  revert d. induction l as [|[k v] l IH]; intros d Hnd; cbn [fold_left fst snd]; [by rewrite app_nil_r|].
  rewrite od_set_absent, IH, <- app_assoc; [done|by rewrite <- app_assoc|].
  apply od_get_None. intros Hin. rewrite fmap_app in Hnd. apply NoDup_app in Hnd as (_ & Hd & _).
  apply (Hd k Hin). cbn. left.
Qed.

Definition members (m : list (string * yaml)) : chars :=
  joined_chars (chars_of ", ") (map (fun kv => print_key kv.1 ++ chars_of ": " ++ json_print kv.2)
    ((fun kv => (YStr kv.1, kv.2)) <$> m)).

Lemma parse_value_space fuel cs : parse_value fuel (" "%char :: cs) = parse_value fuel cs.
Proof. by destruct fuel. Qed.
Lemma parse_elements_space fuel cs : parse_elements fuel (" "%char :: cs) = parse_elements fuel cs.
Proof. destruct fuel as [|fuel]; [done|]. cbn [parse_elements]. by rewrite parse_value_space. Qed.
Lemma parse_members_space fuel cs : parse_members fuel (" "%char :: cs) = parse_members fuel cs.
Proof. by destruct fuel. Qed.

Section Step.
Context (fuel : nat).
Hypothesis IH : forall fuel' v rest, (fuel' < fuel)%nat -> json_wf v -> (length (json_print v) <= fuel')%nat ->
  delimited rest -> parse_value fuel' (json_print v ++ rest) = Some (v, rest).

Lemma parse_print_elements l rest fuel' : (fuel' <= fuel)%nat -> l ≠ [] -> Forall json_wf l ->
  (length (joined_chars (chars_of ", ") (map json_print l)) < fuel')%nat ->
  parse_elements fuel' (joined_chars (chars_of ", ") (map json_print l) ++ "]"%char :: rest) = Some (l, rest).
Proof.
  revert fuel'. induction l as [|v l IHl]; intros fuel' Hf Hne Hl Hlen; [done|].
  apply Forall_cons in Hl as [Hv Hl]. destruct fuel' as [|fuel']; [lia|].
  destruct l as [|w l].
  - cbn [map joined_chars parse_elements] in *. rewrite IH by (done || lia). reflexivity.
  - change (joined_chars (chars_of ", ") (map json_print (v :: w :: l)))
      with (json_print v ++ chars_of ", " ++ joined_chars (chars_of ", ") (map json_print (w :: l))) in *.
    rewrite !length_app in Hlen. change (length (chars_of ", ")) with 2%nat in Hlen.
    cbn [parse_elements]. rewrite <- !app_assoc, IH by (done || lia). cbn [mbind option_bind].
    change (chars_of ", " ++ ?x) with (","%char :: " "%char :: x). cbn [skip_ws app]. change (is_space ",") with false.
    cbn match. change (code "," =? 44) with true. cbn match. rewrite parse_elements_space, IHl by (done || lia). reflexivity.
Qed.

Lemma parse_print_members m rest fuel' : (fuel' <= fuel)%nat -> m ≠ [] -> Forall (fun kv => json_wf kv.2) m ->
  (length (members m) < fuel')%nat ->
  parse_members fuel' (members m ++ "}"%char :: rest) = Some (m, rest).
Proof.
  revert fuel'. induction m as [|[k v] m IHm]; intros fuel' Hf Hne Hm Hlen; [done|].
  apply Forall_cons in Hm as [Hv Hm]. cbn [snd] in Hv. destruct fuel' as [|fuel']; [lia|].
  assert (E : members ((k, v) :: m) = print_string k ++ ":"%char :: " "%char :: json_print v ++
              match m with [] => [] | _ => ","%char :: " "%char :: members m end).
  { destruct m as [|[k' v'] m]; unfold members; cbn [map fmap list_fmap fst snd joined_chars print_key];
      rewrite <- ?app_assoc; cbn [app chars_of String.list_ascii_of_string]; by rewrite ?app_nil_r. }
  rewrite E in *. rewrite !length_app in Hlen. cbn [length] in Hlen. rewrite length_app in Hlen.
  rewrite <- app_assoc. destruct (parse_print_string k ((":"%char :: " "%char :: json_print v ++
     match m with [] => [] | _ => ","%char :: " "%char :: members m end) ++ "}"%char :: rest)) as (cs & -> & Ep).
  cbn [parse_members]. change (skip_ws (quote_char :: cs)) with (quote_char :: cs).
  change (code quote_char =? 34) with true. cbn match. rewrite Ep. cbn [mbind option_bind app].
  change (skip_ws (":"%char :: ?x)) with (":"%char :: x). cbn match. change (code ":" =? 58) with true. cbn match.
  rewrite parse_value_space, <- app_assoc, IH by (done || lia || by destruct m). cbn [mbind option_bind].
  destruct m as [|kv m]; cbn [app].
  - change (skip_ws ("}"%char :: rest)) with ("}"%char :: rest). cbn match. cbn. by rewrite text_of_chars.
  - cbn [skip_ws]. change (is_space ",") with false. cbn match. change (code "," =? 44) with true. cbn match.
    cbn [length] in Hlen. rewrite parse_members_space, IHm by (done || lia). cbn [mbind option_bind].
    by rewrite text_of_chars.
Qed.
End Step.

Lemma print_head v : json_wf v -> exists c r, json_print v = c :: r /\ is_space c = false /\ (code c =? 93) = false.
Proof.
  assert (Hnum : forall lit, Forall (fun c => number_char c = true) lit -> lit ≠ [] ->
            exists c r, lit = c :: r /\ is_space c = false /\ (code c =? 93) = false).
  { intros [|c r] Hl Hne; [done|]. apply Forall_cons in Hl as [Hc _]. exists c, r. split; [done|].
    split; [by apply number_char_plain|]. apply Z.eqb_neq. intros E. rewrite <- (chr_code c), E in Hc. done. }
  destruct 1 as [|[]|z|q Hq|f Hf|s|l Hl|m Hnd Hm]; cbn [json_print].
  1-3: by eexists _, _.
  - destruct (print_int_spec z) as (_ & ? & ?). by apply Hnum.
  - pose proof (float_repr_literal q Hq) as (? & F & _). apply Hnum; [done|]. intros E. rewrite E in F. cbn in F. lia.
  - destruct Hf as [->|[->| ->]]; by eexists _, _.
  - by eexists _, _.
  - by eexists _, _.
  - by eexists _, _.
Qed.

Lemma joined_head v l : Forall json_wf (v :: l) -> exists c r,
  joined_chars (chars_of ", ") (map json_print (v :: l)) = c :: r /\ is_space c = false /\ (code c =? 93) = false.
Proof.
  intros [Hv _]%Forall_cons. destruct (print_head v Hv) as (c & r & E & Hs & H93).
  destruct l as [|w l]; cbn [map joined_chars]; rewrite E; cbn [app]; by eexists _, _.
Qed.

Fixpoint yaml_size (v : yaml) : nat :=
  match v with
  | YList l => S (list_sum (map yaml_size l))
  | YMap m => S (list_sum (map (fun kv => yaml_size kv.2) m))
  | _ => 1
  end.

Lemma jsonable_wf v : json_wf v -> jsonable v = true.
Proof.
  induction v as [v IH] using (well_founded_induction (well_founded_ltof _ yaml_size)). unfold ltof in IH.
  destruct 1 as [| | | | | |l Hl|m _ Hm]; try done; cbn [jsonable]; apply forallb_forall.
  - rewrite Forall_forall in Hl. intros w Hw. apply IH; [|by apply Hl, list_elem_of_In].
    cbn [yaml_size]. apply in_split in Hw as (l1 & l2 & ->). rewrite map_app, list_sum_app. cbn. lia.
  - rewrite Forall_forall in Hm. intros kv Hkv. apply in_map_iff in Hkv as ([k w] & <- & Hw). cbn [fst snd].
    rewrite IH; [done| |by apply (Hm (k, w)), list_elem_of_In].
    cbn [yaml_size]. apply in_split in Hw as (l1 & l2 & ->). rewrite fmap_app, map_app, list_sum_app. cbn. lia.
Qed.

(** Printed values are read back, whatever text follows that does not continue
    a number. *)
Lemma parse_print fuel v rest : json_wf v -> (length (json_print v) <= fuel)%nat -> delimited rest ->
  parse_value fuel (json_print v ++ rest) = Some (v, rest).
Proof.
  revert v rest. induction fuel as [fuel IH] using lt_wf_ind. intros v rest Hv Hlen Hr.
  assert (IH' : forall fuel' v rest, (fuel' < fuel)%nat -> json_wf v -> (length (json_print v) <= fuel')%nat ->
    delimited rest -> parse_value fuel' (json_print v ++ rest) = Some (v, rest)) by (intros; by apply IH).
  destruct fuel as [|fuel].
  { exfalso. destruct Hv; cbn in Hlen; try (destruct b; cbn in Hlen); try lia.
    - destruct (print_int_spec z) as (_ & _ & Hne). by destruct (print_int z); cbn in Hlen; [|lia].
    - pose proof (float_repr_literal q ltac:(done)) as (_ & Hl & _). lia.
    - destruct H1 as [->|[->| ->]]; cbn in Hlen; lia. }
  destruct Hv as [|[]|z|q Hq|f Hf|s|l Hl|m Hnd Hm].
  - reflexivity.
  - reflexivity.
  - reflexivity.
  - destruct (print_int_spec z) as (E1 & E2 & E3). cbn [json_print]. apply parse_number_lit; try done; [|left; by eexists].
    intros E. by rewrite E in E1.
  - pose proof (float_repr_literal q Hq) as (F1 & F2 & F3). cbn [json_print]. apply parse_number_lit; try done.
    + intros E. rewrite E in F2. cbn in F2. lia.
    + intros E. rewrite E in F2. cbn in F2. lia.
    + right. eexists. split; [done|]. split; [by apply float_parse_repr|done].
  - destruct Hf as [->|[->| ->]]; reflexivity.
  - cbn [json_print]. destruct (parse_print_string s rest) as (cs & -> & Ep). cbn [parse_value].
    change (skip_ws (quote_char :: cs)) with (quote_char :: cs). cbn match. change (code quote_char =? 34) with true.
    cbn match. rewrite Ep. cbn [mbind option_bind]. by rewrite text_of_chars.
  - cbn [json_print length] in *. rewrite length_app in Hlen. cbn [length] in Hlen.
    destruct l as [|v l]; [reflexivity|].
    pose proof (parse_print_elements (S fuel) IH' (v :: l) rest fuel ltac:(lia) ltac:(done) Hl ltac:(lia)) as Hp.
    pose proof (joined_head v l Hl) as (c & r & Ec & Hc1 & Hc2).
    cbn [app]. rewrite <- app_assoc. cbn [app]. rewrite Ec in Hp |- *. cbn [app] in Hp |- *.
    cbn [parse_value]. change (skip_ws ("["%char :: ?x)) with ("["%char :: x). cbn match.
    change (code "[" =? 34) with false. change (code "[" =? 91) with true. cbn match.
    cbn [skip_ws]. rewrite Hc1, Hc2, Hp. reflexivity.
  - cbn [json_print length] in *. rewrite length_app in Hlen. cbn [length] in Hlen. fold (members m) in *.
    destruct m as [|[k v] m]; [reflexivity|].
    pose proof (parse_print_members (S fuel) IH' ((k, v) :: m) rest fuel ltac:(lia) ltac:(done) Hm ltac:(lia)) as Hp.
    assert (Ec : exists r, members ((k, v) :: m) = quote_char :: r).
    { unfold members. destruct m as [|[k' v'] m]; cbn [map fmap list_fmap fst snd joined_chars print_key app print_string]; by eexists. }
    destruct Ec as [r Ec].
    cbn [app]. rewrite <- app_assoc. cbn [app]. rewrite Ec in Hp |- *. cbn [app] in Hp |- *.
    cbn [parse_value]. change (skip_ws ("{"%char :: ?x)) with ("{"%char :: x). cbn match.
    change (code "{" =? 34) with false. change (code "{" =? 91) with false. change (code "{" =? 123) with true. cbn match.
    change (skip_ws (quote_char :: ?x)) with (quote_char :: x). cbn match. change (code quote_char =? 125) with false.
    cbn match. rewrite Hp. cbn [mbind option_bind]. unfold object_of. rewrite fold_od_set by done. reflexivity.
Qed.

(** Reading back what was written: [json.loads(json.dumps(v)) == v] for
    every value made of null, booleans, integers of any size, floats, text,
    lists and objects with distinct text keys. *)
Lemma loads_dumps v : json_wf v -> json_dumps v = Some (json_print v) /\ json_loads (json_print v) = Some v.
Proof.
  intros Hv. split.
  - unfold json_dumps. by rewrite jsonable_wf.
  - unfold json_loads. rewrite <- (app_nil_r (json_print v)) at 2. rewrite parse_print by (done || lia).
    reflexivity.
Qed.
End RoundTrip.

(** Floats with an integral value, printed as Python prints them below 1e16. *)
Module WholeFloats.
Definition repr (q : Q) : chars := print_int (Qnum q) ++ [".";"0"]%char.
Definition parse (cs : chars) : option xfloat :=
  match rev cs with
  | "0"%char :: "."%char :: r => (fun z => Fin (inject_Z z)) <$> parse_int (rev r)
  | _ => None
  end.
#[export] Instance whole_text : FloatText := {|
  float_repr := repr; float_parse := parse; float_known q := q = inject_Z (Qnum q) |}.

Lemma digits_value_dot cs d : digits_value (cs ++ ["."%char; d]) = None.
Proof.
  change ["."%char; d] with (["."%char] ++ [d]). rewrite app_assoc, !digits_value_snoc. by destruct (digits_value cs).
Qed.

Lemma parse_int_dot cs : parse_int (cs ++ [".";"0"]%char) = None.
Proof.
  destruct cs as [|c cs]; [reflexivity|]. cbn [app parse_int].
  assert (Hn : forall cs, parse_nat (cs ++ ["."; "0"]%char) = None).
  { intros [|c' cs']; [reflexivity|]. cbn [app]. unfold parse_nat. case_match; [done|]. apply (digits_value_dot (c' :: cs')). }
  case_decide; [by rewrite Hn|]. apply (Hn (c :: cs)).
Qed.

#[export] Instance whole_laws : FloatLaws.
Proof.
  split; cbn; unfold repr, parse; intros q Hq.
  - destruct (print_int_spec (Qnum q)) as (_ & Hf & _). split_and!.
    + apply Forall_app. split; [done|]. by repeat constructor.
    + rewrite length_app. cbn. lia.
    + apply parse_int_dot.
  - rewrite rev_app_distr. cbn [rev app]. rewrite rev_involutive.
    rewrite (proj1 (print_int_spec (Qnum q))). cbn [fmap option_fmap option_map]. by rewrite <- Hq.
Qed.

Definition sample : yaml :=
  YMap [(YStr "id", YInt (-42)); (YStr "say", YStr (String.String quote_char "x"));
        (YStr "ts", YFloat (Fin 1700000000)); (YStr "list", YList [YNull; YBool true; YFloat NaN; YMap []])].

Lemma loads_dumps_witness : json_dumps sample = Some (json_print sample) /\ json_loads (json_print sample) = Some sample.
Proof.
  apply (loads_dumps sample).
  apply (wf_map [("id", YInt (-42)); ("say", YStr (String.String quote_char "x")); ("ts", YFloat (Fin 1700000000));
                 ("list", YList [YNull; YBool true; YFloat NaN; YMap []])]).
  - vm_compute. repeat constructor; set_solver.
  - repeat constructor. apply (wf_map []); constructor.
Defined.

Example sample_text : text_of (json_print (YList [YInt 10; YFloat (Fin 1); YMap []])) = "[10, 1.0, {}]".
Proof. reflexivity. Qed.
End WholeFloats.
