(* ===== verification/SecureProtocol.v ===== *)
(** The secure transport of [protocols/secure_protocol.py]: key derivation, the
    frame format and its codec, the replay guard, the handshake and the session.
    Randomness, clock readings and fresh session ids are arguments, in the order
    the code draws them; a float on the wire is its 64 bits ([Bytes.f64_value]).
    HMAC-SHA256 is the executable one of [Sha256]. *)
From S2P Require Import Prelude Errors Yaml Bytes Sha256.
From Stdlib Require Import Strings.Byte.

Definition STP_VERSION : Z := 2.
Definition FRAME_MAGIC : bytes := [xca; xfe; xc0; xde].
Definition NONCE_SIZE : nat := 16.
Definition SESSION_KEY_SIZE : nat := 32.
Definition MAC_SIZE : nat := 32.
Definition MAX_FRAME_BODY_BYTES : Z := 4 * 1024 * 1024.
Definition REPLAY_WINDOW_S : Q := 30.
Definition FRAME_HEADER_SIZE : nat := 4 + 1 + 1 + 2 + 8 + 4 + 16 + 4.

Definition FLAG_NONE : Z := 0.
Definition FLAG_ENCRYPTED : Z := 1.

Inductive SessionState := NEW | HANDSHAKING | ESTABLISHED | REKEYING | SESSION_CLOSED | SESSION_ERROR.
#[export] Instance SessionState_eq_dec : EqDecision SessionState.
Proof. solve_decision. Defined.

Inductive HandshakeRole := INITIATOR | RESPONDER.

(** The exceptions raised: the module's own, [ValueError] with its message, and
    [struct.error]. *)
Inductive stp_error :=
| HandshakeError (msg : string)
| MACVerificationError
| ReplayAttackError (duplicate : bool)
| FrameTooLargeError (size : Z)
| SessionNotEstablishedError (state : SessionState)
| FrameValueError (msg : string)
| StructError.

(** ** Key material *)
Record SessionKeys := mkKeys {
  session_id : string; send_key : bytes; recv_key : bytes; mac_key : bytes;
  created_at : Q; rekey_after_s : Q }.

Definition should_rekey (now : Q) (k : SessionKeys) : bool := rekey_after_s k <. (now - created_at k)%Q.
Definition fingerprint (k : SessionKeys) : string :=
  String.substring 0 16 (hex (sha256 (send_key k ++ recv_key k ++ mac_key k))).

(** The loop of [hkdf_expand]; [bytes([i])] has no byte for [i] above 255. *)
Fixpoint hkdf_loop (fuel : nat) (prk info : bytes) (len : nat) (i : Z) (t okm : bytes) : res stp_error bytes :=
  match fuel with
  | O => Ok (take len okm)
  | S fuel =>
    if (length okm <? len)%nat then
      if i <? 256 then
        let t := hmac_sha256 prk (t ++ info ++ [z2b i]) in
        hkdf_loop fuel prk info len (i + 1) t (okm ++ t)
      else Raise (FrameValueError "bytes must be in range(0, 256)")
    else Ok (take len okm)
  end.
Definition hkdf_expand (prk info : bytes) (len : nat) : res stp_error bytes := hkdf_loop (S len) prk info len 1 [] [].

Definition derive_session_keys (shared_secret initiator_nonce responder_nonce : bytes) (sid : string) (now : Q)
    : res stp_error SessionKeys :=
  let prk := hmac_sha256 (initiator_nonce ++ responder_nonce) shared_secret in
  send ← hkdf_expand prk (encode_text "coreai-stp-send") SESSION_KEY_SIZE;
  recv ← hkdf_expand prk (encode_text "coreai-stp-recv") SESSION_KEY_SIZE;
  mac ← hkdf_expand prk (encode_text "coreai-stp-mac") SESSION_KEY_SIZE;
  mret (mkKeys sid send recv mac now 3600).

(** ** Frames *)
Record STPFrame := mkFrame {
  version : Z; flags : Z; timestamp : Z; sequence_no : Z; nonce : bytes; body : bytes; mac : bytes }.

Definition packed (o : option bytes) : res stp_error bytes :=
  match o with Some bs => Ok bs | None => Raise StructError end.

Definition header_bytes (f : STPFrame) : res stp_error bytes :=
  v ← packed (pack 1 (version f));
  fl ← packed (pack 1 (flags f));
  seq ← packed (pack 4 (sequence_no f));
  len ← packed (pack 4 (Z.of_nat (length (body f))));
  mret (FRAME_MAGIC ++ (v ++ fl ++ [x00; x00]) ++ be_bytes 8 (timestamp f) ++ seq ++ nonce f ++ len).

Definition to_bytes (f : STPFrame) : res stp_error bytes :=
  if MAX_FRAME_BODY_BYTES <? Z.of_nat (length (body f))
  then Raise (FrameTooLargeError (Z.of_nat (length (body f))))
  else header ← header_bytes f; mret (header ++ body f ++ mac f).

(** [data[a:b]] *)
Definition slice (a b : nat) (data : bytes) : bytes := take (b - a) (drop a data).

Definition from_bytes (data : bytes) : res stp_error STPFrame :=
  if (length data <? FRAME_HEADER_SIZE + MAC_SIZE)%nat then Raise (FrameValueError "Frame too short")
  else if negb (bool_decide (slice 0 4 data = FRAME_MAGIC))
  then Raise (FrameValueError ("Invalid frame magic: " +:+ hex (slice 0 4 data)))
  else
    let body_len := Z.to_nat (be_val (slice 36 40 data)) in
    let expected_total := (FRAME_HEADER_SIZE + body_len + MAC_SIZE)%nat in
    if (length data <? expected_total)%nat then Raise (FrameValueError "Truncated frame")
    else Ok (mkFrame (be_val (slice 4 5 data)) (be_val (slice 5 6 data)) (be_val (slice 8 16 data))
               (be_val (slice 16 20 data)) (slice 20 36 data)
               (slice FRAME_HEADER_SIZE (FRAME_HEADER_SIZE + body_len) data)
               (slice (FRAME_HEADER_SIZE + body_len) expected_total data)).

(** [FrameCodec.encode]: the frame's timestamp and nonce are drawn when it is
    made; the tag covers header and body. *)
Definition encode (k : SessionKeys) (ts : Z) (fresh_nonce : bytes) (payload : bytes) (fl seq : Z) : res stp_error bytes :=
  let f := mkFrame STP_VERSION fl ts seq fresh_nonce payload [] in
  header ← header_bytes f;
  let tag := hmac_sha256 (mac_key k) (header ++ payload) in
  to_bytes (mkFrame STP_VERSION fl ts seq fresh_nonce payload tag).

Definition decode (k : SessionKeys) (data : bytes) : res stp_error STPFrame :=
  f ← from_bytes data;
  header ← header_bytes f;
  if bool_decide (hmac_sha256 (mac_key k) (header ++ body f) = mac f) then Ok f else Raise MACVerificationError.

(** ** The replay guard *)
Record ReplayGuard := mkGuard { window_s : Q; seen : list (Z * xfloat) }.
Definition new_guard (window : Q) : ReplayGuard := mkGuard window [].

(** [abs(now - timestamp) > window] and [v > cutoff]: false for a NaN. *)
Definition outside (window now : Q) (ts : xfloat) : bool :=
  match ts with Fin t => window <. Qabs (now - t) | PInf | NInf => true | NaN => false end.
Definition later_than (cutoff : Q) (ts : xfloat) : bool :=
  match ts with Fin t => cutoff <. t | PInf => true | NInf | NaN => false end.

Definition guard_check (now : Q) (seq_no : Z) (ts : xfloat) (g : ReplayGuard) : res stp_error unit * ReplayGuard :=
  if outside (window_s g) now ts then (Raise (ReplayAttackError false), g)
  else if od_mem seq_no (seen g) then (Raise (ReplayAttackError true), g)
  else
    let cutoff := (now - window_s g)%Q in
    (Ok tt, mkGuard (window_s g) (od_set seq_no ts (List.filter (fun kv => later_than cutoff kv.2) (seen g)))).

Definition guard_reset (g : ReplayGuard) : ReplayGuard := mkGuard (window_s g) [].

(** ** The handshake *)
Record HandshakeHello := mkHello {
  hh_node : string; hh_nonce : bytes; hh_version : Z; hh_timestamp : Q; hh_ciphers : list string }.
Record HandshakeFinish := mkFinish {
  hf_node : string; hf_session : string; hf_fingerprint : string; hf_timestamp : Q; hf_tag : bytes }.
Record STPHandshake := mkHandshake {
  hs_node : string; hs_role : HandshakeRole;
  hs_local : option HandshakeHello; hs_remote : option HandshakeHello; hs_keys : option SessionKeys }.

Definition new_handshake (node : string) (role : HandshakeRole) : STPHandshake := mkHandshake node role None None None.

Definition build_hello (fresh_nonce : bytes) (now : Q) (h : STPHandshake) : HandshakeHello * STPHandshake :=
  let hello := mkHello (hs_node h) fresh_nonce STP_VERSION now ["HMAC-SHA256"; "AES-256-GCM"] in
  (hello, mkHandshake (hs_node h) (hs_role h) (Some hello) (hs_remote h) (hs_keys h)).

Definition receive_hello (now : Q) (remote : HandshakeHello) (h : STPHandshake) : res stp_error unit * STPHandshake :=
  if REPLAY_WINDOW_S <. Qabs (now - hh_timestamp remote)
  then (Raise (HandshakeError "Remote hello timestamp outside acceptable window"), h)
  else (Ok tt, mkHandshake (hs_node h) (hs_role h) (hs_local h) (Some remote) (hs_keys h)).

Definition derive_keys (shared_secret : bytes) (sid : string) (now : Q) (h : STPHandshake)
    : res stp_error SessionKeys * STPHandshake :=
  match hs_local h, hs_remote h with
  | Some local, Some remote =>
    let '(i, r) := match hs_role h with
                   | INITIATOR => (hh_nonce local, hh_nonce remote)
                   | RESPONDER => (hh_nonce remote, hh_nonce local)
                   end in
    match derive_session_keys shared_secret i r sid now with
    | Ok k => (Ok k, mkHandshake (hs_node h) (hs_role h) (hs_local h) (hs_remote h) (Some k))
    | Raise e => (Raise e, h)
    end
  | _, _ => (Raise (HandshakeError "Cannot derive keys before both hellos are exchanged"), h)
  end.

Definition finish_tag (k : SessionKeys) (node : string) : bytes :=
  take 16 (hmac_sha256 (mac_key k) (encode_text node ++ encode_text (session_id k))).

Definition build_finish (now : Q) (h : STPHandshake) : res stp_error HandshakeFinish :=
  match hs_keys h with
  | None => Raise (HandshakeError "Keys not derived yet")
  | Some k => Ok (mkFinish (hs_node h) (session_id k) (fingerprint k) now (finish_tag k (hs_node h)))
  end.

Definition verify_finish (remote : HandshakeFinish) (h : STPHandshake) : bool :=
  match hs_keys h with
  | None => false
  | Some k => bool_decide (finish_tag k (hf_node remote) = hf_tag remote)
  end.

(** ** Sessions *)
Record SecureSession := mkSession {
  ss_node : string; ss_keys : SessionKeys; ss_guard : ReplayGuard; send_seq : Z; ss_state : SessionState;
  established_at : Q; bytes_sent : Z; bytes_received : Z }.

Definition new_session (node : string) (k : SessionKeys) (now : Q) : SecureSession :=
  mkSession node k (new_guard REPLAY_WINDOW_S) 0 ESTABLISHED now 0 0.

Definition session_send (ts : Z) (fresh_nonce payload : bytes) (fl : Z) (s : SecureSession)
    : res stp_error bytes * SecureSession :=
  if negb (bool_decide (ss_state s = ESTABLISHED)) then (Raise (SessionNotEstablishedError (ss_state s)), s)
  else
    let seq := send_seq s + 1 in
    let after sent := mkSession (ss_node s) (ss_keys s) (ss_guard s) seq (ss_state s) (established_at s)
                                (bytes_sent s + sent) (bytes_received s) in
    match encode (ss_keys s) ts fresh_nonce payload fl seq with
    | Ok frame => (Ok frame, after (Z.of_nat (length frame)))
    | Raise e => (Raise e, after 0)
    end.

Definition session_receive (now : Q) (data : bytes) (s : SecureSession) : res stp_error bytes * SecureSession :=
  if negb (bool_decide (ss_state s = ESTABLISHED)) then (Raise (SessionNotEstablishedError (ss_state s)), s)
  else
    match decode (ss_keys s) data with
    | Raise e => (Raise e, s)
    | Ok f =>
      match guard_check now (sequence_no f) (f64_value (timestamp f)) (ss_guard s) with
      | (Raise e, _) => (Raise e, s)
      | (Ok _, g) =>
        (Ok (body f), mkSession (ss_node s) (ss_keys s) g (send_seq s) (ss_state s) (established_at s)
                                (bytes_sent s) (bytes_received s + Z.of_nat (length data)))
      end
    end.

Definition session_close (s : SecureSession) : SecureSession :=
  mkSession (ss_node s) (ss_keys s) (ss_guard s) (send_seq s) SESSION_CLOSED (established_at s)
            (bytes_sent s) (bytes_received s).

Record session_stats := mkSessionStats {
  sx_session : string; sx_node : string; sx_state : SessionState; sx_uptime : Q; sx_sent : Z; sx_received : Z;
  sx_sequence : Z; sx_fingerprint : string; sx_should_rekey : bool }.
Definition get_stats (now now' : Q) (s : SecureSession) : session_stats :=
  mkSessionStats (session_id (ss_keys s)) (ss_node s) (ss_state s) (py_round 1 (now - established_at s))
    (bytes_sent s) (bytes_received s) (send_seq s) (fingerprint (ss_keys s)) (should_rekey now' (ss_keys s)).

(** * Theorems *)

(** ** The frame format *)
Definition frame_ok (f : STPFrame) : Prop :=
  0 <= version f < 256 /\ 0 <= flags f < 256 /\ 0 <= timestamp f < 2 ^ 64 /\ 0 <= sequence_no f < 2 ^ 32 /\
  length (nonce f) = NONCE_SIZE /\ length (mac f) = MAC_SIZE /\ Z.of_nat (length (body f)) <= MAX_FRAME_BODY_BYTES.

Lemma slice_skip a b l1 l2 : (length l1 <= a)%nat -> slice a b (l1 ++ l2) = slice (a - length l1) (b - length l1) l2.
Proof.
  intros H. unfold slice. rewrite drop_app_ge by done. f_equal. lia.
Qed.

Lemma slice_here n l1 l2 : length l1 = n -> slice 0 n (l1 ++ l2) = l1.
Proof. intros <-. unfold slice. rewrite Nat.sub_0_r, drop_0. apply take_app_length. Qed.

Lemma packed_Ok n v bs : packed (pack n v) = Ok bs -> length bs = n /\ be_val bs = v.
Proof. unfold packed. destruct (pack n v) eqn:E; [|done]. intros [= <-]. by apply pack_Some in E as (? & ? & _). Qed.

(** The header's blocks: every field at its place. *)
Lemma header_inv f h : header_bytes f = Ok h ->
  exists v fl seq len, h = FRAME_MAGIC ++ v ++ fl ++ [x00; x00] ++ be_bytes 8 (timestamp f) ++ seq ++ nonce f ++ len /\
    (length v = 1%nat /\ be_val v = version f) /\ (length fl = 1%nat /\ be_val fl = flags f) /\
    (length seq = 4%nat /\ be_val seq = sequence_no f) /\
    (length len = 4%nat /\ be_val len = Z.of_nat (length (body f))).
Proof.
  unfold header_bytes, mbind, res_bind.
  destruct (packed (pack 1 (version f))) as [v|] eqn:Ev; [|done].
  destruct (packed (pack 1 (flags f))) as [fl|] eqn:Ef; [|done].
  destruct (packed (pack 4 (sequence_no f))) as [seq|] eqn:Es; [|done].
  destruct (packed (pack 4 (Z.of_nat _))) as [len|] eqn:El; [|done].
  apply packed_Ok in Ev, Ef, Es, El. intros [= <-]. exists v, fl, seq, len.
  split; [by rewrite <- !(app_assoc v), <- !(app_assoc fl)|]. auto.
Qed.

Lemma length_header f h : length (nonce f) = NONCE_SIZE -> header_bytes f = Ok h -> length h = FRAME_HEADER_SIZE.
Proof.
  intros Hn (v & fl & seq & len & -> & [Lv _] & [Lf _] & [Ls _] & [Ll _])%header_inv.
  rewrite !length_app, length_be_bytes, Lv, Lf, Ls, Ll, Hn. done.
Qed.

Ltac lengths := cbn [length FRAME_MAGIC];
  repeat match goal with H : length _ = _ |- _ => rewrite H end; rewrite ?length_be_bytes.
Ltac slice_field :=
  repeat (rewrite slice_skip by (lengths; lia); lengths; cbn [Nat.sub]); apply slice_here; by lengths.

Lemma header_fields f h rest : length (nonce f) = NONCE_SIZE -> header_bytes f = Ok h ->
  slice 0 4 (h ++ rest) = FRAME_MAGIC /\ be_val (slice 4 5 (h ++ rest)) = version f /\
  be_val (slice 5 6 (h ++ rest)) = flags f /\ slice 8 16 (h ++ rest) = be_bytes 8 (timestamp f) /\
  be_val (slice 16 20 (h ++ rest)) = sequence_no f /\ slice 20 36 (h ++ rest) = nonce f /\
  be_val (slice 36 40 (h ++ rest)) = Z.of_nat (length (body f)).
Proof.
  intros Hn (v & fl & seq & len & -> & [Lv <-] & [Lf <-] & [Ls <-] & [Ll <-])%header_inv.
  unfold NONCE_SIZE in Hn. rewrite <- !app_assoc.
  repeat split; try f_equal; slice_field.
Qed.

Lemma header_total f : frame_ok f -> exists h, header_bytes f = Ok h.
Proof.
  intros (Hv & Hf & _ & Hs & _ & _ & Hb). unfold MAX_FRAME_BODY_BYTES in Hb. unfold header_bytes, pack.
  rewrite !(proj2 (andb_true_iff _ _)) by (rewrite ?Z.leb_le, ?Z.ltb_lt; split; simpl; lia).
  by eexists.
Qed.

Lemma to_bytes_total f : frame_ok f -> exists h, header_bytes f = Ok h /\ to_bytes f = Ok (h ++ body f ++ mac f).
Proof.
  intros Hok. destruct (header_total f Hok) as [h Eh]. exists h. split; [done|].
  destruct Hok as (_ & _ & _ & _ & _ & _ & Hb). unfold to_bytes.
  rewrite (proj2 (Z.ltb_ge _ _) Hb), Eh. done.
Qed.

(** Parsing what was printed, whatever follows it. *)
Lemma parse_layout f h rest : length (nonce f) = NONCE_SIZE -> 0 <= timestamp f < 2 ^ 64 ->
  length (mac f) = MAC_SIZE -> header_bytes f = Ok h -> from_bytes (h ++ body f ++ mac f ++ rest) = Ok f.
Proof.
  intros Hn Hts Hm Eh. pose proof (length_header f h Hn Eh) as Lh.
  destruct (header_fields f h (body f ++ mac f ++ rest) Hn Eh) as (E1 & E2 & E3 & E4 & E5 & E6 & E7).
  unfold from_bytes. rewrite E1, E2, E3, E4, E5, E6, E7, Nat2Z.id, bool_decide_true by done.
  rewrite !length_app, Lh, Hm. change FRAME_HEADER_SIZE with 40%nat in *. change MAC_SIZE with 32%nat in *.
  rewrite !(proj2 (Nat.ltb_ge _ _)) by lia. cbn [negb]. f_equal.
  rewrite !(slice_skip _ _ h) by lia. rewrite Lh.
  change (40 - 40)%nat with 0%nat.
  replace (40 + length (body f) - 40)%nat with (length (body f)) by lia. rewrite slice_here by done.
  rewrite slice_skip by lia. rewrite Nat.sub_diag. rewrite slice_here by lia.
  rewrite be_val_bytes by (change (256 ^ Z.of_nat 8) with (2 ^ 64); lia). by destruct f.
Qed.

Lemma from_to_bytes f data rest : frame_ok f -> to_bytes f = Ok data -> from_bytes (data ++ rest) = Ok f.
Proof.
  intros Hok Ht. destruct (to_bytes_total f Hok) as (h & Eh & Ht'). rewrite Ht in Ht'. injection Ht' as ->.
  destruct Hok as (_ & _ & Hts & _ & Hn & Hm & _). rewrite <- !app_assoc. by apply parse_layout.
Qed.

(** ** What the parser reads of any input *)

(** The two reserved bytes of the header. *)
Definition set_reserved (r1 r2 : byte) (data : bytes) : bytes := take 6 data ++ [r1; r2] ++ drop 8 data.

Lemma slice_split a b data : (a <= b)%nat -> drop a data = slice a b data ++ drop b data.
Proof.
  intros H. unfold slice. rewrite <- (take_drop (b - a) (drop a data)) at 1. f_equal.
  rewrite drop_drop. f_equal. lia.
Qed.

Lemma length_slice a b data : (a <= b <= length data)%nat -> length (slice a b data) = (b - a)%nat.
Proof. intros H. unfold slice. rewrite length_take, length_drop. lia. Qed.

Lemma pack_slice a b data : (a <= b <= length data)%nat ->
  packed (pack (b - a) (be_val (slice a b data))) = Ok (slice a b data).
Proof. intros H. rewrite <- (length_slice a b data) by done. by rewrite pack_val. Qed.

Lemma from_bytes_inv data f : from_bytes data = Ok f ->
  exists h r1 r2 rest, header_bytes f = Ok h /\ length (nonce f) = NONCE_SIZE /\ length (mac f) = MAC_SIZE /\
    data = set_reserved r1 r2 h ++ body f ++ mac f ++ rest.
Proof.
  unfold from_bytes. destruct (Nat.ltb_spec (length data) (FRAME_HEADER_SIZE + MAC_SIZE)) as [|Hlen]; [done|].
  case_bool_decide as Hm; [|done]. cbn [negb].
  set (n := Z.to_nat (be_val (slice 36 40 data))).
  destruct (Nat.ltb_spec (length data) (FRAME_HEADER_SIZE + n + MAC_SIZE)) as [|Htot]; [done|].
  change FRAME_HEADER_SIZE with 40%nat in *. change MAC_SIZE with 32%nat in *.
  remember (40 + n)%nat as m eqn:Em. intros [= <-].
  assert (Hbody : length (slice 40 m data) = n) by (rewrite length_slice; lia).
  set (h := FRAME_MAGIC ++ (slice 4 5 data ++ slice 5 6 data ++ [x00; x00]) ++ slice 8 16 data ++ slice 16 20 data
              ++ slice 20 36 data ++ slice 36 40 data).
  pose proof (length_slice 6 8 data ltac:(lia)) as Lr.
  destruct (slice 6 8 data) as [|r1 [|r2 [|]]] eqn:Er; try done.
  exists h, r1, r2, (drop (m + 32) data). split_and!.
  - unfold header_bytes. cbn [version flags timestamp sequence_no body nonce].
    rewrite Hbody. replace (Z.of_nat n) with (be_val (slice 36 40 data)) by (unfold n; pose proof (be_val_range (slice 36 40 data)); lia).
    rewrite (pack_slice 4 5), (pack_slice 5 6), (pack_slice 16 20), (pack_slice 36 40) by lia. cbn [mbind res_bind].
    unfold h. rewrite <- !app_assoc. rewrite <- (be_bytes_val (slice 8 16 data)) at 2.
    by rewrite length_slice by lia.
  - apply length_slice. lia.
  - cbn [mac]. rewrite length_slice; lia.
  - unfold set_reserved. cbn [body mac].
    rewrite <- (drop_0 data) at 1. rewrite (slice_split 0 4), (slice_split 4 5), (slice_split 5 6), (slice_split 6 8),
      (slice_split 8 16), (slice_split 16 20), (slice_split 20 36), (slice_split 36 40), (slice_split 40 m),
      (slice_split m (m + 32)) by lia.
    rewrite Hm, Er.
    pose proof (length_slice 4 5 data ltac:(lia)) as L4. pose proof (length_slice 5 6 data ltac:(lia)) as L5.
    destruct (slice 4 5 data) as [|v [|]] eqn:Ev; try done. destruct (slice 5 6 data) as [|fl [|]] eqn:Ef; try done.
    unfold h. cbn. by rewrite drop_0, <- !app_assoc.
Qed.

Lemma slice_set_reserved a b r1 r2 data : (8 <= length data)%nat -> (b <= 6 \/ 8 <= a)%nat ->
  slice a b (set_reserved r1 r2 data) = slice a b data.
Proof.
  intros Hlen Hab. unfold set_reserved. pose proof (length_take_le data 6 ltac:(lia)) as Lt.
  destruct Hab as [Hb|Ha].
  - unfold slice. destruct (decide (a <= 6)%nat) as [Ha|Ha]; [|replace (b - a)%nat with 0%nat by lia; by rewrite !take_0].
    rewrite <- (take_drop 6 data) at 3.
    rewrite !drop_app_le by lia. rewrite !take_app_le by (rewrite length_drop; lia). done.
  - rewrite app_assoc, slice_skip; rewrite length_app, Lt; cbn [length Nat.add]; [|lia].
    unfold slice. rewrite drop_drop. replace (8 + (a - 8))%nat with a by lia. f_equal. lia.
Qed.

Lemma length_set_reserved r1 r2 data : (8 <= length data)%nat -> length (set_reserved r1 r2 data) = length data.
Proof. intros H. unfold set_reserved. rewrite !length_app, length_take, length_drop. cbn [length]. lia. Qed.

Lemma from_bytes_reserved r1 r2 data : (8 <= length data)%nat -> from_bytes (set_reserved r1 r2 data) = from_bytes data.
Proof.
  intros H. unfold from_bytes. rewrite length_set_reserved by done.
  destruct (_ <? _)%nat; [done|]. rewrite !slice_set_reserved by (unfold FRAME_HEADER_SIZE; lia). done.
Qed.

(** ** What a codec accepts *)
Lemma encode_decode k ts fresh payload fl seq data rest :
  length fresh = NONCE_SIZE -> 0 <= ts < 2 ^ 64 ->
  encode k ts fresh payload fl seq = Ok data ->
  exists tag, decode k (data ++ rest) = Ok (mkFrame STP_VERSION fl ts seq fresh payload tag).
Proof.
  intros Hn Hts. unfold encode. set (f0 := mkFrame STP_VERSION fl ts seq fresh payload []).
  destruct (header_bytes f0) as [h|e] eqn:Eh; [|done]. cbn [mbind res_bind].
  set (tag := hmac_sha256 (mac_key k) (h ++ payload)). set (f := mkFrame STP_VERSION fl ts seq fresh payload tag).
  intros Ht. exists tag. assert (Eh' : header_bytes f = Ok h) by exact Eh.
  assert (Hok : frame_ok f).
  { pose proof Eh' as Hh. unfold header_bytes, mbind, res_bind, packed in Hh.
    destruct (pack 1 (version f)) eqn:E1; [|done]. destruct (pack 1 (flags f)) eqn:E2; [|done].
    destruct (pack 4 (sequence_no f)) eqn:E3; [|done]. clear Hh.
    apply pack_Some in E1 as (_ & _ & E1), E2 as (_ & _ & E2), E3 as (_ & _ & E3).
    unfold to_bytes in Ht. destruct (Z.ltb_spec MAX_FRAME_BODY_BYTES (Z.of_nat (length (body f)))); [done|].
    unfold frame_ok. split_and!; try apply length_hmac; try (simpl in *; lia); done. }
  unfold decode. rewrite (from_to_bytes f data rest Hok Ht). cbn [mbind res_bind]. rewrite Eh'. cbn [mbind res_bind].
  by rewrite bool_decide_true.
Qed.

Lemma header_parses f h r1 r2 rest : length (nonce f) = NONCE_SIZE -> 0 <= timestamp f < 2 ^ 64 ->
  length (mac f) = MAC_SIZE -> header_bytes f = Ok h ->
  from_bytes (set_reserved r1 r2 h ++ body f ++ mac f ++ rest) = Ok f.
Proof.
  intros Hn Hts Hm Eh. pose proof (length_header f h Hn Eh) as Lh. change FRAME_HEADER_SIZE with 40%nat in Lh.
  replace (set_reserved r1 r2 h ++ body f ++ mac f ++ rest) with (set_reserved r1 r2 (h ++ body f ++ mac f ++ rest)).
  2: { unfold set_reserved. rewrite take_app_le, drop_app_le, <- !app_assoc by lia. done. }
  rewrite from_bytes_reserved by (rewrite length_app; lia). by apply parse_layout.
Qed.

Lemma from_bytes_timestamp data f : from_bytes data = Ok f -> 0 <= timestamp f < 2 ^ 64.
Proof.
  unfold from_bytes. repeat case_match; try done. intros [= <-]. cbn [timestamp].
  pose proof (be_val_range (slice 8 16 data)) as [Hlo Hhi]. split; [done|]. eapply Z.lt_le_trans; [exact Hhi|].
  change (2 ^ 64) with (256 ^ 8). apply Z.pow_le_mono_r; [lia|]. unfold slice. rewrite length_take. lia.
Qed.

(** C21: A codec accepts exactly the bytes that carry, for some frame, its
    canonical header, its body and the HMAC of these two under the session's
    key, except that the header's two reserved bytes may have any value and
    anything may follow: these parts of the input are not authenticated. *)
Theorem decode_accepts_exactly k data f :
  decode k data = Ok f <->
  exists h r1 r2 rest, header_bytes f = Ok h /\ length (nonce f) = NONCE_SIZE /\ 0 <= timestamp f < 2 ^ 64 /\
    mac f = hmac_sha256 (mac_key k) (h ++ body f) /\ data = set_reserved r1 r2 h ++ body f ++ mac f ++ rest.
Proof.
  unfold decode. split.
  - destruct (from_bytes data) as [f'|] eqn:E; [|done]. cbn [mbind res_bind].
    destruct (header_bytes f') as [h|] eqn:Eh; [|done]. cbn [mbind res_bind]. case_bool_decide as Hmac; [|done]. intros [= <-].
    pose proof (from_bytes_timestamp _ _ E).
    apply from_bytes_inv in E as (h' & r1 & r2 & rest & Eh' & Hn & Hm & ->).
    rewrite Eh in Eh'. injection Eh' as <-. by exists h, r1, r2, rest.
  - intros (h & r1 & r2 & rest & Eh & Hn & Hts & Hmac & ->).
    rewrite header_parses by (rewrite ?Hmac; try apply length_hmac; done). cbn [mbind res_bind]. rewrite Eh.
    cbn [mbind res_bind]. by rewrite bool_decide_true.
Qed.


(** ** Key derivation and the handshake *)
Lemma hkdf_loop_length fuel prk info len i t okm :
  (len <= length okm + 32 * fuel)%nat -> 1 <= i -> i + Z.of_nat fuel <= 256 ->
  exists out, hkdf_loop fuel prk info len i t okm = Ok out /\ length out = len.
Proof.
  revert i t okm. induction fuel as [|fuel IH]; intros i t okm Hlen Hi Hf; cbn [hkdf_loop].
  - eexists. split; [done|]. rewrite length_take. lia.
  - destruct (Nat.ltb_spec (length okm) len).
    + rewrite (proj2 (Z.ltb_lt i 256)) by lia. apply IH; [|lia..]. rewrite length_app, length_hmac. lia.
    + eexists. split; [done|]. rewrite length_take. lia.
Qed.

(** Every length up to 255 bytes is expanded to (the code asks for 32). *)
Lemma hkdf_expand_total prk info len : (len < 255)%nat -> exists out, hkdf_expand prk info len = Ok out /\ length out = len.
Proof. intros. apply hkdf_loop_length; cbn [length]; lia. Qed.

Lemma derive_total secret i r sid now :
  exists send recv mac, derive_session_keys secret i r sid now = Ok (mkKeys sid send recv mac now 3600) /\
    length send = 32%nat /\ length recv = 32%nat /\ length mac = 32%nat /\
    forall sid' now', derive_session_keys secret i r sid' now' = Ok (mkKeys sid' send recv mac now' 3600).
Proof.
  unfold derive_session_keys. set (prk := hmac_sha256 _ _). unfold SESSION_KEY_SIZE.
  destruct (hkdf_expand_total prk (encode_text "coreai-stp-send") 32) as (a & -> & La); [lia|].
  destruct (hkdf_expand_total prk (encode_text "coreai-stp-recv") 32) as (b & -> & Lb); [lia|].
  destruct (hkdf_expand_total prk (encode_text "coreai-stp-mac") 32) as (c & -> & Lc); [lia|].
  by exists a, b, c.
Qed.

(** An honest exchange: both sides say hello, hear the other within the window,
    and derive keys from one secret. *)
Definition honest_keys (nonce_i nonce_r secret : bytes) (id_i id_r sid_i sid_r : string) (now : Q)
    : res stp_error SessionKeys * STPHandshake * (res stp_error SessionKeys * STPHandshake) :=
  let '(hello_i, i) := build_hello nonce_i now (new_handshake id_i INITIATOR) in
  let '(hello_r, r) := build_hello nonce_r now (new_handshake id_r RESPONDER) in
  let '(_, i) := receive_hello now hello_r i in
  let '(_, r) := receive_hello now hello_i r in
  (derive_keys secret sid_i now i, derive_keys secret sid_r now r).

(** Two honest parties whose hellos take no time derive the same 32-byte keys,
    whatever the nonces and the secret; but each keeps the session id it drew
    itself, and the initiator accepts the responder's finish message exactly when
    the tags over the two session ids coincide. *)
Theorem handshake_agreement nonce_i nonce_r secret id_i id_r sid_i sid_r now :
  exists ki kr hi hr, honest_keys nonce_i nonce_r secret id_i id_r sid_i sid_r now = ((Ok ki, hi), (Ok kr, hr)) /\
    send_key ki = send_key kr /\ recv_key ki = recv_key kr /\ mac_key ki = mac_key kr /\
    length (mac_key ki) = SESSION_KEY_SIZE /\ session_id ki = sid_i /\ session_id kr = sid_r /\
    (exists fin, build_finish now hr = Ok fin /\
      (verify_finish fin hi = true <->
       take 16 (hmac_sha256 (mac_key ki) (encode_text id_r ++ encode_text sid_i)) =
       take 16 (hmac_sha256 (mac_key ki) (encode_text id_r ++ encode_text sid_r)))).
Proof.
  unfold honest_keys, build_hello, receive_hello. cbn [hh_timestamp hs_node new_handshake].
  assert (Hw : (REPLAY_WINDOW_S <. Qabs (now - now)) = false).
  { apply fltb_ge. assert (now - now == 0)%Q as -> by ring. by vm_compute. }
  rewrite !Hw. lazy beta iota zeta delta [derive_keys hs_local hs_remote hs_role hh_nonce new_handshake].
  destruct (derive_total secret nonce_i nonce_r sid_i now) as (send & recv & m & -> & Ls & Lr & Lm & Hany).
  rewrite Hany. eexists _, _, _, _. split; [done|]. do 6 (split; [done|]).
  eexists. split; [done|]. unfold verify_finish, finish_tag. cbn [hs_keys hf_node hf_tag mac_key session_id hs_node].
  apply bool_decide_eq_true.
Qed.

(** ** The replay guard *)

(** Deliveries to a session, each at its moment. *)
Fixpoint receive_all (evs : list (Q * bytes)) (s : SecureSession) : list (res stp_error bytes) * SecureSession :=
  match evs with
  | [] => ([], s)
  | (now, data) :: evs =>
    let '(x, s) := session_receive now data s in
    let '(xs, s) := receive_all evs s in (x :: xs, s)
  end.

Lemma receive_all_app evs1 evs2 s :
  receive_all (evs1 ++ evs2) s =
  ((receive_all evs1 s).1 ++ (receive_all evs2 (receive_all evs1 s).2).1, (receive_all evs2 (receive_all evs1 s).2).2).
Proof.
  revert s. induction evs1 as [|[now data] evs1 IH]; intros s; cbn [app receive_all fst snd].
  - by destruct (receive_all evs2 s).
  - destruct (session_receive now data s) as [x s']. rewrite IH. by destruct (receive_all evs1 s').
Qed.

(** What an accepted frame leaves behind: its entry, or its window has closed. *)
Definition remembered (seq : Z) (ts now : Q) (s : SecureSession) : Prop :=
  od_get seq (seen (ss_guard s)) = Some (Fin ts) \/ (ts + window_s (ss_guard s) <= now)%Q.

Lemma od_get_filter_keep {V} (p : V -> bool) (k : Z) (d : list (Z * V)) v :
  od_get k d = Some v -> p v = true -> od_get k (List.filter (fun kv => p kv.2) d) = Some v.
Proof.
  induction d as [|[k' v'] d IH]; simpl; [done|]. case_decide as E.
  - intros [= ->] Hp. rewrite Hp. simpl. by rewrite decide_True.
  - intros Hg Hp. destruct (p v'); simpl; [rewrite decide_False by done|]; auto.
Qed.

Lemma session_receive_keeps now data s : ss_keys (session_receive now data s).2 = ss_keys s /\
  window_s (ss_guard (session_receive now data s).2) = window_s (ss_guard s).
Proof.
  unfold session_receive. destruct (negb _); [done|]. destruct (decode _ _) as [f|]; [|done].
  unfold guard_check. destruct (outside _ _ _); [done|]. by destruct (od_mem _ _).
Qed.

Lemma remembered_step seq ts now now' data s : (now <= now')%Q ->
  remembered seq ts now s -> remembered seq ts now' (session_receive now' data s).2.
Proof.
  intros Hn Hr. unfold remembered in *. rewrite (proj2 (session_receive_keeps now' data s)).
  destruct Hr as [Hg|Hw]; [|right; lra].
  unfold session_receive. destruct (negb _); [by left|]. destruct (decode _ _) as [f|]; [|by left].
  unfold guard_check. destruct (outside _ _ _); [by left|]. destruct (od_mem _ _) eqn:Em; [by left|].
  cbn [snd ss_guard seen]. destruct ((now' - window_s (ss_guard s)) <. ts)%Q eqn:E; [|right; fprops; lra].
  left. rewrite od_get_set_ne. { by apply (od_get_filter_keep (later_than (now' - window_s (ss_guard s)))). }
  intros Hs. unfold od_mem in Em. rewrite Hs, Hg in Em. done.
Qed.

Lemma remembered_later seq ts now now' s : (now <= now')%Q -> remembered seq ts now s -> remembered seq ts now' s.
Proof. intros Hn [Hg|Hw]; [by left|right; lra]. Qed.

Lemma remembered_run seq ts evs s now t : Sorted Qle (now :: evs.*1 ++ [t]) ->
  remembered seq ts now s -> remembered seq ts t (receive_all evs s).2.
Proof.
  revert s now. induction evs as [|[u d] evs IH]; intros s now Hs Hr.
  - inversion Hs as [|? ? _ Hle]. inversion Hle; subst. by eapply remembered_later.
  - cbn [fmap list_fmap fst app] in Hs. inversion Hs as [|? ? Hs' Hle]. inversion Hle; subst.
    apply (remembered_step seq ts now u d) in Hr; [|done]. specialize (IH _ u Hs' Hr). cbn [receive_all].
    destruct (session_receive u d s) as [x s']. cbn [snd] in IH. by destruct (receive_all evs s').
Qed.

Lemma session_receive_Ok now data s b : (session_receive now data s).1 = Ok b ->
  exists f, decode (ss_keys s) data = Ok f /\ body f = b /\
    outside (window_s (ss_guard s)) now (f64_value (timestamp f)) = false /\
    od_get (sequence_no f) (seen (ss_guard s)) = None /\
    od_get (sequence_no f) (seen (ss_guard (session_receive now data s).2)) = Some (f64_value (timestamp f)).
Proof.
  unfold session_receive. destruct (negb _); [done|]. destruct (decode _ _) as [f|] eqn:E; [|done].
  unfold guard_check. destruct (outside _ _ _) eqn:Eo; [done|].
  unfold od_mem. destruct (od_get _ (seen _)) eqn:Eg; [done|].
  intros [= <-]. exists f. cbn [snd ss_guard seen]. by rewrite od_get_set_eq.
Qed.

Lemma receive_all_keeps evs s : ss_keys (receive_all evs s).2 = ss_keys s /\
  window_s (ss_guard (receive_all evs s).2) = window_s (ss_guard s).
Proof.
  revert s. induction evs as [|[t d] evs IH]; intros s; [done|]. cbn [receive_all].
  destruct (session_receive_keeps t d s) as [K W]. destruct (session_receive t d s) as [x s']. cbn [snd] in K, W.
  destruct (IH s') as [K' W']. destruct (receive_all evs s'). cbn [snd] in *. split; congruence.
Qed.

(** C19: While the clock does not go back, two frames with one sequence number
    are both accepted only when the window of the first has closed by the
    second's arrival; the same bytes are accepted again at one instant only,
    exactly [window_s] after their timestamp, where the eviction has already
    dropped the entry and the age test still passes. *)
Theorem replay_only_at_the_edge s before t1 d1 between t2 d2 b1 b2 ts1 ts2 :
  Sorted Qle (t1 :: between.*1 ++ [t2]) ->
  let s1 := (receive_all before s).2 in
  let s2 := (receive_all between (session_receive t1 d1 s1).2).2 in
  (session_receive t1 d1 s1).1 = Ok b1 -> (session_receive t2 d2 s2).1 = Ok b2 ->
  forall f1 f2, decode (ss_keys s) d1 = Ok f1 -> decode (ss_keys s) d2 = Ok f2 ->
  f64_value (timestamp f1) = Fin ts1 -> f64_value (timestamp f2) = Fin ts2 ->
  sequence_no f1 = sequence_no f2 ->
  (ts1 + window_s (ss_guard s) <= t2)%Q /\ (d1 = d2 -> t2 == ts1 + window_s (ss_guard s))%Q.
Proof.
  intros Hsort s1 s2 H1' H2' f1 f2 D1 D2 T1 T2 Hseq.
  destruct (receive_all_keeps before s) as [K1 W1]. fold s1 in K1, W1.
  destruct (session_receive_keeps t1 d1 s1) as [K2 W2].
  destruct (receive_all_keeps between (session_receive t1 d1 s1).2) as [K3 W3]. fold s2 in K3, W3.
  apply session_receive_Ok in H1' as (f & Df & _ & _ & _ & Hin). rewrite K1, D1 in Df. injection Df as <-.
  apply session_receive_Ok in H2' as (f & Df & _ & Hout & Hnone & _). rewrite K3, K2, K1, D2 in Df. injection Df as <-.
  rewrite T1 in Hin. rewrite T2, W3, W2, W1 in Hout. cbn [outside] in Hout.
  assert (Hrem : remembered (sequence_no f1) ts1 t2 s2).
  { apply (remembered_run _ _ between _ t1); [done|]. by left. }
  destruct Hrem as [Hg|Hw]; [by rewrite Hseq, Hnone in Hg|]. rewrite W3, W2, W1 in Hw.
  split; [exact Hw|]. intros ->. rewrite D1 in D2. injection D2 as <-. rewrite T1 in T2. injection T2 as <-.
  apply fltb_ge in Hout. apply Qabs_Qle_condition in Hout as [_ Hout]. lra.
Qed.

(** ** A channel *)

(** One message: the sender's timestamp bits and nonce, the payload, its flags,
    and the moment it arrives. *)
Record letter := mkLetter { l_ts : Z; l_nonce : bytes; l_payload : bytes; l_flags : Z; l_arrival : Q }.

(** Every message is sent and received before the next one is sent. *)
Fixpoint exchange (ls : list letter) (sender receiver : SecureSession)
    : list (res stp_error bytes) * SecureSession * SecureSession :=
  match ls with
  | [] => ([], sender, receiver)
  | l :: ls =>
    match session_send (l_ts l) (l_nonce l) (l_payload l) (l_flags l) sender with
    | (Raise e, sender) => let '(xs, sender, receiver) := exchange ls sender receiver in (Raise e :: xs, sender, receiver)
    | (Ok data, sender) =>
      let '(x, receiver) := session_receive (l_arrival l) data receiver in
      let '(xs, sender, receiver) := exchange ls sender receiver in (x :: xs, sender, receiver)
    end
  end.

(** A message that a session can carry and that arrives in time. *)
Definition letter_ok (window : Q) (l : letter) : Prop :=
  0 <= l_ts l < 2 ^ 64 /\ length (l_nonce l) = NONCE_SIZE /\ 0 <= l_flags l < 256 /\
  Z.of_nat (length (l_payload l)) <= MAX_FRAME_BODY_BYTES /\
  exists t, f64_value (l_ts l) = Fin t /\ (Qabs (l_arrival l - t) <= window)%Q.

(** The receiver has seen no sequence number the sender has still to use. *)
Definition in_step (sender receiver : SecureSession) : Prop :=
  ss_state sender = ESTABLISHED /\ ss_state receiver = ESTABLISHED /\
  mac_key (ss_keys sender) = mac_key (ss_keys receiver) /\ 0 <= send_seq sender /\
  Forall (fun kv => kv.1 <= send_seq sender) (seen (ss_guard receiver)).

Lemma encode_total k ts fresh payload fl seq :
  0 <= ts < 2 ^ 64 -> length fresh = NONCE_SIZE -> 0 <= fl < 256 -> 0 <= seq < 2 ^ 32 ->
  Z.of_nat (length payload) <= MAX_FRAME_BODY_BYTES -> exists data, encode k ts fresh payload fl seq = Ok data.
Proof.
  intros Hts Hn Hf Hs Hb. unfold encode. cbv zeta.
  set (f := fun tag => mkFrame STP_VERSION fl ts seq fresh payload tag).
  assert (Hok : forall tag, length tag = MAC_SIZE -> frame_ok (f tag)) 
    by (intros tag Ht; unfold frame_ok, f; cbn [version flags timestamp sequence_no nonce mac body]; unfold STP_VERSION; split_and!; lia || done).
  destruct (header_total (f (repeat x00 32)) (Hok (repeat x00 32) eq_refl)) as [h Eh].
  assert (Eh' : header_bytes (f []) = Ok h) by exact Eh.
  rewrite Eh'. cbn [mbind res_bind]. set (tag := hmac_sha256 _ _).
  destruct (to_bytes_total (f tag) (Hok tag (length_hmac _ _))) as (h' & _ & ->). by eexists.
Qed.

Lemma decode_same_mac k k' data : mac_key k = mac_key k' -> decode k data = decode k' data.
Proof. intros H. unfold decode. by rewrite H. Qed.

Lemma Forall_od_set_fresh {V} (P : Z * V -> Prop) k v (d : list (Z * V)) :
  P (k, v) -> Forall P d -> Forall P (od_set k v d).
Proof.
  intros Hv. induction 1 as [|[k' v'] d Hx Hd IH]; simpl; [by repeat constructor|]. case_decide; by constructor.
Qed.

(** One send and one receive of an established session. *)
Lemma session_send_ok ts fresh payload fl s :
  ss_state s = ESTABLISHED -> 0 <= ts < 2 ^ 64 -> length fresh = NONCE_SIZE -> 0 <= fl < 256 ->
  Z.of_nat (length payload) <= MAX_FRAME_BODY_BYTES -> 0 <= send_seq s -> send_seq s + 1 < 2 ^ 32 ->
  exists data f, session_send ts fresh payload fl s =
      (Ok data, mkSession (ss_node s) (ss_keys s) (ss_guard s) (send_seq s + 1) ESTABLISHED (established_at s)
                  (bytes_sent s + Z.of_nat (length data)) (bytes_received s)) /\
    decode (ss_keys s) data = Ok f /\ body f = payload /\ sequence_no f = send_seq s + 1 /\ timestamp f = ts.
Proof.
  intros Es Hts Hn Hf Hb Hseq Hmax. unfold session_send. rewrite Es, bool_decide_true by done. cbn [negb].
  destruct (encode_total (ss_keys s) ts fresh payload fl (send_seq s + 1)) as [data Ed]; [done|done|done|lia|done|].
  rewrite Ed. destruct (encode_decode _ _ _ _ _ _ _ [] Hn Hts Ed) as [tag Hd]. rewrite app_nil_r in Hd.
  exists data. eexists. split; [done|]. by rewrite Hd.
Qed.

Lemma session_receive_ok now data s f t :
  ss_state s = ESTABLISHED -> decode (ss_keys s) data = Ok f -> f64_value (timestamp f) = Fin t ->
  (Qabs (now - t) <= window_s (ss_guard s))%Q -> sequence_no f ∉ od_keys (seen (ss_guard s)) ->
  session_receive now data s =
  (Ok (body f), mkSession (ss_node s) (ss_keys s)
     (mkGuard (window_s (ss_guard s))
        (od_set (sequence_no f) (Fin t)
           (List.filter (fun kv => later_than (now - window_s (ss_guard s)) kv.2) (seen (ss_guard s)))))
     (send_seq s) ESTABLISHED (established_at s) (bytes_sent s) (bytes_received s + Z.of_nat (length data))).
Proof.
  intros Es Hd Ht Hw Hnew. unfold session_receive. rewrite Es, bool_decide_true, Hd by done. cbn [negb].
  unfold guard_check. rewrite Ht. cbn [outside]. rewrite (proj2 (fltb_ge _ _) Hw).
  apply od_get_None in Hnew. unfold od_mem. by rewrite Hnew.
Qed.

Lemma one_letter l sender receiver :
  in_step sender receiver -> letter_ok (window_s (ss_guard receiver)) l -> send_seq sender + 1 < 2 ^ 32 ->
  exists data sender' receiver',
    session_send (l_ts l) (l_nonce l) (l_payload l) (l_flags l) sender = (Ok data, sender') /\
    session_receive (l_arrival l) data receiver = (Ok (l_payload l), receiver') /\
    in_step sender' receiver' /\ send_seq sender' = send_seq sender + 1 /\
    window_s (ss_guard receiver') = window_s (ss_guard receiver).
Proof.
  intros (Es & Er & Hmac & Hseq & Hseen) (Hts & Hn & Hf & Hb & t & Ht & Hw) Hmax.
  destruct (session_send_ok (l_ts l) (l_nonce l) (l_payload l) (l_flags l) sender)
    as (data & f & E & Hd & Hbody & Hs & Hft); [done..|].
  rewrite (decode_same_mac _ (ss_keys receiver)) in Hd by done. rewrite <- Hft in Ht.
  assert (Hnew : sequence_no f ∉ od_keys (seen (ss_guard receiver))).
  { rewrite Hs. intros ([k v] & Hk & Hin)%list_elem_of_fmap. rewrite Forall_forall in Hseen.
    apply Hseen in Hin. cbn in Hk, Hin. lia. }
  rewrite E, <- Hbody. eexists _, _, _. split; [done|].
  split; [by apply (session_receive_ok _ _ _ f t)|].
  split; [|done]. unfold in_step. cbn [ss_state ss_keys send_seq ss_guard seen].
  split_and!; try done; [lia|]. apply Forall_od_set_fresh; [cbn; lia|].
  apply Forall_list_filter. eapply Forall_impl; [exact Hseen|]. cbn. lia.
Qed.

(** C20: A channel of two sessions that share a MAC key delivers every message:
    whatever is sent, within the frame limits, and arrives within the replay
    window of its timestamp comes out as it went in, in order, until the 32-bit
    sequence numbers are used up. *)
Theorem channel_delivers ls sender receiver :
  in_step sender receiver -> Forall (letter_ok (window_s (ss_guard receiver))) ls ->
  send_seq sender + Z.of_nat (length ls) < 2 ^ 32 ->
  (exchange ls sender receiver).1.1 = (fun l => Ok (l_payload l)) <$> ls.
Proof.
  revert sender receiver. induction ls as [|l ls IH]; intros sender receiver Hin Hls Hmax; [done|].
  apply Forall_cons in Hls as [Hl Hls]. cbn [length] in Hmax. rewrite Nat2Z.inj_succ in Hmax.
  destruct (one_letter l sender receiver Hin Hl ltac:(lia)) as (data & s' & r' & Es & Er & Hin' & Hq & Hw).
  cbn [exchange fmap list_fmap]. rewrite Es, Er. rewrite <- Hw in Hls.
  specialize (IH s' r' Hin' Hls ltac:(lia)). destruct (exchange ls s' r') as [[xs ?] ?]. cbn in IH |- *. by rewrite IH.
Qed.

Module SecureDemo.
Definition keys (sid : string) : SessionKeys := mkKeys sid (repeat x01 32) (repeat x02 32) (repeat x03 32) 0 3600.
(** 1000.0 and 1030.0 as doubles. *)
Definition at_1000 : Z := 4652007308841189376.
Definition at_1030 : Z := 4652271191678746624.
Definition letters : list letter :=
  [mkLetter at_1000 (repeat x07 16) (encode_text "hello") FLAG_ENCRYPTED 1010;
   mkLetter at_1030 (repeat x08 16) [] FLAG_NONE 1030].
Definition alice : SecureSession := new_session "alice" (keys "s1") 0.
Definition bob : SecureSession := new_session "bob" (keys "s2") 0.
Definition frame_of (l : letter) (seq : Z) : bytes :=
  match encode (keys "s1") (l_ts l) (l_nonce l) (l_payload l) (l_flags l) seq with Ok d => d | Raise _ => [] end.
Definition first : bytes := frame_of (mkLetter at_1000 (repeat x07 16) (encode_text "pay") FLAG_ENCRYPTED 1010) 1.
Definition second : bytes := frame_of (mkLetter at_1030 (repeat x08 16) [] FLAG_NONE 1030) 2.

Example at_1000_value : exists q, f64_value at_1000 = Fin q /\ q == 1000.
Proof. eexists. split; [vm_compute; reflexivity|by vm_compute]. Qed.

Lemma channel_delivers_witness :
  (exchange letters alice bob).1.1 = [Ok (encode_text "hello"); Ok []].
Proof.
  apply (channel_delivers letters alice bob).
  - by split_and!; try done.
  - repeat constructor; cbn [l_ts l_nonce l_payload l_flags l_arrival]; try (vm_compute; done);
      (eexists; split; [vm_compute; reflexivity|by vm_compute]).
  - vm_compute. reflexivity.
Defined.

(** The first frame, again at the edge: accepted twice. *)
Example replay_accepted :
  (receive_all [(1010, first); (1030, second); (1030, first)]%Q bob).1
  = [Ok (encode_text "pay"); Ok []; Ok (encode_text "pay")].
Proof. vm_compute. reflexivity. Qed.

Definition sent_at : Q := match f64_value at_1000 with Fin q => q | _ => 0%Q end.
Definition first_frame : STPFrame :=
  mkFrame STP_VERSION FLAG_ENCRYPTED at_1000 1 (repeat x07 16) (encode_text "pay") (drop 43 first).

Lemma replay_only_at_the_edge_witness :
  (sent_at + 30 <= 1030)%Q /\ (first = first -> 1030 == sent_at + 30)%Q.
Proof.
  apply (replay_only_at_the_edge bob [] 1010 first [(1030%Q, second)] 1030 first
           (encode_text "pay") (encode_text "pay") sent_at sent_at) with (f1 := first_frame) (f2 := first_frame);
    try (vm_compute; reflexivity).
  repeat constructor; by vm_compute.
Defined.

(** The third byte of the reserved field and a suffix do not matter to the tag. *)
Example reserved_bytes_ignored :
  decode (keys "s1") (set_reserved x41 x42 first ++ [x43]) = decode (keys "s1") first /\
  decode (keys "s1") first = Ok first_frame.
Proof. split; vm_compute; reflexivity. Qed.

(** Two honest parties with their own session ids reject each other's finish. *)
Lemma finish_rejected : exists ki kr hi hr fin,
  honest_keys (repeat x0a 16) (repeat x0b 16) (encode_text "secret") "node-a" "node-b" "session-1" "session-2" 5
  = ((Ok ki, hi), (Ok kr, hr)) /\ build_finish 5 hr = Ok fin /\ verify_finish fin hi = false.
Proof. eexists _, _, _, _, _. split; [|split]; [vm_compute; reflexivity..]. Qed.
End SecureDemo.
