(* ===== verification/DistributedAgent.v ===== *)
(** The agent protocol of [protocols/distributed_agent.py]: envelopes and their
    JSON form, the in-process message router with a sealed session and a bounded
    queue per agent, the capability registry and the protocol handler.

    [send] runs without interruption up to a full queue or the wait for an
    acknowledgement; these two suspensions are values of [send_outcome], and
    [dap_step] interleaves any number of senders and receivers. Fresh ids, clock
    readings and the timestamp and nonce of each sealed frame are arguments. *)
From S2P Require Import Prelude Errors Yaml Bytes Sha256 Json SecureProtocol.

Definition PROTOCOL_VERSION : string := "dap/1.2".
Definition DEFAULT_ACK_TIMEOUT_S : Q := 5.
Definition MAX_ROUTING_HOPS : Z := 8.
Definition QUEUE_SIZE : nat := 512.

Inductive MessageType :=
| TASK_ASSIGN | TASK_RESULT | TASK_CANCEL | HEARTBEAT | CAPABILITY_ANNOUNCE | CAPABILITY_QUERY | STATE_SYNC | ERROR | ACK.
Definition message_types : list (string * MessageType) :=
  [("task.assign", TASK_ASSIGN); ("task.result", TASK_RESULT); ("task.cancel", TASK_CANCEL); ("heartbeat", HEARTBEAT);
   ("capability.announce", CAPABILITY_ANNOUNCE); ("capability.query", CAPABILITY_QUERY); ("state.sync", STATE_SYNC);
   ("error", ERROR); ("ack", ACK)].
Definition type_value (t : MessageType) : string :=
  match t with
  | TASK_ASSIGN => "task.assign" | TASK_RESULT => "task.result" | TASK_CANCEL => "task.cancel" | HEARTBEAT => "heartbeat"
  | CAPABILITY_ANNOUNCE => "capability.announce" | CAPABILITY_QUERY => "capability.query" | STATE_SYNC => "state.sync"
  | ERROR => "error" | ACK => "ack"
  end.

Inductive DeliveryMode := AT_MOST_ONCE | AT_LEAST_ONCE | EXACTLY_ONCE.
#[export] Instance DeliveryMode_eq_dec : EqDecision DeliveryMode.
Proof. solve_decision. Defined.
Definition delivery_modes : list (string * DeliveryMode) :=
  [("at_most_once", AT_MOST_ONCE); ("at_least_once", AT_LEAST_ONCE); ("exactly_once", EXACTLY_ONCE)].
Definition mode_value (d : DeliveryMode) : string :=
  match d with AT_MOST_ONCE => "at_most_once" | AT_LEAST_ONCE => "at_least_once" | EXACTLY_ONCE => "exactly_once" end.

Inductive AgentCapability :=
| TEXT_COMPLETION | CODE_EXECUTION | WEB_SEARCH | DATA_ANALYSIS | MEMORY_READ | MEMORY_WRITE | TOOL_USE.
#[export] Instance AgentCapability_eq_dec : EqDecision AgentCapability.
Proof. solve_decision. Defined.

(** What the module raises. A field whose type is not the declared one is kept
    by Python; here reading it is [IllTyped]. *)
Inductive dap_error :=
| RoutingLoopError (msg : string)
| AckTimeoutError (msg : string)
| JsonTypeError | JsonDecodeError
| MissingField (key : string) | BadEnum (v : string) | UnknownField | IllTyped (key : string)
| Transport (e : stp_error).

(** ** Envelopes *)
Record MessageEnvelope := mkEnvelope {
  msg_id : string; protocol_version : string; msg_type : MessageType; sender_id : string; recipient_id : string;
  correlation_id : option string; delivery_mode : DeliveryMode; env_created_at : Q; ttl_s : Q; hop_count : Z;
  payload : list (string * yaml); checksum : string }.

Section Protocol.
Context `{FloatText}.
Implicit Types (e : MessageEnvelope) (a : string).

Definition payload_value (p : list (string * yaml)) : yaml := YMap ((fun kv => (YStr kv.1, kv.2)) <$> p).

(** [json.dumps(..., sort_keys=True)] orders every object by its keys. *)
Fixpoint sort_value (v : yaml) : yaml :=
  match v with
  | YList l => YList (map sort_value l)
  | YMap m => YMap (py_sorted (fun x y => key_leb x.1 y.1) (map (fun kv => (kv.1, sort_value kv.2)) m))
  | v => v
  end.

Definition _compute_checksum (p : list (string * yaml)) : res dap_error string :=
  match json_dumps (sort_value (payload_value p)) with
  | Some text => Ok (String.substring 0 16 (hex (sha256 (encode_text (text_of text)))))
  | None => Raise JsonTypeError
  end.

(** The constructor: an empty checksum is computed. *)
Definition new_envelope (e : MessageEnvelope) : res dap_error MessageEnvelope :=
  if decide (checksum e = EmptyString) then
    c ← _compute_checksum (payload e);
    mret (mkEnvelope (msg_id e) (protocol_version e) (msg_type e) (sender_id e) (recipient_id e) (correlation_id e)
            (delivery_mode e) (env_created_at e) (ttl_s e) (hop_count e) (payload e) c)
  else mret e.

Definition is_expired (now : Q) e : bool := ttl_s e <. (now - env_created_at e)%Q.
Definition is_broadcast e : bool := bool_decide (recipient_id e = EmptyString).

Definition opt_value (o : option string) : yaml := match o with Some s => YStr s | None => YNull end.
Definition to_dict e : list (string * yaml) :=
  [("msg_id", YStr (msg_id e)); ("protocol_version", YStr (protocol_version e));
   ("msg_type", YStr (type_value (msg_type e))); ("sender_id", YStr (sender_id e));
   ("recipient_id", YStr (recipient_id e)); ("correlation_id", opt_value (correlation_id e));
   ("delivery_mode", YStr (mode_value (delivery_mode e))); ("created_at", YFloat (Fin (env_created_at e)));
   ("ttl_s", YFloat (Fin (ttl_s e))); ("hop_count", YInt (hop_count e)); ("payload", payload_value (payload e));
   ("checksum", YStr (checksum e))].
Definition field_names : list string :=
  ["msg_id"; "protocol_version"; "msg_type"; "sender_id"; "recipient_id"; "correlation_id"; "delivery_mode";
   "created_at"; "ttl_s"; "hop_count"; "payload"; "checksum"].

(** [data[key]] as an enum member. *)
Definition enum_field {A} (key : string) (members : list (string * A)) (d : list (yaml * yaml)) : res dap_error A :=
  match yget key d with
  | None => Raise (MissingField key)
  | Some (YStr s) => match od_get s members with Some a => Ok a | None => Raise (BadEnum s) end
  | Some _ => Raise (BadEnum key)
  end.
(** A keyword argument with its default. *)
Definition field {A} (key : string) (read : yaml -> option A) (dflt : A) (d : list (yaml * yaml)) : res dap_error A :=
  match yget key d with
  | None => Ok dflt
  | Some v => match read v with Some a => Ok a | None => Raise (IllTyped key) end
  end.
Definition read_text (v : yaml) : option string := match v with YStr s => Some s | _ => None end.
Definition read_opt_text (v : yaml) : option (option string) :=
  match v with YStr s => Some (Some s) | YNull => Some None | _ => None end.
Definition read_float (v : yaml) : option Q :=
  match v with YFloat (Fin q) => Some q | YInt z => Some (inject_Z z) | _ => None end.
Definition read_int (v : yaml) : option Z := match v with YInt z => Some z | _ => None end.
Definition read_object (v : yaml) : option (list (string * yaml)) :=
  match v with YMap m => mapM (fun kv => s ← read_text kv.1; Some (s, kv.2)) m | _ => None end.

Definition from_dict (fresh_id : string) (now : Q) (d : list (yaml * yaml)) : res dap_error MessageEnvelope :=
  t ← enum_field "msg_type" message_types d;
  m ← enum_field "delivery_mode" delivery_modes d;
  if negb (bool_decide (unknown_keys field_names d = [])) then Raise UnknownField
  else
    i ← field "msg_id" read_text fresh_id d;
    v ← field "protocol_version" read_text PROTOCOL_VERSION d;
    s ← field "sender_id" read_text EmptyString d;
    r ← field "recipient_id" read_text EmptyString d;
    c ← field "correlation_id" read_opt_text None d;
    created ← field "created_at" read_float now d;
    ttl ← field "ttl_s" read_float 60%Q d;
    h ← field "hop_count" read_int 0 d;
    p ← field "payload" read_object [] d;
    k ← field "checksum" read_text EmptyString d;
    new_envelope (mkEnvelope i v t s r c m created ttl h p k).

Definition make_reply (fresh_id : string) (now : Q) (t : MessageType) (p : list (string * yaml)) e
    : res dap_error MessageEnvelope :=
  new_envelope (mkEnvelope fresh_id PROTOCOL_VERSION t (recipient_id e) (sender_id e) (Some (msg_id e))
                  (delivery_mode e) now 60 0 p EmptyString).

(** [_serialize] *)
Definition _serialize e : res dap_error bytes :=
  match json_dumps (payload_value (to_dict e)) with
  | Some text => Ok (encode_text (text_of text))
  | None => Raise JsonTypeError
  end.

(** ** The message router *)

(** A queue object keeps its identity: a sender waits on the queue it found. *)
Record AgentMessageRouter := mkMailer {
  queues : list (string * (nat * list bytes));
  sessions : list (string * SecureSession);
  pending_acks : list string;
  delivered : list string;
  next_queue : nat }.
Definition new_mailer : AgentMessageRouter := mkMailer [] [] [] [] 0.

Definition with_queues (qs : list (string * (nat * list bytes))) (r : AgentMessageRouter) : AgentMessageRouter :=
  mkMailer qs (sessions r) (pending_acks r) (delivered r) (next_queue r).
Definition with_sessions (ss : list (string * SecureSession)) (r : AgentMessageRouter) : AgentMessageRouter :=
  mkMailer (queues r) ss (pending_acks r) (delivered r) (next_queue r).
Definition with_pending (l : list string) (r : AgentMessageRouter) : AgentMessageRouter :=
  mkMailer (queues r) (sessions r) l (delivered r) (next_queue r).
Definition with_delivered (l : list string) (r : AgentMessageRouter) : AgentMessageRouter :=
  mkMailer (queues r) (sessions r) (pending_acks r) l (next_queue r).

Definition register_queue (fresh : SessionKeys) (now : Q) a (r : AgentMessageRouter) : AgentMessageRouter :=
  if od_mem a (queues r) then r
  else mkMailer (od_set a (next_queue r, []) (queues r)) (od_set a (new_session a fresh now) (sessions r))
                (pending_acks r) (delivered r) (S (next_queue r)).

Definition deregister_queue a (r : AgentMessageRouter) : AgentMessageRouter :=
  mkMailer (od_del a (queues r)) (od_del a (sessions r)) (pending_acks r) (delivered r) (next_queue r).

(** What [send] ends with, or waits for: room in a queue, an acknowledgement. *)
Inductive send_outcome :=
| Finished
| SendRaised (err : dap_error)
| AwaitRoom (a : string) (queue_id : nat) (item : bytes) (e : MessageEnvelope)
| AwaitAck (e : MessageEnvelope).

(** The timestamp bits and the nonce a sealed frame draws, per recipient. *)
Abbreviation draws := (string -> Z * bytes).

(** [session.send(payload)] on the session of a recipient. *)
Definition seal (draw : draws) a (text : bytes) (s : SecureSession) (r : AgentMessageRouter)
    : res dap_error bytes * AgentMessageRouter :=
  let '(x, s) := session_send (draw a).1 (draw a).2 text FLAG_ENCRYPTED s in
  (match x with Ok item => Ok item | Raise err => Raise (Transport err) end, with_sessions (od_set a s (sessions r)) r).

(** After the item is in the queue. *)
Definition after_put e (r : AgentMessageRouter) : send_outcome * AgentMessageRouter :=
  if decide (delivery_mode e = AT_LEAST_ONCE) then
    (AwaitAck e, with_pending (if decide (msg_id e ∈ pending_acks r) then pending_acks r else msg_id e :: pending_acks r) r)
  else (Finished, r).

(** [await queue.put(item)], tried once. *)
Definition try_put a (queue_id : nat) (item : bytes) e (r : AgentMessageRouter) : send_outcome * AgentMessageRouter :=
  match od_get a (queues r) with
  | Some (id, items) =>
    if decide (id = queue_id) then
      if (length items <? QUEUE_SIZE)%nat
      then after_put e (with_queues (od_set a (id, items ++ [item]) (queues r)) r)
      else (AwaitRoom a queue_id item e, r)
    else (AwaitRoom a queue_id item e, r)
  | None => (AwaitRoom a queue_id item e, r)
  end.

Definition _unicast (draw : draws) e (r : AgentMessageRouter) : send_outcome * AgentMessageRouter :=
  match od_get (recipient_id e) (queues r), od_get (recipient_id e) (sessions r) with
  | Some (id, _), Some s =>
    match _serialize e with
    | Raise err => (SendRaised err, r)
    | Ok text =>
      match seal draw (recipient_id e) text s r with
      | (Raise err, r) => (SendRaised err, r)
      | (Ok item, r) => try_put (recipient_id e) id item e r
      end
    end
  | _, _ => (Finished, r)
  end.

(** The loop of [_broadcast]: a full queue drops the item, which has already
    used a sequence number. *)
Fixpoint broadcast_loop (draw : draws) (text : bytes) (sender : string) (names : list string) (r : AgentMessageRouter)
    : send_outcome * AgentMessageRouter :=
  match names with
  | [] => (Finished, r)
  | a :: names =>
    if decide (a = sender) then broadcast_loop draw text sender names r
    else
      match od_get a (queues r), od_get a (sessions r) with
      | Some (id, items), Some s =>
        match seal draw a text s r with
        | (Raise err, r) => (SendRaised err, r)
        | (Ok item, r) =>
          broadcast_loop draw text sender names
            (if (length items <? QUEUE_SIZE)%nat then with_queues (od_set a (id, items ++ [item]) (queues r)) r else r)
        end
      | _, _ => (SendRaised (MissingField a), r)
      end
  end.

Definition _broadcast (draw : draws) e (r : AgentMessageRouter) : send_outcome * AgentMessageRouter :=
  match _serialize e with
  | Raise err => (SendRaised err, r)
  | Ok text => broadcast_loop draw text (sender_id e) (od_keys (queues r)) r
  end.

(** [envelope.hop_count += 1]: the caller's object keeps the new count, so a caller
    that sends it again passes it with that count. *)
Definition add_hop e : MessageEnvelope :=
  mkEnvelope (msg_id e) (protocol_version e) (msg_type e) (sender_id e) (recipient_id e) (correlation_id e)
    (delivery_mode e) (env_created_at e) (ttl_s e) (hop_count e + 1) (payload e) (checksum e).

(** [send], up to its first suspension. *)
Definition send (now : Q) (draw : draws) e (r : AgentMessageRouter) : send_outcome * AgentMessageRouter :=
  if is_expired now e then (Finished, r)
  else if MAX_ROUTING_HOPS <=? hop_count e
  then (SendRaised (RoutingLoopError ("Message " +:+ String.substring 0 8 (msg_id e) +:+ " exceeded max hops (8)")), r)
  else
    let e := add_hop e in
    if decide (delivery_mode e = EXACTLY_ONCE /\ msg_id e ∈ delivered r) then (Finished, r)
    else
      let r := if decide (delivery_mode e = EXACTLY_ONCE) then with_delivered (msg_id e :: delivered r) r else r in
      if is_broadcast e then _broadcast draw e r else _unicast draw e r.

(** [wait_for] runs out; the future of this message is dropped. *)
Definition ack_timeout e (r : AgentMessageRouter) : dap_error * AgentMessageRouter :=
  (AckTimeoutError ("No ACK received for message " +:+ String.substring 0 8 (msg_id e) +:+ " from " +:+ recipient_id e),
   with_pending (List.filter (fun i => negb (bool_decide (i = msg_id e))) (pending_acks r)) r).

Definition acknowledge (id : string) (r : AgentMessageRouter) : AgentMessageRouter :=
  with_pending (List.filter (fun i => negb (bool_decide (i = id))) (pending_acks r)) r.

Definition unseal (fresh_id : string) (now : Q) a (sealed : bytes) (r : AgentMessageRouter)
    : res dap_error (option MessageEnvelope) * AgentMessageRouter :=
  match od_get a (sessions r) with
  | None => (Ok None, r)
  | Some s =>
    let '(x, s) := session_receive now sealed s in
    let r := with_sessions (od_set a s (sessions r)) r in
    match x with
    | Raise MACVerificationError | Raise (ReplayAttackError _) => (Ok None, r)
    | Raise err => (Raise (Transport err), r)
    | Ok raw =>
      match json_loads (chars_of (decode_text raw)) with
      | Some (YMap d) =>
        (match from_dict fresh_id now d with Ok e => Ok (Some e) | Raise err => Raise err end, r)
      | Some _ => (Raise (IllTyped "data"), r)
      | None => (Raise JsonDecodeError, r)
      end
    end
  end.

(** ** The capability registry *)
Record AgentCapabilityRecord := mkRecord {
  ar_agent : string; capabilities : list AgentCapability; ar_model : string; max_concurrent_tasks : Z;
  announced_at : Q; region : string }.
Abbreviation CapabilityRegistry := (list (string * AgentCapabilityRecord)).

Definition announce (c : AgentCapabilityRecord) (g : CapabilityRegistry) : CapabilityRegistry := od_set (ar_agent c) c g.
Definition find (c : AgentCapability) (wanted : option string) (g : CapabilityRegistry) : list AgentCapabilityRecord :=
  let results := List.filter (fun r => bool_decide (c ∈ capabilities r)) (od_values g) in
  let results := match wanted with
                 | Some w => if decide (w = EmptyString) then results
                             else List.filter (fun r => bool_decide (region r = w)) results
                 | None => results
                 end in
  py_sorted (fun x y => max_concurrent_tasks y <=? max_concurrent_tasks x) results.
Definition remove_record a (g : CapabilityRegistry) : CapabilityRegistry := od_del a g.
Definition all_agents (g : CapabilityRegistry) : list string := od_keys g.

(** ** The protocol handler *)
Record DistributedAgentProtocol := mkProtocol { mailer : AgentMessageRouter; registry : CapabilityRegistry }.

Definition register_agent (fresh : SessionKeys) (now : Q) a (caps : list AgentCapability) (model reg : string)
    (p : DistributedAgentProtocol) : DistributedAgentProtocol :=
  mkProtocol (register_queue fresh now a (mailer p)) (announce (mkRecord a caps model 4 now reg) (registry p)).
Definition deregister_agent a (p : DistributedAgentProtocol) : DistributedAgentProtocol :=
  mkProtocol (deregister_queue a (mailer p)) (remove_record a (registry p)).

Definition task_envelope (fresh_id : string) (now : Q) (sender recipient : string) (task : list (string * yaml))
    (d : DeliveryMode) : res dap_error MessageEnvelope :=
  new_envelope (mkEnvelope fresh_id PROTOCOL_VERSION TASK_ASSIGN sender recipient None d now 60 0 task EmptyString).
Definition send_task (fresh_id : string) (now : Q) (draw : draws) (sender recipient : string) (task : list (string * yaml))
    (d : DeliveryMode) (r : AgentMessageRouter) : send_outcome * AgentMessageRouter :=
  match task_envelope fresh_id now sender recipient task d with
  | Ok e => send now draw e r
  | Raise err => (SendRaised err, r)
  end.

(** [send_result], up to the end of the send: the reply is sent first, and only
    then is the original acknowledged ([result_sent]). *)
Definition send_result (fresh_id : string) (now : Q) (draw : draws) (original : MessageEnvelope) (result : yaml)
    (err : option string) (r : AgentMessageRouter) : send_outcome * AgentMessageRouter :=
  match make_reply fresh_id now TASK_RESULT [("result", result); ("error", opt_value err)] original with
  | Ok e => send now draw e r
  | Raise err => (SendRaised err, r)
  end.
Definition result_sent (original : MessageEnvelope) (r : AgentMessageRouter) : AgentMessageRouter :=
  acknowledge (msg_id original) r.

Definition broadcast_heartbeat (fresh_id : string) (now now' : Q) (draw : draws) a (status : list (string * yaml))
    (r : AgentMessageRouter) : send_outcome * AgentMessageRouter :=
  match new_envelope (mkEnvelope fresh_id PROTOCOL_VERSION HEARTBEAT a EmptyString None AT_MOST_ONCE now 10 0
          [("agent_id", YStr a); ("status", payload_value status); ("ts", YFloat (Fin now'))] EmptyString) with
  | Ok e => send now draw e r
  | Raise err => (SendRaised err, r)
  end.

(** [receive] once an item is there (or with no timeout): the head of the queue,
    unsealed. *)
Definition receive (fresh_id : string) (now : Q) a (r : AgentMessageRouter)
    : res dap_error (option MessageEnvelope) * AgentMessageRouter :=
  match od_get a (queues r) with
  | Some (id, item :: items) => unseal fresh_id now a item (with_queues (od_set a (id, items) (queues r)) r)
  | _ => (Ok None, r)
  end.

Record dap_stats := mkDapStats { registered_agents : Z; acks_pending : Z; deduplicated : Z; registry_size : Z }.
Definition protocol_stats (p : DistributedAgentProtocol) : dap_stats :=
  mkDapStats (Z.of_nat (length (queues (mailer p)))) (Z.of_nat (length (pending_acks (mailer p))))
    (Z.of_nat (length (delivered (mailer p)))) (Z.of_nat (length (registry p))).
End Protocol.

(** * Theorems *)

(** ** Envelopes survive the wire *)
Section Envelopes.
Context `{FloatLaws}.
Implicit Types (e : MessageEnvelope) (a : string).

(** An envelope whose payload JSON can carry; the constructor has filled in its
    checksum. *)
Definition env_ok e : Prop :=
  NoDup (payload e).*1 /\ Forall (fun kv => json_wf kv.2) (payload e) /\
  float_known (env_created_at e) /\ float_known (ttl_s e) /\ checksum e ≠ EmptyString.

Lemma payload_wf p : NoDup p.*1 -> Forall (fun kv => json_wf kv.2) p -> json_wf (payload_value p).
Proof. apply wf_map. Qed.

Lemma opt_value_wf o : json_wf (opt_value o).
Proof. destruct o; constructor. Qed.

Lemma to_dict_wf e : env_ok e -> json_wf (payload_value (to_dict e)).
Proof.
  intros (Hnd & Hp & Hc & Ht & _). apply payload_wf.
  - cbn [to_dict fmap list_fmap fst]. apply (bool_decide_unpack _). vm_compute. exact Coq.Init.Logic.I.
  - pose proof (payload_wf _ Hnd Hp). pose proof (opt_value_wf (correlation_id e)).
    unfold to_dict. repeat apply Forall_cons_2; cbn [snd]; try done; by constructor.
Qed.

Lemma read_object_payload p : read_object (payload_value p) = Some p.
Proof.
  unfold payload_value. cbn [read_object]. induction p as [|[k v] p IH]; [done|].
  cbn [fmap list_fmap mapM fst snd read_text mbind option_bind]. by rewrite IH.
Qed.

Lemma read_opt_value o : read_opt_text (opt_value o) = Some o.
Proof. by destruct o. Qed.

Lemma type_of_value t : od_get (type_value t) message_types = Some t.
Proof. by destruct t. Qed.
Lemma mode_of_value d : od_get (mode_value d) delivery_modes = Some d.
Proof. by destruct d. Qed.

Lemma from_to_dict fresh now e : checksum e ≠ EmptyString ->
  from_dict fresh now ((fun kv => (YStr kv.1, kv.2)) <$> to_dict e) = Ok e.
Proof.
  intros Hc. unfold from_dict, enum_field, field, to_dict. cbn [fmap list_fmap fst snd].
  repeat (cbn [yget]; rewrite ?decide_True by done; rewrite ?decide_False by done).
  rewrite type_of_value, mode_of_value. cbn [mbind res_bind].
  match goal with |- context [bool_decide (?x = [])] => assert (x = []) as -> by reflexivity end.
  cbn [read_text read_float read_int negb bool_decide decide]. rewrite bool_decide_true by done. cbn [negb].
  rewrite read_opt_value, read_object_payload. cbn [mbind res_bind]. unfold new_envelope. cbn [checksum].
  rewrite decide_False by done. by destruct e.
Qed.

Lemma envelope_through_wire e fresh now : env_ok e ->
  exists raw d, _serialize e = Ok raw /\ json_loads (chars_of (decode_text raw)) = Some (YMap d) /\
    from_dict fresh now d = Ok e.
Proof.
  intros Hok. pose proof (to_dict_wf e Hok) as Hwf. apply loads_dumps in Hwf as [Hd Hl].
  unfold _serialize. rewrite Hd. eexists _, ((fun kv => (YStr kv.1, kv.2)) <$> to_dict e). split; [done|].
  rewrite decode_encode_text, chars_of_text. split; [exact Hl|]. apply from_to_dict, Hok.
Qed.

(** C22: What an agent receives is the envelope that was sent: serialising a
    well-formed envelope, reading the JSON back and rebuilding it gives the same
    envelope, every field and the payload included. *)
Theorem envelope_roundtrip e fresh now : env_ok e ->
  exists raw d, _serialize e = Ok raw /\ json_loads (chars_of (decode_text raw)) = Some (YMap d) /\
    from_dict fresh now d = Ok e.
Proof. apply envelope_through_wire. Qed.
End Envelopes.

(** A task with a nested payload, as the constructor makes it. *)
Module EnvelopeDemo.
Import WholeFloats.
Definition envelope (id : string) (m : DeliveryMode) (a : string) (h : Z) : MessageEnvelope :=
  mkEnvelope id PROTOCOL_VERSION TASK_ASSIGN "planner" a None m 0 60 h
    [("prompt", YStr "hi"); ("limits", YMap [(YStr "tokens", YInt 256)])] "1f0c".

Lemma sample_ok id m a h : env_ok (envelope id m a h).
Proof.
  split_and!; [apply (bool_decide_unpack _); vm_compute; exact Coq.Init.Logic.I| |reflexivity..|done].
  repeat constructor. apply (wf_map [("tokens", YInt 256)]); repeat constructor. set_solver.
Qed.

(** The checksum the constructor fills in. *)
Example checksum_filled : exists e, new_envelope (mkEnvelope "m" PROTOCOL_VERSION ACK "a" "b" None AT_MOST_ONCE 0 60 0 [] EmptyString) = Ok e /\
  checksum e = "44136fa355b3678a".
Proof. eexists. split; vm_compute; reflexivity. Qed.

Lemma envelope_roundtrip_witness : exists raw d,
  _serialize (envelope "m1" EXACTLY_ONCE "worker" 1) = Ok raw /\ json_loads (chars_of (decode_text raw)) = Some (YMap d) /\
  from_dict "f" 5 d = Ok (envelope "m1" EXACTLY_ONCE "worker" 1).
Proof. apply (envelope_roundtrip (envelope "m1" EXACTLY_ONCE "worker" 1)). apply sample_ok. Defined.
End EnvelopeDemo.
