(* ===== verification/AgentMail.v ===== *)
(** The message router of [DistributedAgent] refines numbered mailboxes: an
    abstract specification without encoding, keys or frames, a simulation
    between the two, and what follows for exactly-once messages. *)
From S2P Require Import Prelude Errors Yaml Bytes Sha256 Json SecureProtocol DistributedAgent.
From Stdlib Require Import Strings.Byte.

(** ** Mailboxes

    A message in a box carries the moment it was sealed and its number. *)
Abbreviation entry := (MessageEnvelope * Q * Z)%type.
Record letter_box := mkBox { bx_id : nat; bx_count : Z; bx_entries : list entry }.
Record post_office := mkPost {
  boxes : list (string * letter_box);
  held : list (string * nat * entry);          (* senders waiting for room *)
  posted : list string;                        (* exactly-once ids seen *)
  next_box : nat }.

Definition spec_register (a : string) (p : post_office) : post_office :=
  if od_mem a (boxes p) then p
  else mkPost (od_set a (mkBox (next_box p) 0 []) (boxes p)) (held p) (posted p) (S (next_box p)).
Definition spec_deregister (a : string) (p : post_office) : post_office :=
  mkPost (od_del a (boxes p)) (held p) (posted p) (next_box p).

Definition has_room (b : letter_box) : bool := (length (bx_entries b) <? QUEUE_SIZE)%nat.
Definition post (stamp : Q) (e : MessageEnvelope) (b : letter_box) : letter_box :=
  mkBox (bx_id b) (bx_count b + 1)
        (if has_room b then bx_entries b ++ [(e, stamp, bx_count b + 1)] else bx_entries b).

Definition spec_unicast (stamp : string -> Q) (e : MessageEnvelope) (p : post_office) : post_office :=
  let a := recipient_id e in
  match od_get a (boxes p) with
  | None => p
  | Some b =>
    mkPost (od_set a (post (stamp a) e b) (boxes p))
           (if has_room b then held p else held p ++ [(a, bx_id b, (e, stamp a, bx_count b + 1))])
           (posted p) (next_box p)
  end.

Definition spec_broadcast (stamp : string -> Q) (e : MessageEnvelope) (p : post_office) : post_office :=
  mkPost ((fun ab => (ab.1, if decide (ab.1 = sender_id e) then ab.2 else post (stamp ab.1) e ab.2)) <$> boxes p)
         (held p) (posted p) (next_box p).

Definition spec_send (now : Q) (stamp : string -> Q) (e : MessageEnvelope) (p : post_office) : post_office :=
  if is_expired now e || (MAX_ROUTING_HOPS <=? hop_count e) then p
  else
    let e := add_hop e in
    if decide (delivery_mode e = EXACTLY_ONCE /\ msg_id e ∈ posted p) then p
    else
      let p := if decide (delivery_mode e = EXACTLY_ONCE)
               then mkPost (boxes p) (held p) (msg_id e :: posted p) (next_box p) else p in
      if is_broadcast e then spec_broadcast stamp e p else spec_unicast stamp e p.

(** The first waiting sender tries again. *)
Definition spec_resume (p : post_office) : post_office :=
  match held p with
  | [] => p
  | (a, id, x) :: rest =>
    let back := mkPost (boxes p) (rest ++ [(a, id, x)]) (posted p) (next_box p) in
    match od_get a (boxes p) with
    | Some b =>
      if decide (bx_id b = id /\ has_room b = true)
      then mkPost (od_set a (mkBox id (bx_count b) (bx_entries b ++ [x])) (boxes p)) rest (posted p) (next_box p)
      else back
    | None => back
    end
  end.

(** An opened message is handed out unless it was sealed more than the replay
    window ago. *)
Definition spec_receive (now : Q) (a : string) (p : post_office) : option MessageEnvelope * post_office :=
  match od_get a (boxes p) with
  | Some (mkBox id count ((e, t, n) :: rest)) =>
    (if REPLAY_WINDOW_S <. Qabs (now - t) then None else Some e,
     mkPost (od_set a (mkBox id count rest) (boxes p)) (held p) (posted p) (next_box p))
  | _ => (None, p)
  end.

(** ** Runs *)
Inductive mail_op :=
| ORegister (a : string) (fresh : SessionKeys) (now : Q)
| ODeregister (a : string)
| OSend (now : Q) (draw : string -> Z * bytes) (e : MessageEnvelope)
| OResume
| OReceive (fresh : string) (now : Q) (a : string)
| OAcknowledge (id : string)
| OAckTimeout (e : MessageEnvelope).

Definition stamp_of (draw : string -> Z * bytes) (a : string) : Q :=
  match f64_value (draw a).1 with Fin q => q | _ => 0%Q end.

Definition spec_step (op : mail_op) (p : post_office) : option (option MessageEnvelope) * post_office :=
  match op with
  | ORegister a _ _ => (None, spec_register a p)
  | ODeregister a => (None, spec_deregister a p)
  | OSend now draw e => (None, spec_send now (stamp_of draw) e p)
  | OResume => (None, spec_resume p)
  | OReceive _ now a => let '(x, p) := spec_receive now a p in (Some x, p)
  | OAcknowledge _ | OAckTimeout _ => (None, p)
  end.

Section Mail.
Context `{FloatLaws}.

(** The router and the senders that wait in [queue.put]. *)
Abbreviation waiting := (list (string * nat * bytes * MessageEnvelope)).
Record mail_state := mkMail { ms_router : AgentMessageRouter; ms_waiting : waiting }.

Definition mail_step (op : mail_op) (m : mail_state)
    : option (res dap_error (option MessageEnvelope)) * mail_state :=
  let r := ms_router m in let w := ms_waiting m in
  match op with
  | ORegister a fresh now => (None, mkMail (register_queue fresh now a r) w)
  | ODeregister a => (None, mkMail (deregister_queue a r) w)
  | OSend now draw e =>
    match send now draw e r with
    | (AwaitRoom a id item e, r) => (None, mkMail r (w ++ [(a, id, item, e)]))
    | (_, r) => (None, mkMail r w)
    end
  | OResume =>
    match w with
    | [] => (None, m)
    | (a, id, item, e) :: w =>
      match try_put a id item e r with
      | (AwaitRoom a id item e, r) => (None, mkMail r (w ++ [(a, id, item, e)]))
      | (_, r) => (None, mkMail r w)
      end
    end
  | OReceive fresh now a => let '(x, r) := receive fresh now a r in (Some x, mkMail r w)
  | OAcknowledge id => (None, mkMail (acknowledge id r) w)
  | OAckTimeout e => (None, mkMail (ack_timeout e r).2 w)
  end.

Fixpoint mail_run (ops : list mail_op) (m : mail_state)
    : list (option (res dap_error (option MessageEnvelope))) * mail_state :=
  match ops with
  | [] => ([], m)
  | op :: ops => let '(x, m) := mail_step op m in let '(xs, m) := mail_run ops m in (x :: xs, m)
  end.
Fixpoint spec_run (ops : list mail_op) (p : post_office) : list (option (option MessageEnvelope)) * post_office :=
  match ops with
  | [] => ([], p)
  | op :: ops => let '(x, p) := spec_step op p in let '(xs, p) := spec_run ops p in (x :: xs, p)
  end.

(** What a send needs: an envelope the wire can carry, in a frame's limits, and
    frames stamped with finite times and 16-byte nonces. *)
Definition op_ok (op : mail_op) : Prop :=
  match op with
  | OSend _ draw e =>
    env_ok e /\ (forall raw, _serialize (add_hop e) = Ok raw -> Z.of_nat (length raw) <= MAX_FRAME_BODY_BYTES) /\
    forall a, 0 <= (draw a).1 < 2 ^ 64 /\ length (draw a).2 = NONCE_SIZE /\ exists q, f64_value (draw a).1 = Fin q
  | _ => True
  end.

(** ** The simulation *)
Definition sealed (k : SessionKeys) (item : bytes) (x : entry) : Prop :=
  exists f, decode k item = Ok f /\ _serialize x.1.1 = Ok (body f) /\ env_ok x.1.1 /\
    sequence_no f = x.2 /\ f64_value (timestamp f) = Fin x.1.2.

Definition numbers (l : list entry) : list Z := l.*2.
Definition held_at (a : string) (id : nat) (h : list (string * nat * entry)) : list entry :=
  (List.filter (fun x => bool_decide (x.1 = (a, id))) h).*2.

Record box_rel (n : Z) (items : list bytes) (s : SecureSession) (b : letter_box) (waiting_here : list entry) : Prop := {
  br_state : ss_state s = ESTABLISHED;
  br_window : window_s (ss_guard s) = REPLAY_WINDOW_S;
  br_count : send_seq s = bx_count b;
  br_bound : 0 <= bx_count b <= n;
  br_sealed : Forall2 (sealed (ss_keys s)) items (bx_entries b);
  br_fresh : NoDup (numbers (bx_entries b ++ waiting_here));
  br_numbers : Forall (fun k => k <= bx_count b) (numbers (bx_entries b ++ waiting_here));
  br_seen : forall k, k ∈ od_keys (seen (ss_guard s)) -> k <= bx_count b /\ k ∉ numbers (bx_entries b ++ waiting_here) }.

Definition agent_rel (n : string -> Z) (r : AgentMessageRouter) (p : post_office) (a : string) : Prop :=
  match od_get a (queues r), od_get a (sessions r), od_get a (boxes p) with
  | Some (id, items), Some s, Some b =>
    id = bx_id b /\ (id < next_box p)%nat /\ box_rel (n a) items s b (held_at a id (held p))
  | None, None, None => True
  | _, _, _ => False
  end.

Definition wait_rel (r : AgentMessageRouter) (p : post_office) (x : string * nat * bytes * MessageEnvelope)
    (y : string * nat * entry) : Prop :=
  x.1.1 = y.1 /\ x.2 = y.2.1.1 /\ (y.1.2 < next_box p)%nat /\
  forall s q, od_get y.1.1 (queues r) = Some (y.1.2, q) -> od_get y.1.1 (sessions r) = Some s ->
    sealed (ss_keys s) x.1.2 y.2.

Record mail_rel (n : string -> Z) (m : mail_state) (p : post_office) : Prop := {
  mr_keys : od_keys (queues (ms_router m)) = od_keys (boxes p);
  mr_nodup : NoDup (od_keys (boxes p)) /\ NoDup (od_keys (sessions (ms_router m)));
  mr_agents : forall a, agent_rel n (ms_router m) p a;
  mr_waiting : Forall2 (wait_rel (ms_router m) p) (ms_waiting m) (held p);
  mr_posted : delivered (ms_router m) = posted p;
  mr_next : next_queue (ms_router m) = next_box p }.

(** ** One box *)
Lemma numbers_app l l' : numbers (l ++ l') = numbers l ++ numbers l'.
Proof. apply fmap_app. Qed.

Lemma box_rel_later n n' items s b h : n <= n' -> box_rel n items s b h -> box_rel n' items s b h.
Proof. intros Hn []. split; try done. lia. Qed.

(** Numbers may move between a box and the senders that wait for it. *)
Lemma box_rel_perm n items items' s b b' h h' :
  bx_count b' = bx_count b -> numbers (bx_entries b' ++ h') ≡ₚ numbers (bx_entries b ++ h) ->
  Forall2 (sealed (ss_keys s)) items' (bx_entries b') -> box_rel n items s b h -> box_rel n items' s b' h'.
Proof.
  intros Hc Hp Hs []. split; rewrite ?Hc, ?Hp; try done.
  intros k Hk. rewrite Hp. by apply br_seen0.
Qed.

Lemma box_room n items s b h : box_rel n items s b h -> (length items <? QUEUE_SIZE)%nat = has_room b.
Proof. intros [_ _ _ _ Hs _ _ _]. unfold has_room. by rewrite (Forall2_length _ _ _ Hs). Qed.

(** The numbers of what is out grow by the next one, wherever it goes. *)
Lemma box_rel_numbered n items items' s s' b b' h h' :
  box_rel n items s b h -> ss_keys s' = ss_keys s -> ss_guard s' = ss_guard s -> ss_state s' = ESTABLISHED ->
  send_seq s' = send_seq s + 1 -> bx_count b' = bx_count b + 1 ->
  Forall2 (sealed (ss_keys s)) items' (bx_entries b') ->
  numbers (bx_entries b' ++ h') ≡ₚ (bx_count b + 1) :: numbers (bx_entries b ++ h) \/
    numbers (bx_entries b' ++ h') = numbers (bx_entries b ++ h) ->
  box_rel (n + 1) items' s' b' h'.
Proof.
  intros [E W C B S F N G] Hk Hg He Hq Hc Hs Hp.
  assert (Hnew : bx_count b + 1 ∉ numbers (bx_entries b ++ h)).
  { intros Hin. rewrite Forall_forall in N. apply N in Hin. lia. }
  assert (Hall : Forall (fun k => k <= bx_count b + 1) (numbers (bx_entries b' ++ h')) /\ NoDup (numbers (bx_entries b' ++ h')) /\
    forall k, k <= bx_count b -> k ∉ numbers (bx_entries b ++ h) -> k ∉ numbers (bx_entries b' ++ h')).
  { assert (N' : Forall (fun k => k <= bx_count b + 1) (numbers (bx_entries b ++ h))) by (eapply Forall_impl; [exact N|cbn; lia]).
    destruct Hp as [Hp|Hp]; rewrite Hp; split_and!; try done; [by constructor|by constructor|].
    intros k Hk' Hn'. rewrite Hp. intros [Hx|Hx]%elem_of_cons; [lia|done]. }
  destruct Hall as (A1 & A2 & A3).
  split; rewrite ?Hk, ?Hg, ?Hc; try done; [by rewrite Hq, C|lia|].
  intros k Hin. apply G in Hin as [Hin1 Hin2]. split; [lia|by apply A3].
Qed.

(** Sealing a message for an agent. *)
Lemma seal_ok n draw a e text items s b h :
  box_rel n items s b h -> n + 1 < 2 ^ 32 -> env_ok e -> _serialize e = Ok text ->
  Z.of_nat (length text) <= MAX_FRAME_BODY_BYTES ->
  0 <= (draw a).1 < 2 ^ 64 -> length (draw a).2 = NONCE_SIZE -> f64_value (draw a).1 = Fin (stamp_of draw a) ->
  exists item s', session_send (draw a).1 (draw a).2 text FLAG_ENCRYPTED s = (Ok item, s') /\
    ss_keys s' = ss_keys s /\ ss_guard s' = ss_guard s /\ ss_state s' = ESTABLISHED /\ send_seq s' = send_seq s + 1 /\
    sealed (ss_keys s) item (e, stamp_of draw a, bx_count b + 1).
Proof.
  intros Hb Hn He Ht Hlen Hts Hnonce Hq. pose proof (br_count _ _ _ _ _ Hb) as Hc. pose proof (br_bound _ _ _ _ _ Hb) as Hbd.
  destruct (session_send_ok (draw a).1 (draw a).2 text FLAG_ENCRYPTED s) as (item & f & E & Hd & Hbody & Hs & Hft);
    [apply Hb|done|done|done|done|lia|lia|].
  rewrite E. eexists item, _. split; [done|]. do 4 (split; [done|]).
  exists f. split; [done|]. cbn [fst snd]. rewrite Hbody, Hft, Hs, Hc. done.
Qed.

Lemma f64_stamp draw a q : f64_value (draw a).1 = Fin q -> f64_value (draw a).1 = Fin (stamp_of draw a).
Proof. intros Hq. unfold stamp_of. by rewrite Hq. Qed.

(** Opening the first item of a box. *)
Lemma open_ok n item items s id count x rest h now :
  box_rel n (item :: items) s (mkBox id count (x :: rest)) h ->
  exists s', session_receive now item s =
      ((if REPLAY_WINDOW_S <. Qabs (now - x.1.2) then Raise (ReplayAttackError false)
        else match _serialize x.1.1 with Ok raw => Ok raw | Raise _ => Ok [] end), s') /\
    ss_keys s' = ss_keys s /\ box_rel n items s' (mkBox id count rest) h.
Proof.
  intros [E W C B S F N G]. cbn [bx_entries bx_count] in *.
  apply Forall2_cons in S as [(f & Hd & Hser & Hok & Hseq & Hts) S].
  change (numbers ((x :: rest) ++ h)) with (x.2 :: numbers (rest ++ h)) in *.
  apply NoDup_cons in F as [Fx F]. apply Forall_cons in N as [Nx N].
  destruct (REPLAY_WINDOW_S <. Qabs (now - x.1.2)) eqn:Ew.
  - exists s. split; [|split; [done|]].
    + unfold session_receive. rewrite bool_decide_true, Hd by done. cbn [negb]. unfold guard_check.
      rewrite Hts. cbn [outside]. by rewrite W, Ew.
    + split; try done. intros k Hk. apply G in Hk as [? Hk]. split; [done|]. intros Hin. apply Hk. by right.
  - eexists. split; [|split].
    + rewrite (session_receive_ok now item s f x.1.2); [by rewrite Hser|done|done|done| |].
      * rewrite W. by apply fltb_ge.
      * rewrite Hseq. intros Hin. apply G in Hin as [_ Hin]. apply Hin. left.
    + done.
    + split; cbn [ss_state ss_guard window_s send_seq ss_keys seen bx_entries bx_count]; try done.
      intros k Hk. rewrite od_keys_set in Hk.
      assert (Hk' : k = x.2 \/ k ∈ od_keys (seen (ss_guard s))).
      { assert (Hsub : forall k, k ∈ od_keys (List.filter (fun kv => later_than (now - window_s (ss_guard s)) kv.2)
                  (seen (ss_guard s))) -> k ∈ od_keys (seen (ss_guard s))).
        { intros k' ([k2 v] & -> & Hin)%list_elem_of_fmap. apply list_elem_of_fmap. exists (k2, v).
          split; [done|]. eapply elem_of_sublist; [exact Hin|apply filter_sublist]. }
        case_decide; [right; by apply Hsub|]. apply elem_of_app in Hk as [Hk|Hk]; [right; by apply Hsub|].
        apply list_elem_of_singleton in Hk. left. congruence. }
      destruct Hk' as [->|Hk']; [done|]. apply G in Hk' as [? Hk']. split; [done|]. intros Hin. apply Hk'. by right.
Qed.

(** ** The whole router *)
Lemma agent_rel_inv n r p a id items : agent_rel n r p a -> od_get a (queues r) = Some (id, items) ->
  exists s b, od_get a (sessions r) = Some s /\ od_get a (boxes p) = Some b /\ id = bx_id b /\ (id < next_box p)%nat /\
    box_rel (n a) items s b (held_at a id (held p)).
Proof.
  unfold agent_rel. intros Ha Eq. rewrite Eq in Ha. destruct (od_get a (sessions r)) as [s|]; [|done].
  destruct (od_get a (boxes p)) as [b|]; [|done]. by exists s, b.
Qed.

Lemma agent_rel_none n r p a : agent_rel n r p a -> od_get a (queues r) = None ->
  od_get a (sessions r) = None /\ od_get a (boxes p) = None.
Proof.
  unfold agent_rel. intros Ha Eq. rewrite Eq in Ha. by destruct (od_get a (sessions r)), (od_get a (boxes p)).
Qed.

Lemma mail_rel_later n n' m p : (forall a, n a <= n' a) -> mail_rel n m p -> mail_rel n' m p.
Proof.
  intros Hn []. split; try done. intros a. specialize (mr_agents0 a). unfold agent_rel in *.
  repeat case_match; try done. destruct mr_agents0 as (? & ? & ?). split_and!; try done. eapply box_rel_later; [apply Hn|done].
Qed.

Definition set_n (n : string -> Z) (a : string) (v : Z) : string -> Z := fun a' => if decide (a' = a) then v else n a'.

(** Sessions keep their keys, queues their identities: items that wait stay
    valid. *)
Lemma wait_rel_keep r r' p p' x y :
  (forall a id q s, (id < next_box p)%nat -> od_get a (queues r') = Some (id, q) -> od_get a (sessions r') = Some s ->
     exists q0 s0, od_get a (queues r) = Some (id, q0) /\ od_get a (sessions r) = Some s0 /\ ss_keys s = ss_keys s0) ->
  (next_box p <= next_box p')%nat -> wait_rel r p x y -> wait_rel r' p' x y.
Proof.
  intros Hk Hn (E1 & E2 & E3 & E4). split_and!; try done; [lia|].
  intros s q Hq Hs. destruct (Hk _ _ _ _ E3 Hq Hs) as (q0 & s0 & Hq0 & Hs0 & ->). by apply (E4 s0 q0).
Qed.

Lemma mail_rel_update n m p a id items s b r' w' p' items' s' b' k :
  mail_rel n m p -> n a <= k ->
  od_get a (queues (ms_router m)) = Some (id, items) -> od_get a (sessions (ms_router m)) = Some s ->
  od_get a (boxes p) = Some b ->
  queues r' = od_set a (id, items') (queues (ms_router m)) -> sessions r' = od_set a s' (sessions (ms_router m)) ->
  boxes p' = od_set a b' (boxes p) -> ss_keys s' = ss_keys s -> bx_id b' = id -> next_box p' = next_box p ->
  next_queue r' = next_queue (ms_router m) -> delivered r' = posted p' ->
  box_rel k items' s' b' (held_at a id (held p')) ->
  (forall a' id', a' ≠ a -> held_at a' id' (held p') = held_at a' id' (held p)) ->
  (Forall2 (wait_rel (ms_router m) p) (ms_waiting m) (held p) -> (forall x y, wait_rel (ms_router m) p x y -> wait_rel r' p' x y) ->
     Forall2 (wait_rel r' p') w' (held p')) ->
  mail_rel (set_n n a k) (mkMail r' w') p'.
Proof.
  intros Hm Hk Eq Es Eb Hq Hs Hb Hkeys Hid Hnext Hnq Hd Hbox Hheld Hwait.
  pose proof (mr_agents _ _ _ Hm a) as Ha. destruct (agent_rel_inv _ _ _ _ _ _ Ha Eq) as (s0 & b0 & _ & _ & _ & Hlt & _).
  split; cbn [ms_router ms_waiting].
  - rewrite Hq, Hb, (od_keys_set_present _ _ _ _ Eq), (od_keys_set_present _ _ _ _ Eb). apply Hm.
  - rewrite Hb, Hs, (od_keys_set_present _ _ _ _ Eb), (od_keys_set_present _ _ _ _ Es). apply Hm.
  - intros a'. unfold agent_rel, set_n. rewrite Hq, Hs, Hb, !od_get_set. destruct (decide (a' = a)) as [->|Hne].
    + split; [done|]. split; [by rewrite Hnext|done].
    + pose proof (mr_agents _ _ _ Hm a') as Ha'. unfold agent_rel in Ha'. repeat case_match; try done.
      rewrite Hnext, Hheld by done. done.
  - apply Hwait; [apply Hm|]. intros x y. apply wait_rel_keep; [|lia].
    intros a' id' q' s1 _. rewrite Hq, Hs, !od_get_set. destruct (decide (a' = a)) as [->|Hne].
    + intros [= <- <-] [= <-]. by exists items, s.
    + intros. by exists q', s1.
  - exact Hd.
  - rewrite Hnq, Hnext. apply Hm.
Qed.

(** Every box at its own bound, after one operation. *)
Lemma mail_rel_step k a m p : mail_rel (set_n (fun _ => k) a (k + 1)) m p -> mail_rel (fun _ => k + 1) m p.
Proof. apply mail_rel_later. intros a'. unfold set_n. case_decide; lia. Qed.

Lemma held_at_snoc a id x h a' id' :
  held_at a' id' (h ++ [(a, id, x)]) = held_at a' id' h ++ (if decide ((a, id) = (a', id')) then [x] else []).
Proof.
  unfold held_at. rewrite List.filter_app, fmap_app. cbn [List.filter fst].
  destruct (decide ((a, id) = (a', id'))) as [E|E]; [by rewrite bool_decide_true|by rewrite bool_decide_false].
Qed.

Lemma held_at_cons a id x h a' id' :
  held_at a' id' ((a, id, x) :: h) = (if decide ((a, id) = (a', id')) then [x] else []) ++ held_at a' id' h.
Proof.
  unfold held_at. cbn [List.filter fst].
  destruct (decide ((a, id) = (a', id'))) as [E|E]; [by rewrite bool_decide_true|by rewrite bool_decide_false].
Qed.

(** ** Operations *)
Definition answer (o : option MessageEnvelope) : res dap_error (option MessageEnvelope) := Ok o.

Lemma after_put_state e r : exists l, (after_put e r).2 = with_pending l r /\
  (forall a id item e', (after_put e r).1 ≠ AwaitRoom a id item e').
Proof. unfold after_put. case_decide; [by eexists|]. exists (pending_acks r). by destruct r. Qed.

Lemma with_pending_rel n r w p l : mail_rel n (mkMail r w) p -> mail_rel n (mkMail (with_pending l r) w) p.
Proof. intros []. by split. Qed.

Lemma with_posted_rel n r w p l : mail_rel n (mkMail r w) p ->
  mail_rel n (mkMail (with_delivered l r) w) (mkPost (boxes p) (held p) l (next_box p)).
Proof. intros []. by split. Qed.

Lemma has_room_snoc b x : numbers (bx_entries b ++ [x]) = numbers (bx_entries b) ++ [x.2].
Proof. apply numbers_app. Qed.

Lemma unicast_refines k draw e r w p :
  mail_rel (fun _ => k) (mkMail r w) p -> k + 1 < 2 ^ 32 -> env_ok e ->
  (forall raw, _serialize e = Ok raw -> Z.of_nat (length raw) <= MAX_FRAME_BODY_BYTES) ->
  (forall a, 0 <= (draw a).1 < 2 ^ 64 /\ length (draw a).2 = NONCE_SIZE /\ exists q, f64_value (draw a).1 = Fin q) ->
  exists r', (((_unicast draw e r).2 = r' /\ (forall a id item e', (_unicast draw e r).1 ≠ AwaitRoom a id item e') /\
      mail_rel (fun _ => k + 1) (mkMail r' w) (spec_unicast (stamp_of draw) e p)) \/
    exists id item, _unicast draw e r = (AwaitRoom (recipient_id e) id item e, r') /\
      mail_rel (fun _ => k + 1) (mkMail r' (w ++ [(recipient_id e, id, item, e)])) (spec_unicast (stamp_of draw) e p)).
Proof.
  intros Hm Hk Hok Hlen Hdraw. set (a := recipient_id e). pose proof (mr_agents _ _ _ Hm a) as Ha.
  unfold _unicast, spec_unicast. fold a. cbn [ms_router] in Ha.
  destruct (od_get a (queues r)) as [[id items]|] eqn:Eq.
  2: { destruct (agent_rel_none _ _ _ _ Ha Eq) as [_ ->]. exists r. left. split_and!; try done.
       eapply mail_rel_later; [|exact Hm]. intros; cbn; lia. }
  destruct (agent_rel_inv _ _ _ _ _ _ Ha Eq) as (s & b & Es & Eb & -> & Hlt & Hbox). rewrite Es, Eb.
  destruct (envelope_roundtrip e EmptyString 0 Hok) as (raw & _ & Hraw & _ & _). rewrite Hraw.
  destruct (Hdraw a) as (Hts & Hn & q & Hq). apply f64_stamp in Hq.
  destruct (seal_ok k draw a e raw items s b _ Hbox Hk Hok Hraw (Hlen raw Hraw) Hts Hn Hq)
    as (item & s' & E & Hkey & Hg & Hst & Hseq & Hsealed).
  unfold seal. rewrite E. unfold try_put. cbn [queues with_sessions]. rewrite Eq, decide_True by done.
  rewrite (box_room _ _ _ _ _ Hbox). destruct (has_room b) eqn:Er.
  - destruct (after_put_state e (with_queues (od_set a (bx_id b, items ++ [item]) (queues r)) (with_sessions (od_set a s' (sessions r)) r)))
      as (l & E2 & Hnw).
    eexists. left. split; [exact E2|]. split; [exact Hnw|]. apply with_pending_rel, (mail_rel_step k a).
    eapply (mail_rel_update (fun _ => k) (mkMail r w) p a (bx_id b) items s b _ w _ (items ++ [item]) s' (post (stamp_of draw a) e b));
      try done; try apply Hm; [cbn; lia| |intros Hw Hkeep; eapply Forall2_impl; [exact Hw|exact Hkeep]].
    apply (box_rel_numbered k items _ s s' b _ (held_at a (bx_id b) (held p)) _ Hbox); try done.
    + unfold post. rewrite Er. apply Forall2_app; [apply Hbox|]. by repeat constructor.
    + left. unfold post. rewrite Er. cbn [bx_entries held]. rewrite !numbers_app. cbn. solve_Permutation.
  - eexists. right. eexists _, item. split; [done|]. apply (mail_rel_step k a).
    eapply (mail_rel_update (fun _ => k) (mkMail r w) p a (bx_id b) items s b _ _ _ items s' (post (stamp_of draw a) e b));
      try done; try apply Hm; cbn [held boxes].
    + cbn; lia.
    + cbn. by rewrite od_set_same.
    + apply (box_rel_numbered k items _ s s' b _ (held_at a (bx_id b) (held p)) _ Hbox); try done.
      * unfold post. rewrite Er. apply Hbox.
      * left. unfold post. rewrite Er. cbn [bx_entries]. rewrite held_at_snoc, decide_True, !numbers_app by done. cbn. solve_Permutation.
    + intros a' id' Hne. rewrite held_at_snoc, decide_False by congruence. by rewrite app_nil_r.
    + intros Hw Hkeep. apply Forall2_app; [eapply Forall2_impl; [exact Hw|done]|]. repeat constructor; try done.
      intros s1 q1. cbn. rewrite od_get_set, decide_True by done. intros _ [= <-]. by rewrite Hkey.
Qed.

(** The loop over the queues, one box at a time. *)
Definition post_at (stamp : string -> Q) (e : MessageEnvelope) (a : string) (p : post_office) : post_office :=
  match od_get a (boxes p) with
  | Some b => mkPost (od_set a (post (stamp a) e b) (boxes p)) (held p) (posted p) (next_box p)
  | None => p
  end.
Definition post_all (stamp : string -> Q) (e : MessageEnvelope) (names : list string) (p : post_office) : post_office :=
  fold_left (fun p a => if decide (a = sender_id e) then p else post_at stamp e a p) names p.

Lemma broadcast_loop_refines k draw e raw names r w p n :
  mail_rel n (mkMail r w) p -> (forall a, n a <= k + 1) -> (forall a, a ∈ names -> n a = k) -> NoDup names ->
  (forall a, a ∈ names -> is_Some (od_get a (queues r))) -> k + 1 < 2 ^ 32 -> env_ok e -> _serialize e = Ok raw ->
  Z.of_nat (length raw) <= MAX_FRAME_BODY_BYTES ->
  (forall a, 0 <= (draw a).1 < 2 ^ 64 /\ length (draw a).2 = NONCE_SIZE /\ exists q, f64_value (draw a).1 = Fin q) ->
  exists r', broadcast_loop draw raw (sender_id e) names r = (Finished, r') /\
    mail_rel (fun _ => k + 1) (mkMail r' w) (post_all (stamp_of draw) e names p).
Proof.
  intros Hm Hn Hnames Hnd Hpres Hk Hok Hraw Hlen Hdraw. revert r p n Hm Hn Hnames Hpres.
  induction Hnd as [|a names Ha Hnd IH]; intros r p n Hm Hn Hnames Hpres; cbn [broadcast_loop post_all fold_left].
  { exists r. split; [done|]. by eapply mail_rel_later. }
  assert (Hrest : forall a', a' ∈ names -> n a' = k) by (intros; apply Hnames; by right).
  assert (Hrest' : forall a', a' ∈ names -> is_Some (od_get a' (queues r))) by (intros; apply Hpres; by right).
  destruct (decide (a = sender_id e)) as [|Hne]; [by apply (IH r p n)|].
  destruct (Hpres a ltac:(left)) as [[id items] Eq]. pose proof (mr_agents _ _ _ Hm a) as Hag. cbn [ms_router] in Hag.
  destruct (agent_rel_inv _ _ _ _ _ _ Hag Eq) as (s & b & Es & Eb & -> & Hlt & Hbox). rewrite (Hnames a) in Hbox by left.
  destruct (Hdraw a) as (Hts & Hno & q & Hq). apply f64_stamp in Hq.
  destruct (seal_ok k draw a e raw items s b _ Hbox Hk Hok Hraw Hlen Hts Hno Hq)
    as (item & s' & E & Hkey & Hg & Hst & Hseq & Hsealed).
  rewrite Eq, Es. unfold seal. rewrite E. rewrite (box_room _ _ _ _ _ Hbox). unfold post_at. rewrite Eb.
  set (r' := if has_room b then _ else _).
  assert (Hq' : queues r' = od_set a (bx_id b, if has_room b then items ++ [item] else items) (queues r) /\
    sessions r' = od_set a s' (sessions r) /\ delivered r' = delivered r /\ next_queue r' = next_queue r).
  { unfold r'. destruct (has_room b); [done|]. cbn. by rewrite (od_set_same _ _ _ Eq). }
  destruct Hq' as (Q1 & Q2 & Q3 & Q4).
  apply (IH r' _ (set_n n a (k + 1))).
  - eapply (mail_rel_update n (mkMail r w) p a (bx_id b) items s b r' w _ _ s' (post (stamp_of draw a) e b)); try done.
    + rewrite Q3. apply Hm.
    + apply (box_rel_numbered k items _ s s' b _ (held_at a (bx_id b) (held p)) _ Hbox); try done; unfold post; cbn [bx_entries held].
      * destruct (has_room b); [|apply Hbox]. apply Forall2_app; [apply Hbox|]. by repeat constructor.
      * destruct (has_room b); [left|by right]. rewrite !numbers_app. cbn. solve_Permutation.
    + intros Hw Hkeep. eapply Forall2_impl; [exact Hw|exact Hkeep].
  - intros a'. unfold set_n. case_decide; [lia|done].
  - intros a' Hin. unfold set_n. rewrite decide_False by (by intros ->). by apply Hrest.
  - intros a' Hin. rewrite Q1, od_get_set. case_decide; [by eexists|by apply Hrest'].
Qed.

Lemma post_all_map stamp e p : NoDup (od_keys (boxes p)) ->
  post_all stamp e (od_keys (boxes p)) p = spec_broadcast stamp e p.
Proof.
  unfold spec_broadcast, post_all. destruct p as [bs h po nb]. cbn [boxes held posted next_box].
  set (f := fun ab : string * letter_box => (ab.1, if decide (ab.1 = sender_id e) then ab.2 else post (stamp ab.1) e ab.2)).
  cut (forall front todo, NoDup (od_keys (front ++ todo)) ->
    fold_left (fun p a => if decide (a = sender_id e) then p else post_at stamp e a p) (od_keys todo)
      (mkPost (front ++ todo) h po nb) = mkPost (front ++ (f <$> todo)) h po nb).
  { intros Hc Hnd. apply (Hc [] bs Hnd). }
  intros front todo. revert front. induction todo as [|[a b] todo IH]; intros front Hnd; cbn [od_keys fmap list_fmap fold_left fst]; [done|].
  assert (Hd : od_get a front = None).
  { apply od_get_None. intros Hin. unfold od_keys in Hnd. rewrite fmap_app in Hnd. apply NoDup_app in Hnd as (_ & Hd & _).
    apply (Hd a Hin). left. }
  assert (E : (if decide (a = sender_id e) then mkPost (front ++ (a, b) :: todo) h po nb
               else post_at stamp e a (mkPost (front ++ (a, b) :: todo) h po nb))
              = mkPost ((front ++ [f (a, b)]) ++ todo) h po nb).
  { rewrite <- app_assoc. unfold f, post_at. cbn [fst snd boxes held posted next_box app]. case_decide as Hs; [done|].
    rewrite od_get_app, Hd. cbn [od_get]. rewrite decide_True by done. f_equal.
    clear -Hd. induction front as [|[a' b'] front IH]; cbn [app od_set od_get] in *; [by rewrite decide_True|].
    destruct (decide (a = a')); [done|]. by rewrite IH. }
  rewrite E. change (todo.*1) with (od_keys todo). rewrite IH; [by rewrite <- app_assoc|].
  unfold od_keys in *. rewrite !fmap_app in *. cbn [fmap list_fmap fst f] in *. by rewrite <- app_assoc.
Qed.

Lemma broadcast_refines k draw e r w p :
  mail_rel (fun _ => k) (mkMail r w) p -> k + 1 < 2 ^ 32 -> env_ok e ->
  (forall raw, _serialize e = Ok raw -> Z.of_nat (length raw) <= MAX_FRAME_BODY_BYTES) ->
  (forall a, 0 <= (draw a).1 < 2 ^ 64 /\ length (draw a).2 = NONCE_SIZE /\ exists q, f64_value (draw a).1 = Fin q) ->
  exists r', _broadcast draw e r = (Finished, r') /\
    mail_rel (fun _ => k + 1) (mkMail r' w) (spec_broadcast (stamp_of draw) e p).
Proof.
  intros Hm Hk Hok Hlen Hdraw. unfold _broadcast.
  destruct (envelope_roundtrip e EmptyString 0 Hok) as (raw & _ & Hraw & _ & _). rewrite Hraw.
  pose proof (mr_keys _ _ _ Hm) as Hkeys. cbn [ms_router] in Hkeys. rewrite Hkeys.
  rewrite <- post_all_map by apply Hm.
  eapply (broadcast_loop_refines k draw e raw _ r w p (fun _ => k)); try done; [intros; cbn; lia|apply Hm| |by apply Hlen].
  intros a Hin. destruct (od_get a (queues r)) eqn:E; [by eexists|]. apply od_get_None in E. by rewrite Hkeys in E.
Qed.

Lemma send_refines k now draw e r w p :
  mail_rel (fun _ => k) (mkMail r w) p -> k + 1 < 2 ^ 32 -> op_ok (OSend now draw e) ->
  mail_rel (fun _ => k + 1) (mail_step (OSend now draw e) (mkMail r w)).2 (spec_send now (stamp_of draw) e p).
Proof.
  intros Hm Hk (Hok & Hlen & Hdraw). cbn [mail_step ms_router ms_waiting]. unfold send, spec_send.
  assert (Hlater : mail_rel (fun _ => k + 1) (mkMail r w) p) by (eapply mail_rel_later; [|exact Hm]; intros; cbn; lia).
  destruct (is_expired now e); [done|]. destruct (MAX_ROUTING_HOPS <=? hop_count e); [done|]. cbn [orb].
  assert (Hok' : env_ok (add_hop e)) by exact Hok.
  pose proof (mr_posted _ _ _ Hm) as Hp. cbn [ms_router] in Hp. rewrite Hp. destruct (decide (_ /\ _)); [done|].
  set (r1 := if decide _ then with_delivered _ r else r). set (p1 := if decide _ then mkPost _ _ _ _ else p).
  assert (Hm1 : mail_rel (fun _ => k) (mkMail r1 w) p1) by (unfold r1, p1; case_decide; [by apply with_posted_rel|done]).
  change (is_broadcast (add_hop e)) with (is_broadcast e). destruct (is_broadcast e).
  - destruct (broadcast_refines k draw (add_hop e) r1 w p1 Hm1 Hk Hok' Hlen Hdraw) as (r' & -> & Hr). exact Hr.
  - destruct (unicast_refines k draw (add_hop e) r1 w p1 Hm1 Hk Hok' Hlen Hdraw) as (r' & [(E & Hnw & Hr)|(id & item & E & Hr)]).
    + destruct (_unicast draw (add_hop e) r1) as [[| | |] r2]; cbn [fst snd] in *; subst r'; try exact Hr. by edestruct Hnw.
    + rewrite E. exact Hr.
Qed.

Lemma resume_refines k r w p :
  mail_rel (fun _ => k) (mkMail r w) p -> mail_rel (fun _ => k) (mail_step OResume (mkMail r w)).2 (spec_resume p).
Proof.
  intros Hm. pose proof (mr_waiting _ _ _ Hm) as Hw. cbn [ms_waiting ms_router] in Hw.
  cbn [mail_step ms_router ms_waiting]. unfold spec_resume.
  destruct w as [|[[[a id] item] e] w], (held p) as [|[[a' id'] x] h] eqn:Eh; try by inversion Hw.
  apply Forall2_cons in Hw as [(Ea & He & Hid & Hseal) Hw]. cbn [fst snd] in *. injection Ea as <- <-.
  assert (Hheld : forall b i, held_at b i (h ++ [(a, id, x)]) ≡ₚ held_at b i (held p)).
  { intros b i. rewrite Eh, held_at_snoc, held_at_cons. solve_Permutation. }
  assert (Hback : mail_rel (fun _ => k) (mkMail r (w ++ [(a, id, item, e)])) (mkPost (boxes p) (h ++ [(a, id, x)]) (posted p) (next_box p))).
  { destruct Hm as [K N A W P X]. split; try done; cbn [ms_router ms_waiting held boxes] in *.
    - intros b. specialize (A b). unfold agent_rel in *. cbn [boxes held next_box] in *. repeat case_match; try done.
      destruct A as (A1 & A2 & A3). split_and!; try done. eapply box_rel_perm; [done| |apply A3|exact A3].
      unfold numbers. by rewrite Hheld.
    - apply Forall2_app; [exact Hw|]. by repeat constructor. }
  pose proof (mr_agents _ _ _ Hm a) as Ha. cbn [ms_router] in Ha. unfold try_put.
  destruct (od_get a (queues r)) as [[id0 items]|] eqn:Eq.
  2: { destruct (agent_rel_none _ _ _ _ Ha Eq) as [_ ->]. exact Hback. }
  destruct (agent_rel_inv _ _ _ _ _ _ Ha Eq) as (s & b & Es & Eb & -> & Hlt & Hbox). rewrite Eb.
  destruct (decide (bx_id b = id)) as [Hb|Hb]; [|by rewrite decide_False by (by intros [? _])].
  rewrite (box_room _ _ _ _ _ Hbox). destruct (has_room b) eqn:Er; [|by rewrite decide_False by (by intros [_ ?])].
  rewrite decide_True by done. subst id.
  destruct (after_put_state e (with_queues (od_set a (bx_id b, items ++ [item]) (queues r)) r)) as (l & E2 & Hnw).
  assert (Hgoal : mail_rel (fun _ => k) (mkMail (with_queues (od_set a (bx_id b, items ++ [item]) (queues r)) r) w)
    (mkPost (od_set a (mkBox (bx_id b) (bx_count b) (bx_entries b ++ [x])) (boxes p)) h (posted p) (next_box p))).
  { apply (mail_rel_later (set_n (fun _ => k) a k)); [intros b'; unfold set_n; case_decide; lia|].
    eapply (mail_rel_update (fun _ => k) (mkMail r ((a, bx_id b, item, e) :: w)) p a (bx_id b) items s b _ w _ (items ++ [item]) s);
      try done; try apply Hm; cbn [held boxes queues sessions with_queues].
    - symmetry; by apply od_set_same.
    - eapply (box_rel_perm _ _ _ _ b); [done| | |exact Hbox]; cbn [bx_entries].
      + by rewrite Eh, held_at_cons, decide_True, <- app_assoc by done.
      + apply Forall2_app; [apply Hbox|]. repeat constructor. by apply (Hseal s items).
    - intros a' i Hne. rewrite Eh, held_at_cons, decide_False by congruence. done.
    - intros _ Hkeep. eapply Forall2_impl; [exact Hw|exact Hkeep]. }
  destruct (after_put e _) as [[| | |] r2]; cbn [fst snd] in *; subst r2; try (by apply with_pending_rel). by edestruct Hnw.
Qed.

Lemma receive_refines k fresh now a r w p :
  mail_rel (fun _ => k) (mkMail r w) p ->
  exists r', receive fresh now a r = (answer (spec_receive now a p).1, r') /\
    mail_rel (fun _ => k) (mkMail r' w) (spec_receive now a p).2.
Proof.
  intros Hm. pose proof (mr_agents _ _ _ Hm a) as Ha. cbn [ms_router] in Ha. unfold receive, spec_receive.
  destruct (od_get a (queues r)) as [[id items]|] eqn:Eq.
  2: { destruct (agent_rel_none _ _ _ _ Ha Eq) as [_ ->]. by exists r. }
  destruct (agent_rel_inv _ _ _ _ _ _ Ha Eq) as (s & [id' count entries] & Es & Eb & -> & Hlt & Hbox). rewrite Eb.
  cbn [bx_id] in *. pose proof (br_sealed _ _ _ _ _ Hbox) as Hf. cbn [bx_entries] in Hf.
  destruct items as [|item items], entries as [|[[e t] j] rest]; try (by inversion Hf); [by exists r|].
  destruct (open_ok _ _ _ _ _ _ _ _ _ now Hbox) as (s' & E & Hkey & Hbox'). cbn [fst snd] in E.
  unfold unseal. cbn [sessions with_queues]. rewrite Es, E.
  set (r1 := with_sessions _ _).
  assert (Hm' : mail_rel (fun _ => k) (mkMail r1 w) (mkPost (od_set a (mkBox id' count rest) (boxes p)) (held p) (posted p) (next_box p))).
  { apply (mail_rel_later (set_n (fun _ => k) a k)); [intros b'; unfold set_n; case_decide; lia|].
    eapply (mail_rel_update (fun _ => k) (mkMail r w) p a id' (item :: items) s _ r1 w _ items s' (mkBox id' count rest)); try done; try apply Hm.
    intros Hw Hkeep. eapply Forall2_impl; [exact Hw|exact Hkeep]. }
  apply Forall2_cons in Hf as [(f & _ & Hser & Hok & _) _]. cbn [fst snd] in Hser, Hok.
  destruct (REPLAY_WINDOW_S <. Qabs (now - t)); [by exists r1|].
  destruct (envelope_through_wire e fresh now Hok) as (raw & d & Hraw & Hload & Hdict). rewrite Hraw, Hload, Hdict.
  by exists r1.
Qed.

Lemma held_below a id p m n : mail_rel n m p -> (next_box p <= id)%nat -> held_at a id (held p) = [].
Proof.
  intros Hm Hid. pose proof (mr_waiting _ _ _ Hm) as Hw. unfold held_at.
  induction Hw as [|x y l l' (_ & _ & Hy & _) Hw IH]; [done|]. cbn [List.filter].
  rewrite bool_decide_false; [exact IH|]. intros E. rewrite E in Hy. cbn in Hy. lia.
Qed.

Lemma register_refines k a fresh now r w p :
  0 <= k -> mail_rel (fun _ => k) (mkMail r w) p -> mail_rel (fun _ => k) (mkMail (register_queue fresh now a r) w) (spec_register a p).
Proof.
  intros Hk Hm. pose proof (mr_agents _ _ _ Hm a) as Ha. cbn [ms_router] in Ha. unfold register_queue, spec_register, od_mem.
  destruct (od_get a (queues r)) as [[id items]|] eqn:Eq.
  { destruct (agent_rel_inv _ _ _ _ _ _ Ha Eq) as (s & b & _ & -> & _). done. }
  destruct (agent_rel_none _ _ _ _ Ha Eq) as [Es Eb]. rewrite Eb.
  pose proof (held_below a (next_box p) _ _ _ Hm ltac:(lia)) as Hh.
  destruct Hm as [K N A W P X]. cbn [ms_router ms_waiting] in *.
  split; cbn [ms_router ms_waiting queues sessions boxes held posted next_box next_queue delivered]; try done.
  - by rewrite !od_keys_set, K.
  - split; apply NoDup_od_set; apply N.
  - intros a'. unfold agent_rel. cbn [queues sessions boxes held next_box]. rewrite !od_get_set.
    destruct (decide (a' = a)) as [->|Hne].
    + split; [done|]. split; [cbn; lia|]. cbn [bx_id]. rewrite X, Hh. split; cbn; try done; [constructor..|].
      intros j Hj. by inversion Hj.
    + specialize (A a'). unfold agent_rel in A. repeat case_match; try done. destruct A as (? & ? & ?). split_and!; try done. lia.
  - eapply Forall2_impl; [exact W|]. intros x y. apply wait_rel_keep; [|cbn; lia].
    intros a' id q s Hid. cbn [queues sessions]. rewrite !od_get_set. destruct (decide (a' = a)) as [->|Hne].
    + intros [= <- <-] _. lia.
    + intros Hq Hs. by exists q, s.
  - by rewrite X.
Qed.

Lemma deregister_refines k a r w p :
  mail_rel (fun _ => k) (mkMail r w) p -> mail_rel (fun _ => k) (mkMail (deregister_queue a r) w) (spec_deregister a p).
Proof.
  intros Hm. destruct Hm as [K [N N'] A W P X]. cbn [ms_router ms_waiting] in *.
  assert (NQ : NoDup (od_keys (queues r))) by (by rewrite K).
  assert (Hdel : forall {V} (d : list (string * V)) a', NoDup (od_keys d) -> od_get a' (od_del a d) = if decide (a' = a) then None else od_get a' d).
  { intros V d a' Hnd. case_decide as E; [subst; by apply od_get_del_eq|by apply od_get_del_ne]. }
  split; cbn [ms_router ms_waiting queues sessions boxes held posted next_box next_queue delivered deregister_queue spec_deregister]; try done.
  - clear -K. revert K. generalize (queues r) (boxes p). intros q bs. revert bs.
    induction q as [|[a1 v1] q IH]; intros [|[a2 v2] bs]; cbn [od_keys fmap list_fmap fst]; try done.
    intros [= -> E]. cbn [od_del]. destruct (decide (a = a2)); [exact E|]. cbn [od_keys fmap list_fmap fst].
    f_equal. by apply IH.
  - by split; apply NoDup_od_del.
  - intros a'. unfold agent_rel. cbn [deregister_queue spec_deregister queues sessions boxes held next_box]. rewrite !Hdel by done.
    case_decide; [done|]. apply A.
  - eapply Forall2_impl; [exact W|]. intros x y. apply wait_rel_keep; [|done].
    intros a' id q s _. cbn [queues sessions deregister_queue]. rewrite !Hdel by done. case_decide; [done|].
    intros. by exists q, s.
Qed.

Lemma mail_step_refines k op m p :
  0 <= k -> k + 1 < 2 ^ 32 -> op_ok op -> mail_rel (fun _ => k) m p ->
  (mail_step op m).1 = option_map answer (spec_step op p).1 /\ mail_rel (fun _ => k + 1) (mail_step op m).2 (spec_step op p).2.
Proof.
  intros Hk0 Hk Hop Hm. assert (Hlater : forall m p, mail_rel (fun _ => k) m p -> mail_rel (fun _ => k + 1) m p).
  { intros m' p' Hm'. eapply mail_rel_later; [|exact Hm']. intros; cbn; lia. }
  destruct m as [r w]. destruct op as [a fresh now|a|now draw e| |fresh now a|id|e].
  - split; [done|]. by apply Hlater, register_refines.
  - split; [done|]. by apply Hlater, deregister_refines.
  - split; [|by apply (send_refines k)]. cbn [mail_step spec_step]. destruct (send _ _ _ _) as [[] ?]; done.
  - split; [|by apply Hlater, resume_refines]. cbn [mail_step spec_step ms_waiting].
    destruct w as [|[[[? ?] ?] ?] w]; [done|]. destruct (try_put _ _ _ _ _) as [[] ?]; done.
  - destruct (receive_refines k fresh now a r w p Hm) as (r' & E & Hr). cbn [mail_step spec_step ms_router ms_waiting].
    rewrite E. destruct (spec_receive now a p) as [x p']. split; [done|]. by apply Hlater.
  - split; [done|]. by apply Hlater, with_pending_rel.
  - split; [done|]. by apply Hlater, with_pending_rel.
Qed.

Lemma mail_run_refines ops k m p :
  0 <= k -> k + Z.of_nat (length ops) < 2 ^ 32 -> Forall op_ok ops -> mail_rel (fun _ => k) m p ->
  (mail_run ops m).1 = map (option_map answer) (spec_run ops p).1.
Proof.
  revert k m p. induction ops as [|op ops IH]; intros k m p Hk Hlen Hops Hm; [done|].
  apply Forall_cons in Hops as [Hop Hops]. cbn [length] in Hlen. rewrite Nat2Z.inj_succ in Hlen.
  destruct (mail_step_refines k op m p) as [Hout Hrel]; [done|lia|done|done|].
  cbn [mail_run spec_run]. destruct (mail_step op m) as [x m'], (spec_step op p) as [y p']. cbn [fst snd] in *.
  specialize (IH (k + 1) m' p' ltac:(lia) ltac:(lia) Hops Hrel).
  destruct (mail_run ops m'), (spec_run ops p'). cbn [fst map] in *. by rewrite Hout, IH.
Qed.

Definition empty_post : post_office := mkPost [] [] [] 0.

(** C6: The sealed, encoded and framed router refines numbered mailboxes: in
    every run of registrations, sends, broadcasts, resumed senders, receives and
    acknowledgements from an empty router, each receive answers exactly what the
    mailboxes answer: the next message put in that agent's box, whole, or
    nothing when the box is empty or the message was sealed more than thirty
    seconds ago. No message is altered, repeated, reordered or refused. *)
Theorem router_refines_mailboxes ops :
  Forall op_ok ops -> Z.of_nat (length ops) < 2 ^ 32 ->
  (mail_run ops (mkMail new_mailer [])).1 = map (option_map answer) (spec_run ops empty_post).1.
Proof.
  intros Hops Hlen. apply (mail_run_refines ops 0); try done; try lia.
  split; try done. split; constructor.
Qed.

(** ** Exactly-once messages *)
Definition is_copy (i : string) (e : MessageEnvelope) : bool :=
  bool_decide (delivery_mode e = EXACTLY_ONCE) && bool_decide (msg_id e = i).

Definition one (b : bool) : nat := if b then 1 else 0.

(** How often an agent is handed the exactly-once message [i]. *)
Definition handed (a i : string) (op : mail_op) (out : option (option MessageEnvelope)) : nat :=
  match op, out with
  | OReceive _ _ b, Some (Some e) => one (bool_decide (b = a) && is_copy i e)
  | _, _ => 0
  end.
Fixpoint times_handed (a i : string) (ops : list mail_op) (outs : list (option (option MessageEnvelope))) : nat :=
  match ops, outs with
  | op :: ops, out :: outs => handed a i op out + times_handed a i ops outs
  | _, _ => 0
  end.

(** Copies of the message on their way to an agent: in its box, waiting for room
    there; and whether the id is still free. *)
Definition copies (i : string) (l : list entry) : nat := length (List.filter (fun x => is_copy i x.1.1) l).
Definition waiting_copies (a i : string) (h : list (string * nat * entry)) : nat :=
  length (List.filter (fun x => bool_decide (x.1.1 = a) && is_copy i x.2.1.1) h).
Definition box_copies (a i : string) (p : post_office) : nat :=
  match od_get a (boxes p) with Some b => copies i (bx_entries b) | None => 0 end.
Definition potential (a i : string) (p : post_office) : nat :=
  box_copies a i p + waiting_copies a i (held p) + one (bool_decide (i ∉ posted p)).

Lemma copies_app i l l' : copies i (l ++ l') = (copies i l + copies i l')%nat.
Proof. unfold copies. by rewrite List.filter_app, length_app. Qed.
Lemma waiting_copies_app a i h h' : waiting_copies a i (h ++ h') = (waiting_copies a i h + waiting_copies a i h')%nat.
Proof. unfold waiting_copies. by rewrite List.filter_app, length_app. Qed.
Lemma copies_cons i x l : copies i (x :: l) = (one (is_copy i x.1.1) + copies i l)%nat.
Proof. unfold copies. simpl. by destruct (is_copy _ _). Qed.
Lemma waiting_copies_cons a i b id x h :
  waiting_copies a i ((b, id, x) :: h) = (one (bool_decide (b = a) && is_copy i x.1.1) + waiting_copies a i h)%nat.
Proof. unfold waiting_copies. simpl. by destruct (bool_decide _), (is_copy _ _). Qed.
Lemma copies_one i x : copies i [x] = one (is_copy i x.1.1).
Proof. rewrite copies_cons. apply Nat.add_0_r. Qed.
Lemma waiting_copies_one a i b id x : waiting_copies a i [(b, id, x)] = one (bool_decide (b = a) && is_copy i x.1.1).
Proof. rewrite waiting_copies_cons. apply Nat.add_0_r. Qed.

(** One message adds at most one copy at each agent, and only of its own id. *)
Lemma broadcast_copies a i stamp e p :
  (box_copies a i (spec_broadcast stamp e p) <= box_copies a i p + one (is_copy i e))%nat.
Proof.
  unfold box_copies, spec_broadcast. cbn [boxes]. generalize (boxes p) as d. intros d.
  assert (E : od_get a ((fun ab : string * letter_box => (ab.1, if decide (ab.1 = sender_id e) then ab.2 else post (stamp ab.1) e ab.2)) <$> d)
              = (fun b => if decide (a = sender_id e) then b else post (stamp a) e b) <$> od_get a d).
  { induction d as [|[a' b'] d IH]; [done|]. cbn [fmap list_fmap od_get fst snd].
    destruct (decide (a = a')) as [<-|]; [done|exact IH]. }
  rewrite E. destruct (od_get a d) as [b|]; cbn [fmap option_fmap option_map]; [|lia].
  case_decide; [lia|]. unfold post. cbn [bx_entries]. destruct (has_room b); [|lia].
  rewrite copies_app, copies_one. cbn [fst]. lia.
Qed.

Lemma unicast_copies a i stamp e p :
  (box_copies a i (spec_unicast stamp e p) + waiting_copies a i (held (spec_unicast stamp e p))
   <= box_copies a i p + waiting_copies a i (held p) + one (is_copy i e))%nat.
Proof.
  unfold box_copies, spec_unicast. destruct (od_get (recipient_id e) (boxes p)) as [b|] eqn:Eb; [|lia].
  cbn [boxes held]. rewrite od_get_set. unfold post. destruct (has_room b).
  - case_decide as E; [subst|lia]. rewrite Eb. cbn [bx_entries]. rewrite copies_app, copies_one. cbn [fst]. lia.
  - rewrite waiting_copies_app, waiting_copies_one. cbn [fst].
    case_decide as E; [subst; rewrite Eb; cbn [bx_entries]|]; destruct (bool_decide _), (is_copy i e); cbn [andb one]; lia.
Qed.

Lemma unicast_keys stamp e p : od_keys (boxes (spec_unicast stamp e p)) = od_keys (boxes p) /\ posted (spec_unicast stamp e p) = posted p.
Proof.
  unfold spec_unicast. destruct (od_get _ _) eqn:E; [|done]. cbn [boxes posted]. by rewrite (od_keys_set_present _ _ _ _ E).
Qed.

Lemma broadcast_keys stamp e p : od_keys (boxes (spec_broadcast stamp e p)) = od_keys (boxes p).
Proof. unfold spec_broadcast, od_keys. cbn [boxes]. rewrite <- list_fmap_compose. done. Qed.

Lemma route_potential a i stamp e p :
  let p' := if is_broadcast e then spec_broadcast stamp e p else spec_unicast stamp e p in
  od_keys (boxes p') = od_keys (boxes p) /\ (potential a i p' <= potential a i p + one (is_copy i e))%nat.
Proof.
  unfold potential. destruct (is_broadcast e).
  - pose proof (broadcast_copies a i stamp e p) as Hb. split; [apply broadcast_keys|].
    change (held (spec_broadcast stamp e p)) with (held p). change (posted (spec_broadcast stamp e p)) with (posted p). lia.
  - pose proof (unicast_copies a i stamp e p) as Hb. destruct (unicast_keys stamp e p) as [K ->]. split; [done|]. lia.
Qed.

(** A send uses the id up before it adds a copy. *)
Lemma send_potential a i now stamp e p :
  od_keys (boxes (spec_send now stamp e p)) = od_keys (boxes p) /\ (potential a i (spec_send now stamp e p) <= potential a i p)%nat.
Proof.
  unfold spec_send. destruct (is_expired now e || _); [done|].
  destruct (decide _) as [|Hnew]; [done|].
  set (p1 := if decide (delivery_mode (add_hop e) = EXACTLY_ONCE) then _ else p).
  destruct (route_potential a i stamp (add_hop e) p1) as [K P]. revert K P. generalize (is_broadcast (add_hop e)).
  intros b K P. assert (B1 : boxes p1 = boxes p) by (unfold p1; by case_decide). rewrite K, B1. split; [done|].
  etrans; [exact P|]. clear K P B1. unfold p1, is_copy. destruct (decide (delivery_mode (add_hop e) = EXACTLY_ONCE)) as [Hd|Hd].
  - rewrite bool_decide_true by done. unfold potential, box_copies. cbn [boxes held posted andb].
    assert (Hn : msg_id (add_hop e) ∉ posted p) by (intros Hin; by apply Hnew).
    destruct (decide (msg_id (add_hop e) = i)) as [<-|Hi].
    + rewrite (bool_decide_false (_ ∉ _ :: _)) by (rewrite not_elem_of_cons; tauto). rewrite !bool_decide_true by done. cbn [one]. lia.
    + rewrite (bool_decide_false (_ = i)) by done. cbn [one].
      rewrite (bool_decide_ext (i ∉ msg_id (add_hop e) :: posted p) (i ∉ posted p)) by (rewrite not_elem_of_cons; naive_solver). lia.
  - rewrite bool_decide_false by done. cbn [andb one]. lia.
Qed.

Lemma resume_potential a i p :
  od_keys (boxes (spec_resume p)) = od_keys (boxes p) /\ (potential a i (spec_resume p) <= potential a i p)%nat.
Proof.
  unfold spec_resume. destruct (held p) as [|[[b id] x] h] eqn:Eh; [done|].
  assert (Hback : (potential a i (mkPost (boxes p) (h ++ [(b, id, x)]) (posted p) (next_box p)) <= potential a i p)%nat).
  { unfold potential, box_copies. cbn [boxes held posted]. rewrite Eh, waiting_copies_app, waiting_copies_one, waiting_copies_cons. lia. }
  destruct (od_get b (boxes p)) as [bx|] eqn:Eb; [|done]. case_decide as Hr; [|done]. cbn [boxes].
  split; [by apply (od_keys_set_present _ _ _ _ Eb)|].
  unfold potential, box_copies. cbn [boxes held posted]. rewrite Eh, waiting_copies_cons, od_get_set.
  destruct (decide (a = b)) as [->|E].
  - rewrite Eb, (bool_decide_true (b = b)) by done. cbn [bx_entries andb]. rewrite copies_app, copies_one. lia.
  - rewrite (bool_decide_false (b = a)) by congruence. cbn [andb one]. lia.
Qed.

Lemma receive_potential a i now b p :
  od_keys (boxes (spec_receive now b p).2) = od_keys (boxes p) /\
  (match (spec_receive now b p).1 with Some e => one (bool_decide (b = a) && is_copy i e) | None => 0 end +
   potential a i (spec_receive now b p).2 <= potential a i p)%nat.
Proof.
  unfold spec_receive. destruct (od_get b (boxes p)) as [[id count [|[[e t] n] l]]|] eqn:Eb; [by split|..|by split].
  cbn [fst snd boxes]. split; [by apply (od_keys_set_present _ _ _ _ Eb)|].
  unfold potential, box_copies. cbn [boxes held posted]. rewrite od_get_set.
  destruct (decide (a = b)) as [->|Hne].
  - rewrite Eb, (bool_decide_true (b = b)) by done. cbn [bx_entries andb]. rewrite copies_cons. cbn [fst].
    destruct (_ <. _); lia.
  - rewrite (bool_decide_false (b = a)) by congruence. cbn [andb one]. destruct (_ <. _); lia.
Qed.

Lemma step_potential a i op p : NoDup (od_keys (boxes p)) ->
  NoDup (od_keys (boxes (spec_step op p).2)) /\
  (handed a i op (spec_step op p).1 + potential a i (spec_step op p).2 <= potential a i p)%nat.
Proof.
  intros Hnd. destruct op as [b fresh now|b|now draw e| |fresh now b|id|e]; cbn [spec_step]; try done.
  - cbn [fst snd handed]. unfold spec_register, od_mem. destruct (od_get b (boxes p)) as [x|] eqn:Eb; [done|].
    cbn [boxes]. split; [by apply NoDup_od_set|]. unfold potential, box_copies. cbn [boxes held posted].
    rewrite od_get_set. case_decide as E; [subst; cbn [bx_entries copies]; unfold copies; cbn [List.filter length]|]; lia.
  - cbn [fst snd handed]. unfold spec_deregister. cbn [boxes]. split; [by apply NoDup_od_del|].
    unfold potential, box_copies. cbn [boxes held posted]. destruct (decide (a = b)) as [->|Hne].
    + rewrite od_get_del_eq by done. lia.
    + rewrite od_get_del_ne by done. lia.
  - destruct (send_potential a i now (stamp_of draw) e p) as [K P]. cbn [fst snd handed]. by rewrite K.
  - destruct (resume_potential a i p) as [K P]. cbn [fst snd handed]. by rewrite K.
  - destruct (receive_potential a i now b p) as [K P]. destruct (spec_receive now b p) as [x p']. cbn [fst snd handed] in *.
    by rewrite K.
Qed.

Lemma run_potential a i ops p : NoDup (od_keys (boxes p)) ->
  (times_handed a i ops (spec_run ops p).1 <= potential a i p)%nat.
Proof.
  revert p. induction ops as [|op ops IH]; intros p Hnd; [cbn; lia|].
  destruct (step_potential a i op p Hnd) as [Hnd' Hp]. cbn [spec_run].
  destruct (spec_step op p) as [x p']. cbn [fst snd] in *. specialize (IH p' Hnd').
  destruct (spec_run ops p') as [xs p2]. cbn [fst times_handed] in *. lia.
Qed.

(** What the router hands out, as the mailboxes do. *)
Definition handed_out (x : option (res dap_error (option MessageEnvelope))) : option (option MessageEnvelope) :=
  match x with Some (Ok o) => Some o | _ => None end.

Lemma handed_out_answers outs : map handed_out (map (option_map answer) outs) = outs.
Proof. induction outs as [|[o|] outs IH]; [done|..]; cbn [map option_map handed_out answer]; by rewrite IH. Qed.

(** C18: Exactly-once delivery: in every run from an empty router, however sends,
    broadcasts, repeats of the same message, full queues, resumed senders,
    re-registrations and receives interleave, no agent is ever handed two
    messages sent as exactly-once under one id. *)
Theorem exactly_once_at_most_once ops a i :
  Forall op_ok ops -> Z.of_nat (length ops) < 2 ^ 32 ->
  (times_handed a i ops (map handed_out (mail_run ops (mkMail new_mailer [])).1) <= 1)%nat.
Proof.
  intros Hops Hlen. rewrite (mail_run_refines ops 0 _ empty_post); try done; try lia.
  - rewrite handed_out_answers. etrans; [apply run_potential; constructor|].
    by unfold potential, empty_post.
  - split; try done. split; constructor.
Qed.
End Mail.

(** An exactly-once task, broadcast, repeated and read, and a late read that the
    replay window refuses. *)
Module MailDemo.
Import WholeFloats EnvelopeDemo.
Definition keys_of (a : string) : SessionKeys := mkKeys a (repeat x01 32) (repeat x02 32) (repeat x03 32) 0 3600.
Definition draw (a : string) : Z * bytes := (0, repeat x07 16).
Definition ops : list mail_op :=
  [ORegister "w1" (keys_of "w1") 0; ORegister "w2" (keys_of "w2") 0;
   OSend 1 draw (envelope "m1" EXACTLY_ONCE EmptyString 0); OSend 1 draw (envelope "m1" EXACTLY_ONCE EmptyString 0);
   OSend 2 draw (envelope "m2" AT_LEAST_ONCE "w2" 3); OAcknowledge "m2"; OReceive "f" 3 "w2"; OReceive "f" 3 "w2";
   OReceive "f" 40 "w1"; OResume; ODeregister "w1"; OReceive "f" 41 "w1"].

Lemma send_ok now id m a h raw :
  _serialize (add_hop (envelope id m a h)) = Ok raw -> Z.of_nat (length raw) <= MAX_FRAME_BODY_BYTES ->
  op_ok (OSend now draw (envelope id m a h)).
Proof.
  intros Hs Hr. split; [apply sample_ok|]. split; [intros raw'; rewrite Hs; by intros [= <-]|].
  intros b. split; [done|]. split; [done|]. eexists. vm_compute. reflexivity.
Qed.

Lemma ops_ok : Forall op_ok ops.
Proof.
  unfold ops. repeat (apply Forall_cons_2; [try exact Coq.Init.Logic.I|]); [..|apply Forall_nil_2];
    (eapply send_ok; [vm_compute; reflexivity|by vm_compute]).
Qed.

Example handed_out_here :
  map handed_out (mail_run ops (mkMail new_mailer [])).1
  = [None; None; None; None; None; None; Some (Some (envelope "m1" EXACTLY_ONCE EmptyString 1));
     Some (Some (envelope "m2" AT_LEAST_ONCE "w2" 4)); Some None; None; None; Some None].
Proof. vm_compute. reflexivity. Qed.

Lemma router_refines_mailboxes_witness :
  (mail_run ops (mkMail new_mailer [])).1 = map (option_map answer) (spec_run ops empty_post).1.
Proof. apply (router_refines_mailboxes ops); [apply ops_ok|reflexivity]. Defined.

Lemma exactly_once_at_most_once_witness :
  (times_handed "w2" "m1" ops (map handed_out (mail_run ops (mkMail new_mailer [])).1) <= 1)%nat.
Proof. apply (exactly_once_at_most_once ops "w2" "m1"); [apply ops_ok|reflexivity]. Defined.
End MailDemo.
