(* ===== verification/Heapq.v ===== *)
(** Python's [heapq] on lists: [heappush] and [heappop] with the sift loops of
    the standard library, for any strict weak order. *)
From S2P Require Import Prelude.

Section Heapq.
Context {A : Type} (lt : A -> A -> bool).
Implicit Types (h : list A) (x y : A).

Definition parent (i : nat) : nat := Nat.div2 (i - 1).

(** [_siftdown]: the value [x] goes up from the hole [pos] to its place. *)
Fixpoint siftdown (fuel : nat) h (pos : nat) x : list A :=
  match fuel, pos with
  | S fuel, S _ =>
    match h !! parent pos with
    | Some p => if lt x p then siftdown fuel (<[pos := p]> h) (parent pos) x else <[pos := x]> h
    | None => <[pos := x]> h
    end
  | _, _ => <[pos := x]> h
  end.

Definition heappush h x : list A := siftdown (length h) (h ++ [x]) (length h) x.

(** The smaller child of [pos]; the right one when they are equal. *)
Definition least_child h (pos : nat) : option (nat * A) :=
  match h !! (2 * pos + 1)%nat, h !! (2 * pos + 2)%nat with
  | Some l, Some r => if negb (lt l r) then Some ((2 * pos + 2)%nat, r) else Some ((2 * pos + 1)%nat, l)
  | Some l, None => Some ((2 * pos + 1)%nat, l)
  | None, _ => None
  end.

(** [_siftup]: the hole goes down to a leaf along the smaller children, then [x]
    goes up from there. *)
Fixpoint siftup (fuel : nat) h (pos : nat) x : list A :=
  match fuel with
  | O => siftdown (length h) h pos x
  | S fuel =>
    match least_child h pos with
    | Some (c, y) => siftup fuel (<[pos := y]> h) c x
    | None => siftdown (length h) h pos x
    end
  end.

Definition heappop h : option (A * list A) :=
  match last h with
  | None => None
  | Some final =>
    let h := take (length h - 1) h in
    match h with
    | [] => Some (final, [])
    | top :: _ => Some (top, siftup (length h) h 0 final)
    end
  end.

(** ** The heap invariant *)
Definition le x y : Prop := lt y x = false.
Class WeakOrder : Prop := {
  lt_irrefl x : lt x x = false;
  le_trans x y z : le x y -> le y z -> le x z;
  lt_le x y : lt x y = true -> le x y }.

Definition child_ok h (i : nat) : Prop :=
  forall x y, h !! parent i = Some x -> h !! i = Some y -> le x y.
Definition is_heap h : Prop := forall i, (0 < i)%nat -> child_ok h i.

(** All but the pairs with the hole at [pos]; around it the order holds from its
    parent to its children. *)
Definition holed h (pos : nat) : Prop :=
  (forall i, (0 < i)%nat -> i ≠ pos -> parent i ≠ pos -> child_ok h i) /\
  (forall c x y, (0 < pos)%nat -> (0 < c)%nat -> parent c = pos -> h !! parent pos = Some x -> h !! c = Some y -> le x y).
Definition below_children h (pos : nat) x : Prop :=
  forall c y, (0 < c)%nat -> parent c = pos -> h !! c = Some y -> le x y.

Lemma parent_lt i : (0 < i)%nat -> (parent i < i)%nat.
Proof. intros Hi. unfold parent. pose proof (Nat.div2_odd (i - 1)). lia. Qed.
Lemma parent_children i c : (0 < c)%nat -> parent c = i <-> (c = 2 * i + 1 \/ c = 2 * i + 2)%nat.
Proof.
  intros Hc. unfold parent. pose proof (Nat.div2_odd (c - 1)) as E. destruct (Nat.odd (c - 1)); cbn [Nat.b2n] in E; lia.
Qed.

Lemma insert_perm h i x y : h !! i = Some y -> y :: <[i := x]> h ≡ₚ x :: h.
Proof.
  intros Hi. assert (Hlt : (i < length h)%nat) by (by eapply lookup_lt_Some).
  rewrite <- (take_drop_middle h i y Hi) at 2. rewrite insert_take_drop by done.
  rewrite <- !Permutation_middle. constructor.
Qed.

Context `{WeakOrder}.
Lemma le_refl x : le x x.
Proof. apply lt_irrefl. Qed.

Lemma siftdown_heap fuel h pos x : (pos <= fuel)%nat -> (pos < length h)%nat ->
  holed h pos -> below_children h pos x -> is_heap (siftdown fuel h pos x).
Proof.
  revert h pos. induction fuel as [|fuel IH]; intros h pos Hf Hlen [H1 H2] H3.
  all: assert (Hstop : (forall p, (0 < pos)%nat -> h !! parent pos = Some p -> le p x) -> is_heap (<[pos := x]> h)).
  1,3: (intros Hp i Hi y z; destruct (decide (parent i = pos)) as [Ep|Ep]; [
      rewrite Ep, list_lookup_insert_eq, list_lookup_insert_ne by (try done; pose proof (parent_lt i Hi); lia);
      intros [= <-]; by apply H3|];
    destruct (decide (i = pos)) as [->|En]; [
      rewrite list_lookup_insert_eq, list_lookup_insert_ne by (try done; pose proof (parent_lt pos Hi); lia);
      intros Hy [= <-]; by apply Hp|];
    rewrite !list_lookup_insert_ne by done; by apply H1).
  - apply Hstop. intros; lia.
  - cbn [siftdown]. destruct pos as [|pos']; [apply Hstop; intros; lia|]. set (pos := S pos') in *.
    destruct (h !! parent pos) as [p|] eqn:Ep; [|apply Hstop; congruence].
    pose proof (parent_lt pos ltac:(lia)) as Hlt.
    destruct (lt x p) eqn:Elt; [|apply Hstop; intros ? _ [= <-]; exact Elt].
    assert (Hpos : forall c y, (0 < c)%nat -> parent c = parent pos -> <[pos := p]> h !! c = Some y -> le p y).
    { intros c y Hc Hpc. destruct (decide (c = pos)) as [->|Hne].
      - rewrite list_lookup_insert_eq by done. intros [= <-]. apply le_refl.
      - rewrite list_lookup_insert_ne by done. intros Hy. apply (H1 c Hc Hne); [lia| |done]. by rewrite Hpc. }
    apply IH; [lia|rewrite length_insert; lia|split|].
    + intros i Hi Hn1 Hn2 y z. destruct (decide (i = pos)) as [->|Hne]; [done|].
      rewrite (list_lookup_insert_ne _ pos i) by done. destruct (decide (parent i = pos)) as [Epi|Epi].
      * rewrite Epi, list_lookup_insert_eq by done. intros [= <-] Hz. by apply (H2 i p z); try lia.
      * rewrite list_lookup_insert_ne by done. by apply H1.
    + intros c y z H0 Hc Hpc Hy Hz. apply (le_trans _ p); [|by apply (Hpos c)].
      rewrite list_lookup_insert_ne in Hy by (pose proof (parent_lt _ H0); lia).
      apply (H1 (parent pos) H0); [lia|pose proof (parent_lt _ H0); lia|done|done].
    + intros c y Hc Hpc Hy. apply (le_trans _ p); [by apply lt_le|by apply (Hpos c)].
Qed.

Lemma siftdown_perm fuel h pos x y : h !! pos = Some y -> y :: siftdown fuel h pos x ≡ₚ x :: h.
Proof.
  revert h pos y. induction fuel as [|fuel IH]; intros h pos y Hy; [by apply insert_perm|].
  cbn [siftdown]. destruct pos as [|pos']; [by apply insert_perm|]. set (pos := S pos') in *.
  destruct (h !! parent pos) as [p|] eqn:Ep; [|by apply insert_perm].
  destruct (lt x p); [|by apply insert_perm].
  pose proof (parent_lt pos ltac:(lia)).
  assert (Hp : <[pos := p]> h !! parent pos = Some p) by (rewrite list_lookup_insert_ne by lia; done).
  pose proof (IH _ _ _ Hp) as E. pose proof (insert_perm h pos p y Hy) as E2.
  apply (Permutation_cons_inv (a := p)). rewrite Permutation_swap, E, Permutation_swap, E2. apply Permutation_swap.
Qed.

Lemma heappush_heap h x : is_heap h -> is_heap (heappush h x).
Proof.
  intros Hh. assert (Hin : forall i y, i ≠ length h -> (h ++ [x]) !! i = Some y -> h !! i = Some y).
  { intros i y Hi Hy. pose proof (lookup_lt_Some _ _ _ Hy) as Hl. rewrite length_app in Hl. cbn in Hl.
    by rewrite lookup_app_l in Hy by lia. }
  assert (Hno : forall c y, (0 < c)%nat -> parent c = length h -> (h ++ [x]) !! c = Some y -> False).
  { intros c y Hc Hp Hy. pose proof (lookup_lt_Some _ _ _ Hy) as Hl. rewrite length_app in Hl. cbn in Hl.
    pose proof (parent_lt c Hc). lia. }
  apply siftdown_heap; [done|rewrite length_app; cbn; lia|split|].
  - intros i Hi H1 H2 y z Hy Hz. apply (Hh i Hi); by apply Hin.
  - intros c y z _ Hc Hp _ Hz. by destruct (Hno c z).
  - intros c y Hc Hp Hy. by destruct (Hno c y).
Qed.

Lemma heappush_perm h x : heappush h x ≡ₚ x :: h.
Proof.
  unfold heappush. assert (Hx : (h ++ [x]) !! length h = Some x) by (by rewrite lookup_app_r, Nat.sub_diag by lia).
  pose proof (siftdown_perm (length h) _ _ x x Hx) as E. apply Permutation_cons_inv in E.
  rewrite E. symmetry. apply Permutation_cons_append.
Qed.

Lemma least_child_some h pos c y : least_child h pos = Some (c, y) ->
  (0 < c)%nat /\ parent c = pos /\ h !! c = Some y /\
  forall c' z, (0 < c')%nat -> parent c' = pos -> h !! c' = Some z -> le y z.
Proof.
  unfold least_child. destruct (h !! (2 * pos + 1)%nat) as [l|] eqn:El; [|done].
  assert (Hl : parent (2 * pos + 1) = pos) by (apply parent_children; lia).
  assert (Hr : parent (2 * pos + 2) = pos) by (apply parent_children; lia).
  destruct (h !! (2 * pos + 2)%nat) as [r|] eqn:Er.
  - destruct (lt l r) eqn:E; intros [= <- <-]; (split; [lia|split; [done|split; [done|]]]);
      intros c' z Hc Hp; apply parent_children in Hp as [-> | ->]; try done; rewrite ?El, ?Er; intros [= <-];
      try apply le_refl; [by apply lt_le|exact E].
  - intros [= <- <-]. split; [lia|split; [done|split; [done|]]].
    intros c' z Hc Hp; apply parent_children in Hp as [-> | ->]; try done; rewrite ?El, ?Er; intros [= <-]. apply le_refl.
Qed.

Lemma least_child_none h pos : least_child h pos = None -> forall x, below_children h pos x.
Proof.
  unfold least_child. intros E x c y Hc Hp Hy. apply parent_children in Hp as Hc'; [|done].
  destruct (h !! (2 * pos + 1)%nat) eqn:El; [by repeat case_match|].
  pose proof (lookup_ge_None_1 _ _ El). pose proof (lookup_lt_Some _ _ _ Hy). lia.
Qed.

Lemma siftup_heap fuel h pos x : (length h <= fuel + pos)%nat -> (pos < length h)%nat -> holed h pos ->
  is_heap (siftup fuel h pos x).
Proof.
  revert h pos. induction fuel as [|fuel IH]; intros h pos Hf Hlen Hh; [lia|].
  cbn [siftup]. destruct (least_child h pos) as [[c y]|] eqn:E.
  2: { apply siftdown_heap; [lia|done|done|by apply least_child_none]. }
  destruct (least_child_some _ _ _ _ E) as (Hc & Hp & Hy & Hleast). destruct Hh as [H1 H2].
  pose proof (parent_lt c Hc) as Hlt. pose proof (lookup_lt_Some _ _ _ Hy) as Hcl.
  apply IH; [rewrite length_insert; lia|by rewrite length_insert|split].
  - intros i Hi Hn1 Hn2 u v. destruct (decide (i = pos)) as [->|Hne].
    + rewrite list_lookup_insert_eq, list_lookup_insert_ne by (try done; pose proof (parent_lt pos Hi); lia).
      intros Hu [= <-]. by apply (H2 c u y).
    + rewrite (list_lookup_insert_ne _ pos i) by done. destruct (decide (parent i = pos)) as [Epi|Epi].
      * rewrite Epi, list_lookup_insert_eq by done. intros [= <-]. by apply Hleast.
      * rewrite list_lookup_insert_ne by done. by apply H1.
  - intros c' u v _ Hc' Hp' Hu Hv. rewrite Hp, list_lookup_insert_eq in Hu by done. injection Hu as <-.
    pose proof (parent_lt c' Hc'). rewrite list_lookup_insert_ne in Hv by lia.
    apply (H1 c' Hc'); [lia|lia| |done]. by rewrite Hp'.
Qed.

Lemma siftup_perm fuel h pos x y : h !! pos = Some y -> y :: siftup fuel h pos x ≡ₚ x :: h.
Proof.
  revert h pos y. induction fuel as [|fuel IH]; intros h pos y Hy; [by apply siftdown_perm|].
  cbn [siftup]. destruct (least_child h pos) as [[c z]|] eqn:E; [|by apply siftdown_perm].
  destruct (least_child_some _ _ _ _ E) as (Hc & Hp & Hz & _). pose proof (parent_lt c Hc).
  assert (Hz' : <[pos := z]> h !! c = Some z) by (rewrite list_lookup_insert_ne by lia; done).
  pose proof (IH _ _ _ Hz') as E1. pose proof (insert_perm h pos z y Hy) as E2.
  apply (Permutation_cons_inv (a := z)). rewrite Permutation_swap, E1, Permutation_swap, E2. apply Permutation_swap.
Qed.

(** The root is least. *)
Lemma heap_root h top x : is_heap h -> h !! 0%nat = Some top -> x ∈ h -> le top x.
Proof.
  intros Hh Ht [i Hi]%list_elem_of_lookup_1. revert x Hi.
  induction i as [i IH] using lt_wf_ind. intros x Hi. destruct i as [|i]; [rewrite Ht in Hi; injection Hi as <-; apply le_refl|].
  pose proof (parent_lt (S i) ltac:(lia)) as Hlt. pose proof (lookup_lt_Some _ _ _ Hi) as Hl.
  destruct (lookup_lt_is_Some_2 h (parent (S i))) as [p Hp]; [lia|].
  apply (le_trans _ p); [by apply (IH (parent (S i)))|]. by apply (Hh (S i)); [lia| |].
Qed.

Lemma heappop_none h : heappop h = None <-> h = [].
Proof.
  unfold heappop. destruct h as [|x h _] using rev_ind; [done|]. rewrite last_snoc. split; [|by destruct h].
  by case_match.
Qed.

(** [heappop] takes out one element of a list, heap or not. *)
Lemma heappop_perm h x h' : heappop h = Some (x, h') -> h ≡ₚ x :: h'.
Proof.
  unfold heappop. destruct h as [|final h _] using rev_ind; [done|]. rewrite last_snoc, length_app. cbn [length].
  rewrite Nat.add_sub, take_app_length. destruct h as [|top h]; [by intros [= <- <-]|]. intros [= <- <-].
  assert (Htop : (top :: h) !! 0%nat = Some top) by done.
  pose proof (siftup_perm (S (length h)) _ _ final top Htop) as E. cbn [length]. rewrite E. symmetry. apply Permutation_cons_append.
Qed.

(** [heappop] takes out a least element and leaves a heap of the others. *)
Lemma heappop_some h x h' : is_heap h -> heappop h = Some (x, h') ->
  is_heap h' /\ h ≡ₚ x :: h' /\ (forall y, y ∈ h -> le x y).
Proof.
  intros Hh Hpop. pose proof (heappop_perm _ _ _ Hpop) as Hperm. revert Hpop. unfold heappop.
  destruct h as [|final h _] using rev_ind; [done|]. rewrite last_snoc, length_app. cbn [length].
  rewrite Nat.add_sub, take_app_length. destruct h as [|top h].
  - intros [= <- <-]. split; [by intros i _ ? ?|split; [done|]]. intros y Hy%list_elem_of_singleton. subst. apply le_refl.
  - intros [= <- <-]. split; [|split; [done|]].
    + apply (siftup_heap (S (length h))); [cbn; lia|cbn; lia|split; [|lia]].
      intros i Hi _ _ y z Hy Hz. apply (Hh i Hi); rewrite lookup_app_l; try done; by eapply lookup_lt_Some.
    + intros y Hy. by apply (heap_root _ _ _ Hh).
Qed.
End Heapq.
Arguments WeakOrder {A} lt.
