(* ===== verification/TaskOrchestrator.v ===== *)
(** The task orchestrator of [agents/task_orchestrator.py]: a bounded priority
    queue, a table of running coroutines, retries, cancellation and futures.

    A handler runs without interruption between two awaits; [step] is one such
    segment and [run] any interleaving of them. The calls to the agents end with
    a value, an exception, a timeout or a cancellation ([call_end]), which the
    environment chooses; so it does with the agents that are idle. *)
From stdpp Require Import pretty.
From S2P Require Import Prelude Yaml Heapq.

Inductive TaskPriority := CRITICAL | HIGH | NORMAL | LOW.
Definition priority_value (p : TaskPriority) : Z :=
  match p with CRITICAL => 0 | HIGH => 1 | NORMAL => 2 | LOW => 3 end.
Definition priority_name (z : Z) : option string :=
  match z with 0%Z => Some "CRITICAL" | 1%Z => Some "HIGH" | 2%Z => Some "NORMAL" | 3%Z => Some "LOW" | _ => None end.

Inductive TaskStatus := QUEUED | ASSIGNED | RUNNING | COMPLETED | FAILED | CANCELLED.
#[export] Instance TaskStatus_eq_dec : EqDecision TaskStatus.
Proof. solve_decision. Defined.
Definition task_status_value (s : TaskStatus) : string :=
  match s with
  | QUEUED => "queued" | ASSIGNED => "assigned" | RUNNING => "running" | COMPLETED => "completed" | FAILED => "failed"
  | CANCELLED => "cancelled"
  end.

Definition MAX_QUEUE_SIZE : nat := 512.
Definition DEFAULT_TIMEOUT : Z := 120.

Record Payload := mkPayload {
  instruction : string; task_context : list (yaml * yaml); constraints : list string; task_timeout : Z }.

Section Orchestrator.
Context {V : Type}.

Record TaskItem := mkItem {
  priority : Z; item_created : Q; task_id : string; item_payload : Payload; retries : Z; max_retries : Z;
  assigned_to : option string; item_status : TaskStatus; item_result : option V; item_error : option string }.

(** An entry of the queue refers to an item; [order=True] compares priority and
    creation time only. *)
Record entry := mkEntry { e_priority : Z; e_created : Q; e_task : string }.
Definition entry_lt (x y : entry) : bool :=
  if e_priority x =? e_priority y then e_created x <. e_created y else e_priority x <? e_priority y.
Definition entry_of (i : TaskItem) : entry := mkEntry (priority i) (item_created i) (task_id i).

Inductive future := Pending | ResultSet (v : V) | ExceptionSet (msg : string) | FutureCancelled.

(** A coroutine executing [_run_task]. *)
Inductive position :=
| Created        (* not started *)
| Dispatching    (* waits for [agent_manager.dispatch_task] *)
| Putting        (* waits for room in the queue, to retry *)
| Ended.         (* its done-callback has not run *)
#[export] Instance position_eq_dec : EqDecision position.
Proof. solve_decision. Defined.
Record running_task := mkRun { r_task : string; r_agent : string; r_position : position; r_cancelled : bool }.

Record TaskOrchestrator := mkOrch {
  _queue : list entry; _tasks : list (string * TaskItem); _results : list (string * future);
  _running_tasks : list (string * nat); _running : bool;
  coroutines : list (nat * running_task); next_coroutine : nat;
  submitting : list string;            (* [submit] waits for room *)
  abandoned : list string;             (* ... and was cancelled there *)
  stop_waits : list (list nat) }.      (* the calls of [stop] under way: what each waits for *)
Definition new_orchestrator : TaskOrchestrator := mkOrch [] [] [] [] false [] 0 [] [] [].

Implicit Types (o : TaskOrchestrator) (i : TaskItem).

Definition with_queue q o := mkOrch q (_tasks o) (_results o) (_running_tasks o) (_running o) (coroutines o) (next_coroutine o) (submitting o) (abandoned o) (stop_waits o).
Definition with_tasks t o := mkOrch (_queue o) t (_results o) (_running_tasks o) (_running o) (coroutines o) (next_coroutine o) (submitting o) (abandoned o) (stop_waits o).
Definition with_results f o := mkOrch (_queue o) (_tasks o) f (_running_tasks o) (_running o) (coroutines o) (next_coroutine o) (submitting o) (abandoned o) (stop_waits o).
Definition with_table t o := mkOrch (_queue o) (_tasks o) (_results o) t (_running o) (coroutines o) (next_coroutine o) (submitting o) (abandoned o) (stop_waits o).
Definition with_running b o := mkOrch (_queue o) (_tasks o) (_results o) (_running_tasks o) b (coroutines o) (next_coroutine o) (submitting o) (abandoned o) (stop_waits o).
Definition with_coroutines c o := mkOrch (_queue o) (_tasks o) (_results o) (_running_tasks o) (_running o) c (next_coroutine o) (submitting o) (abandoned o) (stop_waits o).
Definition with_submitting l o := mkOrch (_queue o) (_tasks o) (_results o) (_running_tasks o) (_running o) (coroutines o) (next_coroutine o) l (abandoned o) (stop_waits o).
Definition with_stop_waits w o := mkOrch (_queue o) (_tasks o) (_results o) (_running_tasks o) (_running o) (coroutines o) (next_coroutine o) (submitting o) (abandoned o) w.

Definition set_item i o := with_tasks (od_set (task_id i) i (_tasks o)) o.
Definition set_status s i := mkItem (priority i) (item_created i) (task_id i) (item_payload i) (retries i) (max_retries i) (assigned_to i) s (item_result i) (item_error i).
Definition is_status s i : bool := bool_decide (item_status i = s).

(** [if fut and not fut.done(): ...] *)
Definition settle_future (id : string) (f : future) o :=
  match od_get id (_results o) with
  | Some Pending => with_results (od_set id f (_results o)) o
  | _ => o
  end.

Definition move_to (k : nat) (p : position) o :=
  match od_get k (coroutines o) with
  | Some c => with_coroutines (od_set k (mkRun (r_task c) (r_agent c) p (r_cancelled c)) (coroutines o)) o
  | None => o
  end.
(** [if not t.done(): t.cancel()]: delivered at the coroutine's next resumption. *)
Definition request_cancel (k : nat) o :=
  match od_get k (coroutines o) with
  | Some c =>
    if decide (r_position c = Ended) then o
    else with_coroutines (od_set k (mkRun (r_task c) (r_agent c) (r_position c) true) (coroutines o)) o
  | None => o
  end.

Definition queue_full o : bool := (MAX_QUEUE_SIZE <=? length (_queue o))%nat.
Definition enqueue i o := with_queue (heappush entry_lt (_queue o) (entry_of i)) o.

(** ** Submission *)
Definition new_item (id : string) (now : Q) (p : TaskPriority) (instr : string) (ctx : option (list (yaml * yaml)))
    (cons : option (list string)) (max_retries timeout : Z) : TaskItem :=
  mkItem (priority_value p) now id
    (mkPayload instr (default [] ctx) (default [] cons) timeout) 0 max_retries None QUEUED None None.

(** [submit], up to a full queue. *)
Definition submit i o :=
  let o := with_results (od_set (task_id i) Pending (_results o)) (set_item i o) in
  if queue_full o then with_submitting (submitting o ++ [task_id i]) o else enqueue i o.

(** ** Results and status *)
Inductive awaited := UnknownTask (msg : string) | StillPending | Got (v : V) | Failure (msg : string) | WasCancelled.
Definition get_result (id : string) o : awaited :=
  match od_get id (_results o) with
  | None => UnknownTask ("Unknown task: " +:+ id)
  | Some Pending => StillPending
  | Some (ResultSet v) => Got v
  | Some (ExceptionSet msg) => Failure msg
  | Some FutureCancelled => WasCancelled
  end.

Record task_row := mkTaskRow {
  tr_id : string; tr_status : string; tr_priority : string; tr_retries : Z; tr_assigned : option string;
  tr_error : option string }.
Definition get_status (id : string) o : res string task_row :=
  match od_get id (_tasks o) with
  | None => Raise ("Unknown task: " +:+ id)
  | Some i =>
    match priority_name (priority i) with
    | Some name => Ok (mkTaskRow (task_id i) (task_status_value (item_status i)) name (retries i) (assigned_to i) (item_error i))
    | None => Raise (pretty (priority i) +:+ " is not a valid TaskPriority")
    end
  end.
Definition list_tasks (status_filter : option string) o : res string (list task_row) :=
  let l := od_values (_tasks o) in
  let l := match status_filter with
           | None | Some EmptyString => l
           | Some s => List.filter (fun i => bool_decide (task_status_value (item_status i) = s)) l
           end in
  mapM (fun i => get_status (task_id i) o) l.
Definition queue_depth o : nat := length (_queue o).

Definition cancel (id : string) o : bool * TaskOrchestrator :=
  match od_get id (_tasks o) with
  | None => (false, o)
  | Some i =>
    if is_status COMPLETED i || is_status FAILED i then (false, o)
    else
      let o := set_item (set_status CANCELLED i) o in
      let o := match od_get id (_running_tasks o) with Some k => request_cancel k o | None => o end in
      (true, settle_future id FutureCancelled o)
  end.

(** ** Fan-out: one call per listed agent; a repeated agent keeps its last. *)
Inductive call_end := Returned (v : V) | Raised (msg : string) | TimedOut | CallCancelled.

Fixpoint broadcast_calls (n : nat) (agent_ids : list string) (calls : list (string * nat)) : list (string * nat) :=
  match agent_ids with
  | [] => calls
  | a :: agent_ids => broadcast_calls (S n) agent_ids (od_set a n calls)
  end.
(** The n-th call's end; [None] when the cancellation of one goes through. *)
Fixpoint broadcast_collect (ends : nat -> call_end) (calls : list (string * nat)) (results : list (string * (V + string)))
    : option (list (string * (V + string))) :=
  match calls with
  | [] => Some results
  | (a, n) :: calls =>
    match ends n with
    | Returned v => broadcast_collect ends calls (od_set a (inl v) results)
    | Raised msg => broadcast_collect ends calls (od_set a (inr msg) results)
    | TimedOut => broadcast_collect ends calls (od_set a (inr EmptyString) results)
    | CallCancelled => None
    end
  end.
Definition broadcast (ends : nat -> call_end) (agent_ids : list string) : option (list (string * (V + string))) :=
  broadcast_collect ends (broadcast_calls 0 agent_ids []) [].

(** ** The dispatch loop *)
Definition create_task (id agent : string) o :=
  let k := next_coroutine o in
  mkOrch (_queue o) (_tasks o) (_results o) (od_set id k (_running_tasks o)) (_running o)
    (od_set k (mkRun id agent Created false) (coroutines o)) (S k) (submitting o) (abandoned o) (stop_waits o).

(** One pass, from one sleep to the next: cancelled items are skipped at once. *)
Fixpoint dispatch_pass (fuel : nat) (idle : list string) o :=
  match fuel, idle with
  | S fuel, agent :: _ =>
    match heappop entry_lt (_queue o) with
    | None => o
    | Some (e, q) =>
      match od_get (e_task e) (_tasks o) with
      | Some i =>
        if is_status CANCELLED i then dispatch_pass fuel idle (with_queue q o)
        else create_task (e_task e) agent (with_queue q o)
      | None => with_queue q o
      end
    end
  | _, _ => o
  end.
Definition _dispatch_loop (idle : list string) o := dispatch_pass (S (length (_queue o))) idle o.

(** The done-callback: it drops whatever the table holds for the task. *)
Definition _forget_task (k : nat) (id : string) o :=
  with_coroutines (od_del k (coroutines o)) (with_table (od_del id (_running_tasks o)) o).

(** ** [_run_task] *)
Definition run_start (k : nat) (c : running_task) i o :=
  move_to k Dispatching
    (set_item (mkItem (priority i) (item_created i) (task_id i) (item_payload i) (retries i) (max_retries i)
                 (Some (r_agent c)) RUNNING (item_result i) (item_error i)) o).

(** [_handle_failure], up to a full queue. *)
Definition _handle_failure (k : nat) i (error : string) o :=
  let n := retries i + 1 in
  if n <? max_retries i then
    let i := mkItem (priority i) (item_created i) (task_id i) (item_payload i) n (max_retries i) None QUEUED (item_result i) (Some error) in
    let o := set_item i o in
    if queue_full o then move_to k Putting o else move_to k Ended (enqueue i o)
  else
    let i := mkItem (priority i) (item_created i) (task_id i) (item_payload i) n (max_retries i) (assigned_to i) FAILED (item_result i) (Some error) in
    move_to k Ended
      (settle_future (task_id i) (ExceptionSet ("Task failed after " +:+ pretty n +:+ " attempts: " +:+ error)) (set_item i o)).

(** What follows the agent's call. *)
Definition run_end (k : nat) (e : call_end) i o :=
  match e with
  | CallCancelled => move_to k Ended (if is_status CANCELLED i then o else set_item (set_status CANCELLED i) o)
  | Returned v =>
    if is_status CANCELLED i then move_to k Ended o
    else
      move_to k Ended (settle_future (task_id i) (ResultSet v)
        (set_item (mkItem (priority i) (item_created i) (task_id i) (item_payload i) (retries i) (max_retries i)
                     (assigned_to i) COMPLETED (Some v) (item_error i)) o))
  | TimedOut =>
    if is_status CANCELLED i then move_to k Ended o
    else _handle_failure k i ("Timed out after " +:+ pretty (task_timeout (item_payload i)) +:+ "s") o
  | Raised msg => if is_status CANCELLED i then move_to k Ended o else _handle_failure k i msg o
  end.

(** ** Lifecycle *)
Definition start o := with_running true o.
Definition stop_begin o :=
  let ks := od_values (_running_tasks o) in
  with_stop_waits (stop_waits o ++ [ks]) (fold_right request_cancel (with_running false o) ks).
Definition stop_end (j : nat) o :=
  with_stop_waits (delete j (stop_waits o))
    (with_results ((fun kf => (kf.1, match kf.2 with Pending => FutureCancelled | f => f end)) <$> _results o) (with_table [] o)).

(** ** Interleavings *)
Inductive event :=
| Start | Submit (i : TaskItem) | SubmitRoom (id : string) | SubmitAbandon (id : string) | CancelTask (id : string)
| Cycle (idle : list string) | RunStart (k : nat) | RunEnd (k : nat) (e : call_end) | RetryRoom (k : nat)
| RetryCancelled (k : nat) | Forget (k : nat) | StopBegin | StopEnd (j : nat).

Definition remove_first (id : string) : list string -> list string :=
  fix go l := match l with [] => [] | x :: l => if decide (x = id) then l else x :: go l end.
Definition coroutine_at (k : nat) o : option (running_task * TaskItem) :=
  c ← od_get k (coroutines o); i ← od_get (r_task c) (_tasks o); Some (c, i).
Definition has_ended (k : nat) o : bool :=
  match od_get k (coroutines o) with Some c => bool_decide (r_position c = Ended) | None => true end.
Definition fresh_item i o : bool :=
  bool_decide (retries i = 0 /\ item_status i = QUEUED) && negb (od_mem (task_id i) (_tasks o)).

(** One segment; [None] when it cannot run. *)
Definition step (ev : event) o : option TaskOrchestrator :=
  match ev with
  | Start => Some (start o)
  | Submit i => if fresh_item i o then Some (submit i o) else None
  | SubmitRoom id =>
    i ← od_get id (_tasks o);
    if bool_decide (id ∈ submitting o) && negb (queue_full o)
    then Some (enqueue i (with_submitting (remove_first id (submitting o)) o)) else None
  | SubmitAbandon id =>
    if bool_decide (id ∈ submitting o)
    then Some (mkOrch (_queue o) (_tasks o) (_results o) (_running_tasks o) (_running o) (coroutines o) (next_coroutine o)
                 (remove_first id (submitting o)) (id :: abandoned o) (stop_waits o)) else None
  | CancelTask id => Some (cancel id o).2
  | Cycle idle => if _running o then Some (_dispatch_loop idle o) else None
  | RunStart k =>
    '(c, i) ← coroutine_at k o;
    if bool_decide (r_position c = Created)
    then Some (if r_cancelled c then move_to k Ended o else run_start k c i o) else None
  | RunEnd k e =>
    '(c, i) ← coroutine_at k o;
    if bool_decide (r_position c = Dispatching) then Some (run_end k e i o) else None
  | RetryRoom k =>
    '(c, i) ← coroutine_at k o;
    if bool_decide (r_position c = Putting) && negb (r_cancelled c) && negb (queue_full o)
    then Some (move_to k Ended (enqueue i o)) else None
  | RetryCancelled k =>
    '(c, i) ← coroutine_at k o;
    if bool_decide (r_position c = Putting) && r_cancelled c then Some (move_to k Ended o) else None
  | Forget k =>
    c ← od_get k (coroutines o);
    if bool_decide (r_position c = Ended) then Some (_forget_task k (r_task c) o) else None
  | StopBegin => Some (stop_begin o)
  | StopEnd j =>
    ks ← stop_waits o !! j;
    if forallb (fun k => has_ended k o) ks then Some (stop_end j o) else None
  end.

Fixpoint run (evs : list event) o : option TaskOrchestrator :=
  match evs with
  | [] => Some o
  | ev :: evs => o' ← step ev o; run evs o'
  end.
End Orchestrator.
Arguments TaskOrchestrator : clear implicits.
Arguments TaskItem : clear implicits.
Arguments future : clear implicits.
Arguments event : clear implicits.
Arguments call_end : clear implicits.
