(* ===== verification/TaskProps.v ===== *)
(** The task orchestrator's theorems: where a task can be, how often it runs, in
    what order tasks are picked, that they all end, and what a cancellation
    guarantees. Every segment changes one task, so the invariant and the measure
    are stated task by task. *)
From S2P Require Import Prelude Yaml Heapq TaskOrchestrator.

(** ** Counting *)
Definition count {A} (f : A -> bool) (l : list A) : nat := length (List.filter f l).
Definition one (b : bool) : nat := if b then 1 else 0.

Lemma count_cons {A} (f : A -> bool) x l : count f (x :: l) = (one (f x) + count f l)%nat.
Proof. unfold count. simpl. by destruct (f x). Qed.
Lemma count_app {A} (f : A -> bool) l l' : count f (l ++ l') = (count f l + count f l')%nat.
Proof. unfold count. by rewrite List.filter_app, length_app. Qed.
Lemma count_perm {A} (f : A -> bool) l l' : l ≡ₚ l' -> count f l = count f l'.
Proof. induction 1; rewrite ?count_cons in *; lia. Qed.
Lemma count_pos {A} (f : A -> bool) l : (0 < count f l)%nat <-> exists x, x ∈ l /\ f x = true.
Proof.
  induction l as [|x l IH]; [split; [cbn; lia|by intros (? & ?%elem_of_nil & _)]|]. rewrite count_cons. split.
  - destruct (f x) eqn:E; cbn [one]; intros Hl; [exists x; split; [left|done]|].
    destruct (proj1 IH) as (y & ? & ?); [lia|]. exists y. split; [by right|done].
  - intros (y & [-> | Hy]%elem_of_cons & Hf); [rewrite Hf; cbn; lia|].
    assert (0 < count f l)%nat by (apply IH; eauto). lia.
Qed.

Section Dict.
Context {K W : Type} `{EqDecision K}.
Implicit Types (d : list (K * W)).

Lemma count_od_set (f : K * W -> bool) k v d :
  (count f (od_set k v d) + from_option (fun w => one (f (k, w))) 0 (od_get k d) = count f d + one (f (k, v)))%nat.
Proof.
  induction d as [|[k' w] d IH]; cbn [od_set od_get]; [cbn [from_option]; rewrite count_cons; lia|].
  case_decide as E; [subst; rewrite !count_cons; cbn [from_option]; lia|]. rewrite !count_cons. lia.
Qed.
Lemma count_od_del (f : K * W -> bool) k d :
  (count f (od_del k d) + from_option (fun w => one (f (k, w))) 0 (od_get k d) = count f d)%nat.
Proof.
  induction d as [|[k' w] d IH]; cbn [od_del od_get]; [cbn [from_option]; lia|].
  case_decide as E; [subst; rewrite !count_cons; cbn [from_option]; lia|]. rewrite !count_cons. lia.
Qed.

Lemma elem_od_set k v d x : x ∈ od_set k v d -> x = (k, v) \/ x ∈ d.
Proof.
  induction d as [|[k' w] d IH]; cbn [od_set]; [by intros ?%list_elem_of_singleton; left|].
  case_decide; intros [-> | Hx]%elem_of_cons; [by left|by right; right|right; left|].
  destruct (IH Hx); [by left|by right; right].
Qed.
Lemma elem_od_del k d x : x ∈ od_del k d -> x ∈ d.
Proof. intros Hx. eapply elem_of_sublist; [exact Hx|apply od_del_sublist]. Qed.

(** A sum over the entries of a dictionary; one entry changes. *)
Definition total (f : K -> W -> nat) d : nat := foldr (fun kw n => (f kw.1 kw.2 + n)%nat) 0%nat d.
Lemma total_ext f g d : NoDup (od_keys d) -> (forall k w, od_get k d = Some w -> f k w = g k w) -> total f d = total g d.
Proof.
  induction d as [|[k w] d IH]; cbn [total foldr od_keys fmap list_fmap fst snd]; intros Hnd Hfg; [done|].
  apply NoDup_cons in Hnd as [Hk Hnd]. rewrite (Hfg k w) by (cbn; by rewrite decide_True). f_equal.
  apply IH; [done|]. intros k' w' Hg. apply Hfg. cbn. rewrite decide_False; [done|]. intros ->.
  apply Hk. apply list_elem_of_fmap. exists (k, w'). split; [done|]. by apply od_get_elem.
Qed.
Lemma total_od_set f k w w' d : NoDup (od_keys d) -> od_get k d = Some w -> (total f (od_set k w' d) + f k w = total f d + f k w')%nat.
Proof.
  induction d as [|[k1 w1] d IH]; cbn [od_get od_set od_keys fmap list_fmap fst]; [done|].
  change (od_keys ((k1, w1) :: d)) with (k1 :: od_keys d). intros [_ Hnd]%NoDup_cons. case_decide as E.
  - intros [= ->]. subst. unfold total. cbn [foldr fst snd]. lia.
  - intros Hg. specialize (IH Hnd Hg). unfold total in *. cbn [foldr fst snd]. lia.
Qed.
Lemma total_fresh f k w d : od_get k d = None -> total f (od_set k w d) = (total f d + f k w)%nat.
Proof. intros Hn. rewrite od_set_absent by done. unfold total. rewrite foldr_app. cbn [foldr fst snd]. clear Hn. induction d; cbn [foldr]; lia. Qed.
Lemma total_del f k w d : od_get k d = Some w -> (total f (od_del k d) + f k w = total f d)%nat.
Proof.
  induction d as [|[k1 w1] d IH]; cbn [od_get od_del]; [done|].
  case_decide as E; [intros [= ->]; subst|intros Hg; specialize (IH Hg)]; unfold total in *; cbn [foldr fst snd]; lia.
Qed.
Lemma total_le f g d : (forall k w, f k w <= g k w)%nat -> (total f d <= total g d)%nat.
Proof. intros Hfg. induction d as [|[k w] d IH]; unfold total in *; cbn [foldr fst snd]; [done|]. specialize (Hfg k w). lia. Qed.
End Dict.

Section Props.
Context {V : Type}.
Implicit Types (o : TaskOrchestrator V) (i : TaskItem V) (id : string) (ev : event V).

#[export] Instance entry_order : WeakOrder entry_lt.
Proof.
  split; unfold le, entry_lt.
  - intros x. rewrite Z.eqb_refl. apply fltb_ge. lra.
  - intros x y z. destruct (Z.eqb_spec (e_priority y) (e_priority x)), (Z.eqb_spec (e_priority z) (e_priority y)),
      (Z.eqb_spec (e_priority z) (e_priority x)); rewrite ?fltb_ge, ?Z.ltb_ge; try lia; try lra.
  - intros x y. destruct (Z.eqb_spec (e_priority x) (e_priority y)), (Z.eqb_spec (e_priority y) (e_priority x));
      rewrite ?fltb_lt, ?fltb_ge, ?Z.ltb_lt, ?Z.ltb_ge; try lia; lra.
Qed.

(** ** Where a task is *)
Definition is_task id (x : string) : bool := bool_decide (x = id).
Definition pos_eqb (p q : position) : bool :=
  match p, q with
  | Created, Created | Dispatching, Dispatching | Putting, Putting | Ended, Ended => true
  | _, _ => false
  end.
Definition in_queue o id : nat := count (fun e => is_task id (e_task e)) (_queue o).
Definition in_submit o id : nat := count (is_task id) (submitting o).
Definition at_position (p : position) o id : nat :=
  count (fun kc => pos_eqb (r_position kc.2) p && is_task id (r_task kc.2)) (coroutines o).
(** Its copies that may still run: waiting for a start, and running. *)
Definition waiting o id : nat := (in_queue o id + in_submit o id + at_position Created o id + at_position Putting o id)%nat.
Definition places o id : nat := (waiting o id + at_position Dispatching o id)%nat.

Definition limit i : Z := Z.max 1 (max_retries i).
(** What stands between a task that still waits and its end. *)
Definition excused o id : Prop :=
  stop_waits o ≠ [] \/ id ∈ abandoned o \/ (exists f, od_get id (_results o) = Some f /\ f ≠ Pending).

(** One task's share of the invariant: [n] places, of which [w] waiting. *)
Record task_ok (n : nat) (exc : Prop) i (f : future V) : Prop := {
  tk_once : (n <= 1)%nat;
  tk_retries : 0 <= retries i <= limit i;
  tk_placed : (0 < n)%nat -> retries i < limit i /\ (item_status i = QUEUED \/ item_status i = RUNNING \/ item_status i = CANCELLED);
  tk_waits : item_status i = QUEUED \/ item_status i = RUNNING -> (0 < n)%nat \/ exc;
  tk_failed : item_status i = FAILED <-> retries i = limit i;
  tk_completed : item_status i = COMPLETED -> exists v, item_result i = Some v /\ (f = ResultSet v \/ f = FutureCancelled);
  tk_error : item_status i = FAILED -> (exists msg, f = ExceptionSet msg) \/ f = FutureCancelled;
  tk_result : forall v, f = ResultSet v -> item_status i = COMPLETED;
  tk_raised : forall msg, f = ExceptionSet msg -> item_status i = FAILED;
  tk_never : item_status i ≠ ASSIGNED }.

(** What the tables have in common. *)
Record shape_ok o : Prop := {
  sh_keys : NoDup (od_keys (_tasks o));
  sh_results : od_keys (_results o) = od_keys (_tasks o);
  sh_ids : forall id i, od_get id (_tasks o) = Some i -> task_id i = id;
  sh_heap : is_heap entry_lt (_queue o);
  sh_entries : forall e, e ∈ _queue o -> exists i, od_get (e_task e) (_tasks o) = Some i /\ entry_of i = e;
  sh_submitting : forall id, id ∈ submitting o -> is_Some (od_get id (_tasks o));
  sh_numbers : NoDup (od_keys (coroutines o));
  sh_coroutines : forall k c, od_get k (coroutines o) = Some c ->
    (k < next_coroutine o)%nat /\ is_Some (od_get (r_task c) (_tasks o));
  sh_table : forall id k, (id, k) ∈ _running_tasks o ->
    (k < next_coroutine o)%nat /\ forall c, od_get k (coroutines o) = Some c -> r_task c = id }.

(** A coroutine asked to cancel works for an excused task. *)
Definition cancels_ok o : Prop := forall k c,
  od_get k (coroutines o) = Some c -> r_cancelled c = true -> r_position c ≠ Ended -> excused o (r_task c).
Definition tasks_ok o : Prop := forall id i, od_get id (_tasks o) = Some i ->
  exists f, od_get id (_results o) = Some f /\ task_ok (places o id) (excused o id) i f.
Definition orch_ok o : Prop := shape_ok o /\ cancels_ok o /\ tasks_ok o.

(** ** Each operation on the tables *)
Lemma is_task_true id : is_task id id = true.
Proof. by apply bool_decide_true. Qed.
Lemma is_task_false id x : x ≠ id -> is_task id x = false.
Proof. apply bool_decide_false. Qed.

Lemma in_queue_push o i id : in_queue (enqueue i o) id = (in_queue o id + one (is_task id (task_id i)))%nat.
Proof. unfold in_queue, enqueue. cbn [_queue with_queue]. rewrite (count_perm _ _ _ (heappush_perm entry_lt _ _)), count_cons. cbn [e_task entry_of]. lia. Qed.
Lemma in_queue_pop o e q id : is_heap entry_lt (_queue o) -> heappop entry_lt (_queue o) = Some (e, q) ->
  in_queue o id = (in_queue (with_queue q o) id + one (is_task id (e_task e)))%nat.
Proof.
  intros Hh Hp. destruct (heappop_some _ _ _ _ Hh Hp) as (_ & Hperm & _). unfold in_queue. cbn [_queue with_queue].
  rewrite (count_perm _ _ _ Hperm), count_cons. lia.
Qed.

Lemma at_position_set k p o c q id : od_get k (coroutines o) = Some c ->
  (at_position q (move_to k p o) id + one (pos_eqb (r_position c) q && is_task id (r_task c))
   = at_position q o id + one (pos_eqb p q && is_task id (r_task c)))%nat.
Proof.
  intros Hc. unfold move_to. rewrite Hc. unfold at_position. cbn [coroutines with_coroutines].
  pose proof (count_od_set (fun kc => pos_eqb (r_position kc.2) q && is_task id (r_task kc.2)) k
    (mkRun (r_task c) (r_agent c) p (r_cancelled c)) (coroutines o)) as E. rewrite Hc in E. exact E.
Qed.
Lemma at_position_create id' agent o q id : shape_ok o ->
  at_position q (create_task id' agent o) id = (at_position q o id + one (pos_eqb Created q && is_task id id'))%nat.
Proof.
  intros Hs. unfold at_position. cbn [coroutines create_task].
  pose proof (count_od_set (fun kc => pos_eqb (r_position kc.2) q && is_task id (r_task kc.2)) (next_coroutine o)
    (mkRun id' agent Created false) (coroutines o)) as E.
  destruct (od_get (next_coroutine o) (coroutines o)) as [c|] eqn:Ec; [apply Hs in Ec as [? _]; lia|]. cbn [from_option] in E.
  cbn [snd r_position r_task] in E. lia.
Qed.
Lemma at_position_cancel k o q id : at_position q (request_cancel k o) id = at_position q o id.
Proof.
  unfold request_cancel. destruct (od_get k (coroutines o)) as [c|] eqn:Ec; [|done]. case_decide; [done|].
  unfold at_position. cbn [coroutines with_coroutines].
  pose proof (count_od_set (fun kc => pos_eqb (r_position kc.2) q && is_task id (r_task kc.2)) k
    (mkRun (r_task c) (r_agent c) (r_position c) true) (coroutines o)) as E. rewrite Ec in E. cbn in E. lia.
Qed.
Lemma at_position_forget k c o q id : od_get k (coroutines o) = Some c -> r_position c = Ended -> q ≠ Ended ->
  at_position q (_forget_task k (r_task c) o) id = at_position q o id.
Proof.
  intros Hc He Hq. unfold at_position. cbn [coroutines _forget_task with_coroutines].
  pose proof (count_od_del (fun kc => pos_eqb (r_position kc.2) q && is_task id (r_task kc.2)) k (coroutines o)) as E.
  rewrite Hc in E. cbn [from_option snd] in E. rewrite He in E. destruct q; cbn in E; try done; lia.
Qed.

Lemma count_remove_first id l id' : count (is_task id') (remove_first id l) = (count (is_task id') l - one (bool_decide (id ∈ l) && is_task id' id))%nat.
Proof.
  induction l as [|x l IH]; [done|]. cbn [remove_first]. destruct (decide (x = id)) as [E|E].
  - rewrite (bool_decide_true (id ∈ x :: l)) by (subst; left). subst. rewrite count_cons. cbn [andb]. lia.
  - rewrite !count_cons, IH. rewrite (bool_decide_ext (id ∈ x :: l) (id ∈ l)) by (rewrite elem_of_cons; split; [intros [?|?]; congruence|by right]).
    destruct (decide (id ∈ l)) as [Hin|Hin]; [|rewrite bool_decide_false by done; cbn; lia].
    rewrite bool_decide_true by done. cbn [andb]. destruct (is_task id' id) eqn:Ei; cbn [one]; [|lia].
    assert (0 < count (is_task id') l)%nat; [|lia]. apply count_pos. by exists id.
Qed.
Lemma remove_first_sub id l x : x ∈ remove_first id l -> x ∈ l.
Proof.
  induction l as [|y l IH]; cbn [remove_first]; [done|]. case_decide; intros Hx; [by right|].
  apply elem_of_cons in Hx as [-> | Hx]; [left|right; auto].
Qed.

Definition settled_with (f g : future V) : future V := match g with Pending => f | g => g end.
Lemma od_get_settle id f o id' : od_get id' (_results (settle_future id f o)) =
  if decide (id' = id) then settled_with f <$> od_get id (_results o) else od_get id' (_results o).
Proof.
  unfold settle_future. destruct (od_get id (_results o)) as [[]|] eqn:E.
  1: by cbn [_results with_results]; rewrite od_get_set.
  all: case_decide as Ed; [by rewrite Ed, E|done].
Qed.

(** The shape survives them. *)
Lemma sh_set_item o i i' : shape_ok o -> od_get (task_id i) (_tasks o) = Some i -> entry_of i' = entry_of i -> shape_ok (set_item i' o).
Proof.
  intros Hs Hi He. assert (Hid : task_id i' = task_id i) by (by injection He). destruct Hs as [K R I H E S N C T].
  split; cbn [set_item with_tasks _tasks _results _queue submitting coroutines next_coroutine]; try done.
  - by apply NoDup_od_set.
  - rewrite R, Hid. symmetry. apply (od_keys_set_present _ _ _ _ Hi).
  - intros id j. rewrite od_get_set. case_decide as E1; [intros [= <-]; congruence|apply I].
  - intros e He'. destruct (E e He') as (j & Hj & Hej). rewrite od_get_set. case_decide as E1; [|by exists j].
    rewrite E1, Hid, Hi in Hj. injection Hj as <-. exists i'. split; [done|congruence].
  - intros id Hid'. rewrite od_get_set. destruct (decide (id = task_id i')); [by eexists|by apply S].
  - intros k c Hc. destruct (C k c Hc). split; [done|]. rewrite od_get_set. destruct (decide (r_task c = task_id i')); [by eexists|done].
Qed.

Lemma sh_settle o id f : shape_ok o -> shape_ok (settle_future id f o).
Proof.
  intros Hs. unfold settle_future. destruct (od_get id (_results o)) as [[]|] eqn:E; try done.
  destruct Hs. split; try done. cbn [_results with_results _tasks]. by rewrite (od_keys_set_present _ _ _ _ E).
Qed.

Lemma sh_enqueue o i : shape_ok o -> od_get (task_id i) (_tasks o) = Some i -> shape_ok (enqueue i o).
Proof.
  intros [] Hi. split; cbn [enqueue with_queue _queue _tasks _results submitting coroutines next_coroutine _running_tasks]; try done.
  - by apply heappush_heap; [apply entry_order|].
  - intros e He. rewrite (heappush_perm entry_lt) in He. apply elem_of_cons in He as [->|He]; [by exists i|by apply sh_entries0].
Qed.

Lemma sh_pop o e q : shape_ok o -> heappop entry_lt (_queue o) = Some (e, q) -> shape_ok (with_queue q o).
Proof.
  intros Hs Hp. destruct (heappop_some _ _ _ _ (sh_heap _ Hs) Hp) as (Hq & Hperm & _). destruct Hs.
  split; cbn [with_queue _queue _tasks _results submitting coroutines next_coroutine _running_tasks]; try done.
  intros e' He'. apply sh_entries0. rewrite Hperm. by right.
Qed.

Lemma sh_coroutine_set o k c c' : shape_ok o -> od_get k (coroutines o) = Some c -> r_task c' = r_task c ->
  shape_ok (with_coroutines (od_set k c' (coroutines o)) o).
Proof.
  intros [] Hc Ht. split; cbn [with_coroutines _queue _tasks _results submitting coroutines next_coroutine _running_tasks]; try done.
  - by apply NoDup_od_set.
  - intros k' c1. rewrite od_get_set. case_decide as E; [intros [= <-]; subst; rewrite Ht; by apply sh_coroutines0|apply sh_coroutines0].
  - intros id k1 H1. destruct (sh_table0 id k1 H1) as [? Hr]. split; [done|]. intros c1. rewrite od_get_set.
    case_decide; [intros [= <-]; subst; rewrite Ht; auto|apply Hr].
Qed.
Lemma sh_position o k p : shape_ok o -> shape_ok (move_to k p o).
Proof. intros Hs. unfold move_to. destruct (od_get k _) eqn:E; [|done]. by eapply sh_coroutine_set. Qed.
Lemma sh_cancel o k : shape_ok o -> shape_ok (request_cancel k o).
Proof. intros Hs. unfold request_cancel. destruct (od_get k _) eqn:E; [|done]. case_decide; [done|]. by eapply sh_coroutine_set. Qed.

Lemma sh_create o id agent : shape_ok o -> is_Some (od_get id (_tasks o)) -> shape_ok (create_task id agent o).
Proof.
  intros [] Hid. split; cbn [create_task _queue _tasks _results submitting coroutines next_coroutine _running_tasks]; try done.
  - by apply NoDup_od_set.
  - intros k c. rewrite od_get_set. case_decide as E; [intros [= <-]; subst; split; [lia|done]|].
    intros Hc. destruct (sh_coroutines0 k c Hc). split; [lia|done].
  - intros id1 k Hin. apply elem_od_set in Hin as [[= -> ->]|Hin].
    + split; [lia|]. intros c. rewrite od_get_set_eq. by intros [= <-].
    + destruct (sh_table0 id1 k Hin) as [? Hr]. split; [lia|]. intros c. rewrite od_get_set_ne by lia. apply Hr.
Qed.

Lemma sh_forget o k id : shape_ok o -> shape_ok (_forget_task k id o).
Proof.
  intros []. split; cbn [_forget_task with_coroutines with_table _queue _tasks _results submitting coroutines next_coroutine _running_tasks]; try done.
  - by apply NoDup_od_del.
  - intros k' c Hc. apply (sh_coroutines0 k'). by eapply od_get_del_some_any.
  - intros id1 k1 Hin. destruct (sh_table0 id1 k1) as [? Hr]; [by eapply elem_od_del|]. split; [done|].
    intros c Hc. apply Hr. by eapply od_get_del_some_any.
Qed.

(** ** Segments *)
Definition live (p : position) : bool := negb (pos_eqb p Ended).

Lemma places_position k p o c id : od_get k (coroutines o) = Some c ->
  (places (move_to k p o) id + one (live (r_position c) && is_task id (r_task c))
   = places o id + one (live p && is_task id (r_task c)))%nat.
Proof.
  intros Hc. unfold places, waiting.
  assert (Q : in_queue (move_to k p o) id = in_queue o id /\ in_submit (move_to k p o) id = in_submit o id)
    by (unfold move_to; by rewrite Hc).
  destruct Q as [-> ->].
  pose proof (at_position_set k p o c Created id Hc). pose proof (at_position_set k p o c Putting id Hc).
  pose proof (at_position_set k p o c Dispatching id Hc).
  destruct (is_task id (r_task c)), (r_position c), p; cbn -[at_position in_queue in_submit] in *; lia.
Qed.
Lemma places_push o i id : places (enqueue i o) id = (places o id + one (is_task id (task_id i)))%nat.
Proof.
  unfold places, waiting. rewrite in_queue_push.
  change (in_submit (enqueue i o) id) with (in_submit o id).
  change (at_position Created (enqueue i o) id) with (at_position Created o id).
  change (at_position Putting (enqueue i o) id) with (at_position Putting o id).
  change (at_position Dispatching (enqueue i o) id) with (at_position Dispatching o id). lia.
Qed.

Lemma settle_tables id f o : _tasks (settle_future id f o) = _tasks o /\ coroutines (settle_future id f o) = coroutines o /\
  _queue (settle_future id f o) = _queue o /\ submitting (settle_future id f o) = submitting o /\
  abandoned (settle_future id f o) = abandoned o /\ stop_waits (settle_future id f o) = stop_waits o.
Proof. unfold settle_future. by destruct (od_get id (_results o)) as [[]|]. Qed.
Lemma places_settle id f o x : places (settle_future id f o) x = places o x.
Proof.
  destruct (settle_tables id f o) as (_ & C & Q & S & _). unfold places, waiting, in_queue, in_submit, at_position. by rewrite C, Q, S.
Qed.

Lemma position_tables k p o : _tasks (move_to k p o) = _tasks o /\ _results (move_to k p o) = _results o /\
  abandoned (move_to k p o) = abandoned o /\ stop_waits (move_to k p o) = stop_waits o /\
  _queue (move_to k p o) = _queue o.
Proof. unfold move_to. by destruct (od_get k (coroutines o)). Qed.
Lemma position_coroutines k p o o1 : coroutines o1 = coroutines o -> coroutines (move_to k p o1) = coroutines (move_to k p o).
Proof. intros E. unfold move_to. rewrite E. by destruct (od_get k (coroutines o)). Qed.
Lemma cancel_tables k o : _tasks (request_cancel k o) = _tasks o /\ _results (request_cancel k o) = _results o /\
  abandoned (request_cancel k o) = abandoned o /\ stop_waits (request_cancel k o) = stop_waits o /\
  _queue (request_cancel k o) = _queue o /\ submitting (request_cancel k o) = submitting o.
Proof. unfold request_cancel. destruct (od_get k (coroutines o)); [|done]. by case_decide. Qed.
Lemma places_cancel k o x : places (request_cancel k o) x = places o x.
Proof.
  destruct (cancel_tables k o) as (_ & _ & _ & _ & Q & S). unfold places, waiting. rewrite !at_position_cancel.
  unfold in_queue, in_submit. by rewrite Q, S.
Qed.

(** Excuses stay. *)
Lemma excused_mono o o' id :
  (stop_waits o ≠ [] -> stop_waits o' ≠ []) -> (id ∈ abandoned o -> id ∈ abandoned o') ->
  (forall f, od_get id (_results o) = Some f -> f ≠ Pending -> exists f', od_get id (_results o') = Some f' /\ f' ≠ Pending) ->
  excused o id -> excused o' id.
Proof. intros H1 H2 H3 [?|[?|(f & ? & ?)]]; [left; auto|right; left; auto|right; right; eauto]. Qed.
Lemma excused_same o o' id : stop_waits o' = stop_waits o -> abandoned o' = abandoned o -> _results o' = _results o ->
  excused o id -> excused o' id.
Proof. unfold excused. by intros -> -> ->. Qed.
Lemma excused_settle o id f x : f ≠ Pending -> excused o x -> excused (settle_future id f o) x.
Proof.
  intros Hf. destruct (settle_tables id f o) as (_ & _ & _ & _ & A & S).
  apply excused_mono; [by rewrite S|by rewrite A|]. intros g Hg Hn. rewrite od_get_settle. case_decide as E; [|by exists g].
  subst. rewrite Hg. exists (settled_with f g). split; [done|]. by destruct g.
Qed.

Lemma task_ok_weaken n (P Q : Prop) i f : (P -> Q) -> task_ok n P i f -> task_ok n Q i f.
Proof. intros HPQ []. split; try done. intros Hs. destruct (tk_waits0 Hs); auto. Qed.

(** One task changes. *)
Lemma tasks_frame o o' id : tasks_ok o ->
  (forall x, x ≠ id -> od_get x (_tasks o') = od_get x (_tasks o) /\ od_get x (_results o') = od_get x (_results o) /\
                       places o' x = places o x) ->
  (forall x, excused o x -> excused o' x) ->
  (forall i, od_get id (_tasks o') = Some i ->
     exists f, od_get id (_results o') = Some f /\ task_ok (places o' id) (excused o' id) i f) ->
  tasks_ok o'.
Proof.
  intros Ht Hother Hexc Hid x i Hi. destruct (decide (x = id)) as [->|Hne]; [auto|].
  destruct (Hother x Hne) as (E1 & E2 & E3). rewrite E1 in Hi. rewrite E2, E3.
  destruct (Ht x i Hi) as (f & Hf & Hok). exists f. split; [done|]. by eapply task_ok_weaken; [apply Hexc|].
Qed.

(** Flags stay on, positions only end. *)
Lemma cancels_frame o o' : cancels_ok o -> (forall x, excused o x -> excused o' x) ->
  (forall k c', od_get k (coroutines o') = Some c' -> r_cancelled c' = true -> r_position c' ≠ Ended ->
     excused o' (r_task c') \/ exists c, od_get k (coroutines o) = Some c /\ r_task c = r_task c' /\ r_cancelled c = true /\ r_position c ≠ Ended) ->
  cancels_ok o'.
Proof.
  intros Hc Hexc Hfr k c' Hk Hx He. destruct (Hfr k c' Hk Hx He) as [|(c & Hkc & <- & Hx' & He')]; [done|].
  apply Hexc. by eapply Hc.
Qed.
Lemma cancels_position o o' k p c : cancels_ok o -> (forall x, excused o x -> excused o' x) ->
  od_get k (coroutines o) = Some c -> (p ≠ Ended -> r_position c ≠ Ended) -> coroutines o' = coroutines (move_to k p o) -> cancels_ok o'.
Proof.
  intros Hc Hexc Hk Hp E. apply (cancels_frame o o' Hc Hexc). rewrite E. unfold move_to. rewrite Hk. cbn [coroutines with_coroutines].
  intros k' c'. rewrite od_get_set. case_decide as Ek; [|eauto 6]. intros [= <-]. cbn. intros Hx He. right. subst. eauto 6.
Qed.

Lemma coroutine_at_some k o c i : coroutine_at k o = Some (c, i) ->
  od_get k (coroutines o) = Some c /\ od_get (r_task c) (_tasks o) = Some i.
Proof. unfold coroutine_at. destruct (od_get k _) as [c'|]; [|done]. cbn. destruct (od_get (r_task c') _) eqn:E; [|done]. cbn. by intros [= <- <-]. Qed.

Lemma limit_pos i : 0 < limit i.
Proof. unfold limit. lia. Qed.

(** A task nobody knows is nowhere. *)
Lemma places_unknown o id : shape_ok o -> od_get id (_tasks o) = None -> places o id = 0%nat /\ od_get id (_results o) = None.
Proof.
  intros Hs Hn. assert (N : ~ is_Some (od_get id (_tasks o))) by (rewrite Hn; by intros [? ?]).
  split; [|apply od_get_None; rewrite (sh_results _ Hs); by apply od_get_None].
  assert (Z : forall {A} (f : A -> bool) l, (forall x, x ∈ l -> f x = false) -> count f l = 0%nat).
  { intros A f l Hf. destruct (count f l) eqn:E; [done|]. destruct (proj1 (count_pos f l)) as (x & Hx & Hfx); [lia|].
    rewrite Hf in Hfx; done. }
  unfold places, waiting, in_queue, in_submit, at_position. rewrite !Z; [done|..].
  1-3: (intros [k c] Hin; cbn [snd]; destruct (is_task id (r_task c)) eqn:E; [|by rewrite andb_false_r]; exfalso;
        apply bool_decide_eq_true in E; apply elem_od_get in Hin; [|apply Hs]; apply (sh_coroutines _ Hs) in Hin as [_ Hin]; by rewrite E in Hin).
  - intros x Hx. apply is_task_false. intros ->. by apply (sh_submitting _ Hs) in Hx.
  - intros e He. apply is_task_false. intros E. destruct (sh_entries _ Hs e He) as (i & Hi & _). rewrite E in Hi. congruence.
Qed.

Lemma places_submitting l o id : (places (with_submitting l o) id + in_submit o id = places o id + count (is_task id) l)%nat.
Proof.
  unfold places, waiting. change (in_submit (with_submitting l o) id) with (count (is_task id) l).
  change (in_queue (with_submitting l o) id) with (in_queue o id).
  change (at_position Created (with_submitting l o) id) with (at_position Created o id).
  change (at_position Putting (with_submitting l o) id) with (at_position Putting o id).
  change (at_position Dispatching (with_submitting l o) id) with (at_position Dispatching o id). lia.
Qed.

Lemma submit_ok o i : orch_ok o -> fresh_item i o = true -> orch_ok (submit i o).
Proof.
  intros (Hs & Hc & Ht) Hf. unfold fresh_item in Hf. apply andb_true_iff in Hf as [Hf1 Hf2].
  apply bool_decide_eq_true in Hf1 as [Hr Hq]. unfold od_mem in Hf2. destruct (od_get (task_id i) (_tasks o)) eqn:En; [done|].
  destruct (places_unknown _ _ Hs En) as [Hp Hn]. unfold submit. set (id := task_id i) in *.
  set (o1 := with_results _ _).
  assert (Hs1 : shape_ok o1).
  { destruct Hs as [K R I Hh E S N C T]. split; cbn [o1 set_item with_results with_tasks _tasks _results _queue submitting coroutines next_coroutine]; try done.
    - by apply NoDup_od_set.
    - rewrite !od_keys_set, R. done.
    - intros id' i'. rewrite od_get_set. case_decide as Ed; [intros [= <-]; by subst|apply I].
    - intros e He. destruct (E e He) as (j & Hj & ?). exists j. split; [|done]. rewrite od_get_set_ne; [done|]. intros Ed. fold id in Ed. congruence.
    - intros id' Hid'. rewrite od_get_set. destruct (decide (id' = task_id i)); [by eexists|by apply S].
    - intros k c Hkc. destruct (C k c Hkc). split; [done|]. rewrite od_get_set. destruct (decide (r_task c = task_id i)); [by eexists|done]. }
  assert (Hexc : forall x, excused o x -> excused o1 x).
  { intros x. apply excused_mono; try done. intros f Hg Hne. cbn [o1 with_results _results]. rewrite od_get_set_ne; [by exists f|].
    intros Ed. subst x. unfold id in *. congruence. }
  assert (Hid1 : od_get id (_tasks o1) = Some i) by apply od_get_set_eq.
  assert (Hgo : forall o', shape_ok o' -> _tasks o' = _tasks o1 -> _results o' = _results o1 -> coroutines o' = coroutines o ->
             abandoned o' = abandoned o1 -> stop_waits o' = stop_waits o1 ->
             (forall x, places o' x = places o x + one (is_task x id))%nat -> orch_ok o').
  { intros o' Hs' T R C A W P. assert (Hexc' : forall x, excused o x -> excused o' x) by (intros x Hx; apply (excused_same o1); auto).
    split; [done|split].
    - apply (cancels_frame o o' Hc Hexc'). rewrite C. eauto 6.
    - apply (tasks_frame o o' id Ht); [|done|].
      + intros x Hx. rewrite T, R, P, is_task_false by done. cbn [o1 set_item with_results with_tasks _tasks _results].
        rewrite !od_get_set_ne by done. split_and!; done || (cbn; lia).
      + intros j Hj. rewrite T, Hid1 in Hj. injection Hj as <-. exists Pending. rewrite R. split; [apply od_get_set_eq|].
        rewrite P, Hp, is_task_true. pose proof (limit_pos i).
        split; rewrite ?Hr, ?Hq; try done; try lia; [intros _; by split; [lia|left]|intros _; left; cbn; lia|split; [done|lia]]. }
  destruct (queue_full o1).
  - apply Hgo; try done.
    + destruct Hs1. split; try done. intros x Hx. cbn [submitting with_submitting] in Hx. apply elem_of_app in Hx as [Hx|Hx]; [by apply sh_submitting0|].
      apply list_elem_of_singleton in Hx as ->. by eexists.
    + intros x. pose proof (places_submitting (submitting o1 ++ [id]) o1 x) as E. rewrite count_app, count_cons in E.
      change (places o1 x) with (places o x) in E. change (in_submit o1 x) with (count (is_task x) (submitting o1)) in E.
      change (count (is_task x) []) with 0%nat in E. lia.
  - apply Hgo; try done; [by apply sh_enqueue|]. intros x. rewrite places_push. done.
Qed.

(** A segment that works on one known task. *)
Lemma segment_ok o o' id i : orch_ok o -> od_get id (_tasks o) = Some i ->
  shape_ok o' -> cancels_ok o' -> (forall x, excused o x -> excused o' x) ->
  (forall x, x ≠ id -> od_get x (_tasks o') = od_get x (_tasks o) /\ od_get x (_results o') = od_get x (_results o) /\
                       places o' x = places o x) ->
  (forall f, od_get id (_results o) = Some f -> task_ok (places o id) (excused o id) i f ->
     exists i' f', od_get id (_tasks o') = Some i' /\ od_get id (_results o') = Some f' /\
       task_ok (places o' id) (excused o' id) i' f') ->
  orch_ok o'.
Proof.
  intros (_ & _ & Ht) Hi Hs' Hc' Hexc Hother Hid. split; [done|split; [done|]].
  apply (tasks_frame o o' id Ht Hother Hexc). intros j Hj. destruct (Ht id i Hi) as (f & Hf & Hok).
  destruct (Hid f Hf Hok) as (i' & f' & Hi' & Hf' & Hok'). rewrite Hj in Hi'. injection Hi' as <-. by exists f'.
Qed.

(** A copy leaves, its task being excused. *)
Lemma task_ok_leave n n' (P Q : Prop) i f : (n' <= n)%nat -> Q -> task_ok n P i f -> task_ok n' Q i f.
Proof. intros Hn HQ []. split; try done; [lia|intros; apply tk_placed0; lia|by right]. Qed.
Lemma task_ok_cancelled n n' (P Q : Prop) i f : (n' <= n)%nat -> item_status i = CANCELLED -> task_ok n P i f -> task_ok n' Q i f.
Proof. intros Hn Hi []. split; try done; [lia|intros; apply tk_placed0; lia|rewrite Hi; by intros [?|?]]. Qed.

(** A place changes, a status or a future too: what is left to check. *)
Lemma task_ok_here n m (P Q : Prop) i i' f f' :
  task_ok n P i f -> (0 < n)%nat -> (m <= 1)%nat -> retries i' = retries i -> max_retries i' = max_retries i ->
  ((0 < m)%nat /\ (item_status i' = QUEUED \/ item_status i' = RUNNING \/ item_status i' = CANCELLED) /\ f' = f \/
   m = 0%nat /\ item_status i' = CANCELLED /\ (f' = f \/ f' = FutureCancelled) \/
   m = 0%nat /\ item_status i' = COMPLETED /\ exists v, item_result i' = Some v /\ f' = settled_with (ResultSet v) f) ->
  task_ok m Q i' f'.
Proof.
  intros [] Hn Hm Hr Hmx Hcase. destruct (tk_placed0 Hn) as [Hlt Hst].
  assert (Hlim : limit i' = limit i) by (unfold limit; by rewrite Hmx).
  assert (Hf : (forall v, f ≠ ResultSet v) /\ (forall msg, f ≠ ExceptionSet msg)).
  { split; [intros v ->; specialize (tk_result0 v eq_refl)|intros msg ->; specialize (tk_raised0 msg eq_refl)];
      destruct Hst as [E|[E|E]]; congruence. }
  destruct Hf as [Hf1 Hf2].
  assert (Hfail : item_status i' ≠ FAILED /\ item_status i' ≠ ASSIGNED)
    by (destruct Hcase as [(_ & [->|[->| ->]] & _)|[(_ & -> & _)|(_ & -> & _)]]; done).
  destruct Hfail as [Hfail Hass]. split; rewrite ?Hr, ?Hlim; try done.
  - intros Hpos. destruct Hcase as [(_ & ? & _)|[(? & _)|(? & _)]]; [done|lia|lia].
  - intros Hs. destruct Hcase as [(? & _)|[(_ & E & _)|(_ & E & _)]]; [by left|rewrite E in Hs; by destruct Hs..].
  - split; [done|lia].
  - intros E. destruct Hcase as [(_ & Hs & _)|[(_ & Hs & _)|(_ & _ & v & Hv & ->)]];
      [rewrite E in Hs; naive_solver|congruence|]. exists v. split; [done|]. destruct f; [by left|naive_solver|naive_solver|by right].
  - intros v E. destruct Hcase as [(_ & _ & ->)|[(_ & _ & [-> | ->])|(_ & ? & _)]]; [naive_solver|naive_solver|done|done].
  - intros msg E. destruct Hcase as [(_ & _ & ->)|[(_ & _ & [-> | ->])|(_ & _ & v & _ & ->)]]; [naive_solver|naive_solver|done|].
    destruct f; naive_solver.
Qed.

Lemma task_ok_cancel_now n (P Q : Prop) i f : item_status i ≠ COMPLETED -> item_status i ≠ FAILED ->
  task_ok n P i f -> task_ok n Q (set_status CANCELLED i) (settled_with FutureCancelled f).
Proof.
  intros H1 H2 []. split; cbn [set_status item_status retries]; try done.
  - intros Hn. split; [by apply tk_placed0|auto].
  - by intros [?|?].
  - split; [done|]. intros E. exfalso. by apply H2, tk_failed0.
  - intros v. destruct f; cbn [settled_with]; try done. intros _. exfalso. by apply H1, (tk_result0 v0).
  - intros msg. destruct f; cbn [settled_with]; try done. intros _. exfalso. by eapply H2, tk_raised0.
Qed.

Lemma submit_room_ok o id i : orch_ok o -> od_get id (_tasks o) = Some i -> id ∈ submitting o ->
  orch_ok (enqueue i (with_submitting (remove_first id (submitting o)) o)).
Proof.
  intros Hok Hi Hin. pose proof Hok as (Hs & Hc & _). pose proof (sh_ids _ Hs _ _ Hi) as Hid.
  assert (P : forall x, places (enqueue i (with_submitting (remove_first id (submitting o)) o)) x = places o x).
  { intros x. rewrite places_push, Hid. pose proof (places_submitting (remove_first id (submitting o)) o x) as E.
    rewrite count_remove_first, bool_decide_true in E by done. cbn [andb] in E. unfold in_submit in E.
    destruct (is_task x id) eqn:Ex; cbn [one] in *; [|lia]. assert (0 < count (is_task x) (submitting o))%nat; [|lia].
    apply count_pos. eauto. }
  apply (segment_ok o _ id i Hok Hi); try done.
  - apply sh_enqueue; [|by rewrite Hid]. destruct Hs. split; try done. intros x Hx. apply sh_submitting0. exact (remove_first_sub _ _ _ Hx).
  - intros f Hf Ht. exists i, f. rewrite P. done.
Qed.

Lemma submit_abandon_ok o id i : orch_ok o -> od_get id (_tasks o) = Some i -> id ∈ submitting o ->
  orch_ok (mkOrch (_queue o) (_tasks o) (_results o) (_running_tasks o) (_running o) (coroutines o) (next_coroutine o)
             (remove_first id (submitting o)) (id :: abandoned o) (stop_waits o)).
Proof.
  intros Hok Hi Hin. pose proof Hok as (Hs & Hc & _). set (o' := mkOrch _ _ _ _ _ _ _ _ _ _).
  assert (P : forall x, places o' x = (places o x - one (is_task x id))%nat /\ (is_task x id = true -> 0 < places o x)%nat).
  { intros x. pose proof (places_submitting (remove_first id (submitting o)) o x) as E.
    change (places (with_submitting _ o) x) with (places o' x) in E.
    rewrite count_remove_first, bool_decide_true in E by done. cbn [andb] in E.
    assert (in_submit o x <= places o x)%nat by (unfold places, waiting; lia). unfold in_submit in *.
    destruct (is_task x id) eqn:Ex; cbn [one] in *; [|split; [lia|done]]. assert (0 < count (is_task x) (submitting o))%nat; [|lia].
    apply count_pos. eauto. }
  assert (Hexc : forall x, excused o x -> excused o' x) by (intros x; apply excused_mono; [done|intros; by right|eauto]).
  apply (segment_ok o _ id i Hok Hi); try done.
  - destruct Hs. split; try done. intros x Hx. apply sh_submitting0. exact (remove_first_sub _ _ _ Hx).
  - apply (cancels_frame o o' Hc Hexc). eauto 6.
  - intros x Hx. split; [done|split; [done|]]. rewrite (proj1 (P x)), is_task_false by done. cbn; lia.
  - intros f Hf Ht. exists i, f. split; [done|split; [done|]]. eapply task_ok_leave; [|right; left; left|exact Ht].
    rewrite (proj1 (P id)). lia.
Qed.

Lemma cancel_ok o id : orch_ok o -> orch_ok (cancel id o).2.
Proof.
  intros Hok. pose proof Hok as (Hs & Hc & Ht). unfold cancel. destruct (od_get id (_tasks o)) as [i|] eqn:Hi; [|done].
  pose proof (sh_ids _ Hs _ _ Hi) as Hid. unfold is_status.
  destruct (bool_decide (item_status i = COMPLETED) || _) eqn:Hst; [done|]. cbn [snd].
  apply orb_false_iff in Hst as [Hst1%bool_decide_eq_false Hst2%bool_decide_eq_false].
  set (o1 := set_item (set_status CANCELLED i) o).
  set (o2 := match od_get id (_running_tasks o1) with Some k => request_cancel k o1 | None => o1 end).
  assert (Hs1 : shape_ok o1) by (apply (sh_set_item o i); [done|by rewrite <- Hid in Hi|done]).
  assert (T2 : shape_ok o2 /\ _tasks o2 = _tasks o1 /\ _results o2 = _results o /\ abandoned o2 = abandoned o /\
            stop_waits o2 = stop_waits o /\ (forall x, places o2 x = places o x) /\
            forall k c', od_get k (coroutines o2) = Some c' -> exists c, od_get k (coroutines o) = Some c /\
              r_task c = r_task c' /\ r_position c = r_position c' /\ (r_cancelled c' = r_cancelled c \/ Some k = od_get id (_running_tasks o1))).
  { unfold o2. destruct (od_get id (_running_tasks o1)) as [k|] eqn:Ek; [|eauto 20].
    destruct (cancel_tables k o1) as (E1 & E2 & E3 & E4 & _). rewrite E1, E2, E3, E4. split_and!; try done.
    - by apply sh_cancel.
    - intros x. by rewrite places_cancel.
    - intros k' c'. unfold request_cancel. destruct (od_get k (coroutines o1)) as [c|] eqn:Ec; [|eauto 10]. case_decide; [eauto 10|].
      cbn [coroutines with_coroutines]. rewrite od_get_set. case_decide as Ed; [|eauto 10]. intros [= <-]. subst. exists c. eauto. }
  destruct T2 as (Hs2 & T2 & R2 & A2 & W2 & P2 & C2).
  destruct (settle_tables id FutureCancelled o2) as (T3 & C3 & _ & _ & A3 & W3).
  assert (Hexc : forall x, excused o x -> excused (settle_future id FutureCancelled o2) x).
  { intros x Hx. apply excused_settle; [done|]. by apply (excused_same o). }
  assert (Hhere : forall f, od_get id (_results o) = Some f -> excused (settle_future id FutureCancelled o2) id).
  { intros f Hf. right; right. rewrite od_get_settle, decide_True, R2, Hf by done. eexists. split; [done|]. by destruct f. }
  destruct (Ht id i Hi) as (f0 & Hf0 & _).
  apply (segment_ok o _ id i Hok Hi); try done.
  - by apply sh_settle.
  - apply (cancels_frame o _ Hc Hexc). rewrite C3. intros k c' Hk Hx He. destruct (C2 k c' Hk) as (c & Hkc & E1 & E2 & E3).
    destruct E3 as [E3|E3]; [right; exists c; split_and!; congruence|]. left.
    assert (r_task c = id) as <- by (apply (sh_table _ Hs id k); [by apply od_get_elem|done]). rewrite <- E1. eauto.
  - intros x Hx. rewrite T3, T2, places_settle, P2, od_get_settle, decide_False, R2 by done.
    cbn [o1 set_item with_tasks _tasks]. rewrite od_get_set_ne; [done|]. cbn [set_status task_id]. congruence.
  - intros f Hf Htk. rewrite T3, T2. exists (set_status CANCELLED i), (settled_with FutureCancelled f).
    rewrite od_get_settle, decide_True, R2, Hf by done. split; [rewrite <- Hid; apply od_get_set_eq|]. split; [done|].
    rewrite places_settle, P2. by apply (task_ok_cancel_now _ (excused o id)).
Qed.

Lemma places_queue o q id : (places (with_queue q o) id + in_queue o id = places o id + count (fun e => is_task id (e_task e)) q)%nat.
Proof.
  unfold places, waiting. change (in_queue (with_queue q o) id) with (count (fun e => is_task id (e_task e)) q).
  change (in_submit (with_queue q o) id) with (in_submit o id).
  change (at_position Created (with_queue q o) id) with (at_position Created o id).
  change (at_position Putting (with_queue q o) id) with (at_position Putting o id).
  change (at_position Dispatching (with_queue q o) id) with (at_position Dispatching o id). lia.
Qed.
Lemma places_pop o e q id : shape_ok o -> heappop entry_lt (_queue o) = Some (e, q) ->
  (places o id = places (with_queue q o) id + one (is_task id (e_task e)))%nat.
Proof.
  intros Hs Hp. pose proof (places_queue o q id) as E. pose proof (in_queue_pop o e q id (sh_heap _ Hs) Hp) as E2.
  unfold in_queue in *. cbn [_queue with_queue] in *. lia.
Qed.
Lemma places_create id agent o x : shape_ok o -> places (create_task id agent o) x = (places o x + one (is_task x id))%nat.
Proof.
  intros Hs. unfold places, waiting. rewrite !at_position_create by done. cbn [pos_eqb andb one].
  change (in_queue (create_task id agent o) x) with (in_queue o x). change (in_submit (create_task id agent o) x) with (in_submit o x). lia.
Qed.

Lemma pop_item o e q : shape_ok o -> heappop entry_lt (_queue o) = Some (e, q) ->
  exists i, od_get (e_task e) (_tasks o) = Some i /\ entry_of i = e.
Proof.
  intros Hs Hp. destruct (heappop_some _ _ _ _ (sh_heap _ Hs) Hp) as (_ & Hperm & _). apply (sh_entries _ Hs). rewrite Hperm. left.
Qed.

Lemma create_cancels o id agent : shape_ok o -> cancels_ok o -> cancels_ok (create_task id agent o).
Proof.
  intros Hs Hc k c. cbn [coroutines create_task]. rewrite od_get_set. case_decide; [by intros [= <-]|]. apply Hc.
Qed.

Lemma dispatch_ok fuel idle o : orch_ok o -> orch_ok (dispatch_pass fuel idle o).
Proof.
  revert o. induction fuel as [|fuel IH]; intros o Hok; [done|]. cbn [dispatch_pass]. destruct idle as [|agent idle]; [done|].
  destruct (heappop entry_lt (_queue o)) as [[e q]|] eqn:Ep; [|done]. pose proof Hok as (Hs & Hc & Ht).
  destruct (pop_item _ _ _ Hs Ep) as (i & Hi & He). rewrite Hi.
  pose proof (sh_pop _ _ _ Hs Ep) as Hs'. pose proof (places_pop _ _ _ (e_task e) Hs Ep) as P. rewrite is_task_true in P.
  assert (Pother : forall x, x ≠ e_task e -> places (with_queue q o) x = places o x).
  { intros x Hx. rewrite (places_pop _ _ _ x Hs Ep), is_task_false by done. cbn. lia. }
  unfold is_status. destruct (bool_decide (item_status i = CANCELLED)) eqn:Hst.
  - apply bool_decide_eq_true in Hst. apply IH, (segment_ok o _ (e_task e) i Hok Hi); try done.
    + intros x Hx. by rewrite Pother.
    + intros f Hf Htk. exists i, f. split; [done|split; [done|]]. eapply task_ok_cancelled; [|done|exact Htk]. lia.
  - assert (P2 : forall x, places (create_task (e_task e) agent (with_queue q o)) x = places o x).
    { intros x. rewrite places_create, (places_pop _ _ _ x Hs Ep) by done. done. }
    apply (segment_ok o _ (e_task e) i Hok Hi); try done.
    + apply sh_create; [done|]. by exists i.
    + by apply create_cancels.
    + intros f Hf Htk. exists i, f. by rewrite P2.
Qed.

(** A live coroutine is a place. *)
Lemma places_live o k c : od_get k (coroutines o) = Some c -> r_position c ≠ Ended -> (0 < places o (r_task c))%nat.
Proof.
  intros Hk Hp. assert (Hin : (0 < at_position (r_position c) o (r_task c))%nat).
  { apply count_pos. exists (k, c). split; [by apply od_get_elem|]. cbn [snd]. rewrite is_task_true. by destruct (r_position c). }
  unfold places, waiting. destruct (r_position c); try done; lia.
Qed.

(** A coroutine changes its task, then moves or ends. *)
Lemma move_ok o o1 k c i p : orch_ok o -> coroutine_at k o = Some (c, i) -> r_position c ≠ Ended ->
  shape_ok o1 -> coroutines o1 = coroutines o -> (forall x, excused o x -> excused o1 x) ->
  (forall x, x ≠ r_task c -> od_get x (_tasks o1) = od_get x (_tasks o) /\ od_get x (_results o1) = od_get x (_results o) /\
                             places o1 x = places o x) ->
  (forall f, od_get (r_task c) (_results o) = Some f -> task_ok (places o (r_task c)) (excused o (r_task c)) i f ->
     (0 < places o (r_task c))%nat ->
     exists i' f', od_get (r_task c) (_tasks o1) = Some i' /\ od_get (r_task c) (_results o1) = Some f' /\
       task_ok (places o1 (r_task c) - 1 + one (live p)) (excused o1 (r_task c)) i' f') ->
  orch_ok (move_to k p o1).
Proof.
  intros Hok Hat Hp Hs1 Hc1 Hexc1 Hother Hhere. pose proof Hok as (Hs & Hc & Ht). apply coroutine_at_some in Hat as [Hk Hi].
  assert (Hk1 : od_get k (coroutines o1) = Some c) by (by rewrite Hc1).
  destruct (position_tables k p o1) as (T & R & A & W & _).
  assert (Hexc : forall x, excused o x -> excused (move_to k p o1) x) by (intros x Hx; by apply (excused_same o1); auto).
  assert (Hlive : live (r_position c) = true) by (by destruct (r_position c)).
  apply (segment_ok o _ (r_task c) i Hok Hi); try done.
  - by apply sh_position.
  - apply (cancels_position o _ k p c); try done. by apply position_coroutines.
  - intros x Hx. rewrite T, R. pose proof (places_position k p o1 c x Hk1) as P. rewrite is_task_false, !andb_false_r in P by done.
    destruct (Hother x Hx) as (-> & -> & <-). split_and!; try done. cbn in P. lia.
  - intros f Hf Htk. rewrite T, R. destruct (Hhere f Hf Htk (places_live _ _ _ Hk Hp)) as (i' & f' & Hi' & Hf' & Hok').
    exists i', f'. split; [done|split; [done|]]. pose proof (places_position k p o1 c (r_task c) Hk1) as P.
    rewrite is_task_true, Hlive, !andb_true_r in P. cbn [one] in P. pose proof (places_live _ _ _ Hk1 Hp).
    replace (places (move_to k p o1) (r_task c)) with (places o1 (r_task c) - 1 + one (live p))%nat by lia.
    by eapply task_ok_weaken; [apply excused_same|].
Qed.

(** The common case: the coroutine changes its item only. *)
Lemma move_item_ok o k c i i' p : orch_ok o -> coroutine_at k o = Some (c, i) -> r_position c ≠ Ended -> entry_of i' = entry_of i ->
  (forall f, task_ok (places o (r_task c)) (excused o (r_task c)) i f -> (0 < places o (r_task c))%nat ->
     task_ok (places o (r_task c) - 1 + one (live p)) (excused o (r_task c)) i' f) ->
  orch_ok (move_to k p (set_item i' o)).
Proof.
  intros Hok Hat Hp He Htk. pose proof Hok as (Hs & _ & _). pose proof (coroutine_at_some _ _ _ _ Hat) as [Hk Hi].
  pose proof (sh_ids _ Hs _ _ Hi) as Hid. assert (Hid' : task_id i' = r_task c) by (injection He as _ _ E; congruence).
  apply (move_ok o _ k c i); try done.
  - apply (sh_set_item o i); [done|congruence|done].
  - intros x Hx. split; [|done]. cbn [set_item with_tasks _tasks]. by rewrite od_get_set_ne by congruence.
  - intros f Hf Hok' Hpos. exists i', f. cbn [set_item with_tasks _tasks _results]. rewrite <- Hid' at 1. rewrite od_get_set_eq.
    split; [done|split; [done|]]. by apply Htk.
Qed.
Lemma set_item_same o i id : shape_ok o -> od_get id (_tasks o) = Some i -> set_item i o = o.
Proof. intros Hs Hi. pose proof (sh_ids _ Hs _ _ Hi) as <-. unfold set_item. rewrite (od_set_same _ _ _ Hi). by destruct o. Qed.

(** A coroutine stops with its task as it is. *)
Lemma leave_ok o k c i : orch_ok o -> coroutine_at k o = Some (c, i) -> r_position c ≠ Ended ->
  excused o (r_task c) \/ item_status i = CANCELLED -> orch_ok (move_to k Ended o).
Proof.
  intros Hok Hat Hp Hcase. pose proof (coroutine_at_some _ _ _ _ Hat) as [Hk Hi]. pose proof Hok as (Hs & _ & _).
  rewrite <- (set_item_same o i (r_task c)) by done. apply (move_item_ok o k c i); try done.
  intros f Htk Hpos. destruct Hcase as [He|He]; [eapply task_ok_leave; [|done|exact Htk]|eapply task_ok_cancelled; [|done|exact Htk]]; cbn; lia.
Qed.

Lemma run_start_ok o k c i : orch_ok o -> coroutine_at k o = Some (c, i) -> r_position c = Created ->
  orch_ok (if r_cancelled c then move_to k Ended o else run_start k c i o).
Proof.
  intros Hok Hat Hp. assert (Hp' : r_position c ≠ Ended) by (by rewrite Hp).
  pose proof (coroutine_at_some _ _ _ _ Hat) as [Hk Hi]. destruct (r_cancelled c) eqn:Ex.
  - apply (leave_ok o k c i); try done. left. destruct Hok as (_ & Hc & _). by apply (Hc k c).
  - apply (move_item_ok o k c i); try done. intros f Htk Hpos.
    eapply task_ok_here; try done; [destruct Htk; cbn [live pos_eqb negb one]; lia|]. left. cbn. split; [lia|auto].
Qed.

Lemma failure_ok o k c i error : orch_ok o -> coroutine_at k o = Some (c, i) -> r_position c = Dispatching ->
  item_status i ≠ CANCELLED -> orch_ok (_handle_failure k i error o).
Proof.
  intros Hok Hat Hp Hst. assert (Hp' : r_position c ≠ Ended) by (by rewrite Hp).
  pose proof (coroutine_at_some _ _ _ _ Hat) as [Hk Hi]. pose proof Hok as (Hs & _ & Ht). pose proof (sh_ids _ Hs _ _ Hi) as Hid.
  assert (Hlim : forall f, task_ok (places o (r_task c)) (excused o (r_task c)) i f -> (0 < places o (r_task c))%nat ->
            0 <= retries i < limit i /\ (places o (r_task c) = 1)%nat /\ (forall v, f ≠ ResultSet v) /\ (forall msg, f ≠ ExceptionSet msg)).
  { intros f [] Hpos. destruct (tk_placed0 Hpos) as [? Hs']. split; [lia|split; [lia|]].
    split; [intros v ->; specialize (tk_result0 v eq_refl)|intros msg ->; specialize (tk_raised0 msg eq_refl)];
      destruct Hs' as [E|[E|E]]; congruence. }
  unfold _handle_failure. destruct (Z.ltb_spec (retries i + 1) (max_retries i)) as [Hlt|Hge].
  - set (i' := mkItem _ _ _ _ _ _ _ _ _ _). assert (He : entry_of i' = entry_of i) by done.
    assert (Htk : forall f, task_ok (places o (r_task c)) (excused o (r_task c)) i f -> (0 < places o (r_task c))%nat ->
              task_ok 1 (excused o (r_task c)) i' f).
    { intros f Hf Hpos. destruct (Hlim f Hf Hpos) as (Hr & _ & H1 & H2).
      assert (El : limit i' = limit i) by done. assert (Hl : limit i = max_retries i) by (unfold limit; lia).
      split; rewrite ?El; cbn [i' retries item_status item_result]; try done; try lia; [split; [lia|auto]|split; [done|lia]|naive_solver|naive_solver]. }
    destruct (queue_full (set_item i' o)).
    + apply (move_item_ok o k c i); try done. intros f Hf Hpos. destruct (Hlim f Hf Hpos) as (_ & -> & _). by apply Htk.
    + assert (Hs1 : shape_ok (set_item i' o)) by (apply (sh_set_item o i); [done|congruence|done]).
      assert (Hi' : od_get (r_task c) (_tasks (set_item i' o)) = Some i') by (cbn [set_item with_tasks _tasks]; rewrite <- Hid; apply od_get_set_eq).
      apply (move_ok o _ k c i); try done.
      * apply sh_enqueue; [done|]. cbn [i' task_id]. by rewrite Hid.
      * intros x Hx. rewrite places_push, is_task_false by (cbn; congruence). cbn [one]. split; [|split; [done|]].
        -- cbn [enqueue with_queue set_item with_tasks _tasks]. by rewrite od_get_set_ne by (cbn; congruence).
        -- change (places (set_item i' o) x) with (places o x). lia.
      * intros f Hf Hfo Hpos. exists i', f. split; [done|split; [done|]]. rewrite places_push. cbn [i' task_id]. rewrite Hid, is_task_true.
        change (places (set_item _ o) (r_task c)) with (places o (r_task c)). destruct (Hlim f Hfo Hpos) as (_ & -> & _). by apply Htk.
  - set (i' := mkItem _ _ _ _ _ _ _ _ _ _). set (msg := _ +:+ _). assert (He : entry_of i' = entry_of i) by done.
    assert (Hs1 : shape_ok (set_item i' o)) by (apply (sh_set_item o i); [done|congruence|done]).
    destruct (settle_tables (task_id i') (ExceptionSet msg) (set_item i' o)) as (T & C & _).
    apply (move_ok o _ k c i); try done.
    + by apply sh_settle.
    + intros x Hx. apply excused_settle; [done|]. exact Hx.
    + intros x Hx. rewrite T, places_settle, od_get_settle, decide_False by (cbn; congruence).
      split; [|done]. cbn [set_item with_tasks _tasks]. by rewrite od_get_set_ne by (cbn; congruence).
    + intros f Hf Hfo Hpos. exists i', (settled_with (ExceptionSet msg) f). rewrite T, places_settle.
      rewrite od_get_settle. cbn [i' task_id]. rewrite Hid, decide_True by done.
      change (_results (set_item _ o)) with (_results o). rewrite Hf. split; [rewrite <- Hid; apply od_get_set_eq|]. split; [done|].
      destruct (Hlim f Hfo Hpos) as (Hr & Hone & H1 & H2). change (places (set_item _ o) (r_task c)) with (places o (r_task c)). rewrite Hone.
      assert (El : limit i' = limit i) by done. assert (Hl : retries i + 1 = limit i) by (unfold limit in *; lia).
      split; rewrite ?El; cbn [i' retries item_status item_result live pos_eqb one negb]; try done; try lia; try (by intros [?|?]).
      * intros _. destruct f; [left; by eexists|naive_solver|naive_solver|by right].
      * intros v. destruct f; naive_solver.
Qed.

Lemma run_end_ok o k c i e : orch_ok o -> coroutine_at k o = Some (c, i) -> r_position c = Dispatching -> orch_ok (run_end k e i o).
Proof.
  intros Hok Hat Hp. assert (Hp' : r_position c ≠ Ended) by (by rewrite Hp).
  pose proof (coroutine_at_some _ _ _ _ Hat) as [Hk Hi]. pose proof Hok as (Hs & _ & _). pose proof (sh_ids _ Hs _ _ Hi) as Hid.
  unfold run_end, is_status. destruct (bool_decide (item_status i = CANCELLED)) eqn:Hst.
  { apply bool_decide_eq_true in Hst. destruct e; apply (leave_ok o k c i); auto. }
  apply bool_decide_eq_false in Hst. destruct e as [v|msg| |]; [|by eapply failure_ok..|].
  - set (i' := mkItem _ _ _ _ _ _ _ _ _ _). assert (He : entry_of i' = entry_of i) by done.
    assert (Hs1 : shape_ok (set_item i' o)) by (apply (sh_set_item o i); [done|congruence|done]).
    destruct (settle_tables (task_id i) (ResultSet v) (set_item i' o)) as (T & C & _).
    apply (move_ok o _ k c i); try done.
    + by apply sh_settle.
    + intros x Hx. by apply excused_settle.
    + intros x Hx. rewrite T, places_settle, od_get_settle, decide_False by congruence.
      split; [|done]. cbn [set_item with_tasks _tasks]. by rewrite od_get_set_ne by (cbn; congruence).
    + intros f Hf Hfo Hpos. exists i', (settled_with (ResultSet v) f). rewrite T, places_settle, od_get_settle, Hid, decide_True by done.
      change (_results (set_item _ o)) with (_results o). rewrite Hf. split; [rewrite <- Hid at 1; apply od_get_set_eq|]. split; [done|].
      eapply (task_ok_here _ _ _ _ i i' f); try done; [change (places (set_item i' o) (r_task c)) with (places o (r_task c)); destruct Hfo; cbn [live pos_eqb negb one]; lia|].
      right; right. change (places (set_item i' o) (r_task c)) with (places o (r_task c)).
      split; [destruct Hfo; cbn [live pos_eqb negb one]; lia|]. split; [done|]. by exists v.
  - apply (move_item_ok o k c i); try done. intros f Htk Hpos. eapply (task_ok_here _ _ _ _ i _ f); try done; [destruct Htk; cbn [live pos_eqb negb one]; lia|].
    right; left. split; [destruct Htk; cbn [live pos_eqb negb one]; lia|]. split; [done|by left].
Qed.

Lemma retry_room_ok o k c i : orch_ok o -> coroutine_at k o = Some (c, i) -> r_position c = Putting ->
  orch_ok (move_to k Ended (enqueue i o)).
Proof.
  intros Hok Hat Hp. pose proof (coroutine_at_some _ _ _ _ Hat) as [Hk Hi]. pose proof Hok as (Hs & _ & _).
  pose proof (sh_ids _ Hs _ _ Hi) as Hid. apply (move_ok o _ k c i); try done; [by rewrite Hp|by apply sh_enqueue; [|rewrite Hid]|..].
  - intros x Hx. rewrite places_push, Hid, is_task_false by done. split; [done|split; [done|cbn; lia]].
  - intros f Hf Htk Hpos. exists i, f. split; [done|split; [done|]]. rewrite places_push, Hid, is_task_true.
    cbn [live pos_eqb negb one]. replace (_ - 1 + 0)%nat with (places o (r_task c)) by lia. done.
Qed.

Lemma places_forget k c o x : od_get k (coroutines o) = Some c -> r_position c = Ended -> places (_forget_task k (r_task c) o) x = places o x.
Proof.
  intros Hk Hp. unfold places, waiting. rewrite !at_position_forget by done. done.
Qed.

Lemma forget_ok o k c : orch_ok o -> od_get k (coroutines o) = Some c -> r_position c = Ended -> orch_ok (_forget_task k (r_task c) o).
Proof.
  intros (Hs & Hc & Ht) Hk Hp. split; [by apply sh_forget|split].
  - apply (cancels_frame o _ Hc); [done|]. intros k' c' Hk'. cbn [coroutines _forget_task with_coroutines] in Hk'.
    apply od_get_del_some_any in Hk' as [_ Hk']; [|apply Hs]. eauto 6.
  - intros id i Hi. rewrite places_forget by done. apply Ht, Hi.
Qed.

Lemma stop_begin_ok o : orch_ok o -> orch_ok (stop_begin o).
Proof.
  intros (Hs & Hc & Ht). unfold stop_begin. generalize (od_values (_running_tasks o)) at 2 as ks.
  generalize (od_values (_running_tasks o)) as w'. intros w' ks. assert (Hw : stop_waits o ++ [w'] ≠ []) by (by destruct (stop_waits o)).
  revert Hw. generalize (stop_waits o ++ [w']) as w. intros w Hw.
  assert (Hfold : shape_ok (fold_right request_cancel (with_running false o) ks) /\
            _tasks (fold_right request_cancel (with_running false o) ks) = _tasks o /\
            _results (fold_right request_cancel (with_running false o) ks) = _results o /\
            forall x, places (fold_right request_cancel (with_running false o) ks) x = places o x).
  { induction ks as [|k ks (IH1 & IH2 & IH3 & IH4)]; cbn [fold_right]; [split; [|done]; by destruct Hs|].
    destruct (cancel_tables k (fold_right request_cancel (with_running false o) ks)) as (E1 & E2 & _).
    split; [by apply sh_cancel|]. rewrite E1, E2. split_and!; try done. intros x. by rewrite places_cancel. }
  destruct Hfold as (Hs' & T & R & P). set (o1 := fold_right _ _ _) in *.
  assert (Hexc : forall x, excused (with_stop_waits w o1) x) by (by left).
  split; [by destruct Hs'|split; [by intros k c _ _ _|]]. intros id i Hi. cbn [with_stop_waits _tasks _results] in *. rewrite T in Hi.
  destruct (Ht id i Hi) as (f & Hf & Htk). exists f. rewrite R. split; [done|].
  change (places (with_stop_waits w o1) id) with (places o1 id). rewrite P. by eapply task_ok_weaken; [|exact Htk].
Qed.

Lemma stop_end_ok j o : orch_ok o -> orch_ok (stop_end j o).
Proof.
  intros (Hs & Hc & Ht). set (close := fun f : future V => match f with Pending => FutureCancelled | f => f end).
  assert (R : forall id, od_get id (_results (stop_end j o)) = close <$> od_get id (_results o)).
  { intros id. cbn [stop_end with_stop_waits with_results _results]. induction (_results o) as [|[k f] d IH]; [done|].
    cbn [fmap list_fmap od_get fst snd]. destruct (decide (id = k)); [by destruct f|exact IH]. }
  assert (Hexc : forall id, is_Some (od_get id (_tasks o)) -> excused (stop_end j o) id).
  { intros id [i Hi]. right; right. rewrite R. destruct (Ht id i Hi) as (f & -> & _). exists (close f). split; [done|]. by destruct f. }
  split; [|split].
  - destruct Hs. split; try done; [|by intros id k ?%elem_of_nil].
    cbn [stop_end with_stop_waits with_results with_table _results _tasks]. rewrite <- sh_results0. unfold od_keys. by rewrite <- list_fmap_compose.
  - intros k c Hk _ _. apply Hexc. by apply (sh_coroutines _ Hs k c).
  - intros id i Hi. destruct (Ht id i Hi) as (f & Hf & []). exists (close f). rewrite R, Hf. split; [done|].
    change (places (stop_end j o) id) with (places o id). split; try done.
    + intros _. right. apply Hexc. by eexists.
    + intros Hst. destruct (tk_completed0 Hst) as (v & ? & [-> | ->]); exists v; split; try done; [by left|by right].
    + intros Hst. destruct (tk_error0 Hst) as [[msg ->]| ->]; [left; by eexists|by right].
    + intros v E. apply (tk_result0 v). by destruct f.
    + intros msg E. apply (tk_raised0 msg). by destruct f.
Qed.

Lemma step_ok ev o o' : orch_ok o -> step ev o = Some o' -> orch_ok o'.
Proof.
  intros Hok. destruct ev as [|i|id|id|id|idle|k|k e|k|k|k| |j]; cbn [step].
  - intros [= <-]. destruct Hok as (Hs & Hc & Ht). split; [by destruct Hs|done].
  - destruct (fresh_item i o) eqn:Ef; [|done]. intros [= <-]. by apply submit_ok.
  - destruct (od_get id (_tasks o)) as [i|] eqn:Ei; [|done]. cbn [mbind option_bind].
    destruct (bool_decide _ && _) eqn:E; [|done]. intros [= <-]. apply andb_true_iff in E as [E%bool_decide_eq_true _]. by apply submit_room_ok.
  - destruct (bool_decide (id ∈ submitting o)) eqn:E; [|done]. intros [= <-]. apply bool_decide_eq_true in E.
    destruct (sh_submitting _ (proj1 Hok) id E) as [i Hi]. by eapply submit_abandon_ok.
  - intros [= <-]. by apply cancel_ok.
  - destruct (_running o); [|done]. intros [= <-]. by apply dispatch_ok.
  - destruct (coroutine_at k o) as [[c i]|] eqn:E; [|done]. cbn [mbind option_bind]. case_bool_decide; [|done].
    intros [= <-]. by apply run_start_ok.
  - destruct (coroutine_at k o) as [[c i]|] eqn:E; [|done]. cbn [mbind option_bind]. case_bool_decide; [|done].
    intros [= <-]. by eapply run_end_ok.
  - destruct (coroutine_at k o) as [[c i]|] eqn:E; [|done]. cbn [mbind option_bind]. case_bool_decide; [|done].
    cbn [andb]. destruct (negb (r_cancelled c) && _); [|done]. intros [= <-]. by eapply retry_room_ok.
  - destruct (coroutine_at k o) as [[c i]|] eqn:E; [|done]. cbn [mbind option_bind]. case_bool_decide as Hp; [|done].
    cbn [andb]. destruct (r_cancelled c) eqn:Ex; [|done]. intros [= <-]. apply (leave_ok o k c i); try done; [by rewrite Hp|].
    left. apply coroutine_at_some in E as [Hk _]. apply (proj1 (proj2 Hok) k c); [done|done|by rewrite Hp].
  - destruct (od_get k (coroutines o)) as [c|] eqn:E; [|done]. cbn [mbind option_bind]. case_bool_decide; [|done].
    intros [= <-]. by apply forget_ok.
  - intros [= <-]. by apply stop_begin_ok.
  - destruct (stop_waits o !! j); [|done]. cbn [mbind option_bind]. destruct (forallb _ _); [|done]. intros [= <-]. by apply stop_end_ok.
Qed.

Lemma new_ok : orch_ok new_orchestrator.
Proof.
  split; [|split; done]. split; cbn [new_orchestrator _tasks _results _queue submitting coroutines _running_tasks]; try done.
  1,4: constructor.
  - by intros e ?%elem_of_nil.
  - by intros id ?%elem_of_nil.
  - by intros id k ?%elem_of_nil.
Qed.

Lemma run_ok evs o o' : orch_ok o -> run evs o = Some o' -> orch_ok o'.
Proof.
  revert o. induction evs as [|ev evs IH]; intros o Hok; cbn [run]; [by intros [= <-]|].
  destruct (step ev o) as [o1|] eqn:E; [|done]. cbn [mbind option_bind]. apply IH. by eapply step_ok.
Qed.

(** ** Every task ends *)

(** What may still happen: attempts left, and the way of each copy. *)
Definition budget i : nat := Z.to_nat (limit i - retries i).
Definition place_weight (p : position) : nat := match p with Created => 4 | Dispatching => 3 | Putting => 7 | Ended => 1 end.
Definition attempts_left o : nat := total (fun id i => budget i * places o id)%nat (_tasks o).
Definition on_the_way o : nat := total (fun _ c => place_weight (r_position c)) (coroutines o).
Definition work o : nat := (6 * attempts_left o + 5 * length (_queue o) + 6 * length (submitting o) + on_the_way o)%nat.

(** The segments that make progress: the agents' calls end, waiting senders and
    coroutines go on, a pass finds an idle agent and an item. *)
Definition productive ev o : Prop :=
  match ev with
  | Cycle idle => idle ≠ [] /\ _queue o ≠ []
  | SubmitRoom _ | RunStart _ | RunEnd _ _ | RetryRoom _ | RetryCancelled _ | Forget _ => True
  | _ => False
  end.

Lemma attempts_same o o' : shape_ok o -> _tasks o' = _tasks o -> (forall x, (places o' x <= places o x)%nat) -> (attempts_left o' <= attempts_left o)%nat.
Proof. intros Hs T P. unfold attempts_left. rewrite T. apply total_le. intros k w. apply Nat.mul_le_mono_l, P. Qed.
Lemma attempts_set o o' id i i' : shape_ok o -> od_get id (_tasks o) = Some i -> _tasks o' = od_set id i' (_tasks o) ->
  (forall x, x ≠ id -> places o' x = places o x) ->
  (attempts_left o' + budget i * places o id = attempts_left o + budget i' * places o' id)%nat.
Proof.
  intros Hs Hi T P. unfold attempts_left. rewrite T.
  set (f := fun x (j : TaskItem V) => (budget j * (if decide (x = id) then places o' id else places o x))%nat).
  assert (E1 : total (fun x j => budget j * places o' x)%nat (od_set id i' (_tasks o)) = total f (od_set id i' (_tasks o))).
  { apply total_ext; [apply NoDup_od_set, Hs|]. intros x j _. unfold f. case_decide; [by subst|by rewrite P]. }
  assert (Hset : forall j j' d, NoDup (od_keys d) -> od_get id d = Some j ->
             (total f (od_set id j' d) + budget j * places o id = total (fun x k => budget k * places o x)%nat d + budget j' * places o' id)%nat).
  { intros j j' d. induction d as [|[x k] d IH]; [done|]. change (od_keys ((x, k) :: d)) with (x :: od_keys d).
    intros [Hx Hnd]%NoDup_cons. cbn [od_get od_set]. case_decide as E.
    - intros [= ->]. subst x. unfold total. cbn [foldr fst snd]. unfold f at 1. rewrite decide_True by done.
      change (foldr _ 0%nat d) with (total f d) at 1. fold (total (fun x k => budget k * places o x)%nat d).
      rewrite (total_ext f (fun x k => budget k * places o x)%nat d Hnd); [lia|].
      intros x k Hg. unfold f. rewrite decide_False; [done|]. intros ->. apply Hx. apply list_elem_of_fmap.
      exists (id, k). split; [done|by apply od_get_elem].
    - intros Hg. specialize (IH Hnd Hg). unfold total in *. cbn [foldr fst snd]. unfold f at 1. rewrite decide_False by congruence. lia. }
  rewrite E1. apply Hset; [apply Hs|done].
Qed.

Lemma way_position o k p c : shape_ok o -> od_get k (coroutines o) = Some c ->
  (on_the_way (move_to k p o) + place_weight (r_position c) = on_the_way o + place_weight p)%nat.
Proof.
  intros Hs Hk. unfold move_to, on_the_way. rewrite Hk. cbn [coroutines with_coroutines].
  pose proof (total_od_set (fun _ c => place_weight (r_position c)) k c (mkRun (r_task c) (r_agent c) p (r_cancelled c)) _ (sh_numbers _ Hs) Hk) as E.
  exact E.
Qed.
Lemma length_enqueue i o : length (_queue (enqueue i o)) = S (length (_queue o)).
Proof. unfold enqueue. cbn [_queue with_queue]. by rewrite (heappush_perm entry_lt). Qed.
Lemma length_pop o e q : shape_ok o -> heappop entry_lt (_queue o) = Some (e, q) -> length (_queue o) = S (length q).
Proof. intros Hs Hp. destruct (heappop_some _ _ _ _ (sh_heap _ Hs) Hp) as (_ & E & _). by rewrite E. Qed.
Lemma length_remove_first id l : id ∈ l -> length l = S (length (remove_first id l)).
Proof.
  induction l as [|x l IH]; [by intros ?%elem_of_nil|]. intros Hin. cbn [remove_first]. destruct (decide (x = id)) as [E|E]; [done|].
  apply elem_of_cons in Hin as [?|Hin]; [congruence|]. cbn [length]. by rewrite IH.
Qed.

(** A pass over the queue only takes work away. *)
Lemma dispatch_work fuel idle o : shape_ok o -> idle ≠ [] -> _queue o ≠ [] -> (0 < fuel)%nat ->
  (work (dispatch_pass fuel idle o) < work o)%nat.
Proof.
  intros Hs Hidle. destruct idle as [|agent idle]; [done|]. revert o Hs.
  induction fuel as [|fuel IH]; intros o Hs Hq Hf; [lia|]. cbn [dispatch_pass].
  destruct (heappop entry_lt (_queue o)) as [[e q]|] eqn:Ep; [|by apply heappop_none in Ep].
  destruct (pop_item _ _ _ Hs Ep) as (i & Hi & _). rewrite Hi. pose proof (length_pop _ _ _ Hs Ep) as Hl.
  pose proof (sh_pop _ _ _ Hs Ep) as Hs'.
  assert (Hpop : (attempts_left (with_queue q o) <= attempts_left o)%nat).
  { apply attempts_same; [done|done|]. intros x. rewrite (places_pop _ _ _ x Hs Ep). lia. }
  assert (Hw : (work (with_queue q o) + 5 <= work o)%nat).
  { unfold work. cbn [_queue with_queue submitting]. change (on_the_way (with_queue q o)) with (on_the_way o). lia. }
  destruct (is_status CANCELLED i).
  - destruct q as [|e' q']; [|destruct fuel as [|fuel']; [cbn [dispatch_pass]; lia|]; etrans; [apply IH; [done|done|lia]|lia]].
    enough (dispatch_pass fuel (agent :: idle) (with_queue [] o) = with_queue [] o) as -> by lia. by destruct fuel.
  - unfold work. cbn [_queue submitting create_task with_queue].
    assert (Hc : on_the_way (create_task (e_task e) agent (with_queue q o)) = (on_the_way o + 4)%nat).
    { unfold on_the_way. cbn [coroutines create_task with_queue]. rewrite total_fresh; [done|].
      destruct (od_get (next_coroutine o) (coroutines o)) as [c|] eqn:Ec; [|done]. apply (sh_coroutines _ Hs) in Ec as [? _]. lia. }
    assert (Ha : (attempts_left (create_task (e_task e) agent (with_queue q o)) <= attempts_left o)%nat).
    { apply attempts_same; [done|done|]. intros x. rewrite places_create, (places_pop _ _ _ x Hs Ep) by done. lia. }
    rewrite Hc. lia.
Qed.

Lemma places_moved o k p c x : od_get k (coroutines o) = Some c -> r_position c ≠ Ended ->
  (places (move_to k p o) x + one (is_task x (r_task c)) = places o x + one (live p && is_task x (r_task c)))%nat.
Proof.
  intros Hk Hp. pose proof (places_position k p o c x Hk) as E. assert (live (r_position c) = true) as Hl by (by destruct (r_position c)).
  by rewrite Hl in E.
Qed.

(** A coroutine's move, after its task and the queue have changed. *)
Lemma move_work o o1 k c i i' p : orch_ok o -> coroutine_at k o = Some (c, i) -> r_position c ≠ Ended ->
  shape_ok o1 -> coroutines o1 = coroutines o -> _tasks o1 = od_set (r_task c) i' (_tasks o) ->
  (forall x, x ≠ r_task c -> places o1 x = places o x) ->
  (6 * (budget i' * (places o1 (r_task c) - 1 + one (live p))) + 5 * length (_queue o1) + 6 * length (submitting o1) + place_weight p
   < 6 * budget i + 5 * length (_queue o) + 6 * length (submitting o) + place_weight (r_position c))%nat ->
  (work (move_to k p o1) < work o)%nat.
Proof.
  intros Hok Hat Hp Hs1 Hc1 T1 Hother Hlt. pose proof Hok as (Hs & _ & Ht). apply coroutine_at_some in Hat as [Hk Hi].
  assert (Hk1 : od_get k (coroutines o1) = Some c) by (by rewrite Hc1).
  destruct (position_tables k p o1) as (T & _ & _ & _ & Q). rewrite T1 in T.
  assert (S : submitting (move_to k p o1) = submitting o1) by (unfold move_to; by rewrite Hk1).
  pose proof (way_position o1 k p c Hs1 Hk1) as W. unfold on_the_way at 2 in W. rewrite Hc1 in W. fold (on_the_way o) in W.
  assert (P : forall x, x ≠ r_task c -> places (move_to k p o1) x = places o x).
  { intros x Hx. pose proof (places_moved o1 k p c x Hk1 Hp) as E. rewrite is_task_false, andb_false_r in E by done. cbn in E.
    rewrite <- Hother by done. lia. }
  pose proof (attempts_set o (move_to k p o1) (r_task c) i i' Hs Hi T P) as A.
  pose proof (places_moved o1 k p c (r_task c) Hk1 Hp) as E. rewrite is_task_true, andb_true_r in E.
  pose proof (places_live _ _ _ Hk1 Hp) as Hpos1. pose proof (places_live _ _ _ Hk Hp) as Hpos. cbn [one] in E.
  destruct (Ht _ _ Hi) as (f & _ & Htk). assert (Hone : places o (r_task c) = 1%nat) by (destruct Htk; lia).
  replace (places o1 (r_task c) - 1 + one (live p))%nat with (places (move_to k p o1) (r_task c)) in Hlt by lia.
  unfold work. rewrite Q, S. rewrite Hone in A. lia.
Qed.

(** The special case of [move_work] in which only the item changes. *)
Lemma move_item_work o k c i i' p : orch_ok o -> coroutine_at k o = Some (c, i) -> r_position c ≠ Ended -> entry_of i' = entry_of i ->
  (6 * (budget i' * one (live p)) + place_weight p < 6 * budget i + place_weight (r_position c))%nat ->
  (work (move_to k p (set_item i' o)) < work o)%nat.
Proof.
  intros Hok Hat Hp He Hlt. pose proof Hok as (Hs & _ & Ht). pose proof (coroutine_at_some _ _ _ _ Hat) as [Hk Hi].
  pose proof (sh_ids _ Hs _ _ Hi) as Hid. assert (Hid' : task_id i' = r_task c) by (injection He as _ _ E; congruence).
  apply (move_work o _ k c i i'); try done.
  - apply (sh_set_item o i); [done|congruence|done].
  - by cbn [set_item with_tasks _tasks]; rewrite Hid'.
  - change (places (set_item i' o) (r_task c)) with (places o (r_task c)). destruct (Ht _ _ Hi) as (f & _ & Htk).
    pose proof (places_live _ _ _ Hk Hp). replace (places o (r_task c)) with 1%nat by (destruct Htk; lia).
    cbn [set_item with_tasks _queue submitting]. change (1 - 1 + one (live p))%nat with (one (live p)). lia.
Qed.
Lemma leave_work o k c i : orch_ok o -> coroutine_at k o = Some (c, i) -> r_position c ≠ Ended -> (work (move_to k Ended o) < work o)%nat.
Proof.
  intros Hok Hat Hp. pose proof (coroutine_at_some _ _ _ _ Hat) as [Hk Hi]. pose proof Hok as (Hs & _ & _).
  rewrite <- (set_item_same o i (r_task c)) at 1 by done. apply (move_item_work o k c i); try done.
  cbn [live pos_eqb negb one place_weight]. destruct (r_position c); cbn [place_weight]; try done; lia.
Qed.

Lemma budget_retry o id i i' f : task_ok (places o id) (excused o id) i f -> (0 < places o id)%nat ->
  retries i' = retries i + 1 -> max_retries i' = max_retries i -> (budget i = S (budget i'))%nat.
Proof. intros [] Hpos Hr Hm. destruct (tk_placed0 Hpos) as [Hlt _]. unfold budget. assert (limit i' = limit i) as -> by (unfold limit; by rewrite Hm). lia. Qed.

Lemma failure_work o k c i error : orch_ok o -> coroutine_at k o = Some (c, i) -> r_position c = Dispatching ->
  (work (_handle_failure k i error o) < work o)%nat.
Proof.
  intros Hok Hat Hp. assert (Hp' : r_position c ≠ Ended) by (by rewrite Hp).
  pose proof (coroutine_at_some _ _ _ _ Hat) as [Hk Hi]. pose proof Hok as (Hs & _ & Ht). pose proof (sh_ids _ Hs _ _ Hi) as Hid.
  destruct (Ht _ _ Hi) as (f & _ & Htk). pose proof (places_live _ _ _ Hk Hp') as Hpos.
  assert (Hone : places o (r_task c) = 1%nat) by (destruct Htk; lia).
  unfold _handle_failure. destruct (_ <? _).
  - set (i' := mkItem _ _ _ _ _ _ _ _ _ _). pose proof (budget_retry o (r_task c) i i' f Htk Hpos eq_refl eq_refl) as B.
    destruct (queue_full (set_item i' o)).
    + apply (move_item_work o k c i); try done. rewrite Hp, B. cbn [place_weight live pos_eqb negb one]. lia.
    + assert (Hs1 : shape_ok (set_item i' o)) by (apply (sh_set_item o i); [done|congruence|done]).
      assert (Hi' : od_get (r_task c) (_tasks (set_item i' o)) = Some i') by (cbn [set_item with_tasks _tasks]; rewrite <- Hid; apply od_get_set_eq).
      apply (move_work o _ k c i i'); try done.
      * apply sh_enqueue; [done|]. cbn [i' task_id]. by rewrite Hid.
      * cbn [enqueue with_queue set_item with_tasks _tasks i' task_id]. by rewrite Hid.
      * intros x Hx. rewrite places_push, is_task_false by (cbn; congruence). change (places (set_item i' o) x) with (places o x). cbn [one]. lia.
      * rewrite places_push, length_enqueue. cbn [i' task_id]. rewrite Hid, is_task_true.
        change (places (set_item _ o) (r_task c)) with (places o (r_task c)). rewrite Hone, Hp, B. cbn [place_weight live pos_eqb negb one enqueue with_queue set_item with_tasks submitting _queue].
        change (budget (mkItem _ _ _ _ _ _ _ _ _ _)) with (budget i'). lia.
  - set (i' := mkItem _ _ _ _ _ _ _ _ _ _). set (msg := _ +:+ _).
    assert (Hs1 : shape_ok (set_item i' o)) by (apply (sh_set_item o i); [done|congruence|done]).
    destruct (settle_tables (task_id i') (ExceptionSet msg) (set_item i' o)) as (T & C & Q & S & _).
    apply (move_work o _ k c i i'); try done.
    + by apply sh_settle.
    + rewrite T. cbn [set_item with_tasks _tasks i' task_id]. by rewrite Hid.
    + intros x Hx. by rewrite places_settle.
    + rewrite places_settle, Q, S, Hp. change (places (set_item i' o) (r_task c)) with (places o (r_task c)). rewrite Hone.
      cbn [place_weight live pos_eqb negb one set_item with_tasks submitting _queue]. lia.
Qed.

Lemma run_end_work o k c i e : orch_ok o -> coroutine_at k o = Some (c, i) -> r_position c = Dispatching -> (work (run_end k e i o) < work o)%nat.
Proof.
  intros Hok Hat Hp. assert (Hp' : r_position c ≠ Ended) by (by rewrite Hp). pose proof Hok as (Hs & _ & Ht).
  pose proof (coroutine_at_some _ _ _ _ Hat) as [Hk Hi]. pose proof (sh_ids _ Hs _ _ Hi) as Hid.
  unfold run_end, is_status. destruct (bool_decide (item_status i = CANCELLED)).
  { destruct e; by apply (leave_work o k c i). }
  destruct e as [v|msg| |]; [|by apply (failure_work o k c i)..|].
  - set (i' := mkItem _ _ _ _ _ _ _ _ _ _).
    assert (Hs1 : shape_ok (set_item i' o)) by (apply (sh_set_item o i); [done|congruence|done]).
    destruct (settle_tables (task_id i) (ResultSet v) (set_item i' o)) as (T & C & Q & S & _).
    apply (move_work o _ k c i i'); try done.
    + by apply sh_settle.
    + rewrite T. cbn [set_item with_tasks _tasks i' task_id]. by rewrite Hid.
    + intros x Hx. by rewrite places_settle.
    + rewrite places_settle, Q, S, Hp. change (places (set_item i' o) (r_task c)) with (places o (r_task c)).
      destruct (Ht _ _ Hi) as (f & _ & Htk). pose proof (places_live _ _ _ Hk Hp').
      replace (places o (r_task c)) with 1%nat by (destruct Htk; lia). cbn [place_weight live pos_eqb negb one set_item with_tasks submitting _queue]. lia.
  - apply (move_item_work o k c i); try done. rewrite Hp. cbn [place_weight live pos_eqb negb one]. lia.
Qed.

Lemma step_work ev o o' : orch_ok o -> productive ev o -> step ev o = Some o' -> (work o' < work o)%nat.
Proof.
  intros Hok Hpr. pose proof Hok as (Hs & _ & Ht). destruct ev as [|i|id|id|id|idle|k|k e|k|k|k| |j]; cbn [productive] in Hpr; try done; cbn [step].
  - destruct (od_get id (_tasks o)) as [i|] eqn:Ei; [|done]. cbn [mbind option_bind].
    destruct (bool_decide _ && _) eqn:E; [|done]. intros [= <-]. apply andb_true_iff in E as [E%bool_decide_eq_true _].
    pose proof (sh_ids _ Hs _ _ Ei) as Hid. unfold work.
    assert (A : (attempts_left (enqueue i (with_submitting (remove_first id (submitting o)) o)) <= attempts_left o)%nat).
    { apply attempts_same; [done|done|]. intros x. rewrite places_push, Hid.
      pose proof (places_submitting (remove_first id (submitting o)) o x) as P.
      rewrite count_remove_first, bool_decide_true in P by done. cbn [andb] in P. unfold in_submit in P.
      destruct (is_task x id) eqn:Ex; cbn [one] in *; [|lia]. assert (0 < count (is_task x) (submitting o))%nat; [|lia].
      apply count_pos. eauto. }
    rewrite length_enqueue. change (submitting (enqueue _ _)) with (remove_first id (submitting o)).
    change (on_the_way (enqueue _ _)) with (on_the_way o). rewrite (length_remove_first id (submitting o) E). cbn [_queue with_submitting]. lia.
  - destruct Hpr. destruct (_running o); [|done]. intros [= <-]. apply dispatch_work; try done. lia.
  - destruct (coroutine_at k o) as [[c i]|] eqn:E; [|done]. cbn [mbind option_bind]. case_bool_decide as Hp; [|done].
    intros [= <-]. assert (Hp' : r_position c ≠ Ended) by (by rewrite Hp). destruct (r_cancelled c); [by apply (leave_work o k c i)|].
    apply (move_item_work o k c i); try done. rewrite Hp. cbn [place_weight live pos_eqb negb one].
    change (budget (mkItem _ _ _ _ _ _ _ _ _ _)) with (budget i). lia.
  - destruct (coroutine_at k o) as [[c i]|] eqn:E; [|done]. cbn [mbind option_bind]. case_bool_decide; [|done].
    intros [= <-]. by apply (run_end_work o k c i).
  - destruct (coroutine_at k o) as [[c i]|] eqn:E; [|done]. cbn [mbind option_bind]. case_bool_decide as Hp; [|done].
    cbn [andb]. destruct (negb (r_cancelled c) && _); [|done]. intros [= <-]. pose proof (coroutine_at_some _ _ _ _ E) as [Hk Hi].
    pose proof (sh_ids _ Hs _ _ Hi) as Hid. assert (Hp' : r_position c ≠ Ended) by (by rewrite Hp).
    apply (move_work o _ k c i i); try done.
    + apply sh_enqueue; [done|by rewrite Hid].
    + symmetry. by apply od_set_same.
    + intros x Hx. rewrite places_push, Hid, is_task_false by done. cbn [one]. lia.
    + rewrite places_push, length_enqueue, Hid, is_task_true, Hp. destruct (Ht _ _ Hi) as (f & _ & Htk).
      pose proof (places_live _ _ _ Hk Hp'). replace (places o (r_task c)) with 1%nat by (destruct Htk; lia).
      cbn [place_weight live pos_eqb negb one enqueue with_queue submitting _queue]. lia.
  - destruct (coroutine_at k o) as [[c i]|] eqn:E; [|done]. cbn [mbind option_bind]. case_bool_decide as Hp; [|done].
    cbn [andb]. destruct (r_cancelled c); [|done]. intros [= <-]. apply (leave_work o k c i); try done. by rewrite Hp.
  - destruct (od_get k (coroutines o)) as [c|] eqn:E; [|done]. cbn [mbind option_bind]. case_bool_decide as Hp; [|done].
    intros [= <-]. unfold work.
    change (_queue (_forget_task k (r_task c) o)) with (_queue o). change (submitting (_forget_task k (r_task c) o)) with (submitting o).
    assert (A : (attempts_left (_forget_task k (r_task c) o) <= attempts_left o)%nat).
    { apply attempts_same; [done|done|]. intros x. by rewrite places_forget. }
    pose proof (total_del (fun _ c => place_weight (r_position c)) k c _ E) as W. cbv beta in W. rewrite Hp in W. cbn [place_weight] in W.
    assert (W' : (on_the_way (_forget_task k (r_task c) o) + 1 = on_the_way o)%nat) by exact W.
    lia.
Qed.

Inductive works : TaskOrchestrator V -> list (event V) -> TaskOrchestrator V -> Prop :=
| works_nil o : works o [] o
| works_cons ev o o1 ws o2 : productive ev o -> step ev o = Some o1 -> works o1 ws o2 -> works o (ev :: ws) o2.
Definition stuck o : Prop := forall ev, productive ev o -> step ev o = None.

Lemma works_bound o ws o' : orch_ok o -> works o ws o' -> orch_ok o' /\ (length ws + work o' <= work o)%nat.
Proof.
  intros Hok Hw. induction Hw as [o|ev o o1 ws o2 Hp Hs Hw IH]; [split; [done|cbn [length]; lia]|].
  pose proof (step_work _ _ _ Hok Hp Hs). destruct IH as [? ?]; [by eapply step_ok|]. split; [done|cbn [length]; lia].
Qed.

Lemma coroutine_has_item o k c : shape_ok o -> od_get k (coroutines o) = Some c -> exists i, coroutine_at k o = Some (c, i).
Proof.
  intros Hs Hk. destruct (sh_coroutines _ Hs k c Hk) as [_ [i Hi]]. exists i. unfold coroutine_at. rewrite Hk. cbn [mbind option_bind]. by rewrite Hi.
Qed.

(** A live coroutine can always go on when there is room. *)
Lemma coroutine_goes_on o k c : shape_ok o -> queue_full o = false -> od_get k (coroutines o) = Some c ->
  exists ev o', productive ev o /\ step ev o = Some o'.
Proof.
  intros Hs Hq Hk. destruct (coroutine_has_item o k c Hs Hk) as [i Hat].
  destruct (r_position c) eqn:Hp.
  - exists (RunStart k). cbn [productive step]. rewrite Hat. cbn [mbind option_bind]. rewrite bool_decide_true by done. by eexists.
  - exists (RunEnd k TimedOut). cbn [productive step]. rewrite Hat. cbn [mbind option_bind]. rewrite bool_decide_true by done. by eexists.
  - destruct (r_cancelled c) eqn:Ex.
    + exists (RetryCancelled k). cbn [productive step]. rewrite Hat. cbn [mbind option_bind]. rewrite bool_decide_true, Ex by done. by eexists.
    + exists (RetryRoom k). cbn [productive step]. rewrite Hat. cbn [mbind option_bind]. rewrite bool_decide_true, Ex, Hq by done. by eexists.
  - exists (Forget k). cbn [productive step]. rewrite Hk. cbn [mbind option_bind]. rewrite bool_decide_true by done. by eexists.
Qed.

(** No segment that makes progress is left only when nothing is left. *)
Lemma goes_on o : shape_ok o -> _running o = true ->
  (exists ev o', productive ev o /\ step ev o = Some o') \/ (_queue o = [] /\ submitting o = [] /\ coroutines o = []).
Proof.
  intros Hs Hr. destruct (_queue o) as [|e q] eqn:Eq.
  2: { left. exists (Cycle ["agent"]), (_dispatch_loop ["agent"] o). cbn [productive step]. rewrite Hr, Eq. done. }
  assert (Hroom : queue_full o = false) by (unfold queue_full; by rewrite Eq).
  destruct (submitting o) as [|id l] eqn:Es.
  2: { left. destruct (sh_submitting _ Hs id) as [i Hi]; [rewrite Es; left|]. exists (SubmitRoom id). cbn [productive step].
       rewrite Hi. cbn [mbind option_bind]. rewrite Es, bool_decide_true, Hroom by left. by eexists. }
  destruct (coroutines o) as [|[k c] d] eqn:Ec; [by right|]. left. apply (coroutine_goes_on o k c Hs Hroom).
  rewrite Ec. cbn. by rewrite decide_True.
Qed.

Lemma empty_places o id : _queue o = [] -> submitting o = [] -> coroutines o = [] -> places o id = 0%nat.
Proof. intros Hq Hs Hc. unfold places, waiting, in_queue, in_submit, at_position. by rewrite Hq, Hs, Hc. Qed.
Lemma empty_stuck o : _queue o = [] -> submitting o = [] -> coroutines o = [] -> stuck o.
Proof.
  intros Hq Hs Hc [|i|id|id|id|idle|k|k e|k|k|k| |] Hp; cbn [productive] in Hp; try done; cbn [step]; unfold coroutine_at; rewrite ?Hc; try done.
  - rewrite Hs. destruct (od_get id (_tasks o)); [|done]. cbn [mbind option_bind]. by rewrite bool_decide_false by apply not_elem_of_nil.
  - by destruct Hp.
Qed.

Lemma productive_running ev o o' : productive ev o -> step ev o = Some o' -> _running o' = _running o.
Proof.
  assert (Hpos : forall k p o1, _running (move_to k p o1) = _running o1)
    by (intros k p o1; unfold move_to; by destruct (od_get k (coroutines o1))).
  assert (Hset : forall id f o1, _running (settle_future id f o1) = _running o1)
    by (intros id f o1; unfold settle_future; by destruct (od_get id (_results o1)) as [[]|]).
  destruct ev as [|i|id|id|id|idle|k|k e|k|k|k| |j]; cbn [productive step]; try done; intros Hp.
  - destruct (od_get id (_tasks o)); [|done]. cbn [mbind option_bind]. destruct (_ && _); [|done]. by intros [= <-].
  - destruct (_running o) eqn:Er; [|done]. intros [= <-]. unfold _dispatch_loop. generalize (S (length (_queue o))) as n.
    intros n. revert o Er Hp. induction n as [|n IH]; intros o Er Hp; cbn [dispatch_pass]; [done|]. destruct idle; [done|].
    destruct (heappop entry_lt (_queue o)) as [[e q]|]; [|done]. destruct (od_get (e_task e) (_tasks o)) as [i|]; [|done].
    destruct (is_status CANCELLED i); [|done]. destruct q; [by destruct n as [|n]|]. apply IH; [done|by destruct Hp].
  - destruct (coroutine_at k o) as [[c i]|]; [|done]. cbn [mbind option_bind]. destruct (bool_decide _); [|done].
    intros [= <-]. destruct (r_cancelled c); unfold run_start; by rewrite Hpos.
  - destruct (coroutine_at k o) as [[c i]|]; [|done]. cbn [mbind option_bind]. destruct (bool_decide _); [|done].
    intros [= <-]. unfold run_end, _handle_failure. destruct e; repeat case_match; rewrite ?Hpos, ?Hset; done.
  - destruct (coroutine_at k o) as [[c i]|]; [|done]. cbn [mbind option_bind]. destruct (_ && _); [|done]. intros [= <-]. by rewrite Hpos.
  - destruct (coroutine_at k o) as [[c i]|]; [|done]. cbn [mbind option_bind]. destruct (_ && _); [|done]. intros [= <-]. by rewrite Hpos.
  - destruct (od_get k (coroutines o)) as [c|]; [|done]. cbn [mbind option_bind]. destruct (bool_decide _); [|done]. by intros [= <-].
Qed.

Lemma finishes o : orch_ok o -> _running o = true -> exists ws o', works o ws o' /\ stuck o'.
Proof.
  remember (work o) as n eqn:En. revert o En. induction n as [n IH] using lt_wf_ind. intros o En Hok Hr.
  destruct (goes_on o (proj1 Hok) Hr) as [(ev & o1 & Hp & Hst)|(Hq & Hs & Hc)].
  - destruct (IH (work o1)) with (o := o1) as (ws & o2 & Hw & Hstuck); [subst; by eapply step_work|done|by eapply step_ok|by rewrite (productive_running _ _ _ Hp Hst)|].
    exists (ev :: ws), o2. split; [by econstructor|done].
  - exists [], o. split; [constructor|by apply empty_stuck].
Qed.

(** C5: Every task ends. From any reachable state of a started orchestrator, a
    run of the segments that make progress (a pass that finds an idle agent and
    an item, a coroutine that starts or whose call ends, a retry or a submission
    that gets room, a callback) has at most [work] of them, whatever the agents
    answer; some such run leads to a state in which none is left; and in every
    such state each task is completed, failed or cancelled, or its future is
    resolved, or its submitter was cancelled while it waited for room, or a stop
    is under way. *)
Theorem tasks_settle evs o :
  run evs new_orchestrator = Some o -> _running o = true ->
  (exists ws o', works o ws o' /\ stuck o') /\
  forall ws o', works o ws o' -> (length ws + work o' <= work o)%nat /\
    (stuck o' -> forall id i, od_get id (_tasks o') = Some i ->
       item_status i = COMPLETED \/ item_status i = FAILED \/ item_status i = CANCELLED \/
       (exists f, od_get id (_results o') = Some f /\ f ≠ Pending) \/ id ∈ abandoned o' \/ stop_waits o' ≠ []).
Proof.
  intros Hrun Hr. pose proof (run_ok _ _ _ new_ok Hrun) as Hok. split; [by apply finishes|].
  intros ws o' Hw. destruct (works_bound _ _ _ Hok Hw) as [Hok' Hlen]. split; [done|]. intros Hstuck id i Hi.
  assert (Hr' : _running o' = true).
  { rewrite <- Hr. clear -Hw. induction Hw as [|ev o o1 ws o2 Hp Hs Hw IH]; [done|]. rewrite IH. by eapply productive_running. }
  destruct (goes_on o' (proj1 Hok') Hr') as [(ev & o1 & Hp & Hst)|(Hq & Hs & Hc)]; [rewrite Hstuck in Hst; done|].
  destruct Hok' as (_ & _ & Ht). destruct (Ht id i Hi) as (f & Hf & []). rewrite (empty_places o' id Hq Hs Hc) in *.
  destruct (item_status i) eqn:Est; try (by auto 10); try (by destruct tk_never0);
    (destruct tk_waits0 as [?|[?|[?|?]]]; [by auto|lia|auto 10..]).
Qed.
End Props.
