(* ===== verification/TaskSafety.v ===== *)
(** More theorems on the task orchestrator: which task a pass picks, how often a
    task is executed, and when a cancellation is final. *)
From S2P Require Import Prelude Yaml Heapq TaskOrchestrator TaskProps.

Section Safety.
Context {V : Type}.
Implicit Types (o : TaskOrchestrator V) (i : TaskItem V) (id : string) (ev : event V).

(** ** What a pass picks *)
Definition task_cancelled o (e : entry) : Prop :=
  exists i, od_get (e_task e) (_tasks o) = Some i /\ item_status i = CANCELLED.

Lemma with_queue_same o : with_queue (_queue o) o = o.
Proof. by destruct o. Qed.

Lemma dispatch_pass_spec fuel agent idle o : shape_ok o -> (length (_queue o) < fuel)%nat ->
  exists skipped, Forall (task_cancelled o) skipped /\
    ((_queue o ≡ₚ skipped /\ dispatch_pass fuel (agent :: idle) o = with_queue [] o) \/
     (exists e i q, _queue o ≡ₚ skipped ++ e :: q /\ od_get (e_task e) (_tasks o) = Some i /\ item_status i ≠ CANCELLED /\
        Forall (le entry_lt e) q /\ dispatch_pass fuel (agent :: idle) o = create_task (e_task e) agent (with_queue q o))).
Proof.
  revert o. induction fuel as [|fuel IH]; intros o Hs Hlen; [lia|]. cbn [dispatch_pass].
  destruct (heappop entry_lt (_queue o)) as [[e q]|] eqn:Ep.
  2: { apply heappop_none in Ep. exists []. split; [constructor|]. left. rewrite Ep. split; [done|]. by rewrite <- Ep, with_queue_same. }
  destruct (pop_item _ _ _ Hs Ep) as (i & Hi & _). rewrite Hi.
  destruct (heappop_some _ _ _ _ (sh_heap _ Hs) Ep) as (Hq & Hperm & Hleast).
  unfold is_status. destruct (bool_decide (item_status i = CANCELLED)) eqn:Hst.
  - apply bool_decide_eq_true in Hst. pose proof (length_pop _ _ _ Hs Ep).
    destruct (IH (with_queue q o) (sh_pop _ _ _ Hs Ep)) as (skipped & Hsk & Hcase); [cbn; lia|].
    exists (e :: skipped). split; [constructor; [by exists i|exact Hsk]|].
    destruct Hcase as [(H1 & H2)|(e1 & i1 & q1 & H1 & H2 & H3 & H4 & H5)]; [left|right].
    + split; [by rewrite Hperm, <- H1|by rewrite H2].
    + exists e1, i1, q1. split; [by rewrite Hperm; cbn [app]; rewrite <- H1|]. split; [done|]. split; [done|]. split; [done|]. by rewrite H5.
  - apply bool_decide_eq_false in Hst. exists []. split; [constructor|]. right. exists e, i, q. split_and!; try done.
    apply Forall_forall. intros x Hx. apply Hleast. rewrite Hperm. by right.
Qed.

(** C40: A pass of the dispatch loop that sees an idle agent gives the first of
    them the queued task that is first by priority, then by age, skipping
    cancelled ones; the tasks that are left stay queued; only when every queued
    task is cancelled does it start none, and then it has emptied the queue. *)
Theorem dispatch_picks_first evs o agent idle o' :
  run evs new_orchestrator = Some o -> step (Cycle (agent :: idle)) o = Some o' ->
  (Forall (task_cancelled o) (_queue o) /\ _queue o' = [] /\ coroutines o' = coroutines o) \/
  (exists e i, e ∈ _queue o /\ od_get (e_task e) (_tasks o) = Some i /\ item_status i ≠ CANCELLED /\
     coroutines o' = od_set (next_coroutine o) (mkRun (e_task e) agent Created false) (coroutines o) /\
     od_get (e_task e) (_running_tasks o') = Some (next_coroutine o) /\
     forall e', e' ∈ _queue o -> task_cancelled o e' \/ e' = e \/ (e' ∈ _queue o' /\ entry_lt e' e = false)).
Proof.
  intros Hrun. pose proof (run_ok _ _ _ new_ok Hrun) as (Hs & _ & _). cbn [step]. destruct (_running o); [|done]. intros [= <-].
  destruct (dispatch_pass_spec (S (length (_queue o))) agent idle o Hs) as (skipped & Hsk & [(H1 & H2)|(e & i & q & H1 & H2 & H3 & H4 & H5)]);
    [lia|left|right]; unfold _dispatch_loop.
  - rewrite H2. split; [by rewrite H1|done].
  - rewrite H5. exists e, i. split_and!; try done; [rewrite H1; apply elem_of_app; right; left|apply od_get_set_eq|].
    intros e' He'. rewrite H1 in He'. apply elem_of_app in He' as [He'|[->|He']%elem_of_cons].
    + left. rewrite Forall_forall in Hsk. by apply Hsk.
    + by right; left.
    + right; right. split; [exact He'|]. rewrite Forall_forall in H4. by apply H4.
Qed.

(** ** How often a task is executed *)
Definition executing o id : nat := at_position Dispatching o id.

(** A segment that starts no call and ends none. *)
Definition quiet o o' : Prop := forall id i, od_get id (_tasks o) = Some i -> exists i',
  od_get id (_tasks o') = Some i' /\ retries i' = retries i /\ max_retries i' = max_retries i /\
  (item_status i' = item_status i \/ item_status i' = CANCELLED /\ item_status i ≠ FAILED) /\
  executing o' id = executing o id /\ (places o' id <= places o id)%nat.

Lemma quiet_same o o' : _tasks o' = _tasks o -> (forall id, executing o' id = executing o id) ->
  (forall id, (places o' id <= places o id)%nat) -> quiet o o'.
Proof. intros T D P id i Hi. exists i. rewrite T, D. auto 10. Qed.

Lemma quiet_leave o k c : od_get k (coroutines o) = Some c -> r_position c = Created \/ r_position c = Putting ->
  quiet o (move_to k Ended o).
Proof.
  intros Hk Hp. apply quiet_same; [apply position_tables|..]; intros id.
  - pose proof (at_position_set k Ended o c Dispatching id Hk) as E. destruct Hp as [Hp|Hp]; rewrite Hp in E; cbn in E; unfold executing; lia.
  - pose proof (places_position k Ended o c id Hk) as E. cbn in E. lia.
Qed.

Lemma quiet_trans o1 o2 o3 : quiet o1 o2 -> quiet o2 o3 -> quiet o1 o3.
Proof.
  intros H12 H23 id i Hi. destruct (H12 id i Hi) as (i2 & Hi2 & R2 & M2 & S2 & D2 & P2).
  destruct (H23 id i2 Hi2) as (i3 & Hi3 & R3 & M3 & S3 & D3 & P3). exists i3. split; [done|]. split; [congruence|]. split; [congruence|].
  split; [|split; [congruence|lia]]. destruct S2 as [S2|[S2 ?]], S3 as [S3|[S3 ?]]; [left; congruence|right; split; congruence..].
Qed.

Lemma quiet_dispatch fuel idle o : shape_ok o -> quiet o (dispatch_pass fuel idle o).
Proof.
  revert o. induction fuel as [|fuel IH]; intros o Hs; [by apply quiet_same|]. cbn [dispatch_pass]. destruct idle as [|agent idle]; [by apply quiet_same|].
  destruct (heappop entry_lt (_queue o)) as [[e q]|] eqn:Ep; [|by apply quiet_same].
  destruct (pop_item _ _ _ Hs Ep) as (i & Hi & _). rewrite Hi. pose proof (sh_pop _ _ _ Hs Ep) as Hs'.
  assert (Hpop : quiet o (with_queue q o)).
  { apply quiet_same; [done|done|]. intros id. rewrite (places_pop _ _ _ id Hs Ep). lia. }
  destruct (is_status CANCELLED i); [eapply quiet_trans; [exact Hpop|by apply IH]|].
  apply quiet_same; [done|..]; intros id.
  - unfold executing. rewrite at_position_create by done. cbn [pos_eqb andb one]. change (at_position Dispatching (with_queue q o) id) with (at_position Dispatching o id). lia.
  - rewrite places_create, (places_pop _ _ _ id Hs Ep) by done. lia.
Qed.

Lemma quiet_cancel o id : shape_ok o -> quiet o (cancel id o).2.
Proof.
  intros Hs. unfold cancel. destruct (od_get id (_tasks o)) as [i|] eqn:Hi; [|by apply quiet_same].
  pose proof (sh_ids _ Hs _ _ Hi) as Hid. unfold is_status.
  destruct (bool_decide (item_status i = COMPLETED) || _) eqn:Hst; [by apply quiet_same|]. cbn [snd].
  apply orb_false_iff in Hst as [_ Hst%bool_decide_eq_false].
  set (o1 := set_item (set_status CANCELLED i) o).
  set (o2 := match od_get id (_running_tasks o1) with Some k => request_cancel k o1 | None => o1 end).
  assert (H2 : _tasks o2 = _tasks o1 /\ (forall x, executing o2 x = executing o x) /\ forall x, places o2 x = places o x).
  { unfold o2. destruct (od_get id (_running_tasks o1)) as [k|]; [|done]. destruct (cancel_tables k o1) as (E & _).
    split; [done|split; intros x; [unfold executing; by rewrite at_position_cancel|by rewrite places_cancel]]. }
  destruct H2 as (T2 & D2 & P2). destruct (settle_tables id FutureCancelled o2) as (T3 & C3 & _).
  intros x j Hj. rewrite T3, T2, places_settle, P2.
  assert (D : executing (settle_future id FutureCancelled o2) x = executing o x) by (rewrite <- D2; unfold executing, at_position; by rewrite C3).
  rewrite D. cbn [o1 set_item with_tasks _tasks]. destruct (decide (x = id)) as [->|Hne].
  - rewrite Hi in Hj. injection Hj as <-. exists (set_status CANCELLED i). rewrite <- Hid at 1. split; [apply od_get_set_eq|].
    split_and!; try done. by right.
  - exists j. rewrite od_get_set_ne by (cbn; congruence). auto 10.
Qed.

Lemma quiet_stop o : quiet o (stop_begin o).
Proof.
  unfold stop_begin. generalize (od_values (_running_tasks o)) at 2 as ks. generalize (od_values (_running_tasks o)) as w. intros w ks.
  eapply (quiet_trans _ (fold_right request_cancel (with_running false o) ks)); [|by apply quiet_same].
  induction ks as [|k ks IH]; cbn [fold_right]; [by apply quiet_same|]. eapply quiet_trans; [exact IH|].
  apply quiet_same; [apply cancel_tables|intros id; unfold executing; by rewrite at_position_cancel|intros id; by rewrite places_cancel].
Qed.

Definition starts ev o id : bool :=
  match ev with
  | RunStart k => match coroutine_at k o with Some (c, _) => is_task id (r_task c) && negb (r_cancelled c) | None => false end
  | _ => false
  end.
Definition ends_call ev : bool := match ev with RunEnd _ _ => true | _ => false end.

Lemma quiet_step ev o o' : orch_ok o -> step ev o = Some o' -> (forall id, starts ev o id = false) -> ends_call ev = false -> quiet o o'.
Proof.
  intros Hok Hst Hns Hne. pose proof Hok as (Hs & _ & Ht). destruct ev as [|i|id|id|id|idle|k|k e|k|k|k| |z]; cbn [step] in Hst.
  - injection Hst as <-. by apply quiet_same.
  - destruct (fresh_item i o) eqn:Ef; [|done]. injection Hst as <-. unfold fresh_item in Ef. apply andb_true_iff in Ef as [_ Ef].
    unfold od_mem in Ef. destruct (od_get (task_id i) (_tasks o)) eqn:En; [done|].
    intros id j Hj. assert (Hne' : task_id i ≠ id) by congruence. unfold submit. set (o1 := with_results _ _).
    assert (Hj1 : od_get id (_tasks o1) = Some j) by (cbn [o1 with_results set_item with_tasks _tasks]; by rewrite od_get_set_ne).
    destruct (queue_full o1); exists j; split_and!; try done; auto.
    + pose proof (places_submitting (submitting o1 ++ [task_id i]) o1 id) as E. rewrite count_app, count_cons, is_task_false in E by done.
      change (count (is_task id) []) with 0%nat in E. change (in_submit o1 id) with (count (is_task id) (submitting o1)) in E.
      change (places o1 id) with (places o id) in E. cbn [one] in E. lia.
    + rewrite places_push, is_task_false by done. change (places o1 id) with (places o id). cbn [one]. lia.
  - destruct (od_get id (_tasks o)) as [i|] eqn:Ei; [|done]. cbn [mbind option_bind] in Hst.
    destruct (bool_decide _ && _) eqn:E; [|done]. injection Hst as <-. apply andb_true_iff in E as [E%bool_decide_eq_true _].
    apply quiet_same; try done. intros x. rewrite places_push, (sh_ids _ Hs _ _ Ei).
    pose proof (places_submitting (remove_first id (submitting o)) o x) as P.
    rewrite count_remove_first, bool_decide_true in P by done. cbn [andb] in P. unfold in_submit in P.
    destruct (is_task x id) eqn:Ex; cbn [one] in *; [|lia]. assert (0 < count (is_task x) (submitting o))%nat; [|lia].
    apply count_pos. eauto.
  - destruct (bool_decide (id ∈ submitting o)) eqn:E; [|done]. injection Hst as <-. apply quiet_same; try done. intros x.
    pose proof (places_submitting (remove_first id (submitting o)) o x) as P. rewrite count_remove_first in P. unfold in_submit in P.
    change (places (mkOrch _ _ _ _ _ _ _ _ _ _) x) with (places (with_submitting (remove_first id (submitting o)) o) x). lia.
  - injection Hst as <-. by apply quiet_cancel.
  - destruct (_running o); [|done]. injection Hst as <-. by apply quiet_dispatch.
  - destruct (coroutine_at k o) as [[c i]|] eqn:E; [|done]. cbn [mbind option_bind] in Hst. case_bool_decide as Hp; [|done].
    injection Hst as <-. specialize (Hns (r_task c)). cbn [starts] in Hns. rewrite E, is_task_true in Hns.
    destruct (r_cancelled c); [|done]. apply coroutine_at_some in E as [Hk _]. apply (quiet_leave o k c Hk). by left.
  - done.
  - destruct (coroutine_at k o) as [[c i]|] eqn:E; [|done]. cbn [mbind option_bind] in Hst. case_bool_decide as Hp; [|done].
    cbn [andb] in Hst. destruct (negb (r_cancelled c) && _); [|done]. injection Hst as <-.
    apply coroutine_at_some in E as [Hk Hi]. assert (Hk1 : od_get k (coroutines (enqueue i o)) = Some c) by done.
    apply quiet_same; [by rewrite (proj1 (position_tables k Ended (enqueue i o)))|..]; intros id.
    + pose proof (at_position_set k Ended (enqueue i o) c Dispatching id Hk1) as E. rewrite Hp in E. cbn [pos_eqb andb one] in E.
      change (at_position Dispatching (enqueue i o) id) with (at_position Dispatching o id) in E. unfold executing. lia.
    + pose proof (places_position k Ended (enqueue i o) c id Hk1) as E. rewrite places_push, (sh_ids _ Hs _ _ Hi), Hp in E. cbn in E. lia.
  - destruct (coroutine_at k o) as [[c i]|] eqn:E; [|done]. cbn [mbind option_bind] in Hst. case_bool_decide as Hp; [|done].
    cbn [andb] in Hst. destruct (r_cancelled c); [|done]. injection Hst as <-. apply coroutine_at_some in E as [Hk _].
    apply (quiet_leave o k c Hk). by right.
  - destruct (od_get k (coroutines o)) as [c|] eqn:E; [|done]. cbn [mbind option_bind] in Hst. case_bool_decide as Hp; [|done].
    injection Hst as <-. apply quiet_same; [done|..]; intros id; [unfold executing; by rewrite at_position_forget|by rewrite places_forget].
  - injection Hst as <-. apply quiet_stop.
  - destruct (stop_waits o !! z); [|done]. cbn [mbind option_bind] in Hst. destruct (forallb _ _); [|done]. injection Hst as <-. by apply quiet_same.
Qed.

(** Attempts accounted for: the failed ones, and one more unless the task has
    failed or waits. *)
Definition used o id i : Z :=
  retries i + (if bool_decide (item_status i = FAILED) || ((executing o id =? 0) && (0 <? places o id))%nat then 0 else 1).

Lemma used_quiet o o' id i : quiet o o' -> od_get id (_tasks o) = Some i ->
  exists i', od_get id (_tasks o') = Some i' /\ max_retries i' = max_retries i /\ used o id i <= used o' id i'.
Proof.
  intros Hq Hi. destruct (Hq id i Hi) as (i' & Hi' & R & M & S & D & P). exists i'. split; [done|split; [done|]].
  unfold used. rewrite R, D. destruct (bool_decide (item_status i = FAILED)) eqn:E1; cbn [orb].
  - destruct (bool_decide (item_status i' = FAILED) || _); lia.
  - apply bool_decide_eq_false in E1. assert (E2 : bool_decide (item_status i' = FAILED) = false).
    { apply bool_decide_eq_false. destruct S as [-> |[-> _]]; done. }
    rewrite E2. cbn [orb]. destruct (Nat.eqb_spec (executing o id) 0), (Nat.ltb_spec 0 (places o id)), (Nat.ltb_spec 0 (places o' id)); cbn [andb]; lia.
Qed.

Lemma executing_le_places o id : (executing o id <= places o id)%nat.
Proof. unfold executing, places. lia. Qed.

(** A task another coroutine belongs to is not touched. *)
Lemma moved_other o o1 k p c x : od_get k (coroutines o) = Some c -> r_position c ≠ Ended -> coroutines o1 = coroutines o -> x ≠ r_task c ->
  executing (move_to k p o1) x = executing o x /\ places (move_to k p o1) x = places o1 x.
Proof.
  intros Hk Hp Hc Hx. assert (Hk1 : od_get k (coroutines o1) = Some c) by (by rewrite Hc).
  pose proof (at_position_set k p o1 c Dispatching x Hk1) as E1. pose proof (places_position k p o1 c x Hk1) as E2.
  rewrite is_task_false, !andb_false_r in E1, E2 by done. cbn [one] in *.
  assert (at_position Dispatching o1 x = at_position Dispatching o x) as E by (unfold at_position; by rewrite Hc).
  unfold executing. lia.
Qed.
Lemma executing_moved o o1 k p c : od_get k (coroutines o) = Some c -> coroutines o1 = coroutines o ->
  (executing (move_to k p o1) (r_task c) + one (pos_eqb (r_position c) Dispatching)
   = executing o (r_task c) + one (pos_eqb p Dispatching))%nat.
Proof.
  intros Hk Hc. assert (Hk1 : od_get k (coroutines o1) = Some c) by (by rewrite Hc).
  pose proof (at_position_set k p o1 c Dispatching (r_task c) Hk1) as E. rewrite is_task_true, !andb_true_r in E.
  assert (at_position Dispatching o1 (r_task c) = at_position Dispatching o (r_task c)) as E2 by (unfold at_position; by rewrite Hc).
  unfold executing. lia.
Qed.

Lemma used_start o k c i id j : orch_ok o -> coroutine_at k o = Some (c, i) -> r_position c = Created ->
  od_get id (_tasks o) = Some j -> exists j', od_get id (_tasks (run_start k c i o)) = Some j' /\ max_retries j' = max_retries j /\
    used o id j + Z.of_nat (one (is_task id (r_task c))) <= used (run_start k c i o) id j'.
Proof.
  intros Hok Hat Hp Hj. pose proof Hok as (Hs & _ & Ht). pose proof (coroutine_at_some _ _ _ _ Hat) as [Hk Hi].
  pose proof (sh_ids _ Hs _ _ Hi) as Hid. assert (Hp' : r_position c ≠ Ended) by (by rewrite Hp).
  unfold run_start. set (i' := mkItem _ _ _ _ _ _ _ _ _ _). set (o1 := set_item i' o).
  rewrite (proj1 (position_tables k Dispatching o1)). cbn [o1 set_item with_tasks _tasks]. fold o1.
  destruct (decide (id = r_task c)) as [->|Hne].
  - rewrite Hi in Hj. injection Hj as <-. exists i'. rewrite <- Hid at 1. split; [apply od_get_set_eq|split; [done|]].
    pose proof (executing_moved o o1 k Dispatching c Hk eq_refl) as E. rewrite Hp in E. cbn [pos_eqb one] in E.
    destruct (Ht _ _ Hi) as (f & _ & []). pose proof (places_live _ _ _ Hk Hp') as Hpos.
    assert (Hz : executing o (r_task c) = 0%nat).
    { pose proof (places_live _ _ _ Hk Hp'). assert (0 < at_position Created o (r_task c))%nat; [|unfold executing, places, waiting in *; lia].
      apply count_pos. exists (k, c). split; [by apply od_get_elem|]. cbn [snd]. by rewrite Hp, is_task_true. }
    unfold used. rewrite is_task_true, Hz. cbn [i' item_status retries one].
    rewrite (proj2 (Nat.ltb_lt 0 (places o (r_task c))) Hpos), orb_true_r.
    replace (executing (move_to k Dispatching o1) (r_task c)) with 1%nat by lia.
    rewrite (bool_decide_false (RUNNING = FAILED)) by done. cbn. lia.
  - exists j. rewrite od_get_set_ne by (cbn; congruence). split; [done|split; [done|]]. rewrite is_task_false by done.
    destruct (moved_other o o1 k Dispatching c id Hk Hp' eq_refl Hne) as [E1 E2]. unfold used. rewrite E1, E2.
    change (places o1 id) with (places o id). cbn [one]. lia.
Qed.

(** What a call's end leaves of its task: settled and gone, or one attempt less. *)
Lemma run_end_item o k c i e : orch_ok o -> coroutine_at k o = Some (c, i) -> r_position c = Dispatching ->
  exists o1 p i', run_end k e i o = move_to k p o1 /\ coroutines o1 = coroutines o /\ p ≠ Dispatching /\
    (forall x, x ≠ r_task c -> od_get x (_tasks o1) = od_get x (_tasks o) /\ places o1 x = places o x) /\
    od_get (r_task c) (_tasks o1) = Some i' /\ max_retries i' = max_retries i /\
    (retries i' = retries i + 1 /\ item_status i ≠ CANCELLED \/
     retries i' = retries i /\ places o1 (r_task c) = places o (r_task c) /\ p = Ended /\
     (item_status i' = COMPLETED /\ item_status i ≠ CANCELLED \/ item_status i' = CANCELLED)).
Proof.
  intros Hok Hat Hp. pose proof Hok as (Hs & _ & Ht). pose proof (coroutine_at_some _ _ _ _ Hat) as [Hk Hi].
  pose proof (sh_ids _ Hs _ _ Hi) as Hid. unfold run_end, is_status.
  assert (Hset : forall (j : TaskItem V), task_id j = r_task c -> od_get (r_task c) (_tasks (set_item j o)) = Some j /\
            forall x, x ≠ r_task c -> od_get x (_tasks (set_item j o)) = od_get x (_tasks o)).
  { intros j Hj. cbn [set_item with_tasks _tasks]. rewrite Hj. split; [apply od_get_set_eq|]. intros x Hx. by apply od_get_set_ne. }
  destruct (bool_decide (item_status i = CANCELLED)) eqn:Hst.
  { apply bool_decide_eq_true in Hst. exists o, Ended, i. split; [by destruct e|]. split_and!; try done. right; auto 10. }
  apply bool_decide_eq_false in Hst.
  assert (Hfail : forall msg, exists o1 p i', _handle_failure k i msg o = move_to k p o1 /\ coroutines o1 = coroutines o /\ p ≠ Dispatching /\
    (forall x, x ≠ r_task c -> od_get x (_tasks o1) = od_get x (_tasks o) /\ places o1 x = places o x) /\
    od_get (r_task c) (_tasks o1) = Some i' /\ max_retries i' = max_retries i /\ retries i' = retries i + 1).
  { intros msg. unfold _handle_failure. destruct (_ <? _).
    - set (i' := mkItem _ _ _ _ _ _ _ _ _ _). destruct (Hset i' Hid) as [E1 E2]. destruct (queue_full (set_item i' o)).
      + exists (set_item i' o), Putting, i'. split_and!; try done. intros x Hx. by rewrite E2.
      + exists (enqueue i' (set_item i' o)), Ended, i'. split_and!; try done. intros x Hx. split; [by apply E2|].
        rewrite places_push, is_task_false by (cbn; congruence). change (places (set_item i' o) x) with (places o x). cbn [one]. lia.
    - set (i' := mkItem _ _ _ _ _ _ _ _ _ _). set (m := _ +:+ _). destruct (Hset i' Hid) as [E1 E2].
      destruct (settle_tables (task_id i') (ExceptionSet m) (set_item i' o)) as (T & C & _).
      exists (settle_future (task_id i') (ExceptionSet m) (set_item i' o)), Ended, i'. rewrite T, C. split_and!; try done.
      intros x Hx. rewrite places_settle. by split; [apply E2|]. }
  destruct e as [v|msg| |].
  - set (i' := mkItem _ _ _ _ _ _ _ _ _ _). destruct (Hset i' Hid) as [E1 E2].
    destruct (settle_tables (task_id i) (ResultSet v) (set_item i' o)) as (T & C & _).
    exists (settle_future (task_id i) (ResultSet v) (set_item i' o)), Ended, i'. rewrite T, C, places_settle. split_and!; try done.
    + intros x Hx. rewrite places_settle. by split; [apply E2|].
    + right. split_and!; try done. by left.
  - destruct (Hfail msg) as (o1 & p & i' & ? & ? & ? & ? & ? & ? & ?). exists o1, p, i'. split_and!; try done. by left.
  - destruct (Hfail ("Timed out after " +:+ pretty.pretty (task_timeout (item_payload i)) +:+ "s")) as (o1 & p & i' & ? & ? & ? & ? & ? & ? & ?).
    exists o1, p, i'. split_and!; try done. by left.
  - set (i' := set_status CANCELLED i). destruct (Hset i' Hid) as [E1 E2]. exists (set_item i' o), Ended, i'. split_and!; try done.
    + intros x Hx. by rewrite E2.
    + right. split_and!; try done. by right.
Qed.

Lemma used_end o k c i e id j : orch_ok o -> coroutine_at k o = Some (c, i) -> r_position c = Dispatching ->
  od_get id (_tasks o) = Some j -> exists j', od_get id (_tasks (run_end k e i o)) = Some j' /\ max_retries j' = max_retries j /\
    used o id j <= used (run_end k e i o) id j'.
Proof.
  intros Hok Hat Hp Hj. pose proof Hok as (Hs & _ & Ht). pose proof (coroutine_at_some _ _ _ _ Hat) as [Hk Hi].
  assert (Hp' : r_position c ≠ Ended) by (by rewrite Hp).
  destruct (run_end_item o k c i e Hok Hat Hp) as (o1 & p & i' & E & Hc & Hpd & Hother & Hi' & Hm & Hcase). rewrite E.
  rewrite (proj1 (position_tables k p o1)). destruct (decide (id = r_task c)) as [->|Hne].
  - rewrite Hi in Hj. injection Hj as <-. exists i'. split; [done|split; [done|]].
    destruct (Ht _ _ Hi) as (f & _ & []). pose proof (places_live _ _ _ Hk Hp') as Hpos. destruct (tk_placed Hpos) as [Hlt Hst].
    unfold used. rewrite (bool_decide_false (item_status i = FAILED)) by (intros Hx; destruct Hst as [Hy|[Hy|Hy]]; congruence).
    pose proof (executing_moved o o1 k p c Hk Hc) as Hex. rewrite Hp in Hex. assert (pos_eqb p Dispatching = false) as Hpe by (by destruct p).
    rewrite Hpe in Hex. cbn [pos_eqb one] in Hex. assert (Hz : (executing o (r_task c) =? 0)%nat = false) by (apply Nat.eqb_neq; lia).
    rewrite Hz. cbn [orb andb]. destruct Hcase as [[-> _]|(-> & P1 & -> & Hst')]; [destruct (bool_decide _ || _); lia|].
    rewrite bool_decide_false by (destruct Hst' as [[-> _]| ->]; done). cbn [orb].
    assert (Hk1 : od_get k (coroutines o1) = Some c) by (by rewrite Hc).
    pose proof (places_position k Ended o1 c (r_task c) Hk1) as Hpl. rewrite is_task_true, Hp in Hpl. cbn in Hpl.
    replace (places (move_to k Ended o1) (r_task c)) with 0%nat by lia. rewrite andb_false_r. lia.
  - destruct (Hother id Hne) as [-> HP]. exists j. split; [done|split; [done|]].
    destruct (moved_other o o1 k p c id Hk Hp' Hc Hne) as [E1 E2]. unfold used. rewrite E1, E2, HP. lia.
Qed.

Lemma used_step ev o o' id i : orch_ok o -> step ev o = Some o' -> od_get id (_tasks o) = Some i ->
  exists i', od_get id (_tasks o') = Some i' /\ max_retries i' = max_retries i /\
    used o id i + Z.of_nat (one (starts ev o id)) <= used o' id i'.
Proof.
  intros Hok Hst Hi.
  assert (Hquiet : (forall x, starts ev o x = false) -> ends_call ev = false -> exists i', od_get id (_tasks o') = Some i' /\
            max_retries i' = max_retries i /\ used o id i + Z.of_nat (one (starts ev o id)) <= used o' id i').
  { intros Hs He. destruct (used_quiet o o' id i) as (i' & ? & ? & ?); [by eapply quiet_step|done|].
    exists i'. rewrite Hs. cbn [one]. split_and!; try done. lia. }
  destruct ev as [|j|x|x|x|idle|k|k e|k|k|k| |z]; try (by apply Hquiet).
  - cbn [step] in Hst. destruct (coroutine_at k o) as [[c j]|] eqn:Hat; [|done]. cbn [mbind option_bind] in Hst.
    case_bool_decide as Hp; [|done]. destruct (r_cancelled c) eqn:Ex.
    + apply Hquiet; [|done]. intros x. cbn [starts]. by rewrite Hat, Ex, andb_false_r.
    + injection Hst as <-. cbn [starts]. rewrite Hat, Ex, andb_true_r. by apply (used_start o k c j).
  - cbn [step] in Hst. destruct (coroutine_at k o) as [[c j]|] eqn:Hat; [|done]. cbn [mbind option_bind] in Hst.
    case_bool_decide as Hp; [|done]. injection Hst as <-. destruct (used_end o k c j e id i Hok Hat Hp Hi) as (i' & ? & ? & ?).
    exists i'. cbn [starts one]. split_and!; try done. lia.
Qed.

(** Executions of a task in a run. *)
Fixpoint executions id (evs : list (event V)) o : nat :=
  match evs with
  | [] => 0
  | ev :: evs => match step ev o with Some o' => one (starts ev o id) + executions id evs o' | None => 0 end
  end.

Lemma starts_known ev o id : shape_ok o -> od_get id (_tasks o) = None -> starts ev o id = false.
Proof.
  intros Hs Hn. destruct ev as [|j|x|x|x|idle|k|k e|k|k|k| |z]; try done. cbn [starts].
  destruct (coroutine_at k o) as [[c i]|] eqn:Hat; [|done]. apply coroutine_at_some in Hat as [_ Hi].
  rewrite is_task_false; [done|]. congruence.
Qed.

Lemma executions_used id evs o o' : orch_ok o -> run evs o = Some o' ->
  (forall i, od_get id (_tasks o) = Some i -> exists i', od_get id (_tasks o') = Some i' /\ max_retries i' = max_retries i /\
     used o id i + Z.of_nat (executions id evs o) <= used o' id i') /\
  (od_get id (_tasks o) = None -> forall i', od_get id (_tasks o') = Some i' -> Z.of_nat (executions id evs o) <= used o' id i').
Proof.
  revert o. induction evs as [|ev evs IH]; intros o Hok; cbn [run executions].
  - intros [= <-]. split; [intros i Hi; exists i; split_and!; try done; lia|intros ->; by intros].
  - destruct (step ev o) as [o1|] eqn:Hst; [|done]. cbn [mbind option_bind]. intros Hrun.
    pose proof (step_ok _ _ _ Hok Hst) as Hok1. destruct (IH o1 Hok1 Hrun) as [IH1 IH2]. split.
    + intros i Hi. destruct (used_step _ _ _ _ _ Hok Hst Hi) as (i1 & Hi1 & M1 & U1).
      destruct (IH1 i1 Hi1) as (i2 & Hi2 & M2 & U2). exists i2. split_and!; [done|congruence|lia].
    + intros Hn i' Hi'. rewrite (starts_known ev o id (proj1 Hok) Hn). cbn [one]. destruct (od_get id (_tasks o1)) as [i1|] eqn:Hi1; [|by apply IH2].
      destruct (IH1 i1 eq_refl) as (i2 & Hi2 & _ & U2). rewrite Hi' in Hi2. injection Hi2 as <-.
      destruct Hok1 as (_ & _ & Ht). destruct (Ht id i1 Hi1) as (f & _ & []). unfold used in U2 at 1.
      destruct (bool_decide _ || _) in U2; lia.
Qed.

(** C16: A task is executed at most [max(1, max_retries)] times in any run,
    whatever fails, times out, is cancelled or is stopped, and never by two
    coroutines at once; it has failed exactly when all its attempts have. *)
Theorem attempts_bounded evs o id i :
  run evs new_orchestrator = Some o -> od_get id (_tasks o) = Some i ->
  Z.of_nat (executions id evs new_orchestrator) <= Z.max 1 (max_retries i) /\ (executing o id <= 1)%nat /\
  (item_status i = FAILED <-> retries i = Z.max 1 (max_retries i)).
Proof.
  intros Hrun Hi. pose proof (run_ok _ _ _ new_ok Hrun) as (_ & _ & Ht). destruct (Ht id i Hi) as (f & _ & []).
  destruct (executions_used id evs new_orchestrator o new_ok Hrun) as [_ Hu]. specialize (Hu eq_refl i Hi).
  pose proof (executing_le_places o id). split; [|split; [lia|done]]. change (Z.max 1 (max_retries i)) with (limit i).
  etrans; [exact Hu|]. unfold used. destruct (bool_decide (item_status i = FAILED)) eqn:E; cbn [orb]; [lia|].
  apply bool_decide_eq_false in E. assert (retries i ≠ limit i) by tauto. destruct (_ && _); lia.
Qed.

(** ** When a cancellation is final *)

(** The passes see no coroutine that has ended without its callback, and no stop
    under way. *)
Definition all_heard o : bool :=
  forallb (fun kc => live (r_position kc.2)) (coroutines o) && match stop_waits o with [] => true | _ :: _ => false end.
Fixpoint prompt (evs : list (event V)) o : bool :=
  match evs with
  | [] => true
  | ev :: evs =>
    match ev with Cycle _ => all_heard o | _ => true end &&
    match step ev o with Some o' => prompt evs o' | None => true end
  end.

Lemma all_heard_spec o : all_heard o = true ->
  (forall k c, od_get k (coroutines o) = Some c -> r_position c ≠ Ended) /\ stop_waits o = [].
Proof.
  unfold all_heard. intros [H1 H2]%andb_true_iff. split; [|by destruct (stop_waits o)]. intros k c Hk Hp.
  rewrite forallb_forall in H1. apply od_get_elem, list_elem_of_In, H1 in Hk. cbn [snd] in Hk. by rewrite Hp in Hk.
Qed.

Record reach_ok o : Prop := {
  rc_table : forall k c, od_get k (coroutines o) = Some c -> r_position c ≠ Ended -> od_get (r_task c) (_running_tasks o) = Some k;
  rc_alone : forall k1 k2 c1 c2, od_get k1 (coroutines o) = Some c1 -> od_get k2 (coroutines o) = Some c2 -> r_task c1 = r_task c2 -> k1 = k2;
  rc_stop : forall ks k c, ks ∈ stop_waits o -> od_get k (coroutines o) = Some c -> r_position c ≠ Ended -> k ∈ ks;
  rc_flag : forall k c i, coroutine_at k o = Some (c, i) -> r_position c ≠ Ended -> item_status i = CANCELLED -> r_cancelled c = true }.

(** A segment that leaves the coroutines and the table, and cancels nothing. *)
Lemma reach_same o o' : reach_ok o -> coroutines o' = coroutines o -> _running_tasks o' = _running_tasks o -> stop_waits o' = stop_waits o ->
  (forall id i', od_get id (_tasks o') = Some i' -> (exists k c, od_get k (coroutines o) = Some c /\ r_task c = id) ->
     item_status i' = CANCELLED -> exists i, od_get id (_tasks o) = Some i /\ item_status i = CANCELLED) -> reach_ok o'.
Proof.
  intros [T A S F] C R W HT. split.
  - rewrite C, R. apply T.
  - rewrite C. apply A.
  - rewrite C, W. apply S.
  - intros k c i' Hat Hp Hst. apply coroutine_at_some in Hat as [Hk Hi']. rewrite C in Hk.
    destruct (HT (r_task c) i' Hi' ltac:(eauto) Hst) as (i & Hi & Hst'). apply (F k c i); try done.
    unfold coroutine_at. rewrite Hk. cbn [mbind option_bind]. by rewrite Hi.
Qed.

Lemma reach_position o o1 k p c : reach_ok o -> od_get k (coroutines o) = Some c -> r_position c ≠ Ended -> coroutines o1 = coroutines o ->
  _running_tasks o1 = _running_tasks o -> stop_waits o1 = stop_waits o ->
  (forall x, x ≠ r_task c -> od_get x (_tasks o1) = od_get x (_tasks o)) ->
  (p ≠ Ended -> forall i', od_get (r_task c) (_tasks o1) = Some i' -> item_status i' ≠ CANCELLED) ->
  reach_ok (move_to k p o1).
Proof.
  intros [T A S F] Hk Hp C R W Hother Hhere. assert (Hk1 : od_get k (coroutines o1) = Some c) by (by rewrite C).
  destruct (position_tables k p o1) as (E1 & _ & _ & E4 & _).
  assert (E5 : _running_tasks (move_to k p o1) = _running_tasks o1) by (unfold move_to; by rewrite Hk1).
  assert (E6 : forall k' c', od_get k' (coroutines (move_to k p o1)) = Some c' ->
            exists c0, od_get k' (coroutines o) = Some c0 /\ r_task c' = r_task c0 /\ r_cancelled c' = r_cancelled c0 /\
              (r_position c' ≠ Ended -> r_position c0 ≠ Ended) /\ (k' = k /\ r_position c' = p \/ k' ≠ k /\ c' = c0)).
  { intros k' c'. unfold move_to. rewrite Hk1. cbn [coroutines with_coroutines]. rewrite C, od_get_set. case_decide as Ed; [|eauto 10].
    subst k'. intros [= <-]. exists c. cbn. split_and!; auto. }
  split.
  - intros k' c' Hk' Hp'. destruct (E6 k' c' Hk') as (c0 & H0 & -> & _ & Hpp & _). rewrite E5, R. apply T; auto.
  - intros k1 k2 c1 c2 H1 H2 He. destruct (E6 k1 c1 H1) as (c3 & H3 & E3 & _), (E6 k2 c2 H2) as (c4 & H4 & E4' & _).
    apply (A k1 k2 c3 c4); try done. congruence.
  - intros ks k' c' Hw Hk' Hp'. destruct (E6 k' c' Hk') as (c0 & H0 & _ & _ & Hpp & _). rewrite E4, W in Hw. by apply (S ks k' c0); auto.
  - intros k' c' i' Hat Hp' Hst. apply coroutine_at_some in Hat as [Hk' Hi']. rewrite E1 in Hi'.
    destruct (E6 k' c' Hk') as (c0 & H0 & Et & Ex & Hpp & [[-> Epos]|[Hne ->]]).
    + assert (c0 = c) as -> by congruence. rewrite Et in Hi'. destruct (Hhere ltac:(congruence) i' Hi' Hst).
    + assert (Hno : r_task c0 ≠ r_task c) by (intros He; apply Hne; by apply (A k' k c0 c)).
      rewrite Hother in Hi' by done. apply (F k' c0 i'); [|by auto|done].
      unfold coroutine_at. rewrite H0. cbn [mbind option_bind]. by rewrite Hi'.
Qed.

(** Cancelling a task flags its coroutine. *)
Lemma requested k o k' c' : od_get k' (coroutines (request_cancel k o)) = Some c' ->
  exists c, od_get k' (coroutines o) = Some c /\ r_task c' = r_task c /\ r_position c' = r_position c /\
    (r_cancelled c = true -> r_cancelled c' = true) /\ (k' = k -> r_position c ≠ Ended -> r_cancelled c' = true).
Proof.
  unfold request_cancel. destruct (od_get k (coroutines o)) as [c|] eqn:Hk.
  2: { intros Hk'. exists c'. split_and!; try done. intros ->. congruence. }
  destruct (decide (r_position c = Ended)) as [He|He].
  { intros Hk'. exists c'. split_and!; try done. intros -> ?. assert (c' = c) as -> by congruence. done. }
  cbn [coroutines with_coroutines]. rewrite od_get_set. case_decide as E.
  - subst. intros [= <-]. exists c. by split_and!.
  - intros Hk'. exists c'. by split_and!.
Qed.
Lemma requested_all ks o k' c' : od_get k' (coroutines (fold_right request_cancel o ks)) = Some c' ->
  exists c, od_get k' (coroutines o) = Some c /\ r_task c' = r_task c /\ r_position c' = r_position c /\
    (r_cancelled c = true -> r_cancelled c' = true).
Proof.
  revert c'. induction ks as [|k ks IH]; intros c'; cbn [fold_right]; [by exists c'|].
  intros Hk. destruct (requested _ _ _ _ Hk) as (c1 & H1 & T1 & P1 & X1 & _). destruct (IH c1 H1) as (c & H0 & T0 & P0 & X0).
  exists c. split; [done|]. split; [congruence|]. split; [congruence|auto].
Qed.

Lemma reach_cancel o id : orch_ok o -> reach_ok o -> reach_ok (cancel id o).2.
Proof.
  intros Hok Hr. pose proof Hok as (Hs & _). unfold cancel. destruct (od_get id (_tasks o)) as [i|] eqn:Hi; [|done].
  pose proof (sh_ids _ Hs _ _ Hi) as Hid. destruct (is_status COMPLETED i || is_status FAILED i); [done|]. cbn [snd].
  set (o1 := set_item (set_status CANCELLED i) o).
  set (o2 := match od_get id (_running_tasks o1) with Some k => request_cancel k o1 | None => o1 end).
  assert (H2 : _tasks o2 = _tasks o1 /\ _running_tasks o2 = _running_tasks o /\ stop_waits o2 = stop_waits o /\
            forall k c', od_get k (coroutines o2) = Some c' -> exists c, od_get k (coroutines o) = Some c /\ r_task c' = r_task c /\
              r_position c' = r_position c /\ (r_cancelled c = true -> r_cancelled c' = true) /\
              (od_get id (_running_tasks o) = Some k -> r_position c ≠ Ended -> r_cancelled c' = true)).
  { unfold o2. change (_running_tasks o1) with (_running_tasks o). destruct (od_get id (_running_tasks o)) as [k|] eqn:Ek.
    - destruct (cancel_tables k o1) as (E1 & _ & _ & E4 & _). split; [done|]. split; [|split; [done|]].
      + unfold request_cancel. destruct (od_get k (coroutines o1)); [|done]. by case_decide.
      + intros k' c' Hk'. destruct (requested _ _ _ _ Hk') as (c & ? & ? & ? & ? & Hx). exists c. split_and!; try done.
        intros [= <-]. by apply Hx.
    - split_and!; try done. intros k c' Hk. exists c'. by split_and!. }
  destruct H2 as (T2 & R2 & W2 & C2). destruct (settle_tables id FutureCancelled o2) as (T3 & C3 & _ & _ & _ & W3).
  assert (R3 : _running_tasks (settle_future id FutureCancelled o2) = _running_tasks o).
  { rewrite <- R2. unfold settle_future. by destruct (od_get id (_results o2)) as [[]|]. }
  destruct Hr as [T A S F]. split; rewrite ?C3, ?R3, ?W3, ?W2.
  - intros k c' Hk Hp. destruct (C2 k c' Hk) as (c & Hk0 & -> & Ep & _). apply T; [done|congruence].
  - intros k1 k2 c1 c2 H1 H2 He. destruct (C2 _ _ H1) as (c3 & H3 & E3 & _), (C2 _ _ H2) as (c4 & H4 & E4 & _).
    apply (A k1 k2 c3 c4); try done. congruence.
  - intros ks k c' Hw Hk Hp. destruct (C2 k c' Hk) as (c & Hk0 & _ & Ep & _). apply (S ks k c); try done. congruence.
  - intros k c' i' Hat Hp Hst. apply coroutine_at_some in Hat as [Hk Hi']. rewrite C3 in Hk. rewrite T3, T2 in Hi'.
    destruct (C2 k c' Hk) as (c & Hk0 & Et & Ep & Hx & Hflag). rewrite Et in Hi'. rewrite Ep in Hp.
    destruct (decide (r_task c = id)) as [Ec|Ec].
    + apply Hflag; [|done]. rewrite <- Ec. by apply T.
    + apply Hx. cbn [o1 set_item with_tasks _tasks] in Hi'. rewrite od_get_set_ne in Hi' by (cbn; congruence).
      apply (F k c i'); try done. unfold coroutine_at. rewrite Hk0. cbn [mbind option_bind]. by rewrite Hi'.
Qed.

Lemma reach_dispatch fuel idle o : orch_ok o -> reach_ok o ->
  (forall k c, od_get k (coroutines o) = Some c -> r_position c ≠ Ended) -> stop_waits o = [] ->
  reach_ok (dispatch_pass fuel idle o).
Proof.
  intros Hok Hr Hlive Hw. revert o Hok Hr Hlive Hw. induction fuel as [|fuel IH]; intros o Hok Hr Hlive Hw; [done|]. cbn [dispatch_pass].
  destruct idle as [|agent idle]; [done|]. destruct (heappop entry_lt (_queue o)) as [[e q]|] eqn:Ep; [|done].
  pose proof Hok as (Hs & Hc & Ht). destruct (pop_item _ _ _ Hs Ep) as (i & Hi & _). rewrite Hi.
  pose proof (sh_pop _ _ _ Hs Ep) as Hs'. unfold is_status. destruct (bool_decide (item_status i = CANCELLED)) eqn:Hst.
  - apply bool_decide_eq_true in Hst. apply IH; try done; [|by apply (reach_same o); eauto].
    apply (segment_ok o _ (e_task e) i Hok Hi); try done.
    + intros x Hx. rewrite (places_pop _ _ _ x Hs Ep), is_task_false by done. split_and!; done || (cbn; lia).
    + intros f Hf Htk. exists i, f. split; [done|split; [done|]]. eapply task_ok_cancelled; [|done|exact Htk].
      rewrite (places_pop _ _ _ (e_task e) Hs Ep). lia.
  - apply bool_decide_eq_false in Hst.
    assert (Hnone : forall k c, od_get k (coroutines o) = Some c -> r_task c ≠ e_task e).
    { intros k c Hk He. destruct (Ht _ _ Hi) as (f & _ & []). pose proof (places_live _ _ _ Hk (Hlive k c Hk)) as Hl.
      rewrite He in Hl. pose proof (places_pop _ _ _ (e_task e) Hs Ep) as P. rewrite is_task_true in P.
      assert (Hk' : od_get k (coroutines (with_queue q o)) = Some c) by done.
      pose proof (places_live _ _ _ Hk' (Hlive k c Hk)) as Hl'. rewrite He in Hl'. cbn [one] in P. lia. }
    destruct Hr as [T A S F]. assert (Hn : od_get (next_coroutine o) (coroutines o) = None).
    { destruct (od_get (next_coroutine o) (coroutines o)) as [c|] eqn:Ec; [|done]. apply (sh_coroutines _ Hs) in Ec as [? _]. lia. }
    split; cbn [create_task with_queue coroutines _running_tasks stop_waits next_coroutine].
    + intros k c. rewrite od_get_set. case_decide as E; [subst; intros [= <-] _; apply od_get_set_eq|].
      intros Hk Hp. rewrite od_get_set_ne; [by apply T|]. intros He. by apply (Hnone k c).
    + intros k1 k2 c1 c2. rewrite !od_get_set. case_decide as E1; case_decide as E2; try congruence.
      * intros [= <-] H2 He. destruct (Hnone k2 c2 H2). by symmetry.
      * intros H1 [= <-] He. by destruct (Hnone k1 c1 H1).
      * apply A.
    + intros ks k c Hks. cbn in Hks. rewrite Hw in Hks. by apply not_elem_of_nil in Hks.
    + intros k c i' Hat Hp Hst'. apply coroutine_at_some in Hat as [Hk Hi']. cbn [create_task with_queue coroutines _tasks next_coroutine] in *.
      rewrite od_get_set in Hk. case_decide as E; [injection Hk as <-; cbn in Hi'; congruence|].
      apply (F k c i'); try done. unfold coroutine_at. rewrite Hk. cbn [mbind option_bind]. by rewrite Hi'.
Qed.

Lemma reach_stop_begin o : orch_ok o -> reach_ok o -> reach_ok (stop_begin o).
Proof.
  intros (Hs & _ & _) [T A S F]. unfold stop_begin. set (ks := od_values (_running_tasks o)).
  set (o1 := fold_right request_cancel (with_running false o) ks).
  assert (E : _tasks o1 = _tasks o /\ _running_tasks o1 = _running_tasks o).
  { unfold o1. generalize ks as l. induction l as [|k l [IH1 IH2]]; cbn [fold_right]; [done|].
    split; [by rewrite (proj1 (cancel_tables k _))|]. rewrite <- IH2. unfold request_cancel. destruct (od_get k _); [|done]. by case_decide. }
  destruct E as [E1 E2]. split; cbn [with_stop_waits coroutines _running_tasks stop_waits].
  - intros k c' Hk Hp. destruct (requested_all _ _ _ _ Hk) as (c & Hk0 & -> & Ep & _). rewrite E2. apply T; [done|congruence].
  - intros k1 k2 c1 c2 H1 H2 He. destruct (requested_all _ _ _ _ H1) as (c3 & H3 & E3 & _), (requested_all _ _ _ _ H2) as (c4 & H4 & E4 & _).
    apply (A k1 k2 c3 c4); try done. congruence.
  - intros ks' k c' Hks Hk Hp. destruct (requested_all _ _ _ _ Hk) as (c & Hk0 & _ & Ep & _).
    apply elem_of_app in Hks as [Hks|Hks%list_elem_of_singleton]; [apply (S ks' k c Hks Hk0); congruence|]. subst ks'.
    apply list_elem_of_fmap. exists (r_task c, k). split; [done|]. apply od_get_elem, T; [done|congruence].
  - intros k c' i' Hat Hp Hst. apply coroutine_at_some in Hat as [Hk Hi']. cbn [with_stop_waits coroutines _tasks] in *.
    destruct (requested_all _ _ _ _ Hk) as (c & Hk0 & Et & Ep & Hx). rewrite E1, Et in Hi'. change (coroutines (with_running false o)) with (coroutines o) in Hk0. apply Hx, (F k c i'); [|congruence|done].
    unfold coroutine_at. rewrite Hk0. cbn [mbind option_bind]. by rewrite Hi'.
Qed.

Definition keeps_cancelled o o' : Prop := forall id i, od_get id (_tasks o) = Some i -> item_status i = CANCELLED ->
  exists i', od_get id (_tasks o') = Some i' /\ item_status i' = CANCELLED.

Lemma quiet_keeps o o' : quiet o o' -> keeps_cancelled o o'.
Proof.
  intros Hq id i Hi Hst. destruct (Hq id i Hi) as (i' & Hi' & _ & _ & S & _). exists i'. split; [done|].
  destruct S as [S|[S _]]; congruence.
Qed.

(** A call's end, for the coroutines: one ends or moves, and a task that is
    cancelled stays so. *)
Lemma reach_end o k c i e : orch_ok o -> reach_ok o -> coroutine_at k o = Some (c, i) -> r_position c = Dispatching ->
  reach_ok (run_end k e i o) /\ keeps_cancelled o (run_end k e i o).
Proof.
  intros Hok Hr Hat Hp. pose proof (coroutine_at_some _ _ _ _ Hat) as [Hk Hi]. pose proof (sh_ids _ (proj1 Hok) _ _ Hi) as Hid.
  assert (Hp' : r_position c ≠ Ended) by (by rewrite Hp).
  unfold run_end, is_status. destruct (bool_decide (item_status i = CANCELLED)) eqn:Hst.
  { assert (Hgo : reach_ok (move_to k Ended o) /\ keeps_cancelled o (move_to k Ended o)); [|by destruct e].
    split; [by apply (reach_position o o k Ended c)|]. intros id j Hj Hj'. exists j. by rewrite (proj1 (position_tables k Ended o)). }
  apply bool_decide_eq_false in Hst.
  assert (Hitem : forall (j : TaskItem V) o1 p, task_id j = r_task c -> coroutines o1 = coroutines o -> _running_tasks o1 = _running_tasks o ->
            stop_waits o1 = stop_waits o -> _tasks o1 = od_set (task_id j) j (_tasks o) -> (p ≠ Ended -> item_status j ≠ CANCELLED) ->
            reach_ok (move_to k p o1) /\ keeps_cancelled o (move_to k p o1)).
  { intros j o1 p Hj C R W T Hpj. split.
    - apply (reach_position o o1 k p c); try done.
      + intros x Hx. rewrite T, Hj. by apply od_get_set_ne.
      + intros Hpe i'. rewrite T, Hj, od_get_set_eq. intros [= <-]. auto.
    - intros id j' Hj' Hst'. rewrite (proj1 (position_tables k p o1)), T, Hj. exists j'.
      rewrite od_get_set_ne; [done|]. intros <-. congruence. }
  assert (Htab : forall id f (o1 : TaskOrchestrator V), _running_tasks (settle_future id f o1) = _running_tasks o1)
    by (intros id f o1; unfold settle_future; by destruct (od_get id (_results o1)) as [[]|]).
  assert (Hfail : forall msg, reach_ok (_handle_failure k i msg o) /\ keeps_cancelled o (_handle_failure k i msg o)).
  { intros msg. unfold _handle_failure. destruct (_ <? _).
    - set (i' := mkItem _ _ _ _ _ _ _ _ _ _). destruct (queue_full (set_item i' o)); by apply (Hitem i').
    - set (i' := mkItem _ _ _ _ _ _ _ _ _ _). destruct (settle_tables (task_id i') (ExceptionSet ("Task failed after " +:+ pretty.pretty (retries i + 1) +:+ " attempts: " +:+ msg)) (set_item i' o)) as (T & C & _ & _ & _ & W).
      apply (Hitem i'); rewrite ?T, ?C, ?W, ?Htab; done. }
  destruct e as [v|msg| |]; [|apply Hfail..|by apply (Hitem (set_status CANCELLED i))].
  set (i' := mkItem _ _ _ _ _ _ _ _ _ _). destruct (settle_tables (task_id i) (ResultSet v) (set_item i' o)) as (T & C & _ & _ & _ & W).
  apply (Hitem i'); rewrite ?T, ?C, ?W, ?Htab; done.
Qed.

Lemma reach_step ev o o' : orch_ok o -> reach_ok o ->
  match ev with Cycle _ => all_heard o | _ => true end = true -> step ev o = Some o' -> reach_ok o' /\ keeps_cancelled o o'.
Proof.
  intros Hok Hr Hpr Hst.
  assert (Hkeep : (forall id, starts ev o id = false) -> ends_call ev = false -> reach_ok o' -> reach_ok o' /\ keeps_cancelled o o').
  { intros H1 H2 H3. split; [done|]. apply quiet_keeps. by eapply quiet_step. }
  pose proof Hok as (Hs & _ & _). destruct ev as [|i|id|id|id|idle|k|k e|k|k|k| |z]; cbn [step] in Hst.
  - apply Hkeep; try done. injection Hst as <-. apply (reach_same o); eauto.
  - apply Hkeep; try done. destruct (fresh_item i o) eqn:Ef; [|done]. injection Hst as <-.
    unfold fresh_item in Ef. apply andb_true_iff in Ef as [Ef1 Ef]. apply bool_decide_eq_true in Ef1 as [_ Hq].
    unfold submit. set (o1 := with_results _ _).
    assert (HT : forall id i', od_get id (_tasks o1) = Some i' -> item_status i' = CANCELLED -> exists j, od_get id (_tasks o) = Some j /\ item_status j = CANCELLED).
    { intros id i'. cbn [o1 with_results set_item with_tasks _tasks]. rewrite od_get_set. case_decide; [intros [= <-]; congruence|eauto]. }
    destruct (queue_full o1); apply (reach_same o); try done; eauto.
  - apply Hkeep; try done. destruct (od_get id (_tasks o)) as [i|]; [|done]. cbn [mbind option_bind] in Hst.
    destruct (_ && _); [|done]. injection Hst as <-. apply (reach_same o); eauto.
  - apply Hkeep; try done. destruct (bool_decide _); [|done]. injection Hst as <-. apply (reach_same o); eauto.
  - apply Hkeep; try done. injection Hst as <-. by apply reach_cancel.
  - apply Hkeep; try done. destruct (_running o); [|done]. injection Hst as <-. apply all_heard_spec in Hpr as [? ?]. by apply reach_dispatch.
  - destruct (coroutine_at k o) as [[c i]|] eqn:Hat; [|done]. cbn [mbind option_bind] in Hst. case_bool_decide as Hp; [|done].
    injection Hst as <-. pose proof (coroutine_at_some _ _ _ _ Hat) as [Hk Hi]. assert (Hp' : r_position c ≠ Ended) by (by rewrite Hp).
    destruct (r_cancelled c) eqn:Ex.
    + apply Hkeep; [|done|by apply (reach_position o o k Ended c)]. intros x. cbn [starts]. by rewrite Hat, Ex, andb_false_r.
    + pose proof (sh_ids _ Hs _ _ Hi) as Hid. unfold run_start. set (i' := mkItem _ _ _ _ _ _ _ _ _ _). split.
      * apply (reach_position o (set_item i' o) k Dispatching c); try done; cbn [set_item with_tasks _tasks i' task_id]; rewrite Hid.
        -- intros x Hx. by apply od_get_set_ne.
        -- intros _ j. rewrite od_get_set_eq. by intros [= <-].
      * intros id j Hj Hst. rewrite (proj1 (position_tables k Dispatching (set_item i' o))). cbn [set_item with_tasks _tasks i' task_id].
        rewrite Hid. exists j. rewrite od_get_set_ne; [done|]. intros <-. rewrite Hi in Hj. injection Hj as <-.
        rewrite (rc_flag _ Hr k c i Hat Hp' Hst) in Ex. done.
  - destruct (coroutine_at k o) as [[c i]|] eqn:Hat; [|done]. cbn [mbind option_bind] in Hst. case_bool_decide as Hp; [|done].
    injection Hst as <-. by apply (reach_end o k c i e).
  - apply Hkeep; try done. destruct (coroutine_at k o) as [[c i]|] eqn:Hat; [|done]. cbn [mbind option_bind] in Hst.
    case_bool_decide as Hp; [|done]. cbn [andb] in Hst. destruct (negb (r_cancelled c) && _); [|done]. injection Hst as <-.
    apply coroutine_at_some in Hat as [Hk _]. apply (reach_position o (enqueue i o) k Ended c); try done. by rewrite Hp.
  - apply Hkeep; try done. destruct (coroutine_at k o) as [[c i]|] eqn:Hat; [|done]. cbn [mbind option_bind] in Hst.
    case_bool_decide as Hp; [|done]. cbn [andb] in Hst. destruct (r_cancelled c); [|done]. injection Hst as <-.
    apply coroutine_at_some in Hat as [Hk _]. apply (reach_position o o k Ended c); try done. by rewrite Hp.
  - apply Hkeep; try done. destruct (od_get k (coroutines o)) as [c|] eqn:Hk; [|done]. cbn [mbind option_bind] in Hst.
    case_bool_decide as Hp; [|done]. injection Hst as <-. destruct Hr as [T A S F].
    assert (C : forall k' c', od_get k' (od_del k (coroutines o)) = Some c' -> k' ≠ k /\ od_get k' (coroutines o) = Some c')
      by (intros k' c'; apply od_get_del_some_any, Hs).
    split; cbn [_forget_task with_coroutines with_table coroutines _running_tasks stop_waits].
    + intros k' c' H' Hp'. apply C in H' as [Hne H']. rewrite od_get_del_ne; [by apply T|]. intros He. apply Hne. by apply (A k' k c' c).
    + intros k1 k2 c1 c2 H1 H2. apply C in H1 as [_ H1]. apply C in H2 as [_ H2]. by apply A.
    + intros ks k' c' Hw H' Hp'. apply C in H' as [_ H']. by apply (S ks k' c').
    + intros k' c' i' Hat Hp' Hst. apply coroutine_at_some in Hat as [H' Hi'].
      change (_tasks (_forget_task k (r_task c) o)) with (_tasks o) in Hi'. apply C in H' as [_ H'].
      apply (F k' c' i'); try done. unfold coroutine_at. rewrite H'. cbn [mbind option_bind]. by rewrite Hi'.
  - apply Hkeep; try done. injection Hst as <-. by apply reach_stop_begin.
  - apply Hkeep; try done. destruct (stop_waits o !! z) as [ks|] eqn:Hw; [|done]. apply list_elem_of_lookup_2 in Hw. cbn [mbind option_bind] in Hst.
    destruct (forallb _ _) eqn:Hall; [|done]. injection Hst as <-.
    assert (Hnone : forall k c, od_get k (coroutines o) = Some c -> r_position c = Ended).
    { intros k c Hk. destruct (decide (r_position c = Ended)) as [|Hp]; [done|]. pose proof (rc_stop _ Hr ks k c Hw Hk Hp) as Hin.
      rewrite forallb_forall in Hall. apply list_elem_of_In in Hin. apply Hall in Hin. unfold has_ended in Hin. rewrite Hk in Hin.
      by apply bool_decide_eq_true in Hin. }
    destruct Hr as [T A S F]. split; cbn [stop_end with_stop_waits with_results with_table coroutines _running_tasks stop_waits].
    + intros k c Hk Hp. by destruct Hp; eapply Hnone.
    + exact A.
    + intros ks' k c _ Hk Hp. by destruct Hp; eapply Hnone.
    + intros k c i Hat Hp _. apply coroutine_at_some in Hat as [Hk _]. by destruct Hp; eapply Hnone.
Qed.

Lemma reach_run evs o o' : orch_ok o -> reach_ok o -> prompt evs o = true -> run evs o = Some o' -> reach_ok o' /\ keeps_cancelled o o'.
Proof.
  revert o. induction evs as [|ev evs IH]; intros o Hok Hr; cbn [prompt run].
  - intros _ [= <-]. split; [done|]. intros id i ? ?. by exists i.
  - intros [Hev Hpr]%andb_true_iff. destruct (step ev o) as [o1|] eqn:Hst; [|done]. cbn [mbind option_bind]. intros Hrun.
    destruct (reach_step ev o o1 Hok Hr Hev Hst) as [Hr1 Hk1]. destruct (IH o1 (step_ok _ _ _ Hok Hst) Hr1 Hpr Hrun) as [Hr2 Hk2].
    split; [done|]. intros id i Hi Hc. destruct (Hk1 id i Hi Hc) as (i1 & Hi1 & Hc1). by eapply Hk2.
Qed.

Lemma prompt_app evs1 evs2 o o1 : run evs1 o = Some o1 -> prompt (evs1 ++ evs2) o = true -> prompt evs1 o = true /\ prompt evs2 o1 = true.
Proof.
  revert o. induction evs1 as [|ev evs1 IH]; intros o; cbn [run prompt app]; [by intros [= ->]|].
  destruct (step ev o) as [o2|]; [|done]. cbn [mbind option_bind]. intros Hrun [Hev Hpr]%andb_true_iff. destruct (IH o2 Hrun Hpr) as [H1 H2].
  rewrite Hev, H1. done.
Qed.

(** C17: As long as every pass of the dispatch loop comes after the callbacks of
    the coroutines that have ended and not during a stop, a cancellation is
    final: once a task is cancelled it stays cancelled, and a coroutine that has
    been created for it does not start its call. *)
Theorem cancelled_is_final evs1 evs2 o1 o2 id i :
  run evs1 new_orchestrator = Some o1 -> run evs2 o1 = Some o2 -> prompt (evs1 ++ evs2) new_orchestrator = true ->
  od_get id (_tasks o1) = Some i -> item_status i = CANCELLED ->
  (exists i', od_get id (_tasks o2) = Some i' /\ item_status i' = CANCELLED) /\
  (forall ev o3, step ev o2 = Some o3 -> starts ev o2 id = false).
Proof.
  intros H1 H2 Hp Hi Hc. destruct (prompt_app _ _ _ _ H1 Hp) as [Hp1 Hp2].
  assert (Hnew : reach_ok (new_orchestrator (V := V))) by (by split).
  pose proof (run_ok _ _ _ new_ok H1) as Hok1. pose proof (run_ok _ _ _ Hok1 H2) as Hok2.
  destruct (reach_run _ _ _ new_ok Hnew Hp1 H1) as [Hr1 _]. destruct (reach_run _ _ _ Hok1 Hr1 Hp2 H2) as [Hr2 Hk].
  destruct (Hk id i Hi Hc) as (i2 & Hi2 & Hc2). split; [by exists i2|]. intros ev o3 Hst.
  destruct ev as [|j|x|x|x|idle|k|k e|k|k|k| |z]; try done. cbn [starts step] in *.
  destruct (coroutine_at k o2) as [[c j]|] eqn:Hat; [|done]. cbn [mbind option_bind] in Hst. case_bool_decide as Hp0; [|done].
  pose proof (coroutine_at_some _ _ _ _ Hat) as [_ Hj]. unfold is_task. case_bool_decide as E; [|done]. cbn [andb].
  rewrite E, Hi2 in Hj. injection Hj as <-. by rewrite (rc_flag _ Hr2 k c i2 Hat) by (by rewrite ?Hp0).
Qed.
End Safety.

(** Concrete runs. *)
Module TaskDemo.
Definition item (id : string) (p : TaskPriority) (now : Q) (attempts : Z) : TaskItem Z :=
  new_item id now p "summarise" None None attempts DEFAULT_TIMEOUT.
(** Two tasks; the urgent one fails once, is retried and completes; the other
    waits and is cancelled. *)
Definition evs : list (event Z) :=
  [Start; Submit (item "slow" LOW 1 1); Submit (item "urgent" CRITICAL 2 3); Cycle ["a1"]; RunStart 0; RunEnd 0 (Raised "busy");
   Forget 0; Cycle ["a1"]; RunStart 1; RunEnd 1 (Returned 42); CancelTask "slow"; Forget 1].
Definition more : list (event Z) := [Cycle ["a1"]].
Definition after : option (TaskOrchestrator Z) := run evs new_orchestrator.
Definition final_state : TaskOrchestrator Z := match after with Some o => o | None => new_orchestrator end.

Example statuses : (fun kv => (kv.1, item_status kv.2, retries kv.2)) <$> _tasks final_state = [("slow", CANCELLED, 0); ("urgent", COMPLETED, 1)].
Proof. vm_compute. reflexivity. Qed.
Example futures : _results final_state = [("slow", FutureCancelled); ("urgent", ResultSet 42)].
Proof. vm_compute. reflexivity. Qed.

Lemma tasks_settle_witness : exists ws o', works final_state ws o' /\ stuck o'.
Proof. apply (tasks_settle evs final_state); vm_compute; reflexivity. Defined.

Definition two : TaskOrchestrator Z :=
  match run (take 3 evs) new_orchestrator with Some o => o | None => new_orchestrator end.
Lemma dispatch_picks_first_witness :
  exists e i, e ∈ _queue two /\ od_get (e_task e) (_tasks two) = Some i /\ e_task e = "urgent".
Proof.
  destruct (dispatch_picks_first (take 3 evs) two "a1" [] (_dispatch_loop ["a1"] two)) as [(H & _)|(e & i & He & Hi & _ & Hc & _)];
    [vm_compute; reflexivity..| |].
  - exfalso. apply Forall_inv in H as (i & Hi & Hs). vm_compute in Hi. injection Hi as <-. discriminate Hs.
  - exists e, i. split; [done|split; [done|]]. vm_compute in Hc. by injection Hc.
Defined.

Definition urgent : TaskItem Z :=
  match od_get "urgent" (_tasks final_state) with Some i => i | None => item "" LOW 0 0 end.
Lemma attempts_bounded_witness : Z.of_nat (executions "urgent" evs new_orchestrator) <= 3.
Proof. apply (attempts_bounded evs final_state "urgent" urgent); vm_compute; reflexivity. Defined.

Definition cancelled_item : TaskItem Z :=
  match od_get "slow" (_tasks final_state) with Some i => i | None => item "" LOW 0 0 end.
Definition later : TaskOrchestrator Z := match run more final_state with Some o => o | None => final_state end.
Lemma cancelled_is_final_witness : exists i', od_get "slow" (_tasks later) = Some i' /\ item_status i' = CANCELLED.
Proof.
  apply (cancelled_is_final evs more final_state later "slow" cancelled_item); try (vm_compute; reflexivity).
Defined.

(** A pass between a coroutine's end and its callback: the callback then drops the
    new coroutine from the table, and a cancelled task runs and completes. *)
Definition race_events : list (event Z) :=
  [Start; Submit (item "t" NORMAL 1 3); Cycle ["a1"]; RunStart 0; RunEnd 0 (Raised "busy"); Cycle ["a1"]; Forget 0;
   CancelTask "t"; RunStart 1; RunEnd 1 (Returned 7)].
Example cancelled_task_completes :
  (fun o => (fun kv => (item_status kv.2, item_result kv.2)) <$> _tasks o) <$> run race_events new_orchestrator = Some [(COMPLETED, Some 7)].
Proof. vm_compute. reflexivity. Qed.

(** A call that ends in a cancellation nobody asked for leaves the future open. *)
Example cancelled_call_leaves_future :
  (fun o => (_results o, get_result "t" o)) <$>
    run [Start; Submit (item "t" NORMAL 1 3); Cycle ["a1"]; RunStart 0; RunEnd 0 CallCancelled; Forget 0] new_orchestrator
  = Some ([("t", Pending)], StillPending).
Proof. vm_compute. reflexivity. Qed.
End TaskDemo.
