(* ===== verification/Memory.v ===== *)
(** Conversation memory: [coreai/memory_manager.py], the window of messages the
    kernel keeps for every agent, and [AgentContext] of
    [agents/autonomous_agent.py], the window an agent keeps for itself. A string
    is its sequence of characters; the clock readings of one call are one. *)
From S2P Require Import Prelude.

(** [xs[i:]], with a negative [i] counted from the end. *)
Definition slice_from {A} (i : Z) (l : list A) : list A :=
  if i <? 0 then drop (Z.to_nat (Z.of_nat (length l) + i)) l else drop (Z.to_nat i) l.

Definition py_len (s : string) : Z := Z.of_nat (String.length s).
Definition estimate (s : string) : Z := Z.max 1 (py_len s / 4).
Definition truthy (s : option string) : bool := match s with None | Some "" => false | Some _ => true end.

(** ** The memory manager *)
Record Message := mkMessage { role : string; content : string; timestamp : Q; token_estimate : Z }.
Definition new_message (r c : string) (now : Q) (tokens : Z) : Message :=
  mkMessage r c now (if tokens =? 0 then estimate c else tokens).

Record ContextWindow := mkWindow {
  agent_id : string; messages : list Message; max_tokens : Z; system_prompt : option string;
  created_at : Q; last_updated : Q }.
Definition with_messages (l : list Message) (w : ContextWindow) : ContextWindow :=
  mkWindow (agent_id w) l (max_tokens w) (system_prompt w) (created_at w) (last_updated w).

Definition tokens_of (l : list Message) : Z := fold_right (fun m n => token_estimate m + n) 0 l.
Definition prompt_tokens (w : ContextWindow) : Z :=
  if truthy (system_prompt w) then estimate (default "" (system_prompt w)) else 0.
Definition token_count (w : ContextWindow) : Z := tokens_of (messages w) + prompt_tokens w.
Definition is_over_limit (w : ContextWindow) : bool := max_tokens w <? token_count w.

(** What the provider API is sent: pairs of a role and a content. *)
Abbreviation turn := (string * string)%type.
Definition turn_of (m : Message) : turn := (role m, content m).
Definition to_list (w : ContextWindow) : list turn :=
  (if truthy (system_prompt w) then [("system", default "" (system_prompt w))] else []) ++ (turn_of <$> messages w).

Record MemoryManager := mkManager {
  default_max_tokens : Z; windows : list (string * ContextWindow);
  total_messages_added : Z; total_trims : Z; running : bool }.
Definition new_memory_manager (limit : Z) : MemoryManager := mkManager limit [] 0 0 false.
Definition set_running (b : bool) (s : MemoryManager) : MemoryManager :=
  mkManager (default_max_tokens s) (windows s) (total_messages_added s) (total_trims s) b.
Definition with_windows (l : list (string * ContextWindow)) (s : MemoryManager) : MemoryManager :=
  mkManager (default_max_tokens s) l (total_messages_added s) (total_trims s) (running s).

Definition get_or_create (now : Q) (a : string) (prompt : option string) (s : MemoryManager) : ContextWindow * MemoryManager :=
  match od_get a (windows s) with
  | Some w => (w, s)
  | None =>
    let w := mkWindow a [] (default_max_tokens s) prompt now now in
    (w, with_windows (od_set a w (windows s)) s)
  end.

Definition min_keep : nat := 4.
Fixpoint trim_loop (w : ContextWindow) (l : list Message) : list Message :=
  match l with
  | [] => []
  | _ :: rest => if is_over_limit (with_messages l w) && (min_keep <? length l)%nat then trim_loop w rest else l
  end.
(** The trimmed window and how many messages went. *)
Definition _trim (w : ContextWindow) : ContextWindow * Z :=
  let l := trim_loop w (messages w) in
  (with_messages l w, Z.of_nat (length (messages w)) - Z.of_nat (length l)).

Definition add_message (now : Q) (a r c : string) (s : MemoryManager) : MemoryManager :=
  let '(w, s) := get_or_create now a None s in
  let w := mkWindow (agent_id w) (messages w ++ [new_message r c now 0]) (max_tokens w) (system_prompt w) (created_at w) now in
  let '(w, trimmed) := if is_over_limit w then _trim w else (w, 0) in
  mkManager (default_max_tokens s) (od_set a w (windows s)) (total_messages_added s + 1)
            (if 0 <? trimmed then total_trims s + trimmed else total_trims s) (running s).

Definition get_context (a : string) (s : MemoryManager) : list turn :=
  match od_get a (windows s) with Some w => to_list w | None => [] end.

Definition set_system_prompt (now : Q) (a p : string) (s : MemoryManager) : MemoryManager :=
  let '(w, s) := get_or_create now a None s in
  with_windows (od_set a (mkWindow (agent_id w) (messages w) (max_tokens w) (Some p) (created_at w) (last_updated w)) (windows s)) s.

Definition clear (a : string) (s : MemoryManager) : MemoryManager :=
  match od_get a (windows s) with
  | Some w => with_windows (od_set a (with_messages [] w) (windows s)) s
  | None => s
  end.
Definition drop_window (a : string) (s : MemoryManager) : MemoryManager := with_windows (od_del a (windows s)) s.

Definition is_system (r : string) : bool := bool_decide (r = "system").
Definition recall (a : string) (limit : Z) (s : MemoryManager) : list turn :=
  match od_get a (windows s) with
  | Some w => turn_of <$> slice_from (- limit) (List.filter (fun m => negb (is_system (role m))) (messages w))
  | None => []
  end.
Definition store (now : Q) (a c : string) (s : MemoryManager) : MemoryManager := add_message now a "assistant" c s.

Record window_stats := mkWindowStats { st_messages : Z; st_tokens : Z; st_max_tokens : Z; st_last_updated : Q }.
Record memory_stats := mkMemoryStats {
  active_windows : Z; st_added : Z; st_trims : Z; st_windows : list (string * window_stats) }.
Definition stats (s : MemoryManager) : memory_stats :=
  mkMemoryStats (Z.of_nat (length (windows s))) (total_messages_added s) (total_trims s)
    ((fun aw => (aw.1, mkWindowStats (Z.of_nat (length (messages aw.2))) (token_count aw.2) (max_tokens aw.2) (last_updated aw.2)))
       <$> windows s).

(** ** Calls *)
Inductive mem_op :=
| MStart | MStop
| MGetOrCreate (now : Q) (a : string) (prompt : option string)
| MAdd (now : Q) (a r c : string)
| MStore (now : Q) (a c : string)
| MPrompt (now : Q) (a p : string)
| MClear (a : string)
| MDrop (a : string)
| MContext (a : string)
| MRecall (a : string) (limit : Z).

Definition mem_step (op : mem_op) (s : MemoryManager) : list turn * MemoryManager :=
  match op with
  | MStart => ([], set_running true s)
  | MStop => ([], set_running false s)
  | MGetOrCreate now a p => ([], (get_or_create now a p s).2)
  | MAdd now a r c => ([], add_message now a r c s)
  | MStore now a c => ([], store now a c s)
  | MPrompt now a p => ([], set_system_prompt now a p s)
  | MClear a => ([], clear a s)
  | MDrop a => ([], drop_window a s)
  | MContext a => (get_context a s, s)
  | MRecall a n => (recall a n s, s)
  end.
Fixpoint mem_run (ops : list mem_op) (s : MemoryManager) : list (list turn) * MemoryManager :=
  match ops with
  | [] => ([], s)
  | op :: ops => let '(x, s) := mem_step op s in let '(xs, s) := mem_run ops s in (x :: xs, s)
  end.

(** ** Trimming *)
Definition fits (limit prompt : Z) (l : list Message) : bool :=
  (tokens_of l + prompt <=? limit) || (length l <=? min_keep)%nat.

Lemma trim_loop_step w m l : trim_loop w (m :: l) =
  if fits (max_tokens w) (prompt_tokens w) (m :: l) then m :: l else trim_loop w l.
Proof.
  cbn [trim_loop]. unfold fits, is_over_limit, token_count, with_messages, prompt_tokens.
  cbn [messages max_tokens system_prompt].
  rewrite Z.ltb_antisym, Nat.ltb_antisym, <- negb_orb. by destruct (_ || _).
Qed.

(** [k] is the least number of messages, from [lost] on, without which the rest
    of the log fits. *)
Definition forgets (limit prompt : Z) (log : list Message) (lost k : nat) : Prop :=
  (lost <= k <= length log)%nat /\ fits limit prompt (drop k log) = true /\
  forall j, (lost <= j < k)%nat -> fits limit prompt (drop j log) = false.

Lemma trim_loop_forgets w log lost : (lost <= length log)%nat ->
  exists k, forgets (max_tokens w) (prompt_tokens w) log lost k /\ trim_loop w (drop lost log) = drop k log.
Proof.
  intros Hlost. remember (length log - lost)%nat as n eqn:Hn. revert lost Hlost Hn.
  induction n as [|n IH]; intros lost Hlost Hn.
  - exists lost. rewrite !(drop_ge log lost) by lia. split; [|done]. split; [lia|].
    split; [|lia]. rewrite drop_ge by lia. apply orb_true_r.
  - destruct (lookup_lt_is_Some_2 log lost) as [m Hm]; [lia|].
    rewrite (drop_S _ _ _ Hm), trim_loop_step, <- (drop_S _ _ _ Hm).
    destruct (fits _ _ (drop lost log)) eqn:Hfit.
    + exists lost. split; [|done]. split; [lia|]. split; [done|lia].
    + destruct (IH (S lost)) as (k & (Hk & Hf & Hmin) & ->); [lia|lia|]. exists k. split; [|done]. split; [lia|].
      split; [done|]. intros j Hj. destruct (decide (j = lost)) as [->|]; [done|]. apply Hmin. lia.
Qed.

Lemma forgets_functional limit prompt log lost k k' :
  forgets limit prompt log lost k -> forgets limit prompt log lost k' -> k = k'.
Proof.
  intros (H1 & F1 & M1) (H2 & F2 & M2). destruct (lt_eq_lt_dec k k') as [[Hlt|]|Hlt]; [|done|].
  - rewrite M2 in F1 by lia. done.
  - rewrite M1 in F2 by lia. done.
Qed.

(** The condition of the trim is the loop's: a window that is not over its limit
    keeps everything. *)
Lemma trim_if_over w log lost : (lost <= length log)%nat -> messages w = drop lost log ->
  exists k, forgets (max_tokens w) (prompt_tokens w) log lost k /\
    (if is_over_limit w then _trim w else (w, 0)) = (with_messages (drop k log) w, Z.of_nat k - Z.of_nat lost).
Proof.
  intros Hlost Hw. destruct (is_over_limit w) eqn:Eo.
  - destruct (trim_loop_forgets w log lost Hlost) as (k & Hk & Et). exists k. split; [done|].
    unfold _trim. rewrite Hw, Et, !length_drop. f_equal. destruct Hk as (Hk & _). lia.
  - exists lost. split.
    + split; [lia|]. split; [|lia]. unfold fits. rewrite <- Hw. apply orb_true_iff. left. apply Z.leb_le.
      apply Z.ltb_ge in Eo. exact Eo.
    + rewrite <- Hw, Z.sub_diag. by destruct w.
Qed.

(** ** Specification: logs and how much of each is forgotten *)
Record transcript := mkTranscript { t_log : list Message; t_lost : nat; t_prompt : option string; t_limit : Z }.
Record archive := mkArchive { transcripts : list (string * transcript); recorded : Z; forgotten : Z }.

Definition remembered (t : transcript) : list Message := drop (t_lost t) (t_log t).
Definition t_prompt_tokens (t : transcript) : Z := if truthy (t_prompt t) then estimate (default "" (t_prompt t)) else 0.
Definition shown (t : transcript) : list turn :=
  (if truthy (t_prompt t) then [("system", default "" (t_prompt t))] else []) ++ (turn_of <$> remembered t).
Definition opened (limit : Z) (prompt : option string) : transcript := mkTranscript [] 0 prompt limit.

(** The transcript of an agent, opened if there is none. *)
Definition transcript_of (limit : Z) (a : string) (prompt : option string) (p : archive) : transcript :=
  default (opened limit prompt) (od_get a (transcripts p)).
Definition keep (a : string) (t : transcript) (p : archive) : archive :=
  mkArchive (od_set a t (transcripts p)) (recorded p) (forgotten p).


Definition spec_add (limit : Z) (now : Q) (a r c : string) (p p' : archive) : Prop :=
  let t := transcript_of limit a None p in
  let log := t_log t ++ [new_message r c now 0] in
  exists k, forgets (t_limit t) (t_prompt_tokens t) log (t_lost t) k /\
    p' = mkArchive (od_set a (mkTranscript log k (t_prompt t) (t_limit t)) (transcripts p))
                   (recorded p + 1) (forgotten p + (Z.of_nat k - Z.of_nat (t_lost t))).

Definition spec_recall (limit : Z) (t : transcript) : list turn :=
  turn_of <$> slice_from (- limit) (List.filter (fun m => negb (is_system (role m))) (remembered t)).

(** One call: what it answers and the archive it leaves. *)
Definition spec_step (limit : Z) (op : mem_op) (p : archive) (x : list turn) (p' : archive) : Prop :=
  match op with
  | MStart | MStop => x = [] /\ p' = p
  | MGetOrCreate _ a prompt => x = [] /\ p' = keep a (transcript_of limit a prompt p) p
  | MAdd now a r c => x = [] /\ spec_add limit now a r c p p'
  | MStore now a c => x = [] /\ spec_add limit now a "assistant" c p p'
  | MPrompt _ a s => let t := transcript_of limit a None p in
    x = [] /\ p' = keep a (mkTranscript (t_log t) (t_lost t) (Some s) (t_limit t)) p
  | MClear a => x = [] /\
    p' = match od_get a (transcripts p) with
         | Some t => keep a (mkTranscript [] 0 (t_prompt t) (t_limit t)) p
         | None => p
         end
  | MDrop a => x = [] /\ p' = mkArchive (od_del a (transcripts p)) (recorded p) (forgotten p)
  | MContext a => x = from_option shown [] (od_get a (transcripts p)) /\ p' = p
  | MRecall a n => x = from_option (spec_recall n) [] (od_get a (transcripts p)) /\ p' = p
  end.
Fixpoint spec_run (limit : Z) (ops : list mem_op) (p : archive) (xs : list (list turn)) (p' : archive) : Prop :=
  match ops with
  | [] => xs = [] /\ p' = p
  | op :: ops => exists x xs' p1, spec_step limit op p x p1 /\ spec_run limit ops p1 xs' p' /\ xs = x :: xs'
  end.

(** What a window and a transcript have in common. *)
Abbreviation face := (list Message * option string * Z)%type.
Definition window_face (w : ContextWindow) : face := (messages w, system_prompt w, max_tokens w).
Definition transcript_face (t : transcript) : face := (remembered t, t_prompt t, t_limit t).

Definition within (t : transcript) : Prop := (t_lost t <= length (t_log t))%nat.

Record mem_rel (s : MemoryManager) (p : archive) : Prop := {
  mr_faces : od_map window_face (windows s) = od_map transcript_face (transcripts p);
  mr_log : Forall (fun at_ => within at_.2) (transcripts p);
  mr_added : total_messages_added s = recorded p;
  mr_trims : total_trims s = forgotten p }.

Definition agree (w : ContextWindow) (t : transcript) : Prop :=
  window_face w = transcript_face t /\ within t.

Lemma rel_get s p a : mem_rel s p ->
  match od_get a (windows s), od_get a (transcripts p) with
  | Some w, Some t => agree w t
  | None, None => True
  | _, _ => False
  end.
Proof.
  intros [Hf Hl _ _]. pose proof (od_get_map window_face a (windows s)) as E1.
  pose proof (od_get_map transcript_face a (transcripts p)) as E2. rewrite Hf, E2 in E1.
  destruct (od_get a (windows s)) as [w|], (od_get a (transcripts p)) as [t|] eqn:Et; try done.
  split; [by simplify_eq/=|]. exact (Forall_od_get within _ _ _ Hl Et).
Qed.

(** Windows and transcripts change together. *)
Lemma rel_set s p a w t n m n' m' : mem_rel s p -> agree w t -> n = n' -> m = m' ->
  mem_rel (mkManager (default_max_tokens s) (od_set a w (windows s)) n m (running s))
          (mkArchive (od_set a t (transcripts p)) n' m').
Proof.
  intros [Hf Hl Ha Ht] [Hw Hlen] -> ->. split; try done; cbn [windows transcripts].
  - by rewrite !od_set_map, Hf, Hw.
  - by apply (Forall_od_set within).
Qed.

Lemma get_or_create_rel now a prompt s p : mem_rel s p ->
  let '(w, s') := get_or_create now a prompt s in
  let t := transcript_of (default_max_tokens s) a prompt p in
  agree w t /\ mem_rel s' (keep a t p) /\ od_get a (windows s') = Some w /\
  default_max_tokens s' = default_max_tokens s /\ total_messages_added s' = recorded p /\ total_trims s' = forgotten p.
Proof.
  intros Hr. pose proof (rel_get s p a Hr) as Hg. pose proof Hr as [Hf Hl Ha Ht].
  unfold get_or_create, transcript_of.
  destruct (od_get a (windows s)) as [w|] eqn:Ew, (od_get a (transcripts p)) as [t|] eqn:Et; try done; cbn [default].
  - cbn. assert (keep a t p = p) as ->; [|done]. unfold keep. rewrite (od_set_same _ _ _ Et). by destruct p.
  - assert (Hag : agree (mkWindow a [] (default_max_tokens s) prompt now now) (opened (default_max_tokens s) prompt))
      by (split; [done|unfold within; cbn; lia]).
    split_and!; try done; [by apply rel_set|]. cbn. apply od_get_set_eq.
Qed.

Lemma add_message_rel now a r c s p : mem_rel s p ->
  default_max_tokens (add_message now a r c s) = default_max_tokens s /\
  exists p', spec_add (default_max_tokens s) now a r c p p' /\ mem_rel (add_message now a r c s) p'.
Proof.
  intros Hr. unfold add_message, spec_add. pose proof (get_or_create_rel now a None s p Hr) as Hg.
  destruct (get_or_create now a None s) as [w s']. cbv zeta in Hg. set (t := transcript_of _ _ _ _) in *.
  destruct Hg as ([Hw Hlen] & Hr' & _ & Hd & Ha & Ht). unfold window_face, transcript_face in Hw. simplify_eq/=.
  set (m := new_message r c now 0). set (w1 := mkWindow _ (messages w ++ [m]) _ _ _ now). unfold within in Hlen.
  destruct (trim_if_over w1 (t_log t ++ [m]) (t_lost t)) as (k & Hk & E).
  { rewrite length_app. lia. }
  { cbn [w1 messages]. rewrite drop_app_le by lia. by f_equal. }
  rewrite E. split; [done|].
  assert (Ep : max_tokens w1 = t_limit t /\ prompt_tokens w1 = t_prompt_tokens t).
  { unfold prompt_tokens, t_prompt_tokens. cbn [w1 max_tokens system_prompt]. split; [done|]. by rewrite H1. }
  destruct Ep as [E1 E2]. rewrite E1, E2 in Hk. eexists. split; [by exists k|].
  pose proof (mr_added _ _ Hr') as Ha'. pose proof (mr_trims _ _ Hr') as Ht'. cbn in Ha', Ht'.
  assert (Hset : od_set a (mkTranscript (t_log t ++ [m]) k (t_prompt t) (t_limit t)) (transcripts p) =
                 od_set a (mkTranscript (t_log t ++ [m]) k (t_prompt t) (t_limit t)) (transcripts (keep a t p)))
    by (symmetry; apply od_set_set).
  rewrite Hset. apply rel_set; [done| |by rewrite Ha'|].
  - split; [unfold window_face, transcript_face, remembered; cbn; congruence|]. destruct Hk as (Hk & _). unfold within. cbn. lia.
  - rewrite Ht'. destruct Hk as (Hk & _). destruct (0 <? _) eqn:E0; [done|]. apply Z.ltb_ge in E0. lia.
Qed.

Lemma mem_step_refines op s p : mem_rel s p -> let '(x, s') := mem_step op s in
  default_max_tokens s' = default_max_tokens s /\
  exists p', spec_step (default_max_tokens s) op p x p' /\ mem_rel s' p'.
Proof.
  intros Hr. destruct op as [| |now a prompt|now a r c|now a c|now a c|a|a|a|a n]; cbn [mem_step spec_step].
  - split; [done|]. exists p. split; [done|]. by destruct Hr.
  - split; [done|]. exists p. split; [done|]. by destruct Hr.
  - pose proof (get_or_create_rel now a prompt s p Hr) as Hg. destruct (get_or_create now a prompt s) as [w s'].
    destruct Hg as (_ & Hg & _ & Hd & _). split; [done|]. by eexists.
  - destruct (add_message_rel now a r c s p Hr) as [Hd (p' & Hs & Hp)]. split; [done|]. by exists p'.
  - destruct (add_message_rel now a "assistant" c s p Hr) as [Hd (p' & Hs & Hp)]. split; [done|]. by exists p'.
  - unfold set_system_prompt. pose proof (get_or_create_rel now a None s p Hr) as Hg.
    destruct (get_or_create now a None s) as [w s']. cbv zeta in *. set (t := transcript_of _ _ _ _) in *.
    destruct Hg as ([Hw Hlen] & Hg & _ & Hd & Ha & Ht). split; [done|]. eexists. split; [done|].
    unfold keep at 1. rewrite <- (od_set_set a t). unfold with_windows.
    apply (rel_set s' (keep a t p)); [done| |by rewrite Ha|by rewrite Ht].
    split; [|done]. unfold window_face, transcript_face, remembered in *. cbn. congruence.
  - unfold clear. pose proof (rel_get s p a Hr) as Hg.
    destruct (od_get a (windows s)) as [w|], (od_get a (transcripts p)) as [t|]; try done.
    + split; [done|]. eexists. split; [done|]. destruct Hg as [Hw Hlen].
      apply rel_set; [done| |apply Hr|apply Hr].
      split; [|unfold within; cbn; lia]. unfold window_face, transcript_face, remembered in *. cbn. congruence.
    + split; [done|]. by exists p.
  - split; [done|]. eexists. split; [done|]. destruct Hr as [Hf Hl Ha Ht]. split; try done; cbn [drop_window with_windows windows transcripts].
    + by rewrite !od_del_map, Hf.
    + by apply (Forall_od_del within).
  - split; [done|]. exists p. split; [|done]. split; [|done]. unfold get_context. pose proof (rel_get s p a Hr) as Hg.
    destruct (od_get a (windows s)) as [w|], (od_get a (transcripts p)) as [t|]; try done.
    destruct Hg as [Hw _]. unfold window_face, transcript_face in Hw. injection Hw as E1 E2 E3.
    cbn [from_option]. unfold to_list, shown. by rewrite E1, E2.
  - split; [done|]. exists p. split; [|done]. split; [|done]. unfold recall. pose proof (rel_get s p a Hr) as Hg.
    destruct (od_get a (windows s)) as [w|], (od_get a (transcripts p)) as [t|]; try done.
    destruct Hg as [Hw _]. unfold window_face, transcript_face in Hw. injection Hw as E1 E2 E3.
    cbn [from_option]. unfold spec_recall. by rewrite E1.
Qed.

(** C25: whatever is called, and in whatever order, the memory manager answers as
    full logs would from which, at each addition and never otherwise, the
    smallest number of oldest messages is forgotten that leaves the rest within
    the token limit or at most four messages long. Nothing is reordered, altered
    or lost in between, and the counters in [stats] count exactly the messages
    added and forgotten. *)
Theorem memory_refines_logs limit ops : let '(xs, s) := mem_run ops (new_memory_manager limit) in
  exists p, spec_run limit ops (mkArchive [] 0 0) xs p /\ mem_rel s p.
Proof.
  assert (H : forall ops s p, mem_rel s p -> let '(xs, s') := mem_run ops s in
            exists p', spec_run (default_max_tokens s) ops p xs p' /\ mem_rel s' p').
  { clear ops. induction ops as [|op ops IH]; intros s p Hr; cbn [mem_run spec_run]; [by exists p|].
    pose proof (mem_step_refines op s p Hr) as Hs. destruct (mem_step op s) as [x s1].
    destruct Hs as (Hd & p1 & Hs & Hr1). specialize (IH s1 p1 Hr1). destruct (mem_run ops s1) as [xs s'].
    destruct IH as (p' & Hrun & Hr'). exists p'. split; [|done]. exists x, xs, p1. by rewrite <- Hd at 2. }
  apply (H ops (new_memory_manager limit)). by split; [|constructor| |].
Qed.

(** ** The size of a window *)
Record window_ok (limit : Z) (w : ContextWindow) : Prop := {
  wo_limit : max_tokens w = limit;
  wo_tokens : Forall (fun m => 1 <= token_estimate m) (messages w);
  wo_length : Z.of_nat (length (messages w)) <= Z.max 4 limit }.
Definition windows_ok (s : MemoryManager) : Prop :=
  Forall (fun aw => window_ok (default_max_tokens s) aw.2) (windows s).

Lemma estimate_pos s : 1 <= estimate s.
Proof. unfold estimate. lia. Qed.

Lemma length_tokens l : Forall (fun m => 1 <= token_estimate m) l -> Z.of_nat (length l) <= tokens_of l.
Proof. induction 1 as [|m l Hm Hl IH]; [done|]. cbn [length tokens_of fold_right]. fold (tokens_of l). lia. Qed.

Lemma fits_length limit prompt l : 0 <= prompt -> Forall (fun m => 1 <= token_estimate m) l ->
  fits limit prompt l = true -> Z.of_nat (length l) <= Z.max 4 limit.
Proof.
  intros Hp Hl [Hf%Z.leb_le|Hf%Nat.leb_le]%orb_true_iff; [pose proof (length_tokens l Hl); lia|].
  unfold min_keep in Hf. lia.
Qed.

Lemma prompt_tokens_nonneg w : 0 <= prompt_tokens w.
Proof. unfold prompt_tokens. case_match; [|done]. pose proof (estimate_pos (default "" (system_prompt w))). lia. Qed.

Lemma get_or_create_ok now a prompt s : windows_ok s -> let '(w, s') := get_or_create now a prompt s in
  window_ok (default_max_tokens s) w /\ windows_ok s' /\ default_max_tokens s' = default_max_tokens s.
Proof.
  intros Hs. unfold get_or_create. destruct (od_get a (windows s)) as [w|] eqn:Ew.
  - split; [|done]. exact (Forall_od_get (window_ok (default_max_tokens s)) _ _ _ Hs Ew).
  - assert (Hw : window_ok (default_max_tokens s) (mkWindow a [] (default_max_tokens s) prompt now now)) by (split; [done|constructor|cbn; lia]).
    split_and!; try done. by apply (Forall_od_set (window_ok (default_max_tokens s))).
Qed.

Lemma trimmed_ok w : Forall (fun m => 1 <= token_estimate m) (messages w) ->
  window_ok (max_tokens w) (if is_over_limit w then _trim w else (w, 0)).1.
Proof.
  intros Hm. destruct (trim_if_over w (messages w) 0) as (k & (_ & Hf & _) & ->); [lia|done|].
  assert (Hk : Forall (fun m => 1 <= token_estimate m) (drop k (messages w))) by by apply Forall_drop.
  split; cbn; [done|done|]. eapply fits_length; [apply prompt_tokens_nonneg|done|exact Hf].
Qed.

Lemma add_message_ok now a r c s : windows_ok s -> windows_ok (add_message now a r c s).
Proof.
  intros Hs. unfold add_message. pose proof (get_or_create_ok now a None s Hs) as Hg.
  destruct (get_or_create now a None s) as [w s']. destruct Hg as (Hw & Hs' & Hd).
  set (w1 := mkWindow _ _ _ _ _ _). assert (Hw1 : window_ok (default_max_tokens s) (if is_over_limit w1 then _trim w1 else (w1, 0)).1).
  { rewrite <- (wo_limit _ _ Hw). apply (trimmed_ok w1). apply Forall_app. split; [apply Hw|].
    repeat constructor. apply estimate_pos. }
  destruct (if is_over_limit w1 then _ else _) as [w2 n]. unfold windows_ok in *. cbn [windows default_max_tokens].
  rewrite Hd in *. by apply (Forall_od_set (window_ok (default_max_tokens s))).
Qed.

Lemma mem_step_ok op s : windows_ok s -> windows_ok (mem_step op s).2.
Proof.
  intros Hs. destruct op as [| |now a prompt|now a r c|now a c|now a c|a|a|a|a n]; cbn [mem_step snd]; try done.
  - pose proof (get_or_create_ok now a prompt s Hs) as Hg. destruct (get_or_create _ _ _ _). apply Hg.
  - by apply add_message_ok.
  - by apply add_message_ok.
  - unfold set_system_prompt. pose proof (get_or_create_ok now a None s Hs) as Hg. destruct (get_or_create _ _ _ _) as [w s'].
    destruct Hg as ([L T N] & Hs' & Hd). unfold windows_ok in *. cbn. rewrite Hd in *.
    by apply (Forall_od_set (window_ok (default_max_tokens s))).
  - unfold clear. destruct (od_get a (windows s)) as [w|] eqn:Ew; [|done].
    pose proof (Forall_od_get (window_ok (default_max_tokens s)) _ _ _ Hs Ew) as [L T N].
    apply (Forall_od_set (window_ok (default_max_tokens s))); [|done]. split; cbn; [done|constructor|lia].
  - by apply (Forall_od_del (window_ok (default_max_tokens s))).
Qed.

(** no window ever holds more messages than the larger of four and its token
    limit, whatever is called: every message counts for at least one token. *)
Theorem windows_bounded limit ops : windows_ok (mem_run ops (new_memory_manager limit)).2.
Proof.
  assert (H : forall ops s, windows_ok s -> windows_ok (mem_run ops s).2).
  { clear ops. induction ops as [|op ops IH]; intros s Hs; [done|]. cbn [mem_run].
    pose proof (mem_step_ok op s Hs) as H1. destruct (mem_step op s) as [x s1]. specialize (IH s1 H1).
    by destruct (mem_run ops s1). }
  apply H. constructor.
Qed.

(** ** Two corners of the code *)
Module MemoryDemo.
Definition talk : list mem_op :=
  [MAdd 0 "a" "system" "you are a careful assistant"; MAdd 1 "a" "user" "one"; MAdd 2 "a" "assistant" "two";
   MAdd 3 "a" "user" "three"; MAdd 4 "a" "assistant" "four"].

(** A trim drops the oldest message, system messages too. *)
Example system_message_is_trimmed :
  get_context "a" (mem_run talk (new_memory_manager 8)).2 =
    [("user", "one"); ("assistant", "two"); ("user", "three"); ("assistant", "four")].
Proof. reflexivity. Qed.

(** A recall of no messages recalls them all. *)
Example recall_none_is_all :
  recall "a" 0 (mem_run talk (new_memory_manager 80)).2 = recall "a" 80 (mem_run talk (new_memory_manager 80)).2 /\
  length (recall "a" 0 (mem_run talk (new_memory_manager 80)).2) = 4%nat.
Proof. split; reflexivity. Qed.
End MemoryDemo.
