(* ===== verification/Window.v ===== *)
(** Sliding windows over lists of times, as rate limits keep them: the times in
    the last [span] seconds, and how many of a list fall in the window that ends
    at a given moment. *)
From S2P Require Import Prelude.

Section Window.
Variable span : Q.

Definition recent_in (now : Q) (l : list Q) : list Q := List.filter (fun x => (now - x) <. span) l.
Definition in_window (y x : Q) : bool := ((y - x) <. span) && (x <=. y).
Definition count_in (y : Q) (l : list Q) : nat := length (List.filter (in_window y) l).

Lemma recent_later now now' l : (now <= now')%Q -> recent_in now' (recent_in now l) = recent_in now' l.
Proof.
  intros Hn. unfold recent_in. rewrite filter_filter. apply List.filter_ext. intros x.
  destruct ((now' - x) <. span) eqn:E; [|done]. fprops. simpl. apply fltb_lt. lra.
Qed.

Lemma recent_in_snoc now l : (0 < span)%Q -> recent_in now (l ++ [now]) = recent_in now l ++ [now].
Proof.
  intros Hs. unfold recent_in. rewrite List.filter_app. cbn [List.filter]. rewrite (proj2 (fltb_lt (now - now) span)) by lra. done.
Qed.

(** A time that is added within the cap at [now] keeps every window within it. *)
Lemma count_in_snoc now y l c :
  Forall (fun x => x <= now)%Q l -> (count_in y l <= c)%nat -> (length (recent_in now l) < c)%nat ->
  (count_in y (l ++ [now]) <= c)%nat.
Proof.
  intros Hl Hy Hc. unfold count_in in *. rewrite List.filter_app, length_app. cbn [List.filter].
  destruct (in_window y now) eqn:E; cbn [length]; [|lia]. unfold in_window in E. fprops.
  assert (length (List.filter (in_window y) l) <= length (recent_in now l))%nat; [|lia].
  unfold recent_in. clear Hy Hc. induction Hl as [|x l Hx Hl IH]; cbn [List.filter]; [lia|].
  unfold in_window at 1. destruct ((y - x) <. span) eqn:E1, (x <=. y) eqn:E2; fprops; cbn [andb];
    destruct ((now - x) <. span) eqn:E3; fprops; cbn [length]; try lia. lra.
Qed.

(** Nothing recent: nothing in a later window. *)
Lemma recent_nil_later now now' l : (now <= now')%Q -> recent_in now l = [] -> recent_in now' l = [].
Proof. intros Hn Hl. rewrite <- (recent_later now) by done. by rewrite Hl. Qed.

(** Popping the old times from the front of a sorted list. *)
Fixpoint pop_old (now : Q) (l : list Q) : list Q :=
  match l with x :: l' => if span <=. (now - x) then pop_old now l' else l | [] => [] end.

Lemma pop_old_length now l : (length (pop_old now l) <= length l)%nat.
Proof. induction l as [|x l IH]; [done|]. cbn. destruct (_ <=. _); cbn; lia. Qed.

Lemma pop_old_recent now l : StronglySorted Qle l -> pop_old now l = recent_in now l.
Proof.
  induction 1 as [|x l Hs IH Hall]; [done|]. unfold recent_in. cbn [pop_old List.filter].
  destruct (span <=. (now - x)) eqn:E, ((now - x) <. span) eqn:E2; fprops; try lra; [exact IH|].
  f_equal. symmetry. apply filter_true. intros y Hy. rewrite Forall_forall in Hall. specialize (Hall y Hy). apply fltb_lt. lra.
Qed.

Lemma recent_sorted now l : StronglySorted Qle l -> StronglySorted Qle (recent_in now l).
Proof.
  induction 1 as [|x l Hs IH Hall]; [constructor|]. unfold recent_in. cbn [List.filter].
  destruct (_ <. _); [|exact IH]. constructor; [exact IH|by apply Forall_list_filter].
Qed.

Lemma times_snoc now l : StronglySorted Qle l -> Forall (fun x => x <= now)%Q l -> StronglySorted Qle (l ++ [now]).
Proof.
  induction 1 as [|x l Hs IH Hall]; intros Hl; [repeat constructor|]. apply Forall_cons in Hl as [Hx Hl]. cbn.
  constructor; [by apply IH|]. apply Forall_app. split; [done|by apply Forall_singleton].
Qed.

(** The last time of a sorted list is old: all are. *)
Lemma last_old now x l : StronglySorted Qle (l ++ [x]) -> (span <= now - x)%Q -> recent_in now (l ++ [x]) = [].
Proof.
  intros Hs Hx. assert (Hall : Forall (fun y => y <= x)%Q (l ++ [x])).
  { clear Hx. induction l as [|y l IH]; cbn in *; [apply Forall_singleton, Qle_refl|]. inversion Hs as [|? ? Hs' Ha]; subst.
    constructor; [|by apply IH]. rewrite Forall_forall in Ha. apply Ha, elem_of_app. right. by apply list_elem_of_singleton. }
  clear Hs. unfold recent_in. induction Hall as [|y l' Hy Hl IH]; [done|]. cbn [List.filter].
  destruct ((now - y) <. span) eqn:E; fprops; [lra|exact IH].
Qed.
(** Nothing in the window: the last time is old. *)
Definition stale (now : Q) (hits : list Q) : bool := match rev hits with [] => true | x :: _ => span <=. (now - x) end.

(** When the last time has left the window, all have. *)
Lemma gone_old now now' w : Forall (fun x => x <= now)%Q w -> (now + span <= now')%Q -> pop_old now' w = [] /\ stale now' w = true.
Proof.
  intros Hw Hn. split; [induction Hw as [|x w Hx Hw IH]; [done|]; cbn in *; by rewrite (proj2 (fleb_le _ _)) by lra|].
  unfold stale. destruct w as [|x w _] using rev_ind; [done|]. rewrite rev_app_distr. cbn.
  apply Forall_app in Hw as [_ Hx]. apply Forall_cons in Hx as [Hx _]. apply fleb_le. lra.
Qed.

(** ** A table of windows, one per key

    [rate_ok now h times]: the table [h] at [now] after the admissions at [times]
    under [key], of which every window holds at most [n]. *)
Section Table.
Context {K : Type} `{EqDecision K}.
Variable key : K.
Variable n : nat.

Record rate_ok (now : Q) (h : list (K * list Q)) (times : list Q) : Prop := {
  ro_keys : NoDup (od_keys h);
  ro_hits : match od_get key h with
            | Some hits => StronglySorted Qle hits /\ Forall (fun x => x <= now)%Q hits /\ recent_in now times = recent_in now hits
            | None => recent_in now times = []
            end;
  ro_past : Forall (fun x => x <= now)%Q times;
  ro_bound : forall y, (count_in y times <= n)%nat }.

Lemma rate_ok_later now now' h times : (now <= now')%Q -> rate_ok now h times -> rate_ok now' h times.
Proof.
  intros Hn [Hk Hh Hp Hb]. split; [done| |eapply Forall_impl; [exact Hp|]; cbn; intros; lra|done].
  destruct (od_get key h) as [hits|]; [|by eapply recent_nil_later].
  destruct Hh as (H1 & H2 & H3). split; [done|]. split; [eapply Forall_impl; [exact H2|]; cbn; intros; lra|].
  by rewrite <- (recent_later now), H3, recent_later.
Qed.

Lemma rate_ok_other now h times k hits : k ≠ key -> rate_ok now h times -> rate_ok now (od_set k hits h) times.
Proof. intros Hk [H1 H2 H3 H4]. split; [by apply NoDup_od_set| |done|done]. by rewrite od_get_set_ne. Qed.

Lemma stale_recent now hits : StronglySorted Qle hits -> stale now hits = true -> recent_in now hits = [].
Proof.
  unfold stale. destruct hits as [|x l _] using rev_ind; [done|]. rewrite rev_app_distr. cbn. intros Hs Hx. fprops. by apply last_old.
Qed.

Lemma rate_ok_evict now h times : rate_ok now h times -> rate_ok now (List.filter (fun kv => negb (stale now kv.2)) h) times.
Proof.
  intros [H1 H2 H3 H4]. split; [by apply NoDup_filter_keys| |done|done].
  rewrite (od_get_filter_values (fun v => negb (stale now v))) by done. destruct (od_get key h) as [hits|]; [|done].
  destruct (stale now hits) eqn:E; cbn [negb]; [|done]. destruct H2 as (Hs & _ & ->). by apply stale_recent.
Qed.

(** Admission under the key, with the hits that count. *)
Lemma rate_ok_take now h times hits rate :
  (0 < span)%Q ->
  NoDup (od_keys h) -> Forall (fun x => x <= now)%Q times -> (forall y, (count_in y times <= n)%nat) ->
  StronglySorted Qle hits -> Forall (fun x => x <= now)%Q hits -> recent_in now times = recent_in now hits ->
  (Z.to_nat rate <= n)%nat ->
  let hits := pop_old now hits in
  if rate <=? Z.of_nat (length hits) then rate_ok now (od_set key hits h) times
  else rate_ok now (od_set key (hits ++ [now]) h) (times ++ [now]).
Proof.
  intros Hspan Hk Hp Hb Hs Hl Hr Hn. cbv zeta. rewrite pop_old_recent by done.
  assert (Hl' : Forall (fun x => x <= now)%Q (recent_in now hits)) by (by apply Forall_list_filter).
  destruct (rate <=? _) eqn:E.
  - split; [by apply NoDup_od_set| |done|done]. rewrite od_get_set_eq.
    split; [by apply recent_sorted|]. split; [done|]. by rewrite recent_later by apply Qle_refl.
  - apply Z.leb_gt in E. split; [by apply NoDup_od_set| | |].
    + rewrite od_get_set_eq. split; [by apply times_snoc; [apply recent_sorted|]|].
      split; [apply Forall_app; split; [done|]; apply Forall_singleton, Qle_refl|].
      rewrite !recent_in_snoc by apply Hspan. f_equal. by rewrite recent_later by apply Qle_refl.
    + apply Forall_app. split; [done|]. apply Forall_singleton, Qle_refl.
    + intros y. apply count_in_snoc; [done|apply Hb|]. rewrite Hr. lia.
Qed.

End Table.
End Window.

(** Clock readings that do not go back. *)
Fixpoint clock_from {A} (t : Q) (ops : list (Q * A)) : Prop :=
  match ops with [] => True | (x, _) :: ops => (t <= x)%Q /\ clock_from x ops end.
