(* ===== verification/Calendar.v ===== *)
(** The part of Python's [datetime] the sources use: the proleptic Gregorian
    calendar of the standard library, and UTC datetimes of whole minutes. *)
From S2P Require Import Prelude.

(** ** Ordinals

    Day 1 is 1 January of year 1. [ymd2ord] and [ord2ymd] are the standard
    library's. *)
Definition is_leap (y : Z) : bool := (y mod 4 =? 0) && (negb (y mod 100 =? 0) || (y mod 400 =? 0)).
Definition DAYS_IN_MONTH (m : Z) : Z :=
  match m with
  | 1 => 31 | 2 => 28 | 3 => 31 | 4 => 30 | 5 => 31 | 6 => 30
  | 7 => 31 | 8 => 31 | 9 => 30 | 10 => 31 | 11 => 30 | 12 => 31 | _ => 0
  end.
Definition DAYS_BEFORE_MONTH (m : Z) : Z :=
  match m with
  | 1 => 0 | 2 => 31 | 3 => 59 | 4 => 90 | 5 => 120 | 6 => 151
  | 7 => 181 | 8 => 212 | 9 => 243 | 10 => 273 | 11 => 304 | 12 => 334 | _ => 0
  end.
Definition days_in_month (y m : Z) : Z := if (m =? 2) && is_leap y then 29 else DAYS_IN_MONTH m.
Definition days_before_year (y : Z) : Z := let y := y - 1 in y * 365 + y / 4 - y / 100 + y / 400.
Definition days_before_month (y m : Z) : Z := DAYS_BEFORE_MONTH m + (if (2 <? m) && is_leap y then 1 else 0).
Definition ymd2ord (y m d : Z) : Z := days_before_year y + days_before_month y m + d.

Definition ord2ymd (n : Z) : Z * Z * Z :=
  let n := n - 1 in
  let n400 := n / 146097 in let n := n mod 146097 in
  let n100 := n / 36524 in let n := n mod 36524 in
  let n4 := n / 1461 in let n := n mod 1461 in
  let n1 := n / 365 in let n := n mod 365 in
  let y := n400 * 400 + 1 + n100 * 100 + n4 * 4 + n1 in
  if (n1 =? 4) || (n100 =? 4) then (y - 1, 12, 31)
  else
    let leap := (n1 =? 3) && (negb (n4 =? 24) || (n100 =? 3)) in
    let m := Z.shiftr (n + 50) 5 in
    let preceding := DAYS_BEFORE_MONTH m + (if (2 <? m) && leap then 1 else 0) in
    let '(m, preceding) :=
      if n <? preceding
      then (m - 1, preceding - (DAYS_IN_MONTH (m - 1) + (if (m - 1 =? 2) && leap then 1 else 0)))
      else (m, preceding) in
    (y, m, n - preceding + 1).

Definition year_of (n : Z) : Z := (ord2ymd n).1.1.
Definition month_of (n : Z) : Z := (ord2ymd n).1.2.
Definition day_of (n : Z) : Z := (ord2ymd n).2.

(** ** The two are inverse

    Both split the years alike, by division; within a year there are few cases. *)
Definition leap_days (leap : bool) : Z := if leap then 1 else 0.
(** Month and day of the [n]th day of a year, and the days of a month. *)
Definition month_day (leap : bool) (n : Z) : Z * Z :=
  let m := Z.shiftr (n + 50) 5 in
  let preceding := DAYS_BEFORE_MONTH m + (if (2 <? m) && leap then 1 else 0) in
  let '(m, preceding) :=
    if n <? preceding
    then (m - 1, preceding - (DAYS_IN_MONTH (m - 1) + (if (m - 1 =? 2) && leap then 1 else 0)))
    else (m, preceding) in
  (m, n - preceding + 1).
Definition month_length (leap : bool) (m : Z) : Z := if (m =? 2) && leap then 29 else DAYS_IN_MONTH m.
Definition day_of_year (leap : bool) (m d : Z) : Z := DAYS_BEFORE_MONTH m + (if (2 <? m) && leap then 1 else 0) + d - 1.

Fixpoint check_to (p : Z -> bool) (k : nat) (from : Z) : bool :=
  match k with O => true | S k => p from && check_to p k (from + 1) end.
Lemma check_to_ok p k from : check_to p k from = true -> forall n, from <= n < from + Z.of_nat k -> p n = true.
Proof.
  revert from. induction k as [|k IH]; intros from Hc n Hn; [lia|]. cbn [check_to] in Hc. apply andb_true_iff in Hc as [H1 H2].
  destruct (decide (n = from)) as [->|Hne]; [done|]. apply (IH _ H2). lia.
Qed.

Definition month_day_ok (leap : bool) (n : Z) : bool :=
  let '(m, d) := month_day leap n in
  (1 <=? m) && (m <=? 12) && (1 <=? d) && (d <=? month_length leap m) && (day_of_year leap m d =? n).
Lemma month_day_spec leap n : 0 <= n < 365 -> let '(m, d) := month_day leap n in
  1 <= m <= 12 /\ 1 <= d <= month_length leap m /\ day_of_year leap m d = n.
Proof.
  intros Hn. assert (Hok : month_day_ok leap n = true).
  { apply (check_to_ok _ 365 0); [|lia]. by destruct leap; vm_compute. }
  unfold month_day_ok in Hok. destruct (month_day leap n) as [m d]. rewrite !andb_true_iff, !Z.leb_le, Z.eqb_eq in Hok. lia.
Qed.
Definition day_month_ok (leap : bool) (m d : Z) : bool :=
  negb (d <=? month_length leap m) ||
  let n := day_of_year leap m d in
  (0 <=? n) && (n <? 365 + leap_days leap) && (if n <? 365 then bool_decide (month_day leap n = (m, d)) else (m =? 12) && (d =? 31)).
Lemma day_month_spec leap m d : 1 <= m <= 12 -> 1 <= d <= month_length leap m ->
  let n := day_of_year leap m d in
  0 <= n < 365 + leap_days leap /\ if n <? 365 then month_day leap n = (m, d) else (m, d) = (12, 31).
Proof.
  intros Hm Hd. assert (Hd31 : d <= 31) by (unfold month_length, DAYS_IN_MONTH in Hd; repeat case_match; lia).
  assert (Hok : day_month_ok leap m d = true).
  { assert (Hc : check_to (fun m => check_to (day_month_ok leap m) 31 1) 12 1 = true) by (by destruct leap; vm_compute).
    pose proof (check_to_ok _ _ _ Hc m ltac:(lia)) as H1. apply (check_to_ok _ _ _ H1). lia. }
  unfold day_month_ok in Hok. rewrite (proj2 (Z.leb_le _ _) (proj2 Hd)) in Hok. cbn [negb orb] in Hok. cbv zeta.
  rewrite !andb_true_iff, Z.leb_le, Z.ltb_lt in Hok. destruct Hok as [Hn Hok]. split; [lia|].
  destruct (_ <? 365); [by apply bool_decide_eq_true in Hok|]. apply andb_true_iff in Hok as [?%Z.eqb_eq ?%Z.eqb_eq]. by subst.
Qed.

(** A year by its cycle, century, four years and year. *)
Record parts := mkParts { p400 : Z; p100 : Z; p4 : Z; p1 : Z }.
Definition parts_ok (p : parts) : Prop := 0 <= p100 p <= 3 /\ 0 <= p4 p <= 24 /\ 0 <= p1 p <= 3.
Definition year (p : parts) : Z := 400 * p400 p + 100 * p100 p + 4 * p4 p + p1 p + 1.
Definition year_start (p : parts) : Z := 146097 * p400 p + 36524 * p100 p + 1461 * p4 p + 365 * p1 p.
Definition leap (p : parts) : bool := (p1 p =? 3) && (negb (p4 p =? 24) || (p100 p =? 3)).

Lemma year_parts y : exists p, parts_ok p /\ y = year p.
Proof.
  exists (mkParts ((y - 1) / 400) ((y - 1) mod 400 / 100) ((y - 1) mod 100 / 4) ((y - 1) mod 4)).
  unfold parts_ok, year. cbn. split; Z.to_euclidean_division_equations; lia.
Qed.
Lemma year_days p : parts_ok p -> days_before_year (year p) = year_start p.
Proof.
  intros (H1 & H2 & H3). unfold days_before_year, year, year_start.
  replace (400 * p400 p + 100 * p100 p + 4 * p4 p + p1 p + 1 - 1) with (400 * p400 p + 100 * p100 p + 4 * p4 p + p1 p) by lia.
  set (y := 400 * p400 p + 100 * p100 p + 4 * p4 p + p1 p).
  assert (y / 4 = 100 * p400 p + 25 * p100 p + p4 p) as -> by (symmetry; apply (Z.div_unique _ _ _ (p1 p)); unfold y; lia).
  assert (y / 100 = 4 * p400 p + p100 p) as -> by (symmetry; apply (Z.div_unique _ _ _ (4 * p4 p + p1 p)); unfold y; lia).
  assert (y / 400 = p400 p) as -> by (symmetry; apply (Z.div_unique _ _ _ (100 * p100 p + 4 * p4 p + p1 p)); unfold y; lia).
  unfold y. lia.
Qed.
Lemma year_leap p : parts_ok p -> is_leap (year p) = leap p.
Proof.
  intros (H1 & H2 & H3). unfold is_leap, leap, year.
  assert (Hmod : forall b q r, 0 < b -> 400 * p400 p + 100 * p100 p + 4 * p4 p + p1 p + 1 = b * q + r -> 0 <= r < b ->
    (400 * p400 p + 100 * p100 p + 4 * p4 p + p1 p + 1) mod b = r) by (intros; symmetry; eapply Z.mod_unique; [left|]; eauto; lia).
  destruct (Z.eqb_spec (p1 p) 3) as [E1|E1]; cbn [andb].
  2: { rewrite (Hmod 4 (100 * p400 p + 25 * p100 p + p4 p) (p1 p + 1)) by lia. by rewrite (proj2 (Z.eqb_neq _ _)) by lia. }
  rewrite (Hmod 4 (100 * p400 p + 25 * p100 p + p4 p + 1) 0) by lia. cbn [Z.eqb andb].
  destruct (Z.eqb_spec (p4 p) 24) as [E4|E4]; cbn [negb orb].
  2: { rewrite (Hmod 100 (4 * p400 p + p100 p) (4 * p4 p + 4)) by lia. by rewrite (proj2 (Z.eqb_neq _ _)) by lia. }
  rewrite (Hmod 100 (4 * p400 p + p100 p + 1) 0) by lia. cbn [Z.eqb negb orb].
  destruct (Z.eqb_spec (p100 p) 3) as [E100|E100].
  - by rewrite (Hmod 400 (p400 p + 1) 0) by lia.
  - rewrite (Hmod 400 (p400 p) (100 * p100 p + 100)) by lia. apply Z.eqb_neq. lia.
Qed.

(** [ord2ymd] on the [r]th day of a year. *)
Lemma ord2ymd_early p r : parts_ok p -> 0 <= r < 365 ->
  ord2ymd (1 + year_start p + r) = (year p, (month_day (leap p) r).1, (month_day (leap p) r).2).
Proof.
  intros (H1 & H2 & H3) Hr. unfold ord2ymd, year_start. replace (1 + _ + r - 1) with (146097 * p400 p + (36524 * p100 p + 1461 * p4 p + 365 * p1 p + r)) by lia.
  rewrite <- (Z.div_unique _ 146097 (p400 p) (36524 * p100 p + 1461 * p4 p + 365 * p1 p + r)), <- (Z.mod_unique _ 146097 (p400 p) (36524 * p100 p + 1461 * p4 p + 365 * p1 p + r)) by lia.
  rewrite <- (Z.div_unique _ 36524 (p100 p) (1461 * p4 p + 365 * p1 p + r)), <- (Z.mod_unique _ 36524 (p100 p) (1461 * p4 p + 365 * p1 p + r)) by lia.
  rewrite <- (Z.div_unique _ 1461 (p4 p) (365 * p1 p + r)), <- (Z.mod_unique _ 1461 (p4 p) (365 * p1 p + r)) by lia.
  rewrite <- (Z.div_unique _ 365 (p1 p) r), <- (Z.mod_unique _ 365 (p1 p) r) by lia.
  rewrite !(proj2 (Z.eqb_neq _ 4)) by lia. cbn [orb]. fold (leap p). unfold month_day, year.
  destruct (r <? _); cbn [fst snd]; f_equal; f_equal; lia.
Qed.
Lemma ord2ymd_last p : parts_ok p -> leap p = true -> ord2ymd (1 + year_start p + 365) = (year p, 12, 31).
Proof.
  intros (H1 & H2 & H3) Hl. unfold leap in Hl. apply andb_true_iff in Hl as [E1%Z.eqb_eq Hl].
  unfold ord2ymd, year_start. rewrite E1. replace (1 + _ + 365 - 1) with (146097 * p400 p + (36524 * p100 p + 1461 * p4 p + 1460)) by lia.
  rewrite <- (Z.div_unique _ 146097 (p400 p) (36524 * p100 p + 1461 * p4 p + 1460)), <- (Z.mod_unique _ 146097 (p400 p) (36524 * p100 p + 1461 * p4 p + 1460)) by lia.
  destruct (Z.eqb_spec (p4 p) 24) as [E4|E4].
  - cbn [negb orb] in Hl. apply Z.eqb_eq in Hl. rewrite E4, Hl. change (36524 * 3 + 1461 * 24 + 1460) with 146096.
    change (146096 / 36524) with 4. change (146096 mod 36524) with 0. cbn -[Z.mul Z.add]. f_equal; f_equal. change (0 / 1461) with 0. change (0 mod 1461) with 0. change (0 / 365) with 0. unfold year. lia.
  - rewrite <- (Z.div_unique _ 36524 (p100 p) (1461 * p4 p + 1460)), <- (Z.mod_unique _ 36524 (p100 p) (1461 * p4 p + 1460)) by lia.
    rewrite <- (Z.div_unique _ 1461 (p4 p) 1460), <- (Z.mod_unique _ 1461 (p4 p) 1460) by lia.
    change (1460 / 365) with 4. change (4 =? 4) with true. cbn [orb]. f_equal; f_equal. unfold year. lia.
Qed.
Lemma day_parts n : exists p r, parts_ok p /\ n = 1 + year_start p + r /\ 0 <= r < 365 + leap_days (leap p).
Proof.
  set (a := (n - 1) / 146097). set (n1 := (n - 1) mod 146097). set (b := Z.min (n1 / 36524) 3). set (n2 := n1 - 36524 * b).
  set (c := n2 / 1461). set (n3 := n2 mod 1461). set (e := Z.min (n3 / 365) 3).
  assert (Ha : n - 1 = 146097 * a + n1 /\ 0 <= n1 < 146097) by (unfold a, n1; split; [apply Z.div_mod|apply Z.mod_pos_bound]; lia).
  assert (Hb : n1 = 36524 * b + n2 /\ 0 <= b <= 3 /\ 0 <= n2 <= 36524 /\ (n2 = 36524 -> b = 3)) by (unfold b, n2; Z.to_euclidean_division_equations; lia).
  assert (Hc : n2 = 1461 * c + n3 /\ 0 <= n3 < 1461 /\ 0 <= c <= 24) by (unfold c, n3; Z.to_euclidean_division_equations; lia).
  assert (He : 365 * e <= n3 /\ 0 <= e <= 3 /\ n3 - 365 * e <= 365 /\ (n3 - 365 * e = 365 -> e = 3)) by (unfold e; Z.to_euclidean_division_equations; lia).
  clearbody a n1 b n2 c n3 e. exists (mkParts a b c e), (n3 - 365 * e).
  unfold parts_ok, year_start, leap, leap_days. cbn. split; [lia|]. split; [lia|]. split; [lia|].
  destruct (Z.eqb_spec e 3); cbn [andb]; [|lia]. destruct (Z.eqb_spec c 24); cbn [negb orb]; [|lia]. destruct (Z.eqb_spec b 3); lia.
Qed.

(** A date is valid. *)
Definition valid_date (y m d : Z) : Prop := 1 <= m <= 12 /\ 1 <= d <= days_in_month y m.

Lemma ymd2ord_parts p m d : parts_ok p -> ymd2ord (year p) m d = 1 + year_start p + day_of_year (leap p) m d.
Proof. intros Hp. unfold ymd2ord, days_before_month, day_of_year. rewrite year_days, year_leap by done. lia. Qed.

Lemma ord2ymd_ok n : valid_date (year_of n) (month_of n) (day_of n) /\ ymd2ord (year_of n) (month_of n) (day_of n) = n.
Proof.
  destruct (day_parts n) as (p & r & Hp & -> & Hr). unfold valid_date, days_in_month, year_of, month_of, day_of.
  destruct (decide (r < 365)) as [Hr'|Hr'].
  - rewrite ord2ymd_early by (done || lia). cbn [fst snd]. rewrite ymd2ord_parts, year_leap by done.
    pose proof (month_day_spec (leap p) r ltac:(lia)) as Hmd. destruct (month_day (leap p) r) as [m d]. cbn [fst snd].
    unfold month_length in Hmd. lia.
  - unfold leap_days in Hr. destruct (leap p) eqn:Hl; [|lia]. replace r with 365 by lia.
    rewrite ord2ymd_last by done. cbn [fst snd]. rewrite ymd2ord_parts by done. rewrite Hl. change (day_of_year true 12 31) with 365. change (12 =? 2) with false. cbn [andb]. change (DAYS_IN_MONTH 12) with 31. lia.
Qed.

Lemma ymd2ord_ok y m d : valid_date y m d -> ord2ymd (ymd2ord y m d) = (y, m, d).
Proof.
  intros [Hm Hd]. destruct (year_parts y) as (p & Hp & ->). rewrite ymd2ord_parts by done.
  unfold days_in_month in Hd. rewrite year_leap in Hd by done.
  pose proof (day_month_spec (leap p) m d Hm Hd) as [Hn Hmd]. cbv zeta in *. set (n := day_of_year (leap p) m d) in *.
  destruct (Z.ltb_spec n 365).
  - rewrite ord2ymd_early by (done || lia). by rewrite Hmd.
  - unfold leap_days in Hn. destruct (leap p) eqn:Hl; [|lia]. replace n with 365 by lia. injection Hmd as -> ->. by apply ord2ymd_last.
Qed.

(** ** Datetimes of whole minutes

    A UTC datetime without seconds is its number of minutes from the start of
    day 0. *)
Abbreviation datetime := Z (only parsing).
Definition toordinal (t : datetime) : Z := t / 1440.
Definition dt_year (t : datetime) : Z := year_of (toordinal t).
Definition dt_month (t : datetime) : Z := month_of (toordinal t).
Definition dt_day (t : datetime) : Z := day_of (toordinal t).
Definition dt_hour (t : datetime) : Z := (t mod 1440) / 60.
Definition dt_minute (t : datetime) : Z := t mod 60.
(** [isoweekday() % 7]: 0 is Sunday. *)
Definition dt_weekday (t : datetime) : Z := toordinal t mod 7.

Definition EPOCH : Z := 719163 * 1440.
Definition MAX_ORDINAL : Z := 3652059.
(** [datetime + timedelta]: an [OverflowError] outside years 1 to 9999. *)
Definition in_years (t : datetime) : bool := (1 <=? toordinal t) && (toordinal t <=? MAX_ORDINAL).
Definition dt_add (t : datetime) (minutes : Z) : option datetime := if in_years (t + minutes) then Some (t + minutes) else None.

Definition at_time (n h mi : Z) : datetime := n * 1440 + h * 60 + mi.
(** [replace(minute=0)], [replace(hour=0, minute=0)], [replace(day=1)]. *)
Definition replace_minute0 (t : datetime) : datetime := at_time (toordinal t) (dt_hour t) 0.
Definition replace_midnight (t : datetime) : datetime := at_time (toordinal t) 0 0.
Definition replace_day1 (t : datetime) : datetime := at_time (ymd2ord (dt_year t) (dt_month t) 1) (dt_hour t) (dt_minute t).

Lemma epoch_date : ord2ymd (toordinal EPOCH) = (1970, 1, 1) /\ ord2ymd MAX_ORDINAL = (9999, 12, 31).
Proof. split; reflexivity. Qed.

Lemma at_time_parts n h mi : 0 <= h < 24 -> 0 <= mi < 60 ->
  toordinal (at_time n h mi) = n /\ dt_hour (at_time n h mi) = h /\ dt_minute (at_time n h mi) = mi.
Proof. intros. unfold toordinal, dt_hour, dt_minute, at_time. Z.to_euclidean_division_equations. lia. Qed.

Lemma datetime_parts t : t = at_time (toordinal t) (dt_hour t) (dt_minute t) /\ 0 <= dt_hour t < 24 /\ 0 <= dt_minute t < 60.
Proof. unfold toordinal, dt_hour, dt_minute, at_time. Z.to_euclidean_division_equations. lia. Qed.

(** ** Months as intervals of days *)
Lemma first_of_month n : ymd2ord (year_of n) (month_of n) 1 = n - day_of n + 1.
Proof. destruct (ord2ymd_ok n) as [_ E]. unfold ymd2ord in *. lia. Qed.

Lemma same_month n n' : n - day_of n < n' <= n - day_of n + days_in_month (year_of n) (month_of n) ->
  month_of n' = month_of n /\ year_of n' = year_of n.
Proof.
  intros Hn. destruct (ord2ymd_ok n) as [[Hm Hd] E].
  assert (E' : n' = ymd2ord (year_of n) (month_of n) (n' - n + day_of n)) by (unfold ymd2ord in *; lia).
  assert (Ho : ord2ymd n' = (year_of n, month_of n, n' - n + day_of n)).
  { rewrite E' at 1. apply ymd2ord_ok. split; [done|lia]. }
  unfold month_of, year_of in *. rewrite Ho. done.
Qed.

Lemma days_in_month_range y m : 1 <= m <= 12 -> 28 <= days_in_month y m <= 31.
Proof. intros Hm. unfold days_in_month, DAYS_IN_MONTH. repeat case_match; lia. Qed.

(** The first day of the next month, and 32 days after the first of a month. *)
Definition next_month (y m : Z) : Z * Z := if m =? 12 then (y + 1, 1) else (y, m + 1).

Lemma leap_year_days y : days_before_year (y + 1) = days_before_year y + 365 + (if is_leap y then 1 else 0).
Proof.
  unfold days_before_year, is_leap. replace (y + 1 - 1) with y by lia.
  destruct (Z.eqb_spec (y mod 4) 0), (Z.eqb_spec (y mod 100) 0), (Z.eqb_spec (y mod 400) 0); cbn [negb andb orb];
    Z.to_euclidean_division_equations; lia.
Qed.

Definition month_step (leap : bool) (m : Z) : bool :=
  DAYS_BEFORE_MONTH (m + 1) + (if (2 <? m + 1) && leap then 1 else 0) =?
  DAYS_BEFORE_MONTH m + (if (2 <? m) && leap then 1 else 0) + (if (m =? 2) && leap then 29 else DAYS_IN_MONTH m).
Lemma month_steps leap m : 1 <= m < 12 -> month_step leap m = true.
Proof. intros Hm. apply (check_to_ok (month_step leap) 11 1); [|lia]. by destruct leap. Qed.

Lemma next_month_first y m : 1 <= m <= 12 ->
  ymd2ord (next_month y m).1 (next_month y m).2 1 = ymd2ord y m 1 + days_in_month y m.
Proof.
  intros Hm. unfold next_month. destruct (Z.eqb_spec m 12) as [->|Hne]; cbn [fst snd].
  - unfold ymd2ord. rewrite leap_year_days. unfold days_before_month, days_in_month. cbn. destruct (is_leap y), (is_leap (y + 1)); cbn; lia.
  - pose proof (month_steps (is_leap y) m ltac:(lia)) as Hs. apply Z.eqb_eq in Hs.
    unfold ymd2ord, days_before_month, days_in_month in *. lia.
Qed.

(** 32 days after the first of a month, at the first again: the next month. *)
Lemma month_after n : let y := year_of n in let m := month_of n in
  let n32 := ymd2ord y m 1 + 32 in
  ymd2ord (year_of n32) (month_of n32) 1 = n - day_of n + 1 + days_in_month y m.
Proof.
  cbv zeta. destruct (ord2ymd_ok n) as [[Hm Hd] E]. set (y := year_of n) in *. set (m := month_of n) in *.
  pose proof (days_in_month_range y m Hm) as Hr. pose proof (next_month_first y m Hm) as Hnext.
  destruct (next_month y m) as [y' m'] eqn:En. cbn [fst snd] in Hnext.
  assert (Hm' : 1 <= m' <= 12) by (unfold next_month in En; destruct (Z.eqb_spec m 12); simplify_eq; lia).
  pose proof (days_in_month_range y' m' Hm') as Hr'.
  assert (E32 : ymd2ord y m 1 + 32 = ymd2ord y' m' (33 - days_in_month y m)) by (unfold ymd2ord in *; lia).
  assert (Ho : ord2ymd (ymd2ord y m 1 + 32) = (y', m', 33 - days_in_month y m)) by (rewrite E32; apply ymd2ord_ok; split; lia).
  unfold year_of at 1, month_of at 1. rewrite Ho. cbn [fst snd]. rewrite Hnext. unfold y, m. rewrite first_of_month. lia.
Qed.
