(* ===== verification/Cron.v ===== *)
(** Component: five-field cron expressions ([src/src/harness/cron.py]). *)
From S2P Require Import Prelude Calendar.
From Stdlib Require Import Ascii.

(** ** Text *)
Fixpoint split_on (c : ascii) (s : string) : list string :=
  match s with
  | EmptyString => [EmptyString]
  | String x s =>
    match split_on c s with
    | w :: ws => if decide (x = c) then EmptyString :: w :: ws else String x w :: ws
    | [] => []
    end
  end.
(** [str.split()]: on runs of white space. *)
Definition is_space (c : ascii) : bool :=
  let n := N_of_ascii c in (N.eqb n 32 || (N.leb 9 n && N.leb n 13) || (N.leb 28 n && N.leb n 31))%bool.
Fixpoint split_words (s : string) : list string :=
  match s with
  | EmptyString => []
  | String x s' =>
    if is_space x then split_words s'
    else
      match s' with
      | String y _ => if is_space y then String x EmptyString :: split_words s'
                      else match split_words s' with w :: ws => String x w :: ws | [] => [String x EmptyString] end
      | EmptyString => [String x EmptyString]
      end
  end.
(** [s.partition(c)]: before, whether [c] was found, and after. *)
Fixpoint partition_at (c : ascii) (s : string) : string * bool * string :=
  match s with
  | EmptyString => (EmptyString, false, EmptyString)
  | String x s =>
    if decide (x = c) then (EmptyString, true, s)
    else let '(a, found, b) := partition_at c s in (String x a, found, b)
  end.

(** [int(s)] on text without white space: a sign, then digits with single
    underscores between them. *)
Definition digit_value (c : ascii) : option Z :=
  let n := Z.of_N (N_of_ascii c) in if (48 <=? n) && (n <=? 57) then Some (n - 48) else None.
Fixpoint digits_value (acc : Z) (after_digit : bool) (s : string) : option Z :=
  match s with
  | EmptyString => if after_digit then Some acc else None
  | String c s =>
    match digit_value c with
    | Some d => digits_value (acc * 10 + d) true s
    | None => if after_digit && bool_decide (c = "_"%char) then digits_value acc false s else None
    end
  end.
Definition py_int (s : string) : option Z :=
  match s with
  | String "-" s => Z.opp <$> digits_value 0 false s
  | String "+" s => digits_value 0 false s
  | _ => digits_value 0 false s
  end.

(** ** Fields *)
Inductive field_error := NotAnInt (text : string) | BadStep (part : string) | OutsideRange (part : string) (lo hi : Z).
Abbreviation fres := (res field_error).

Definition int_of (s : string) : fres Z := match py_int s with Some z => Ok z | None => Raise (NotAnInt s) end.
(** [range(a, b + 1, step)], for [a <= b] and a positive step. *)
Definition steps_from (a b step : Z) : list Z := (fun k => a + step * Z.of_nat k) <$> seq 0 (Z.to_nat ((b - a) / step + 1)).

Definition field_part (lo hi : Z) (part : string) : fres (list Z) :=
  let '(rng, _, step) := partition_at "/"%char part in
  step_n ← (if decide (step = EmptyString) then Ok 1 else int_of step);
  if step_n <? 1 then Raise (BadStep part)
  else
    '(a, b) ← (if decide (rng = "*") then Ok (lo, hi)
               else match partition_at "-"%char rng with
                    | (x, true, y) => a ← int_of x; b ← int_of y; Ok (a, b)
                    | _ => a ← int_of rng; Ok (a, if decide (step = EmptyString) then a else hi)
                    end);
    if (lo <=? a) && (a <=? b) && (b <=? hi) then Ok (steps_from a b step_n) else Raise (OutsideRange part lo hi).

Fixpoint field_parts (lo hi : Z) (parts : list string) : fres (list Z) :=
  match parts with
  | [] => Ok []
  | p :: ps => l ← field_part lo hi p; ls ← field_parts lo hi ps; Ok (l ++ ls)
  end.
Definition _field (text : string) (lo hi : Z) : fres (list Z) := field_parts lo hi (split_on ","%char text).

(** ** Expressions *)
Record Cron := mkCron {
  c_minute : list Z; c_hour : list Z; c_dom : list Z; c_month : list Z; c_dow : list Z;
  dom_any : bool; dow_any : bool; c_expr : string }.
(** [ValueError]s, except for [DateOverflow], an [OverflowError]. *)
Inductive cron_error :=
| FieldCount | BadField (expr : string) (why : field_error) | BadTimestamp | NeverMatches (expr : string) | DateOverflow.

Definition in_cron {A} (expr : string) (x : fres A) : res cron_error A :=
  match x with Ok a => Ok a | Raise e => Raise (BadField expr e) end.

Definition parse_cron (expr : string) : res cron_error Cron :=
  match split_words expr with
  | [mi; h; dom; mo; dow] =>
    in_cron expr (
      cmi ← _field mi 0 59; ch ← _field h 0 23; cdom ← _field dom 1 31; cmo ← _field mo 1 12; cdow ← _field dow 0 7;
      Ok (mkCron cmi ch cdom cmo ((fun d => d mod 7) <$> cdow)
            (bool_decide (dom = "*")) (bool_decide (dow = "*")) expr))
  | _ => Raise FieldCount
  end.

Definition mem (x : Z) (l : list Z) : bool := bool_decide (x ∈ l).
Definition _day_ok (c : Cron) (d : datetime) : bool :=
  let in_dom := mem (dt_day d) (c_dom c) in
  let in_dow := mem (dt_weekday d) (c_dow c) in
  if dom_any c || dow_any c then in_dom && in_dow else in_dom || in_dow.

(** One pass of the search. *)
Definition overflow_or (o : option datetime) (k : datetime -> datetime) : datetime + res cron_error datetime :=
  match o with Some d => inl (k d) | None => inr (Raise DateOverflow) end.
Definition search_step (c : Cron) (d : datetime) : datetime + res cron_error datetime :=
  if negb (mem (dt_month d) (c_month c)) then
    overflow_or (dt_add (at_time (ymd2ord (dt_year d) (dt_month d) 1) 0 0) (32 * 1440)) replace_day1
  else if negb (_day_ok c d) then overflow_or (dt_add (replace_midnight d) 1440) id
  else if negb (mem (dt_hour d) (c_hour c)) then overflow_or (dt_add (replace_minute0 d) 60) id
  else if negb (mem (dt_minute d) (c_minute c)) then overflow_or (dt_add d 1) id
  else inr (Ok d).

Definition PASSES : positive := 366 * 24 * 60 * 5.

(** [datetime.fromtimestamp(ts, utc)] without seconds: [ts] is rounded to
    microseconds. *)
Definition microseconds (ts : Q) : Z := round_half_even (ts * 1000000).
Definition from_timestamp (ts : Q) : option datetime :=
  let t := EPOCH + microseconds ts / 60000000 in if in_years t then Some t else None.
Definition to_timestamp (d : datetime) : Q := inject_Z ((d - EPOCH) * 60).

Definition next_after (c : Cron) (ts : Q) : res cron_error Q :=
  match from_timestamp ts with
  | None => Raise BadTimestamp
  | Some d =>
    match dt_add d 1 with
    | None => Raise DateOverflow
    | Some d =>
      match bounded_loop (search_step c) PASSES d with
      | inr (Ok d) => Ok (to_timestamp d)
      | inr (Raise e) => Raise e
      | inl _ => Raise (NeverMatches (c_expr c))
      end
    end
  end.

(** ** Fields hold what they say *)
Definition field_ok (lo hi : Z) (l : list Z) : Prop := l ≠ [] /\ Forall (fun x => lo <= x <= hi) l.

Lemma steps_from_ok a b step lo hi : lo <= a <= b -> b <= hi -> 1 <= step -> field_ok lo hi (steps_from a b step).
Proof.
  intros Ha Hb Hs. pose proof (Z.div_pos (b - a) step ltac:(lia) ltac:(lia)) as Hq. split.
  - unfold steps_from. destruct (Z.to_nat _) eqn:E; [lia|done].
  - apply Forall_fmap, Forall_forall. intros k [_ Hk]%elem_of_seq. cbn.
    pose proof (Z.mul_div_le (b - a) step ltac:(lia)). nia.
Qed.

(** The members of a range: from [a] in steps, up to [b]. *)
Lemma elem_of_steps a b step x : a <= b -> 1 <= step -> x ∈ steps_from a b step <-> a <= x <= b /\ (step | x - a).
Proof.
  intros Hab Hs. unfold steps_from. rewrite list_elem_of_fmap.
  pose proof (Z.div_mod (b - a) step ltac:(lia)) as Hd. pose proof (Z.mod_pos_bound (b - a) step ltac:(lia)) as Hm.
  pose proof (Z.div_pos (b - a) step ltac:(lia) ltac:(lia)) as Hq. split.
  - intros (k & -> & Hk). apply elem_of_seq in Hk. split; [nia|]. exists (Z.of_nat k). lia.
  - intros [Hx [q Hqx]]. assert (Hq0 : 0 <= q) by nia. exists (Z.to_nat q). split; [lia|]. apply elem_of_seq.
    assert (q <= (b - a) / step) by (apply Z.div_le_lower_bound; lia). lia.
Qed.

Lemma field_part_ok lo hi part l : field_part lo hi part = Ok l -> field_ok lo hi l.
Proof.
  unfold field_part, mbind, res_bind. destruct (partition_at _ part) as [[rng ?] step].
  intros Hp. repeat (case_match; simplify_eq); apply steps_from_ok; lia.
Qed.

Lemma field_parts_ok lo hi parts l : field_parts lo hi parts = Ok l -> parts ≠ [] -> field_ok lo hi l.
Proof.
  revert l. induction parts as [|p ps IH]; intros l Hp Hne; [done|]. cbn [field_parts] in Hp.
  unfold mbind, res_bind in Hp. destruct (field_part lo hi p) as [l1|] eqn:E1; [|done].
  destruct (field_parts lo hi ps) as [l2|] eqn:E2; [|done]. injection Hp as <-.
  apply field_part_ok in E1 as [N1 F1]. split; [by destruct l1|]. apply Forall_app. split; [done|].
  destruct ps as [|p' ps]; [by injection E2 as <-|]. by apply IH.
Qed.

Lemma split_on_nonempty c s : split_on c s ≠ [].
Proof. induction s as [|x s IH]; [done|]. cbn. destruct (split_on c s); [done|]. by case_decide. Qed.

Lemma _field_ok text lo hi l : _field text lo hi = Ok l -> field_ok lo hi l.
Proof. intros Hp. eapply field_parts_ok; [exact Hp|apply split_on_nonempty]. Qed.

Record cron_ok (c : Cron) : Prop := {
  ok_minute : field_ok 0 59 (c_minute c);
  ok_hour : field_ok 0 23 (c_hour c);
  ok_dom : field_ok 1 31 (c_dom c);
  ok_month : field_ok 1 12 (c_month c);
  ok_dow : field_ok 0 6 (c_dow c) }.

Lemma parse_cron_ok expr c : parse_cron expr = Ok c -> cron_ok c.
Proof.
  unfold parse_cron. destruct (split_words expr) as [|mi [|h [|dom [|mo [|dow [|]]]]]]; try done.
  unfold in_cron, mbind, res_bind.
  destruct (_field mi 0 59) as [l1|] eqn:E1; [|done]. destruct (_field h 0 23) as [l2|] eqn:E2; [|done].
  destruct (_field dom 1 31) as [l3|] eqn:E3; [|done]. destruct (_field mo 1 12) as [l4|] eqn:E4; [|done].
  destruct (_field dow 0 7) as [l5|] eqn:E5; [|done]. intros [= <-]. split; cbn; try by eapply _field_ok.
  apply _field_ok in E5 as [N F]. split; [by destruct l5|]. apply Forall_fmap, Forall_true. intros d. cbn.
  pose proof (Z.mod_pos_bound d 7). lia.
Qed.

(** ** The search *)
Definition matches (c : Cron) (d : datetime) : bool :=
  mem (dt_month d) (c_month c) && _day_ok c d && mem (dt_hour d) (c_hour c) && mem (dt_minute d) (c_minute c).

(** No minute of [from, to) matches. *)
Definition quiet (c : Cron) (from to : datetime) : Prop := forall t, from <= t < to -> matches c t = false.

Lemma quiet_app c a b d : quiet c a b -> quiet c b d -> quiet c a d.
Proof. intros H1 H2 t Ht. destruct (decide (t < b)); [apply H1|apply H2]; lia. Qed.

Lemma toordinal_bounds t : toordinal t * 1440 <= t < toordinal t * 1440 + 1440.
Proof. unfold toordinal. Z.to_euclidean_division_equations. lia. Qed.

Lemma toordinal_unique t n : n * 1440 <= t < n * 1440 + 1440 -> toordinal t = n.
Proof. intros. unfold toordinal. Z.to_euclidean_division_equations. lia. Qed.

(** The four ways the search goes on. *)
Lemma month_jump d : let first := at_time (ymd2ord (dt_year d) (dt_month d) 1) 0 0 in
  let next := replace_day1 (first + 32 * 1440) in
  d < next /\ next mod 1440 = 0 /\ forall t, d <= t < next -> dt_month t = dt_month d.
Proof.
  cbv zeta. set (n := toordinal d). assert (Ef : ymd2ord (dt_year d) (dt_month d) 1 = n - day_of n + 1) by apply first_of_month.
  assert (En : replace_day1 (at_time (ymd2ord (dt_year d) (dt_month d) 1) 0 0 + 32 * 1440) =
               (n - day_of n + 1 + days_in_month (year_of n) (month_of n)) * 1440).
  { replace (at_time (ymd2ord (dt_year d) (dt_month d) 1) 0 0 + 32 * 1440)
      with (at_time (ymd2ord (year_of n) (month_of n) 1 + 32) 0 0) by (unfold at_time, dt_year, dt_month; fold n; lia).
    unfold replace_day1. destruct (at_time_parts (ymd2ord (year_of n) (month_of n) 1 + 32) 0 0) as (E1 & E2 & E3); [lia|lia|].
    unfold dt_year, dt_month. rewrite E1, E2, E3. pose proof (month_after n) as Hm. cbv zeta in Hm. rewrite Hm. unfold at_time. lia. }
  rewrite En. destruct (ord2ymd_ok n) as [[Hm Hd] _]. pose proof (toordinal_bounds d) as Hb. fold n in Hb.
  split; [lia|]. split; [apply Z_mod_mult|]. intros t Ht. unfold dt_month. fold n.
  pose proof (toordinal_bounds t) as Ht2. apply same_month. lia.
Qed.

Lemma day_jump d : d < replace_midnight d + 1440 /\ (replace_midnight d + 1440) mod 1440 = 0 /\
  forall t, d <= t < replace_midnight d + 1440 -> toordinal t = toordinal d.
Proof.
  unfold replace_midnight, at_time. pose proof (toordinal_bounds d). split; [lia|]. split.
  - replace (toordinal d * 1440 + 0 * 60 + 0 + 1440) with ((toordinal d + 1) * 1440) by lia. apply Z_mod_mult.
  - intros t Ht. apply toordinal_unique. lia.
Qed.

Lemma hour_jump d : d < replace_minute0 d + 60 /\
  forall t, d <= t < replace_minute0 d + 60 -> toordinal t = toordinal d /\ dt_hour t = dt_hour d.
Proof.
  unfold replace_minute0, at_time, toordinal, dt_hour. split.
  - Z.to_euclidean_division_equations. lia.
  - intros t Ht. assert (E : t / 60 = d / 60) by (Z.to_euclidean_division_equations; lia).
    split; Z.to_euclidean_division_equations; lia.
Qed.

Lemma day_ok_same c t d : toordinal t = toordinal d -> _day_ok c t = _day_ok c d.
Proof. intros E. unfold _day_ok, dt_day, dt_weekday. by rewrite E. Qed.

Lemma dt_add_some t k t' : dt_add t k = Some t' -> t' = t + k.
Proof. unfold dt_add. case_match; [by intros [= <-]|done]. Qed.

(** A pass moves forward and skips no match, or returns the match it is at. *)
Lemma search_step_sound c d : match search_step c d with
  | inl d' => d < d' /\ quiet c d d'
  | inr (Ok r) => r = d /\ matches c d = true
  | inr (Raise e) => e = DateOverflow
  end.
Proof.
  unfold search_step, overflow_or. destruct (mem (dt_month d) (c_month c)) eqn:Em; cbn [negb].
  2: { destruct (dt_add _ _) as [d'|] eqn:E; [|done]. apply dt_add_some in E as ->. destruct (month_jump d) as (H1 & _ & H2).
       split; [exact H1|]. intros t Ht. unfold matches. by rewrite (H2 t Ht), Em. }
  destruct (_day_ok c d) eqn:Ed; cbn [negb].
  2: { destruct (dt_add _ _) as [d'|] eqn:E; [|done]. apply dt_add_some in E as ->. destruct (day_jump d) as (H1 & _ & H2).
       split; [exact H1|]. intros t Ht. unfold matches. rewrite (day_ok_same c t d (H2 t Ht)), Ed. by rewrite andb_false_r. }
  destruct (mem (dt_hour d) (c_hour c)) eqn:Eh; cbn [negb].
  2: { destruct (dt_add _ _) as [d'|] eqn:E; [|done]. apply dt_add_some in E as ->. destruct (hour_jump d) as (H1 & H2).
       split; [exact H1|]. intros t Ht. unfold matches. destruct (H2 t Ht) as [_ ->]. by rewrite Eh, andb_false_r. }
  destruct (mem (dt_minute d) (c_minute c)) eqn:Ei; cbn [negb].
  2: { destruct (dt_add _ _) as [d'|] eqn:E; [|done]. apply dt_add_some in E as ->. unfold id. split; [lia|].
       intros t Ht. assert (t = d) as -> by lia. unfold matches. by rewrite Ei, andb_false_r. }
  split; [done|]. unfold matches. by rewrite Em, Ed, Eh, Ei.
Qed.

(** ** The search arrives

    [target] is the first match from [start] on. *)
Section Arrives.
Context (c : Cron) (start target : datetime).
Hypothesis Hc : cron_ok c.
Hypothesis Hstart : 1 <= toordinal start.
Hypothesis Htarget : matches c target = true.
Hypothesis Hfirst : quiet c start target.
Hypothesis Hyears : in_years target = true.

Definition on_the_way (d : datetime) : Prop := start <= d <= target.

Definition minute_of_day (d : datetime) : Z := d mod 1440.
(** Passes left at most: those left in the day of the target; before it, one for
    each day, and those left in a day that has begun. *)
Definition passes_left (d : datetime) : Z :=
  if toordinal d =? toordinal target then 1440 - minute_of_day d
  else toordinal target - toordinal d + 1440 + (if minute_of_day d =? 0 then 0 else 1440 - minute_of_day d).

Lemma day_split d : d = toordinal d * 1440 + minute_of_day d /\ 0 <= minute_of_day d < 1440.
Proof. unfold toordinal, minute_of_day. Z.to_euclidean_division_equations. lia. Qed.

Lemma not_past d d' : on_the_way d -> d < d' -> quiet c d d' -> on_the_way d'.
Proof.
  intros [H1 H2] Hlt Hq. split; [lia|]. destruct (decide (d' <= target)) as [|Hgt]; [done|].
  rewrite (Hq target) in Htarget by lia. done.
Qed.

Lemma in_years_between d k : on_the_way d -> 0 <= k -> d + k <= target -> in_years (d + k) = true.
Proof.
  intros [H1 H2] Hk Hle. unfold in_years, toordinal in *. apply andb_true_iff in Hyears as [_ Hy].
  apply Z.leb_le in Hy. apply andb_true_iff. rewrite !Z.leb_le.
  assert (start / 1440 <= (d + k) / 1440) by (apply Z.div_le_mono; lia).
  assert ((d + k) / 1440 <= target / 1440) by (apply Z.div_le_mono; lia). lia.
Qed.

(** A day the expression takes has a match, so the target is not later. *)
Lemma good_day d : on_the_way d -> minute_of_day d = 0 -> mem (dt_month d) (c_month c) = true -> _day_ok c d = true ->
  toordinal d = toordinal target.
Proof.
  intros [H1 H2] H0 Hm Hd. destruct Hc as [[Nm Fm] [Nh Fh] _ _ _].
  destruct (c_minute c) as [|mi lm] eqn:Em; [done|]. destruct (c_hour c) as [|h lh] eqn:Eh; [done|].
  apply Forall_cons in Fm as [Fm _]. apply Forall_cons in Fh as [Fh _].
  destruct (at_time_parts (toordinal d) h mi) as (P1 & P2 & P3); [lia|lia|]. set (t := at_time (toordinal d) h mi) in *.
  assert (Ht : matches c t = true).
  { unfold matches. replace (dt_month t) with (dt_month d) by (unfold dt_month; by rewrite P1).
    rewrite (day_ok_same c t d P1), P2, P3, Hm, Hd, Em, Eh. unfold mem. rewrite !bool_decide_true by left. done. }
  pose proof (day_split d) as [Hds _]. assert (Htd : d <= t) by (unfold t, at_time; lia).
  destruct (decide (target <= t)) as [Hle|Hgt].
  - unfold toordinal in *. apply Z.le_antisymm; [by apply Z.div_le_mono|]. rewrite <- P1. by apply Z.div_le_mono.
  - rewrite (Hfirst t) in Ht by lia. done.
Qed.

#[local] Opaque ord2ymd.
(** The sum of a month jump stays within the years when its end does. *)
Lemma month_jump_fits d : on_the_way d ->
  replace_day1 (at_time (ymd2ord (dt_year d) (dt_month d) 1) 0 0 + 32 * 1440) <= target ->
  in_years (at_time (ymd2ord (dt_year d) (dt_month d) 1) 0 0 + 32 * 1440) = true.
Proof.
  intros [H1 H2] Hle. set (n := toordinal d) in *. unfold dt_year, dt_month in *. fold n in Hle |- *.
  set (n32 := ymd2ord (year_of n) (month_of n) 1 + 32).
  replace (at_time (ymd2ord (year_of n) (month_of n) 1) 0 0 + 32 * 1440) with (at_time n32 0 0) in * by (unfold at_time, n32; lia).
  destruct (at_time_parts n32 0 0) as (E1 & E2 & E3); [lia|lia|]. unfold in_years. rewrite E1.
  assert (Hn32 : ymd2ord (year_of n32) (month_of n32) 1 <= toordinal target).
  { unfold replace_day1, dt_year, dt_month in Hle. rewrite E1, E2, E3 in Hle. unfold at_time in Hle.
    pose proof (toordinal_bounds target). lia. }
  pose proof (first_of_month n) as Ef. pose proof (first_of_month n32) as Ef32.
  destruct (ord2ymd_ok n) as [[Hm Hd] _]. destruct (ord2ymd_ok n32) as [[Hm' Hd'] _].
  pose proof (days_in_month_range (year_of n) _ Hm). pose proof (days_in_month_range (year_of n32) _ Hm').
  assert (Hn : 1 <= n) by (unfold n, toordinal in *; assert (start / 1440 <= d / 1440) by (apply Z.div_le_mono; lia); lia).
  unfold in_years in Hyears. apply andb_true_iff in Hyears as [_ Hy%Z.leb_le]. apply andb_true_iff. rewrite !Z.leb_le.
  split; [unfold n32; lia|].
  pose proof (month_after n) as Ha. cbv zeta in Ha. fold n32 in Ha.
  assert (Hday : day_of n32 <= 5) by (unfold n32 in *; lia).
  destruct (decide (n32 <= MAX_ORDINAL)) as [|Hgt]; [done|]. exfalso.
  assert (Hclose : n32 = MAX_ORDINAL + 1 \/ n32 = MAX_ORDINAL + 2 \/ n32 = MAX_ORDINAL + 3 \/ n32 = MAX_ORDINAL + 4) by lia.
  assert (Hk : day_of n32 = n32 - MAX_ORDINAL) by (destruct Hclose as [E|[E|[E|E]]]; rewrite E; vm_compute; reflexivity). lia.
Qed.

Lemma search_step_arrives d : on_the_way d -> match search_step c d with
  | inl d' => on_the_way d' /\ passes_left d' + 1 <= passes_left d
  | inr (Ok r) => r = target
  | inr (Raise e) => False
  end.
Proof.
  intros Hd. pose proof (search_step_sound c d) as Hs.
  assert (Hnext : forall d', d < d' -> quiet c d d' -> on_the_way d') by (intros; by eapply not_past).
  pose proof (day_split d) as [Ed Bd]. pose proof (day_split target) as [Et Bt].
  assert (Hsame : toordinal d = toordinal target -> mem (dt_month d) (c_month c) = true /\ _day_ok c d = true).
  { intros E. pose proof Htarget as Hm. unfold matches in Hm. rewrite !andb_true_iff in Hm. destruct Hm as [[[Hm Hdy] _] _].
    split; [unfold dt_month; rewrite E; exact Hm|]. by rewrite (day_ok_same c d target E). }
  assert (Hmid : forall d', d < d' -> d' mod 1440 = 0 -> on_the_way d' -> toordinal d ≠ toordinal target ->
            passes_left d' + 1 <= passes_left d).
  { intros d' Hlt H0 [_ Hle] Hne. pose proof (day_split d') as [Ed' _]. unfold passes_left. fold (minute_of_day d') in H0.
    rewrite H0 in *. cbn [Z.eqb]. destruct (Z.eqb_spec (toordinal d) (toordinal target)) as [|_]; [done|].
    assert (toordinal d < toordinal d') by lia.
    destruct (Z.eqb_spec (toordinal d') (toordinal target)), (Z.eqb_spec (minute_of_day d) 0); lia. }
  assert (Hin : forall d', d < d' -> on_the_way d' ->
            (toordinal d' = toordinal d \/ d' = (toordinal d + 1) * 1440) ->
            (minute_of_day d = 0 -> toordinal d = toordinal target) -> passes_left d' + 1 <= passes_left d).
  { intros d' Hlt [_ Hle] Hor Hz. pose proof (day_split d') as [Ed' Bd']. unfold passes_left.
    destruct Hor as [E|E].
    - rewrite E in *. destruct (Z.eqb_spec (toordinal d) (toordinal target)); [lia|].
      destruct (Z.eqb_spec (minute_of_day d') 0), (Z.eqb_spec (minute_of_day d) 0); lia.
    - assert (Eo : toordinal d' = toordinal d + 1) by (apply toordinal_unique; lia).
      assert (H0 : minute_of_day d' = 0) by lia. rewrite H0, Eo. cbn [Z.eqb].
      destruct (Z.eqb_spec (toordinal d) (toordinal target)); [lia|].
      destruct (Z.eqb_spec (toordinal d + 1) (toordinal target)), (Z.eqb_spec (minute_of_day d) 0); lia. }
  unfold search_step in *. destruct (mem (dt_month d) (c_month c)) eqn:Em; cbn [negb] in *.
  2: { destruct (month_jump d) as (J1 & J2 & J3).
       assert (Hq : quiet c d (replace_day1 (at_time (ymd2ord (dt_year d) (dt_month d) 1) 0 0 + 32 * 1440))).
       { intros t Ht. unfold matches. by rewrite (J3 t Ht), Em. }
       pose proof (Hnext _ J1 Hq) as Hw. unfold dt_add. rewrite month_jump_fits by (done || apply Hw). cbn [overflow_or].
       split; [done|]. apply Hmid; [done|done|done|]. intros E. by apply Hsame in E as [? _]. }
  destruct (_day_ok c d) eqn:Edy; cbn [negb] in *.
  2: { destruct (day_jump d) as (J1 & J2 & J3).
       assert (Hq : quiet c d (replace_midnight d + 1440)).
       { intros t Ht. unfold matches. rewrite (day_ok_same c t d (J3 t Ht)), Edy. by rewrite andb_false_r. }
       pose proof (Hnext _ J1 Hq) as Hw.
       assert (Hy : in_years (replace_midnight d + 1440) = true).
       { replace (replace_midnight d + 1440) with (d + (replace_midnight d + 1440 - d)) by lia.
         apply in_years_between; [done|lia|]. destruct Hw. lia. }
       unfold dt_add. rewrite Hy. cbn [overflow_or]. unfold id. split; [done|]. apply Hmid; [done|done|done|].
       intros E. by apply Hsame in E as [_ ?]. }
  assert (Hz : minute_of_day d = 0 -> toordinal d = toordinal target) by (intros; by apply good_day).
  destruct (mem (dt_hour d) (c_hour c)) eqn:Eh; cbn [negb] in *.
  2: { destruct (hour_jump d) as (J1 & J2).
       assert (Hq : quiet c d (replace_minute0 d + 60)).
       { intros t Ht. unfold matches. destruct (J2 t Ht) as [_ ->]. by rewrite Eh, andb_false_r. }
       pose proof (Hnext _ J1 Hq) as Hw.
       assert (Hy : in_years (replace_minute0 d + 60) = true).
       { replace (replace_minute0 d + 60) with (d + (replace_minute0 d + 60 - d)) by lia.
         apply in_years_between; [done|lia|]. destruct Hw. lia. }
       unfold dt_add. rewrite Hy. cbn [overflow_or]. unfold id. split; [done|]. apply Hin; [done|done| |done].
       unfold replace_minute0, at_time, dt_hour. fold (minute_of_day d).
       destruct (decide (minute_of_day d / 60 = 23)) as [E|E]; [right; lia|left].
       apply toordinal_unique. assert (0 <= minute_of_day d / 60 < 24) by (Z.to_euclidean_division_equations; lia). lia. }
  destruct (mem (dt_minute d) (c_minute c)) eqn:Ei; cbn [negb] in *.
  2: { assert (Hq : quiet c d (d + 1)).
       { intros t Ht. assert (t = d) as -> by lia. unfold matches. by rewrite Ei, andb_false_r. }
       assert (Hw : on_the_way (d + 1)) by (apply Hnext; [lia|done]). unfold dt_add.
       rewrite in_years_between by (done || lia || (destruct Hw; lia)). cbn [overflow_or]. unfold id. split; [done|].
       apply Hin; [lia|done| |done].
       destruct (decide (minute_of_day d = 1439)) as [E|E]; [right; lia|left]. apply toordinal_unique. lia. }
  destruct Hs as [_ Hm]. destruct Hd as [H1 H2]. destruct (decide (d = target)) as [|Hne]; [done|].
  rewrite (Hfirst d) in Hm by lia. done.
Qed.

(** 7,200 years are searched before the passes run out. *)
Lemma search_arrives : start <= target -> toordinal target - toordinal start + 2880 < Z.pos PASSES ->
  bounded_loop (search_step c) PASSES start = inr (Ok target).
Proof.
  intros Hle Hfar. assert (Hs : on_the_way start) by (split; lia).
  pose proof (bounded_loop_measure (search_step c) on_the_way passes_left) as Hmeasure.
  pose proof (bounded_loop_inv (search_step c) on_the_way (fun r => r = Ok target)) as Hinv.
  assert (H1 : forall d, on_the_way d -> match search_step c d with inl d' => on_the_way d' /\ passes_left d' + 1 <= passes_left d | inr _ => True end).
  { intros d Hd. pose proof (search_step_arrives d Hd). by destruct (search_step c d) as [|[]]. }
  assert (H2 : forall d, on_the_way d -> match search_step c d with inl d' => on_the_way d' | inr r => r = Ok target end).
  { intros d Hd. pose proof (search_step_arrives d Hd) as Ha. destruct (search_step c d) as [d'|[r|e]]; [apply Ha|by rewrite Ha|done]. }
  specialize (Hmeasure H1 PASSES start Hs). specialize (Hinv H2 PASSES start Hs).
  destruct (bounded_loop (search_step c) PASSES start) as [d|r]; [|by rewrite Hinv].
  exfalso. destruct Hmeasure as [[_ Hd] Hp].
  pose proof (day_split d) as [_ Bd]. pose proof (day_split start) as [_ Bs].
  assert (toordinal d <= toordinal target) by (apply Z.div_le_mono; lia).
  unfold passes_left in Hp. repeat case_match; lia.
Qed.
End Arrives.

(** ** What [next_after] promises *)
Definition after (ts : Q) (t : datetime) : Prop := microseconds ts < (t - EPOCH) * 60000000.

Lemma after_minute ts t : after ts t <-> EPOCH + microseconds ts / 60000000 < t.
Proof. unfold after. Z.to_euclidean_division_equations. lia. Qed.

Lemma first_match c start t : start <= t -> matches c t = true ->
  exists target, start <= target <= t /\ matches c target = true /\ quiet c start target.
Proof.
  intros Hle Ht. remember (Z.to_nat (t - start)) as k eqn:Hk. revert start Hle Hk.
  induction k as [|k IH]; intros start Hle Hk.
  - assert (t = start) as -> by lia. exists start. split_and!; [lia|lia|done|]. intros x Hx. lia.
  - destruct (matches c start) eqn:Es; [exists start; split_and!; [lia|lia|done|intros x Hx; lia]|].
    destruct (IH (start + 1)) as (target & Hr & Hm & Hq); [lia|lia|]. exists target. split_and!; [lia|lia|done|].
    intros x Hx. destruct (decide (x = start)) as [->|]; [done|]. apply Hq. lia.
Qed.

Lemma search_first c start d : bounded_loop (search_step c) PASSES start = inr (Ok d) ->
  start <= d /\ matches c d = true /\ quiet c start d.
Proof.
  intros E. pose proof (bounded_loop_inv (search_step c) (fun d => start <= d /\ quiet c start d)
    (fun r => match r with Ok d => start <= d /\ matches c d = true /\ quiet c start d | Raise _ => True end)) as Hinv.
  specialize (Hinv ltac:(
    intros x [Hx Hq]; pose proof (search_step_sound c x) as Hs; destruct (search_step c x) as [x'|[r|e]];
      [destruct Hs as [Hlt Hq']; split; [lia|by eapply quiet_app] | destruct Hs as [-> Hm]; done | done])).
  specialize (Hinv PASSES start). rewrite E in Hinv. apply Hinv. split; [lia|]. intros x Hx. lia.
Qed.

(** for an expression that parses, [next_after] returns the first matching
    minute after [ts] (taken to the microsecond), whatever it skips on its way;
    and it finds one whenever there is one within 7,200 years, before its passes
    or the calendar run out. *)
Theorem cron_next expr c ts : parse_cron expr = Ok c -> is_Some (from_timestamp ts) ->
  (forall r, next_after c ts = Ok r ->
     exists t, r = to_timestamp t /\ matches c t = true /\ after ts t /\
       forall t', after ts t' -> t' < t -> matches c t' = false) /\
  (forall t, matches c t = true -> after ts t -> in_years t = true ->
     t <= EPOCH + microseconds ts / 60000000 + 7200 * 365 * 1440 -> exists r, next_after c ts = Ok r).
Proof.
  intros Hp [d Hd]. pose proof (parse_cron_ok _ _ Hp) as Hc. unfold next_after. rewrite Hd.
  unfold from_timestamp in Hd. set (from := EPOCH + microseconds ts / 60000000) in *.
  destruct (in_years from) eqn:Ey; [|done]. injection Hd as <-. unfold in_years in Ey. rewrite andb_true_iff, !Z.leb_le in Ey.
  split.
  - intros r Hr. destruct (dt_add from 1) as [start|] eqn:Es; [|done]. apply dt_add_some in Es as ->.
    destruct (bounded_loop _ _ _) as [|[t|]] eqn:El; try done. injection Hr as <-.
    apply search_first in El as (Hle & Hm & Hq). exists t. split; [done|]. split; [done|]. rewrite after_minute. fold from.
    split; [lia|]. intros t' Ht'%after_minute Hlt. fold from in Ht'. apply Hq. lia.
  - intros t Hm Hafter%after_minute Hyt Hfar. fold from in Hafter.
    destruct (first_match c (from + 1) t) as (target & Hr & Hmt & Hq); [lia|done|].
    unfold in_years in Hyt. rewrite andb_true_iff, !Z.leb_le in Hyt.
    assert (Hto : forall a b, a <= b -> toordinal a <= toordinal b) by (intros; by apply Z.div_le_mono).
    assert (Hy : forall x, from <= x <= t -> in_years x = true).
    { intros x Hx. unfold in_years. rewrite andb_true_iff, !Z.leb_le. pose proof (Hto from x). pose proof (Hto x t). lia. }
    unfold dt_add. rewrite Hy by lia.
    rewrite (search_arrives c (from + 1) target Hc); [by eexists| |done|done|by apply Hy; lia|lia|].
    + pose proof (Hto from (from + 1)). lia.
    + pose proof (toordinal_bounds target). pose proof (toordinal_bounds (from + 1)). unfold PASSES. lia.
Qed.

(** ** Examples *)
Module CronDemo.
(** 1 December 2025, a Monday, 00:00 UTC. *)
Definition december : Q := 1764547200.
Definition leap_day : string := "0 0 29 2 *".

Lemma cron_next_witness : exists c, parse_cron leap_day = Ok c /\
  next_after c december = Ok 1835395200%Q /\
  (exists t, 1835395200%Q = to_timestamp t /\ matches c t = true /\ after december t /\
     forall t', after december t' -> t' < t -> matches c t' = false).
Proof.
  eexists. split; [vm_compute; reflexivity|].
  match goal with |- next_after ?c _ = _ /\ _ =>
    assert (Hn : next_after c december = Ok 1835395200%Q) by (vm_compute; reflexivity);
    split; [exact Hn|]; refine (proj1 (cron_next leap_day c december _ _) 1835395200%Q Hn)
  end.
  - vm_compute. reflexivity.
  - vm_compute. by eexists.
Defined.

(** Restricted days of the month and of the week are alternatives; with one of
    them free they are both asked. *)
Example days_or : (c ← parse_cron "30 4 1,15 * 5"; next_after c december) = Ok 1764563400%Q.
Proof. vm_compute. reflexivity. Qed.

(** A day no month has runs off the calendar, with another error than the one
    [next_after] documents. 1 January 9998 is 253339228800. *)
Example no_such_day : (c ← parse_cron "0 0 30 2 *"; next_after c 253339228800) = Raise DateOverflow.
Proof. vm_compute. reflexivity. Qed.

(** Malformed fields. *)
Example bad_fields :
  parse_cron "*/0 * * * *" = Raise (BadField "*/0 * * * *" (BadStep "*/0")) /\
  parse_cron "60 * * * *" = Raise (BadField "60 * * * *" (OutsideRange "60" 0 59)) /\
  parse_cron "* * * *" = Raise FieldCount /\ parse_cron "a * * * *" = Raise (BadField "a * * * *" (NotAnInt "a")).
Proof. split_and!; vm_compute; reflexivity. Qed.
End CronDemo.
