(* ===== verification/Triggers.v ===== *)
(** Component: scheduled, signed and event-triggered runs
    ([src/src/harness/triggers.py]). The clock readings of one call are one; a
    run a trigger starts is an environment that ends when it ends. *)
From S2P Require Import Prelude Window Errors Yaml Bytes Sha256 Json Calendar Cron.
From Stdlib Require Import Ascii.

(** ** Text

    [string.Template(t).safe_substitute(values)]: [$$], [$name] and [${name}];
    what has no value stays as it is. *)
Definition ident_start (c : ascii) : bool :=
  let n := nat_of_ascii c in
  ((65 <=? n) && (n <=? 90) || (97 <=? n) && (n <=? 122) || (n =? 95))%nat.
Definition ident_char (c : ascii) : bool := ident_start c || bool_decide (is_Some (Cron.digit_value c)).
Fixpoint take_ident (s : string) : string * string :=
  match s with
  | String c s' => if ident_char c then let '(a, b) := take_ident s' in (String c a, b) else (EmptyString, s)
  | EmptyString => (EmptyString, EmptyString)
  end.
(** The identifier a text starts with. *)
Definition identifier (s : string) : option (string * string) :=
  match s with String c _ => if ident_start c then Some (take_ident s) else None | EmptyString => None end.

Fixpoint substitute (fuel : nat) (values : list (string * string)) (s : string) : string :=
  match fuel with
  | O => s
  | S fuel =>
    match s with
    | EmptyString => EmptyString
    | String "$" s =>
      match s with
      | String "$" s => String "$" (substitute fuel values s)
      | String "{" s' =>
        match identifier s' with
        | Some (name, String "}" rest) =>
          default ("${" +:+ name +:+ "}") (od_get name values) +:+ substitute fuel values rest
        | _ => String "$" (substitute fuel values s)
        end
      | _ =>
        match identifier s with
        | Some (name, rest) => default (String "$" name) (od_get name values) +:+ substitute fuel values rest
        | None => String "$" (substitute fuel values s)
        end
      end
    | String c s => String c (substitute fuel values s)
    end
  end.
Definition safe_substitute (template : string) (values : list (string * string)) : string :=
  substitute (S (String.length template)) values template.

Fixpoint no_newlines (s : string) : string :=
  match s with
  | EmptyString => EmptyString
  | String c s => String (if decide (c = ascii_of_nat 10) then " "%char else c) (no_newlines s)
  end.

(** [==] of the values events hold. *)
Definition is_number (v : yaml) : bool := numeric v.
Fixpoint py_eq (a b : yaml) : bool :=
  match a, b with
  | YNull, YNull => true
  | YStr s, YStr t | YOther s, YOther t => bool_decide (s = t)
  | YList l, YList l' =>
    (fix go l l' := match l, l' with [], [] => true | x :: l, y :: l' => py_eq x y && go l l' | _, _ => false end) l l'
  | YMap m, YMap m' =>
    (length m =? length m')%nat &&
    (fix go m := match m with
                 | [] => true
                 | (k, v) :: m => existsb (fun kv => py_eq k kv.1 && py_eq v kv.2) m' && go m
                 end) m
  | _, _ =>
    is_number a && is_number b &&
    match number_of a, number_of b with
    | Fin x, Fin y => Qeq_bool x y | PInf, PInf | NInf, NInf => true | _, _ => false
    end
  end.

(** ** Triggers *)
Inductive task_handle := NoTask | Running | Ended.
#[export] Instance task_handle_eq_dec : EqDecision task_handle.
Proof. solve_decision. Defined.
Record Trigger := mkTrigger {
  tg_id : nat;                                 (* object identity *)
  tg_name : string; tg_agent : string; tg_task : string; tg_owner : string;
  interval_s : Q; tg_cron : option Cron; webhook_secret : string; tg_event : string; tg_match : list (string * yaml);
  max_per_hour : Z; next_at : Q; fired : list Q; skipped : Z; last_run : option string; handle : task_handle }.

Definition with_next_at (x : Q) (t : Trigger) : Trigger :=
  mkTrigger (tg_id t) (tg_name t) (tg_agent t) (tg_task t) (tg_owner t) (interval_s t) (tg_cron t) (webhook_secret t)
    (tg_event t) (tg_match t) (max_per_hour t) x (fired t) (skipped t) (last_run t) (handle t).
Definition with_fired (l : list Q) (n : Z) (h : task_handle) (t : Trigger) : Trigger :=
  mkTrigger (tg_id t) (tg_name t) (tg_agent t) (tg_task t) (tg_owner t) (interval_s t) (tg_cron t) (webhook_secret t)
    (tg_event t) (tg_match t) (max_per_hour t) (next_at t) l n (last_run t) h.
Definition with_last_run (x : option string) (t : Trigger) : Trigger :=
  mkTrigger (tg_id t) (tg_name t) (tg_agent t) (tg_task t) (tg_owner t) (interval_s t) (tg_cron t) (webhook_secret t)
    (tg_event t) (tg_match t) (max_per_hour t) (next_at t) (fired t) (skipped t) x Ended.

Record TriggerManager := mkTriggers { agents : list string; triggers : list (string * Trigger); next_id : nat }.
Definition new_triggers (known : list string) : TriggerManager := mkTriggers known [] 0.
Definition with_triggers (l : list (string * Trigger)) (m : TriggerManager) : TriggerManager :=
  mkTriggers (agents m) l (next_id m).

Inductive trigger_error :=
| TValueError (msg : string) | TKeyError (name : string) | TPermissionError | TTypeError | TOverflowError
| TCron (e : cron_error).
Abbreviation tres := (res trigger_error).

(** A run that a trigger starts. *)
Record launch := mkLaunch { l_id : nat; l_time : Q; l_agent : string; l_text : string; l_owner : string }.

(** *** Registration *)
Definition _add (t : Trigger) (m : TriggerManager) : tres unit * TriggerManager :=
  if od_mem (tg_name t) (triggers m) then (Raise (TValueError ("trigger " +:+ tg_name t +:+ " already exists")), m)
  else if negb (bool_decide (tg_agent t ∈ agents m)) then (Raise (TKeyError ("unknown agent: " +:+ tg_agent t)), m)
  else (Ok tt, mkTriggers (agents m) (od_set (tg_name t) t (triggers m)) (S (next_id m))).

Definition every (now : Q) (name : string) (seconds : Q) (agent task owner : string) (cap : Z) (m : TriggerManager)
    : tres unit * TriggerManager :=
  if seconds <=. 0 then (Raise (TValueError "interval must be positive"), m)
  else _add (mkTrigger (next_id m) name agent task owner seconds None "" "" [] cap (now + seconds) [] 0 None NoTask) m.
Definition add_cron (now : Q) (name expr agent task owner : string) (cap : Z) (m : TriggerManager)
    : tres unit * TriggerManager :=
  match c ← parse_cron expr; at_ ← next_after c now; Ok (c, at_) with
  | Raise e => (Raise (TCron e), m)
  | Ok (c, at_) => _add (mkTrigger (next_id m) name agent task owner 0 (Some c) "" "" [] cap at_ [] 0 None NoTask) m
  end.
Definition webhook (name secret agent task owner : string) (cap : Z) (m : TriggerManager) : tres unit * TriggerManager :=
  if decide (secret = EmptyString) then (Raise (TValueError "webhook trigger needs a signing secret"), m)
  else _add (mkTrigger (next_id m) name agent task owner 0 None secret "" [] cap 0 [] 0 None NoTask) m.
Definition on_event (name event agent task owner : string) (match_ : list (string * yaml)) (cap : Z) (m : TriggerManager)
    : tres unit * TriggerManager :=
  _add (mkTrigger (next_id m) name agent task owner 0 None "" event match_ cap 0 [] 0 None NoTask) m.
Definition remove (name : string) (m : TriggerManager) : bool * TriggerManager :=
  (od_mem name (triggers m), with_triggers (od_del name (triggers m)) m).

(** *** Firing *)
Section Fire.
Context `{PyStr} `{FloatText}.

Definition _plain (v : yaml) : string := String.substring 0 200 (no_newlines (py_str v)).
Definition is_container (v : yaml) : bool := match v with YMap _ | YList _ => true | _ => false end.
Definition plain_fields (event : list (string * yaml)) : list (string * string) :=
  (fun kv => (kv.1, _plain kv.2)) <$> List.filter (fun kv => negb (is_container kv.2)) event.

Definition _fire (now : Q) (event : list (string * yaml)) (t : Trigger) : option launch * Trigger :=
  let recent := List.filter (fun x => (now - x) <. 3600) (fired t) in
  if bool_decide (handle t = Running) || (max_per_hour t <=? Z.of_nat (length recent))
  then (None, with_fired recent (skipped t + 1) (handle t) t)
  else (Some (mkLaunch (tg_id t) now (tg_agent t) (safe_substitute (tg_task t) (plain_fields event)) (tg_owner t)),
        with_fired (recent ++ [now]) (skipped t) Running t).

(** [fire_webhook]: a stale or unreadable timestamp, or a signature that is not
    the HMAC of timestamp and body, is refused. *)
Definition strip_spaces (s : string) : string :=
  let trim := fix go l := match l with c :: l' => if Cron.is_space c then go l' else l | [] => [] end in
  text_of (rev (trim (rev (trim (chars_of s))))).
Definition is_fresh (now : Q) (timestamp : string) : tres bool :=
  match py_int (strip_spaces timestamp) with
  | None => Ok false
  | Some z => match int_to_float z with
              | Some q => Ok (Qabs (now - q) <=. 300)
              | None => Raise TOverflowError
              end
  end.
Definition signature_of (secret timestamp : string) (body : bytes) : string :=
  hex (hmac_sha256 (encode_text secret) (encode_text (timestamp +:+ ".") ++ body)).
Definition is_ascii (s : string) : bool := forallb (fun c => (nat_of_ascii c <? 128)%nat) (chars_of s).
Definition text_items (v : yaml) : list (string * yaml) :=
  match v with YMap m => omap (fun kv => match kv.1 with YStr k => Some (k, kv.2) | _ => None end) m | _ => [] end.
Definition body_fields (body : bytes) : list (string * yaml) :=
  match json_loads (chars_of (decode_text (match body with [] => encode_text "{}" | _ => body end))) with
  | Some v => text_items v
  | None => []
  end.

Definition fire_webhook (now : Q) (name : string) (body : bytes) (timestamp signature : string) (m : TriggerManager)
    : tres bool * list launch * TriggerManager :=
  match od_get name (triggers m) with
  | None => (Raise (TKeyError name), [], m)
  | Some t =>
    if decide (webhook_secret t = EmptyString) then (Raise (TKeyError name), [], m)
    else match is_fresh now timestamp with
    | Raise e => (Raise e, [], m)
    | Ok fresh =>
      if fresh && negb (is_ascii signature) then (Raise TTypeError, [], m)
      else if fresh && bool_decide (signature_of (webhook_secret t) timestamp body = signature) then
        let '(l, t) := _fire now (body_fields body) t in
        (Ok (bool_decide (is_Some l)), option_list l, with_triggers (od_set name t (triggers m)) m)
      else (Raise TPermissionError, [], m)
    end
  end.

Definition due (now : Q) (t : Trigger) : bool :=
  (negb (Qeq_bool (interval_s t) 0) || bool_decide (is_Some (tg_cron t))) && (next_at t <=. now).
Definition reschedule (now : Q) (t : Trigger) : tres Trigger :=
  match tg_cron t with
  | Some c => match next_after c now with Ok x => Ok (with_next_at x t) | Raise e => Raise (TCron e) end
  | None => Ok (with_next_at (now + interval_s t)%Q t)
  end.
(** The triggers in their order; an error leaves the rest untouched. *)
Fixpoint tick_all (now : Q) (l : list (string * Trigger)) : tres (list string) * list launch * list (string * Trigger) :=
  match l with
  | [] => (Ok [], [], [])
  | (name, t) :: l =>
    if due now t then
      match reschedule now t with
      | Raise e => (Raise e, [], (name, t) :: l)
      | Ok t =>
        let '(x, t) := _fire now [] t in
        let '(names, xs, l) := tick_all now l in
        (ns ← names; Ok (if decide (is_Some x) then tg_name t :: ns else ns), option_list x ++ xs, (name, t) :: l)
      end
    else let '(names, xs, l) := tick_all now l in (names, xs, (name, t) :: l)
  end.
Definition tick (now : Q) (m : TriggerManager) : tres (list string) * list launch * TriggerManager :=
  let '(names, xs, l) := tick_all now (triggers m) in (names, xs, with_triggers l m).

Definition takes_event (event : list (string * yaml)) (t : Trigger) : bool :=
  py_eq (YStr (tg_event t)) (default YNull (od_get "type" event)) &&
  forallb (fun kv => py_eq (default YNull (od_get kv.1 event)) kv.2) (tg_match t).
Fixpoint bus_all (now : Q) (event : list (string * yaml)) (l : list (string * Trigger)) : list launch * list (string * Trigger) :=
  match l with
  | [] => ([], [])
  | (name, t) :: l =>
    let '(x, t) := if takes_event event t then _fire now event t else (None, t) in
    let '(xs, l) := bus_all now event l in (option_list x ++ xs, (name, t) :: l)
  end.
Definition on_bus_event (now : Q) (event : list (string * yaml)) (m : TriggerManager) : list launch * TriggerManager :=
  let '(xs, l) := bus_all now event (triggers m) in (xs, with_triggers l m).

(** [_go] at its end: the run's id, or a failure that is logged. *)
Definition _go_end (id : nat) (run : option string) (m : TriggerManager) : TriggerManager :=
  with_triggers (od_map (fun t => if decide (tg_id t = id)
                                  then with_last_run (match run with Some r => Some r | None => last_run t end) t else t)
                        (triggers m)) m.
End Fire.

(** ** Histories

    Operations, each at the clock reading of its call. The environment keeps the
    runs that are going; one that ends gives its id, or fails. *)
Inductive trig_op :=
| OEvery (name : string) (seconds : Q) (agent task owner : string) (cap : Z)
| OCron (name expr agent task owner : string) (cap : Z)
| OWebhook (name secret agent task owner : string) (cap : Z)
| OOnEvent (name event agent task owner : string) (match_ : list (string * yaml)) (cap : Z)
| ORemove (name : string)
| OFireWebhook (name : string) (body : bytes) (timestamp signature : string)
| OTick
| OBusEvent (event : list (string * yaml))
| ORunEnds (id : nat) (run : option string).

Abbreviation within_hour := (count_in 3600).
Abbreviation recent := (recent_in 3600).
Record history := mkHistory { h_manager : TriggerManager; going : list nat; launches : list launch }.
Definition new_history (known : list string) : history := mkHistory (new_triggers known) [] [].

Section Histories.
Context `{PyStr} `{FloatText}.

Definition trig_call (now : Q) (o : trig_op) (m : TriggerManager) : list launch * TriggerManager :=
  match o with
  | OEvery n s a t w c => ([], (every now n s a t w c m).2)
  | OCron n x a t w c => ([], (add_cron now n x a t w c m).2)
  | OWebhook n s a t w c => ([], (webhook n s a t w c m).2)
  | OOnEvent n e a t w l c => ([], (on_event n e a t w l c m).2)
  | ORemove n => ([], (remove n m).2)
  | OFireWebhook n b t s => let '(_, x, m) := fire_webhook now n b t s m in (x, m)
  | OTick => let '(_, x, m) := tick now m in (x, m)
  | OBusEvent e => on_bus_event now e m
  | ORunEnds i r => ([], _go_end i r m)
  end.

Definition trig_step (now : Q) (o : trig_op) (h : history) : history :=
  let going_now := match o with ORunEnds i _ => List.filter (fun j => negb (j =? i)%nat) (going h) | _ => going h end in
  match o with
  | ORunEnds i _ => if bool_decide (i ∈ going h)
                    then mkHistory (trig_call now o (h_manager h)).2 going_now (launches h) else h
  | _ => let '(x, m) := trig_call now o (h_manager h) in
         mkHistory m (going_now ++ (l_id <$> x)) (launches h ++ x)
  end.
Definition trig_run (ops : list (Q * trig_op)) (h : history) : history :=
  fold_left (fun h no => trig_step no.1 no.2 h) ops h.

(** The starts of one trigger, and those of them in the hour that ends at [y]. *)
Definition starts_of (id : nat) (l : list launch) : list Q :=
  l_time <$> List.filter (fun x => (l_id x =? id)%nat) l.
Abbreviation within_hour := (count_in 3600).
End Histories.

(** ** The invariant

    Of a trigger it sees the identity, the cap, the recent starts and the task. *)
Definition trig_view (t : Trigger) : nat * Z * list Q * task_handle := (tg_id t, max_per_hour t, fired t, handle t).

Record trig_ok (now : Q) (l : list launch) (act : list nat) (v : nat * Z * list Q * task_handle) : Prop := {
  to_recent : recent now (starts_of v.1.1.1 l) = recent now v.1.2;
  to_cap : forall y, (within_hour y (starts_of v.1.1.1 l) <= Z.to_nat v.1.1.2)%nat;
  to_task : v.2 = Running <-> v.1.1.1 ∈ act }.
Record trigs_ok (now : Q) (next : nat) (l : list launch) (act : list nat) (vs : list (nat * Z * list Q * task_handle)) : Prop := {
  ts_all : Forall (trig_ok now l act) vs;
  ts_ids : NoDup ((fun v => v.1.1.1) <$> vs);
  ts_next : Forall (fun v => v.1.1.1 < next)%nat vs;
  ts_past : Forall (fun x => (l_time x <= now)%Q /\ (l_id x < next)%nat) l;
  ts_act : NoDup act;
  ts_old : Forall (fun i => i < next)%nat act }.
#[export] Hint Resolve ts_all ts_ids ts_next ts_past ts_act ts_old : core.

Lemma starts_of_app id l l' : starts_of id (l ++ l') = starts_of id l ++ starts_of id l'.
Proof. unfold starts_of. by rewrite List.filter_app, fmap_app. Qed.

Lemma starts_of_one id x : starts_of id [x] = if (l_id x =? id)%nat then [l_time x] else [].
Proof. unfold starts_of. cbn. by destruct (_ =? _)%nat. Qed.

Lemma starts_past now next id l :
  Forall (fun x => (l_time x <= now)%Q /\ (l_id x < next)%nat) l -> Forall (fun x => x <= now)%Q (starts_of id l).
Proof.
  intros Hl. unfold starts_of. apply Forall_fmap. eapply Forall_impl; [by apply Forall_list_filter|]. intros x [? _]. done.
Qed.

Lemma trigs_ok_later now now' next l act vs : (now <= now')%Q -> trigs_ok now next l act vs -> trigs_ok now' next l act vs.
Proof.
  intros Hn [Ha Hi Hx Hp Hc Ho]. split; try done.
  - eapply Forall_impl; [exact Ha|]. intros v [H1 H2 H3]. split; [|done..].
    by rewrite <- (recent_later _ now), H1, recent_later.
  - eapply Forall_impl; [exact Hp|]. intros x [? ?]. split; [lra|done].
Qed.

(** A launch of trigger [id] leaves the others as they are. *)
Lemma trig_ok_other now l act x v : l_id x ≠ v.1.1.1 -> trig_ok now l act v -> trig_ok now (l ++ [x]) (act ++ [l_id x]) v.
Proof.
  intros Hne [H1 H2 H3]. apply Nat.eqb_neq in Hne as Heq.
  assert (Hs : starts_of v.1.1.1 (l ++ [x]) = starts_of v.1.1.1 l).
  { rewrite starts_of_app, starts_of_one, Heq. apply app_nil_r. }
  split; [by rewrite Hs|by rewrite Hs|]. rewrite H3, elem_of_app, list_elem_of_singleton.
  split; [by left|]. intros [?|?]; [done|congruence].
Qed.

Lemma trigs_ok_one now next l act vs1 v vs2 v' :
  trigs_ok now next l act (vs1 ++ v :: vs2) -> v'.1.1.1 = v.1.1.1 -> trig_ok now l act v' ->
  trigs_ok now next l act (vs1 ++ v' :: vs2).
Proof.
  intros [Ha Hi Hx Hp Hc Ho] He Hv. split; try done.
  - apply Forall_app in Ha as [? [_ ?]%Forall_cons]. apply Forall_app. split; [done|by constructor].
  - revert Hi. by rewrite !fmap_app, !fmap_cons, He.
  - apply Forall_app in Hx as [? [? ?]%Forall_cons]. apply Forall_app. split; [done|]. constructor; [by rewrite He|done].
Qed.

Lemma trigs_ok_launch now next l act vs1 v vs2 v' x :
  trigs_ok now next l act (vs1 ++ v :: vs2) -> v'.1.1.1 = v.1.1.1 -> l_id x = v.1.1.1 -> l_time x = now ->
  v.1.1.1 ∉ act -> trig_ok now (l ++ [x]) (act ++ [l_id x]) v' ->
  trigs_ok now next (l ++ [x]) (act ++ [l_id x]) (vs1 ++ v' :: vs2).
Proof.
  intros [Ha Hi Hx Hp Hc Ho] He Hid Ht Hna Hv.
  rewrite fmap_app, fmap_cons in Hi. apply NoDup_app in Hi as (Hi1 & Hd & [Hni Hi2]%NoDup_cons).
  apply Forall_app in Ha as [Ha1 [_ Ha2]%Forall_cons]. apply Forall_app in Hx as [Hx1 [Hxv Hx2]%Forall_cons].
  assert (Hother : forall vs, v.1.1.1 ∉ ((fun w => w.1.1.1) <$> vs) -> Forall (trig_ok now l act) vs ->
            Forall (trig_ok now (l ++ [x]) (act ++ [l_id x])) vs).
  { intros vs Hn Hvs. rewrite Forall_forall in *. intros w Hw. apply trig_ok_other; [|by apply Hvs].
    rewrite Hid. intros Heq. apply Hn. rewrite Heq. apply list_elem_of_fmap. by exists w. }
  split.
  - apply Forall_app. split; [|constructor; [done|]]; apply Hother; try done.
    intros Hin. eapply Hd; [exact Hin|left].
  - rewrite fmap_app, fmap_cons, He. apply NoDup_app. split; [done|]. split; [done|]. by constructor.
  - apply Forall_app. split; [done|]. constructor; [by rewrite He|done].
  - apply Forall_app. split; [done|]. apply Forall_singleton. rewrite Ht, Hid. split; [apply Qle_refl|done].
  - apply NoDup_app. split; [done|]. split; [|apply NoDup_singleton]. rewrite Hid.
    intros i Hin ->%list_elem_of_singleton. done.
  - apply Forall_app. split; [done|]. apply Forall_singleton. by rewrite Hid.
Qed.

Section Invariant.
Context `{PyStr} `{FloatText}.

Lemma fire_ok now next l act vs1 t vs2 event x t' :
  trigs_ok now next l act (vs1 ++ trig_view t :: vs2) -> _fire now event t = (x, t') ->
  trigs_ok now next (l ++ option_list x) (act ++ (l_id <$> option_list x)) (vs1 ++ trig_view t' :: vs2).
Proof.
  intros Ht Hf. assert (Hv : trig_ok now l act (trig_view t)).
  { pose proof (ts_all _ _ _ _ _ Ht) as Ha. by apply Forall_app in Ha as [_ [? _]%Forall_cons]. }
  pose proof (starts_past _ _ (tg_id t) _ (ts_past _ _ _ _ _ Ht)) as Hpast. destruct Hv as [H1 H2 H3].
  cbn [trig_view fst snd] in *. unfold _fire in Hf. fold (recent now (fired t)) in Hf.
  destruct (_ || _) eqn:E; injection Hf as <- <-; cbn [option_list option_rect].
  - rewrite fmap_nil, !app_nil_r. eapply trigs_ok_one; [exact Ht|done|]. split; [|done|done].
    cbn [trig_view fst snd tg_id with_fired fired]. rewrite recent_later by apply Qle_refl. done.
  - apply orb_false_iff in E as [E1%bool_decide_eq_false E2%Z.leb_gt].
    assert (Hna : tg_id t ∉ act) by (by rewrite <- H3). rewrite <- H1 in E2.
    apply (trigs_ok_launch _ _ _ _ _ _ _ _ (mkLaunch _ now _ _ _) Ht); cbn [l_id l_time trig_view fst snd];
      [done|done|done|done|].
    assert (Hs : forall a b c, starts_of (tg_id t) (l ++ [mkLaunch (tg_id t) now a b c]) = starts_of (tg_id t) l ++ [now]).
    { intros. rewrite starts_of_app, starts_of_one. cbn. by rewrite Nat.eqb_refl. }
    split; cbn [trig_view fst snd tg_id with_fired max_per_hour fired handle]; rewrite ?Hs.
    + unfold recent at 1 2. rewrite !List.filter_app. f_equal. rewrite <- H1.
      fold (recent now (starts_of (tg_id t) l)). fold (recent now (recent now (starts_of (tg_id t) l))).
      by rewrite recent_later by apply Qle_refl.
    + intros y. apply count_in_snoc; [done|apply H2|]. lia.
    + split; [|done]. intros _. apply elem_of_app. right. by apply list_elem_of_singleton.
Qed.

Definition views (l : list (string * Trigger)) := trig_view <$> od_values l.

Lemma views_cons name t l : views ((name, t) :: l) = trig_view t :: views l.
Proof. reflexivity. Qed.

Lemma reschedule_view now t t' : reschedule now t = Ok t' -> trig_view t' = trig_view t.
Proof. unfold reschedule. destruct (tg_cron t) as [c|]; [destruct (next_after c now); intros [= <-]|intros [= <-]]; done. Qed.

Lemma tick_all_ok now next l act vs1 ts : forall r xs ts',
  trigs_ok now next l act (vs1 ++ views ts) -> tick_all now ts = (r, xs, ts') ->
  trigs_ok now next (l ++ xs) (act ++ (l_id <$> xs)) (vs1 ++ views ts').
Proof.
  revert l act vs1. induction ts as [|[name t] ts IH]; intros l act vs1 r xs ts' Ht; cbn [tick_all].
  { intros [= <- <- <-]. by rewrite fmap_nil, (app_nil_r l), (app_nil_r act). }
  destruct (due now t).
  - destruct (reschedule now t) as [t1|e] eqn:Er.
    + apply reschedule_view in Er as Ev. destruct (_fire now [] t1) as [x t2] eqn:Ef.
      destruct (tick_all now ts) as [[names xs2] ts2] eqn:Etk. intros [= <- <- <-].
      rewrite views_cons, app_assoc, fmap_app, app_assoc, cons_middle, app_assoc.
      eapply IH; [|done]. rewrite <- app_assoc, <- cons_middle. eapply fire_ok; [|done].
      by rewrite Ev.
    + intros [= <- <- <-]. by rewrite fmap_nil, (app_nil_r l), (app_nil_r act).
  - destruct (tick_all now ts) as [[names xs2] ts2] eqn:Etk. intros [= <- <- <-].
    rewrite views_cons, cons_middle, app_assoc. eapply IH; [|done]. by rewrite <- app_assoc, <- cons_middle.
Qed.

Lemma bus_all_ok now next l act vs1 event ts : forall xs ts',
  trigs_ok now next l act (vs1 ++ views ts) -> bus_all now event ts = (xs, ts') ->
  trigs_ok now next (l ++ xs) (act ++ (l_id <$> xs)) (vs1 ++ views ts').
Proof.
  revert l act vs1. induction ts as [|[name t] ts IH]; intros l act vs1 xs ts' Ht; cbn [bus_all].
  { intros [= <- <-]. by rewrite fmap_nil, (app_nil_r l), (app_nil_r act). }
  rewrite views_cons in Ht.
  destruct (if takes_event event t then _ else _) as [x t2] eqn:Ef. destruct (bus_all now event ts) as [xs2 ts2] eqn:Eb.
  intros [= <- <-]. rewrite views_cons, app_assoc, fmap_app, app_assoc, cons_middle, app_assoc.
  eapply IH; [|done]. rewrite <- app_assoc, <- cons_middle.
  destruct (takes_event event t); [by eapply fire_ok|]. injection Ef as <- <-. cbn [option_list option_rect]. by rewrite fmap_nil, !app_nil_r.
Qed.
End Invariant.

Section Runs.
Context `{PyStr} `{FloatText}.

Definition hist_ok (now : Q) (h : history) : Prop :=
  trigs_ok now (next_id (h_manager h)) (launches h) (going h) (views (triggers (h_manager h))).

(** A new trigger has no starts and no run. *)
Lemma trigs_ok_new now next l act vs cap :
  trigs_ok now next l act vs -> trigs_ok now (S next) l act (vs ++ [(next, cap, [], NoTask)]).
Proof.
  intros [Ha Hi Hx Hp Hc Ho].
  assert (Hs : starts_of next l = []).
  { unfold starts_of. clear -Hp. induction Hp as [|x l [_ Hx] Hl IH]; [done|]. cbn [List.filter].
    rewrite (proj2 (Nat.eqb_neq _ _)) by lia. done. }
  split; try done.
  - apply Forall_app. split; [done|]. apply Forall_singleton. split; cbn [fst snd]; rewrite ?Hs; [done|intros y; cbn; lia|].
    split; [done|]. intros Hin. rewrite Forall_forall in Ho. apply Ho in Hin. lia.
  - rewrite fmap_app. apply NoDup_app. split; [done|]. split; [|apply NoDup_singleton].
    intros i Hin ->%list_elem_of_singleton. cbn in Hin. apply list_elem_of_fmap in Hin as (v & -> & Hv).
    rewrite Forall_forall in Hx. apply Hx in Hv. cbn in Hv. lia.
  - apply Forall_app. split; [|apply Forall_singleton; cbn; lia]. eapply Forall_impl; [exact Hx|]. cbn. lia.
  - eapply Forall_impl; [exact Hp|]. cbn. intros x [? ?]. split; [done|lia].
  - eapply Forall_impl; [exact Ho|]. cbn. lia.
Qed.

Lemma trigs_ok_sublist now next l act vs vs' : vs' `sublist_of` vs -> trigs_ok now next l act vs -> trigs_ok now next l act vs'.
Proof.
  intros Hs [Ha Hi Hx Hp Hc Ho]. split; try done.
  - by eapply sublist_Forall.
  - eapply sublist_NoDup; [exact Hi|]. by apply fmap_sublist.
  - by eapply sublist_Forall.
Qed.

Lemma add_ok now l act t m :
  tg_id t = next_id m -> fired t = [] -> handle t = NoTask ->
  trigs_ok now (next_id m) l act (views (triggers m)) ->
  trigs_ok now (next_id (_add t m).2) l act (views (triggers (_add t m).2)).
Proof.
  intros Hid Hf Hh Ht. unfold _add, od_mem. destruct (od_get (tg_name t) (triggers m)) eqn:Eg; [done|].
  destruct (negb _); [done|]. cbn. rewrite od_set_absent by done. unfold views, od_values.
  rewrite !fmap_app. cbn [fmap list_fmap snd]. unfold trig_view at 2. rewrite Hid, Hf, Hh. by apply trigs_ok_new.
Qed.

(** The run of [id] ends. *)
Lemma go_end_ok now next l act id run vs ts :
  vs = views ts -> trigs_ok now next l act vs -> id ∈ act ->
  trigs_ok now next l (List.filter (fun j => negb (j =? id)%nat) act)
    (views (od_map (fun t => if decide (tg_id t = id) then with_last_run (run t) t else t) ts)).
Proof.
  intros -> [Ha Hi Hx Hp Hc Ho] Hin.
  assert (Hmem : forall i, i ∈ List.filter (fun j => negb (j =? id)%nat) act <-> i ∈ act /\ i ≠ id).
  { intros i. rewrite !list_elem_of_In, List.filter_In, negb_true_iff, Nat.eqb_neq. done. }
  set (g := fun t => if decide (tg_id t = id) then with_last_run (run t) t else t).
  assert (Hids : (fun v => v.1.1.1) <$> views (od_map g ts) = (fun v => v.1.1.1) <$> views ts).
  { unfold views, od_values, od_map. rewrite <- !list_fmap_compose. apply list_fmap_ext. intros _ [n t] _. cbn.
    unfold g. by case_decide. }
  split; try done.
  - unfold views, od_values, od_map in *. rewrite !Forall_fmap in *. eapply Forall_impl; [exact Ha|].
    intros [n t] [H1 H2 H3]. cbn in *. unfold g. case_decide as E; (split; cbn; [done|done|]); rewrite Hmem.
    + split; [done|]. intros [_ ?]. done.
    + rewrite H3. split; [done|by intros [? _]].
  - by rewrite Hids.
  - assert (Hf : Forall (fun i => i < next)%nat ((fun v => v.1.1.1) <$> views ts)) by (by rewrite Forall_fmap).
    rewrite <- Hids, Forall_fmap in Hf. done.
  - eapply sublist_NoDup; [exact Hc|apply filter_sublist].
  - by apply Forall_list_filter.
Qed.

Lemma webhook_fire_ok now n b ts sg l act m r x m' :
  trigs_ok now (next_id m) l act (views (triggers m)) -> fire_webhook now n b ts sg m = (r, x, m') ->
  trigs_ok now (next_id m') (l ++ x) (act ++ (l_id <$> x)) (views (triggers m')).
Proof.
  intros Ht. assert (Hnone : trigs_ok now (next_id m) (l ++ []) (act ++ (l_id <$> [])) (views (triggers m))).
  { by rewrite fmap_nil, !app_nil_r. }
  unfold fire_webhook. destruct (od_get n (triggers m)) as [t|] eqn:Eg; [|by intros [= <- <- <-]].
  destruct (decide _); [by intros [= <- <- <-]|]. destruct (is_fresh now ts) as [fresh|e]; [|by intros [= <- <- <-]].
  destruct (fresh && negb _); [by intros [= <- <- <-]|]. destruct (_ && _); [|by intros [= <- <- <-]].
  destruct (_fire now (body_fields b) t) as [x0 t'] eqn:Ef. intros [= <- <- <-]. cbn.
  apply od_get_split in Eg as (d1 & d2 & Hd & Hs). rewrite Hs. unfold views, od_values in *. rewrite Hd in Ht.
  rewrite !fmap_app, !fmap_cons in *. by eapply fire_ok.
Qed.

Lemma hist_step_ok now o h : hist_ok now h -> hist_ok now (trig_step now o h).
Proof.
  unfold hist_ok. intros Hh. destruct h as [m act l]. cbn in Hh.
  assert (Hadd : forall t, tg_id t = next_id m -> fired t = [] -> handle t = NoTask ->
            hist_ok now (mkHistory (_add t m).2 (act ++ []) (l ++ []))).
  { intros t Hid Hf Ha. unfold hist_ok. cbn. rewrite !app_nil_r. by apply add_ok. }
  assert (Hskip : hist_ok now (mkHistory m (act ++ []) (l ++ []))) by (unfold hist_ok; cbn; by rewrite !app_nil_r).
  destruct o; cbn -[_add views add_cron].
  - unfold every. destruct (_ <=. 0); [exact Hskip|by apply Hadd].
  - unfold add_cron. destruct (_ ← _; _) as [[c at_]|e]; [by apply Hadd|exact Hskip].
  - unfold webhook. destruct (decide _); [exact Hskip|by apply Hadd].
  - by apply Hadd.
  - rewrite !app_nil_r. eapply trigs_ok_sublist; [|exact Hh]. unfold views. apply fmap_sublist.
    unfold od_values. apply fmap_sublist, od_del_sublist.
  - destruct (fire_webhook _ _ _ _ _ _) as [[r x] m'] eqn:E. by eapply webhook_fire_ok.
  - unfold tick. destruct (tick_all now (triggers m)) as [[r xs] ts'] eqn:E. cbn -[views].
    by eapply (tick_all_ok _ _ _ _ []).
  - unfold on_bus_event. destruct (bus_all now event (triggers m)) as [xs ts'] eqn:E. cbn -[views].
    by eapply (bus_all_ok _ _ _ _ []).
  - destruct (bool_decide _) eqn:E; [|done]. apply bool_decide_eq_true in E. cbn -[views]. by eapply go_end_ok.
Qed.

Lemma hist_run_ok ops now h :
  hist_ok now h -> clock_from now ops -> exists last, (now <= last)%Q /\ hist_ok last (trig_run ops h).
Proof.
  revert now h. induction ops as [|[t o] ops IH]; intros now h Hh Hc; [by exists now; split; [apply Qle_refl|]|].
  destruct Hc as [Ht Hc]. apply (trigs_ok_later _ t) in Hh; [|done].
  destruct (IH t (trig_step t o h)) as (last & Hl & Hok); [by apply hist_step_ok|done|].
  exists last. split; [by eapply Qle_trans|done].
Qed.

(** C10: Whatever is registered, removed, posted, emitted and ticked, and whenever
    runs end: no trigger ever has two runs going at once, and in no hour are
    there more starts of a trigger than its cap (none if the cap is negative). *)
Theorem triggers_are_bounded known start ops :
  clock_from start ops ->
  let h := trig_run ops (new_history known) in
  NoDup (going h) /\
  forall name t y, od_get name (triggers (h_manager h)) = Some t ->
    (within_hour y (starts_of (tg_id t) (launches h)) <= Z.to_nat (max_per_hour t))%nat /\
    (handle t = Running <-> tg_id t ∈ going h).
Proof.
  intros Hc. cbv zeta. destruct (hist_run_ok ops start (new_history known)) as (last & _ & Hok); [|done|].
  { split; cbn; by constructor || apply NoDup_nil. }
  split; [apply Hok|]. intros name t y Hg%od_get_elem.
  assert (Hv : trig_view t ∈ views (triggers (h_manager (trig_run ops (new_history known))))).
  { unfold views, od_values. apply list_elem_of_fmap. exists t. split; [done|].
    apply list_elem_of_fmap. by exists (name, t). }
  pose proof (ts_all _ _ _ _ _ Hok) as Ha. rewrite Forall_forall in Ha. destruct (Ha _ Hv) as [_ H2 H3].
  split; [apply H2|apply H3].
Qed.

(** A hexadecimal signature is ASCII text. *)
Lemma hex_is_ascii bs : is_ascii (hex bs) = true.
Proof.
  assert (Hd : forall v, 0 <= v < 16 -> (nat_of_ascii (hex_digit v) <? 128)%nat = true).
  { intros v Hv. unfold hex_digit. rewrite nat_ascii_embedding; [|destruct (v <? 10); lia].
    apply Nat.ltb_lt. destruct (v <? 10); lia. }
  unfold is_ascii. induction bs as [|b bs IH]; [done|]. cbn -[nat_of_ascii hex_digit Nat.ltb]. pose proof (b2z_range b).
  rewrite !Hd; [exact IH|apply Z.mod_pos_bound; lia|].
  split; [apply Z.div_pos; lia|apply Z.div_lt_upper_bound; lia].
Qed.

(** What admits a call of a webhook. *)
Definition authentic (now : Q) (t : Trigger) (body : bytes) (timestamp signature : string) : Prop :=
  webhook_secret t ≠ EmptyString /\
  (exists z q, py_int (strip_spaces timestamp) = Some z /\ int_to_float z = Some q /\ (Qabs (now - q) <= 300)%Q) /\
  signature = signature_of (webhook_secret t) timestamp body.

Lemma is_fresh_true now timestamp :
  is_fresh now timestamp = Ok true <->
  exists z q, py_int (strip_spaces timestamp) = Some z /\ int_to_float z = Some q /\ (Qabs (now - q) <= 300)%Q.
Proof.
  unfold is_fresh. destruct (py_int _) as [z|]; [|split; [done|by intros (? & ? & ? & ?)]].
  destruct (int_to_float z) as [q|] eqn:E; [|split; [done|intros (z' & q & [= <-] & ? & ?); congruence]].
  split; [intros [= Hq]; apply fleb_le in Hq; by exists z, q|].
  intros (z' & q' & [= <-] & Hq & Hle). rewrite E in Hq. injection Hq as <-. f_equal. by apply fleb_le.
Qed.

(** A webhook starts a run only for a trigger with a secret, a timestamp at
    most five minutes away, and the hexadecimal HMAC of timestamp and body under
    that secret; then it starts one unless one is going or the cap is reached.
    In every other case nothing starts and nothing changes. *)
Theorem webhook_needs_signature now name body timestamp signature m :
  let '(r, x, m') := fire_webhook now name body timestamp signature m in
  match r with
  | Ok started => exists t, od_get name (triggers m) = Some t /\ authentic now t body timestamp signature /\
      started = negb (bool_decide (handle t = Running) || (max_per_hour t <=? Z.of_nat (length (recent now (fired t))))) /\
      (l_id <$> x) = (if started then [tg_id t] else [])
  | Raise e => x = [] /\ m' = m /\
      forall t, od_get name (triggers m) = Some t -> ~ authentic now t body timestamp signature
  end.
Proof.
  unfold fire_webhook. destruct (od_get name (triggers m)) as [t|]; [|done].
  unfold authentic. destruct (decide (webhook_secret t = EmptyString)) as [|Hs].
  { split; [done|]. split; [done|]. by intros ? [= <-] [? _]. }
  pose proof (is_fresh_true now timestamp) as Hf. destruct (is_fresh now timestamp) as [[]|e]; cbn [andb].
  - destruct (is_ascii signature) eqn:Ea; cbn [negb].
    + destruct (bool_decide _) eqn:Eb.
      * apply bool_decide_eq_true in Eb. destruct (_fire now (body_fields body) t) as [x t'] eqn:E.
        exists t. split; [done|]. split; [split_and!; [done|by apply Hf|done]|]. unfold _fire in E. fold (recent now (fired t)) in E.
        destruct (_ || _); injection E as <- <-; by split.
      * apply bool_decide_eq_false in Eb. split; [done|]. split; [done|]. intros ? [= <-] (_ & _ & ?). congruence.
    + split; [done|]. split; [done|]. intros ? [= <-] (_ & _ & ->). unfold signature_of in Ea. by rewrite hex_is_ascii in Ea.
  - split; [done|]. split; [done|]. by intros ? [= <-] (_ & ?%Hf & _).
  - split; [done|]. split; [done|]. by intros ? [= <-] (_ & ?%Hf & _).
Qed.
End Runs.

(** ** Examples *)
Module TriggerDemo.
#[local] Existing Instance WholeFloats.whole_text.
#[local] Instance repr : PyStr := {| py_repr := fun _ => "?" |}.

Definition noon : Q := 1764590400.
Definition signed : string := signature_of "s3cret" "1764590400" (encode_text "{}").

(** A webhook capped at one start an hour, posted twice; and an interval
    trigger whose first run is still going when it is due again. *)
Definition story : list (Q * trig_op) :=
  [(noon, OWebhook "hook" "s3cret" "bot" "hello" "local" 1);
   (noon, OEvery "tick" 60 "bot" "work" "local" 6);
   (noon, OFireWebhook "hook" (encode_text "{}") "1764590400" signed);
   ((noon + 30)%Q, ORunEnds 0 (Some "run-1"));
   ((noon + 30)%Q, OFireWebhook "hook" (encode_text "{}") "1764590400" signed);
   ((noon + 60)%Q, OTick); ((noon + 120)%Q, OTick); ((noon + 130)%Q, ORunEnds 1 None); ((noon + 180)%Q, OTick)].

Definition told : history := trig_run story (new_history ["bot"]).

Example story_launches :
  map (fun x => (l_id x, Qred (l_time x))) (launches told) = [(0%nat, noon); (1%nat, 1764590460%Q); (1%nat, 1764590580%Q)].
Proof. vm_compute. reflexivity. Qed.
Example story_skips : map (fun t => (skipped t, last_run t)) (od_values (triggers (h_manager told))) = [(1, Some "run-1"); (1, None)].
Proof. vm_compute. reflexivity. Qed.

Lemma triggers_are_bounded_witness : clock_from noon story /\ NoDup (going told).
Proof.
  assert (Hc : clock_from noon story) by (cbn; repeat split; by apply Qle_bool_iff).
  split; [exact Hc|]. exact (proj1 (triggers_are_bounded ["bot"] noon story Hc)).
Defined.

(** A signature of another script, and a timestamp beyond every float. *)
Definition hooked : TriggerManager := (webhook "hook" "s3cret" "bot" "hello" "local" 1 (new_triggers ["bot"])).2.
Example odd_signature : (fire_webhook noon "hook" [] "1764590400" (String (ascii_of_nat 195) "x") hooked).1.1 = Raise TTypeError.
Proof. vm_compute. reflexivity. Qed.
Example huge_timestamp : (fire_webhook noon "hook" [] ("1" +:+ text_of (repeat "0"%char 309)) "" hooked).1.1 = Raise TOverflowError.
Proof. vm_compute. reflexivity. Qed.

Example fields_fill_the_task :
  safe_substitute "watch $provider, pay $$5, ${who} and $ ${" (plain_fields [("provider", YStr "acme"); ("x", YList [])])
  = "watch acme, pay $5, ${who} and $ ${".
Proof. vm_compute. reflexivity. Qed.
End TriggerDemo.
