(* ===== verification/Regex.v ===== *)
(** Regular expressions as Python's [re] matches them: a backtracking matcher
    that prefers the leftmost alternative and, unless told otherwise, the longest
    repetition. Texts are lists of characters; where a match stands is the
    character before it and the text that is left. The matcher is proved to find
    exactly what the declarative reading [den] allows. *)
From S2P Require Import Prelude.
From Stdlib Require Import Ascii.

Abbreviation text := (list ascii).
Abbreviation place := (option ascii * text)%type.

Inductive rx :=
| Eps
| One (f : ascii -> bool)                                    (* one character of a class *)
| Then (a b : rx)
| Or (a b : rx)
| Rep (lo : nat) (hi : option nat) (greedy : bool) (a : rx)
| Bound                                                      (* \b *)
| LineStart                                                  (* ^ under (?m) *)
| TextEnd                                                    (* \Z *)
| NotBehind (f : ascii -> bool)                              (* (?<!.) *)
| NotAhead (a : rx).                                         (* (?!.) *)

(** ** Character classes *)
Definition code_in (lo hi : nat) (c : ascii) : bool := ((lo <=? nat_of_ascii c) && (nat_of_ascii c <=? hi))%nat.
Definition is_digit (c : ascii) : bool := code_in 48 57 c.
(** [\w] and [\s] on the first 256 code points. *)
Definition is_word (c : ascii) : bool :=
  let n := nat_of_ascii c in
  is_digit c || code_in 65 90 c || code_in 97 122 c || bool_decide (n ∈ [95; 170; 178; 179; 181; 185; 186; 188; 189; 190]%nat)
  || (code_in 192 255 c && negb (bool_decide (n ∈ [215; 247]%nat))).
Definition is_white (c : ascii) : bool :=
  code_in 9 13 c || code_in 28 32 c || bool_decide (nat_of_ascii c ∈ [133; 160]%nat).

(** [A-Za-z0-9_-] as it is written between brackets, without escapes. *)
Fixpoint class_of (s : string) (c : ascii) : bool :=
  match s with
  | String a (String "-" (String b _ as s')) => code_in (nat_of_ascii a) (nat_of_ascii b) c || match s' with String _ s'' => class_of s'' c | _ => false end
  | String a s' => (a =? c)%char || class_of s' c
  | EmptyString => false
  end.
Definition not_in (f : ascii -> bool) (c : ascii) : bool := negb (f c).
Definition either (f g : ascii -> bool) (c : ascii) : bool := f c || g c.

Definition lower_char (c : ascii) : ascii :=
  if code_in 65 90 c || (code_in 192 222 c && negb (nat_of_ascii c =? 215)%nat) then ascii_of_nat (nat_of_ascii c + 32) else c.
Definition upper_char (c : ascii) : ascii :=
  if code_in 97 122 c || (code_in 224 254 c && negb (nat_of_ascii c =? 247)%nat) then ascii_of_nat (nat_of_ascii c - 32) else c.
(** [(?i)] *)
Fixpoint nocase (r : rx) : rx :=
  match r with
  | One f => One (fun c => f (lower_char c) || f (upper_char c))
  | Then a b => Then (nocase a) (nocase b)
  | Or a b => Or (nocase a) (nocase b)
  | Rep lo hi g a => Rep lo hi g (nocase a)
  | NotAhead a => NotAhead (nocase a)
  | NotBehind f => NotBehind (fun c => f (lower_char c) || f (upper_char c))
  | r => r
  end.

(** *** Notation of the patterns *)
Fixpoint lit (s : string) : rx :=
  match s with
  | EmptyString => Eps
  | String c EmptyString => One (Ascii.eqb c)
  | String c s => Then (One (Ascii.eqb c)) (lit s)
  end.
Fixpoint sequence (l : list rx) : rx := match l with [] => Eps | [r] => r | r :: l => Then r (sequence l) end.
Fixpoint choice (l : list rx) : rx := match l with [] => NotAhead Eps | [r] => r | r :: l => Or r (choice l) end.
Definition words (l : list string) : rx := choice (map lit l).
Definition cls (s : string) : rx := One (class_of s).
Definition star (a : rx) : rx := Rep 0 None true a.
Definition plus (a : rx) : rx := Rep 1 None true a.
Definition opt (a : rx) : rx := Rep 0 (Some 1%nat) true a.
Definition times (n : nat) (a : rx) : rx := Rep n (Some n) true a.
Definition at_least (n : nat) (a : rx) : rx := Rep n None true a.
Definition up_to (n : nat) (a : rx) : rx := Rep 0 (Some n) true a.

(** ** The matcher *)
Definition below (hi : option nat) (n : nat) : bool := match hi with Some h => (n <? h)%nat | None => true end.
Definition word_at (c : option ascii) : bool := match c with Some c => is_word c | None => false end.
Definition boundary (x : place) : bool := xorb (word_at x.1) (word_at (head x.2)).
Definition newline : ascii := ascii_of_nat 10.

Section Repeat.
Context {A : Type} (step : place -> (place -> option A) -> option A) (lo : nat) (hi : option nat) (greedy : bool) (k : place -> option A).
(** The repetitions after the [n]th; every pass consumes something. *)
Fixpoint repeated (fuel n : nat) (x : place) : option A :=
  let more := match fuel with
              | O => None
              | S fuel => if below hi n
                          then step x (fun y => if (length y.2 <? length x.2)%nat then repeated fuel (S n) y else None)
                          else None
              end in
  let stop := if (lo <=? n)%nat then k x else None in
  if greedy then or_else more stop else or_else stop more.
End Repeat.

Fixpoint rmatch {A} (r : rx) (x : place) (k : place -> option A) {struct r} : option A :=
  match r with
  | Eps => k x
  | One f => match x.2 with c :: s => if f c then k (Some c, s) else None | [] => None end
  | Then a b => rmatch a x (fun y => rmatch b y k)
  | Or a b => or_else (rmatch a x k) (rmatch b x k)
  | Rep lo hi g a => repeated (rmatch a) lo hi g k (S (length x.2)) 0 x
  | Bound => if boundary x then k x else None
  | LineStart => if match x.1 with None => true | Some c => (c =? newline)%char end then k x else None
  | TextEnd => match x.2 with [] => k x | _ => None end
  | NotBehind f => if match x.1 with Some c => f c | None => false end then None else k x
  | NotAhead a => match rmatch a x (fun _ => Some tt) with Some _ => None | None => k x end
  end.
Definition match_at (r : rx) (x : place) : option place := rmatch r x Some.

(** [pattern.finditer(text)] as spans from [pos]. The patterns of this program
    do not match the empty text. *)
Fixpoint spans (fuel : nat) (r : rx) (x : place) (pos : nat) : list (nat * nat) :=
  match fuel with
  | O => []
  | S fuel =>
    match match_at r x with
    | Some y =>
      if (length y.2 <? length x.2)%nat
      then let n := (length x.2 - length y.2)%nat in (pos, (pos + n)%nat) :: spans fuel r y (pos + n)
      else match x.2 with [] => [] | c :: s => spans fuel r (Some c, s) (S pos) end
    | None => match x.2 with [] => [] | c :: s => spans fuel r (Some c, s) (S pos) end
    end
  end.
Definition finditer (r : rx) (t : text) : list (nat * nat) := spans (S (length t)) r (None, t) 0.
Definition search (r : rx) (t : text) : option (nat * nat) := head (finditer r t).
Definition slice (i j : nat) (t : text) : text := take (j - i) (drop i t).

(** ** What a pattern means *)
Fixpoint iterate {A} (R : A -> A -> Prop) (n : nat) (x y : A) : Prop :=
  match n with O => y = x | S n => exists z, R x z /\ iterate R n z y end.
Fixpoint den (r : rx) (x y : place) : Prop :=
  match r with
  | Eps => y = x
  | One f => exists c s, x.2 = c :: s /\ f c = true /\ y = (Some c, s)
  | Then a b => exists z, den a x z /\ den b z y
  | Or a b => den a x y \/ den b x y
  | Rep lo hi _ a => exists n, (lo <= n)%nat /\ (forall h, hi = Some h -> (n <= h)%nat) /\
      iterate (fun x y => den a x y /\ (length y.2 < length x.2)%nat) n x y
  | Bound => boundary x = true /\ y = x
  | LineStart => (x.1 = None \/ x.1 = Some newline) /\ y = x
  | TextEnd => x.2 = [] /\ y = x
  | NotBehind f => (forall c, x.1 = Some c -> f c = false) /\ y = x
  | NotAhead a => (forall z, ~ den a x z) /\ y = x
  end.

Lemma or_else_some {A} (x y : option A) v : or_else x y = Some v -> x = Some v \/ y = Some v.
Proof. destruct x; simpl; auto. Qed.
Lemma or_else_none {A} (x y : option A) : or_else x y = None <-> x = None /\ y = None.
Proof. destruct x; simpl; [split; [done|by intros [? _]]|split; [done|by intros [_ ?]]]. Qed.

(** *** The matcher is sound and complete *)
Definition finds {A} (R : place -> Prop) (k : place -> option A) (o : option A) : Prop :=
  match o with Some v => exists y, R y /\ k y = Some v | None => forall y, R y -> k y = None end.

Lemma finds_weaken {A} (R R' : place -> Prop) (k : place -> option A) o :
  (forall y, R y <-> R' y) -> finds R k o -> finds R' k o.
Proof. intros HR. destruct o as [v|]; simpl; [intros (y & Hy & Hk); exists y; by rewrite <- HR|]. intros H y Hy. by apply H, HR. Qed.

Lemma finds_one {A} (x : place) (k : place -> option A) (b : bool) (P : Prop) :
  (b = true <-> P) -> finds (fun y => P /\ y = x) k (if b then k x else None).
Proof.
  intros HP. destruct b.
  - destruct (k x) as [v|] eqn:E; simpl; [exists x; split; [split; [by apply HP|done]|done]|by intros y [_ ->]].
  - simpl. intros y [Hp _]. apply HP in Hp. done.
Qed.

Section RepeatSpec.
Context {A : Type} (R : relation place) (step : place -> (place -> option A) -> option A).
Context (Hstep : forall x k, finds (R x) k (step x k)).
Context (lo : nat) (hi : option nat) (greedy : bool) (k : place -> option A).
Definition shorter (x y : place) : Prop := R x y /\ (length y.2 < length x.2)%nat.
Definition within (n : nat) : Prop := forall h, hi = Some h -> (n <= h)%nat.

Lemma below_within n : within n -> (below hi n = true <-> within (S n)).
Proof.
  unfold within, below. destruct hi as [h|]; intros Hn; [rewrite Nat.ltb_lt|].
  - split; [intros ? ? [= <-]; lia|intros H; specialize (H h eq_refl); lia].
  - by split.
Qed.

Lemma repeated_finds fuel : forall n x, within n -> (length x.2 < fuel)%nat ->
  finds (fun y => exists m, (lo <= n + m)%nat /\ within (n + m) /\ iterate shorter m x y) k (repeated step lo hi greedy k fuel n x).
Proof.
  induction fuel as [|fuel IH]; intros n x Hn Hf; [lia|]. cbn [repeated].
  set (more := if below hi n then _ else None). set (stop := if (lo <=? n)%nat then k x else None).
  assert (Hmore : finds (fun y => exists m, (lo <= n + S m)%nat /\ within (n + S m) /\ iterate shorter (S m) x y) k more).
  { subst more. pose proof (below_within n Hn) as Hb. destruct (below hi n).
    2: { intros y (m & _ & Hw & _). assert (within (S n)) by (intros h Hh; specialize (Hw h Hh); lia). by apply Hb in H. }
    pose proof (Hstep x (fun y => if (length y.2 <? length x.2)%nat then repeated step lo hi greedy k fuel (S n) y else None)) as Hs.
    destruct (step x _) as [v|]; cbn [finds] in *.
    - destruct Hs as (z & Hz & Hv). destruct (length z.2 <? length x.2)%nat eqn:El; [|done]. apply Nat.ltb_lt in El.
      specialize (IH (S n) z). rewrite Hv in IH. destruct IH as (y & (m & H1 & H2 & H3) & Hk); [by apply Hb|lia|].
      exists y. split; [|done]. exists m. rewrite Nat.add_succ_r. split; [done|]. split; [done|]. by exists z.
    - intros y (m & H1 & H2 & z & [Hz Hl] & Hi). specialize (Hs z Hz). rewrite (proj2 (Nat.ltb_lt _ _) Hl) in Hs.
      specialize (IH (S n) z). rewrite Hs in IH. cbn [finds] in IH. apply IH; [by apply Hb|lia|].
      exists m. by rewrite Nat.add_succ_r in H1, H2. }
  assert (Hstop : finds (fun y => exists m, (lo <= n + m)%nat /\ within (n + m) /\ m = 0%nat /\ y = x) k stop).
  { subst stop. eapply finds_weaken; [|by apply (finds_one x k (lo <=? n)%nat (lo <= n)%nat), Nat.leb_le].
    intros y. split; [intros [? ->]; exists 0%nat; by rewrite Nat.add_0_r|]. intros (m & H1 & _ & -> & ->). split; [lia|done]. }
  clearbody more stop.
  destruct (if greedy then _ else _) as [v|] eqn:E; cbn.
  - assert (more = Some v \/ stop = Some v) as [->| ->].
    { destruct greedy; apply or_else_some in E; tauto. }
    + destruct Hmore as (y & (m & Hm) & Hk). exists y. split; [by exists (S m)|done].
    + destruct Hstop as (y & (m & H1 & H2 & -> & ->) & Hk). exists x. split; [by exists 0%nat|done].
  - assert (more = None /\ stop = None) as [-> ->].
    { destruct greedy; apply or_else_none in E; tauto. }
    intros y ([|m] & H1 & H2 & Hi); cbn in Hi; [subst; apply Hstop; by exists 0%nat|apply Hmore; by exists m].
Qed.
End RepeatSpec.

Lemma rmatch_finds r : forall A x (k : place -> option A), finds (den r x) k (rmatch r x k).
Proof.
  induction r as [|f|a IHa b IHb|a IHa b IHb|lo hi g a IH| | | |f|a IH]; intros A x k; cbn [rmatch den].
  - eapply finds_weaken; [|apply (finds_one x k true True); by split]. intros y. split; [by intros [_ ->]|done].
  - destruct x as [p [|c s]]; cbn; [intros y (? & ? & ? & _); done|].
    eapply finds_weaken; [|apply (finds_one (Some c, s) k (f c) (f c = true)); done]. intros y. split.
    + intros [Hf ->]. by exists c, s.
    + by intros (? & ? & [= <- <-] & ? & ->).
  - specialize (IHa A x (fun y => rmatch b y k)). destruct (rmatch a x _) as [v|]; cbn in *.
    + destruct IHa as (z & Hz & Hv). specialize (IHb A z k). rewrite Hv in IHb. destruct IHb as (y & Hy & Hk). exists y. split; [by exists z|done].
    + intros y (z & Hz & Hy). specialize (IHb A z k). rewrite (IHa z Hz) in IHb. by apply IHb.
  - specialize (IHa A x k). specialize (IHb A x k). destruct (or_else _ _) as [v|] eqn:E; cbn.
    + apply or_else_some in E as [E|E]; rewrite E in *; [destruct IHa as (y & ? & ?)|destruct IHb as (y & ? & ?)]; exists y; tauto.
    + apply or_else_none in E as [E1 E2]. rewrite E1 in IHa. rewrite E2 in IHb. intros y [Hy|Hy]; auto.
  - eapply finds_weaken; [|apply (repeated_finds (den a) (rmatch a) (fun x k => IH A x k) lo hi g k (S (length x.2)) 0 x)].
    + intros y. done.
    + intros h _. lia.
    + lia.
  - by apply finds_one.
  - apply finds_one. destruct x as [[c|] s]; cbn; [|split; [by left|done]]. rewrite Ascii.eqb_eq. split; [intros ->; by right|intros [|[=]]; done].
  - destruct x as [p [|c s]]; cbn; [|intros y [? _]; done]. eapply finds_weaken; [|apply (finds_one _ k true True); by split].
    intros y. split; [by intros [_ ->]|by intros [_ ->]].
  - destruct (match x.1 with Some c => f c | None => false end) eqn:E; cbn.
    + intros y [Hn _]. destruct x as [[c|] s]; cbn in *; [|done]. by rewrite Hn in E.
    + eapply finds_weaken; [|apply (finds_one x k true True); by split]. intros y. split; [|by intros [_ ->]].
      intros [_ ->]. split; [|done]. intros c Hc. by rewrite Hc in E.
  - specialize (IH unit x (fun _ => Some ())). destruct (rmatch a x _) as [[]|]; cbn in *.
    + intros y [Hn _]. destruct IH as (z & Hz & _). by destruct (Hn z).
    + eapply finds_weaken; [|apply (finds_one x k true True); by split]. intros y. split; [|by intros [_ ->]].
      intros [_ ->]. split; [|done]. intros z Hz. by specialize (IH z Hz).
Qed.

Lemma match_at_some r x y : match_at r x = Some y -> den r x y.
Proof. intros H. pose proof (rmatch_finds r _ x Some) as Hf. unfold match_at in H. rewrite H in Hf. destruct Hf as (z & Hz & [= <-]). done. Qed.

Lemma match_at_none r x y : match_at r x = None -> ~ den r x y.
Proof. intros H Hd. pose proof (rmatch_finds r _ x Some) as Hf. unfold match_at in H. rewrite H in Hf. by specialize (Hf y Hd). Qed.

(** *** Places of one text *)
Definition place_at (t : text) (i : nat) : place := (match i with O => None | S j => t !! j end, drop i t).

Lemma place_next t i c s : drop i t = c :: s -> (Some c, s) = place_at t (S i) /\ (i < length t)%nat.
Proof.
  intros Hd. assert (Hi : t !! i = Some c) by (rewrite <- (Nat.add_0_r i), <- lookup_drop, Hd; done).
  split; [|by eapply lookup_lt_Some]. unfold place_at. rewrite Hi. f_equal.
  replace (S i) with (i + 1)%nat by lia. rewrite <- drop_drop, Hd. done.
Qed.

Lemma den_places t r : forall i y, (i <= length t)%nat -> den r (place_at t i) y ->
  exists j, (i <= j <= length t)%nat /\ y = place_at t j.
Proof.
  induction r as [|f|a IHa b IHb|a IHa b IHb|lo hi g a IH| | | |f|a IH]; intros i y Hi; cbn [den].
  all: try (intros [_ ->]; by exists i).
  - intros ->. by exists i.
  - intros (c & s & Hd & _ & ->). apply place_next in Hd as [-> Hl]. exists (S i). split; [lia|done].
  - intros (z & Hz & Hy). apply IHa in Hz as (j & Hj & ->); [|done]. apply IHb in Hy as (j' & Hj' & ->); [|lia]. exists j'. split; [lia|done].
  - intros [Hy|Hy]; eauto.
  - intros (n & _ & _ & Hn). revert i Hi Hn. induction n as [|n IHn]; cbn; intros i Hi; [intros ->; by exists i|].
    intros (z & [Hz _] & Hn). apply IH in Hz as (j & Hj & ->); [|done]. apply IHn in Hn as (j' & ? & ->); [|lia]. exists j'. split; [lia|done].
Qed.

Lemma length_place t i : length (place_at t i).2 = (length t - i)%nat.
Proof. unfold place_at. cbn. apply length_drop. Qed.

(** The pattern matches the text from [i] to [j]. *)
Definition occurs (r : rx) (t : text) (i j : nat) : Prop := (i < j <= length t)%nat /\ den r (place_at t i) (place_at t j).

(** A lower bound of what a pattern consumes. *)
Fixpoint min_len (r : rx) : nat :=
  match r with
  | One _ => 1
  | Then a b => min_len a + min_len b
  | Or a b => min (min_len a) (min_len b)
  | Rep lo _ _ a => lo * min_len a
  | _ => 0
  end.

Lemma den_consumes r : forall x y, den r x y -> (length y.2 + min_len r <= length x.2)%nat.
Proof.
  induction r as [|f|a IHa b IHb|a IHa b IHb|lo hi g a IH| | | |f|a IH]; intros x y; cbn [den min_len].
  all: try (intros [_ ->]; lia).
  - intros ->. lia.
  - intros (c & s & -> & _ & ->). cbn. lia.
  - intros (z & Hz & Hy). apply IHa in Hz. apply IHb in Hy. lia.
  - intros [Hy|Hy]; [apply IHa in Hy|apply IHb in Hy]; lia.
  - intros (n & Hlo & _ & Hn). assert (length y.2 + n * min_len a <= length x.2)%nat; [|nia].
    clear Hlo. revert x Hn. induction n as [|n IHn]; cbn; intros x; [intros ->; lia|].
    intros (z & [Hz _] & Hn). apply IH in Hz. apply IHn in Hn. lia.
Qed.

(** Spans are occurrences in their order, without overlap, and every occurrence
    starts inside one. *)
Definition before (a b : nat * nat) : Prop := (a.2 <= b.1)%nat.

Lemma spans_spec r t fuel : (0 < min_len r)%nat -> forall pos, (pos <= length t)%nat -> (length t - pos < fuel)%nat ->
  let l := spans fuel r (place_at t pos) pos in
  Forall (fun s => (pos <= s.1)%nat /\ occurs r t s.1 s.2) l /\ StronglySorted before l /\
  (forall i j, (pos <= i)%nat -> occurs r t i j -> exists s, s ∈ l /\ (s.1 <= i < s.2)%nat).
Proof.
  intros Hlen. induction fuel as [|fuel IH]; intros pos Hp Hf; [lia|]. cbv zeta. cbn [spans].
  destruct (match_at r (place_at t pos)) as [y|] eqn:Em.
  - apply match_at_some in Em as Hd. apply den_consumes in Hd as Hc. apply den_places in Hd as Hy; [|done].
    destruct Hy as (j & Hj & ->). rewrite !length_place in *. rewrite (proj2 (Nat.ltb_lt _ _)) by lia.
    assert (Ho : occurs r t pos j) by (split; [lia|done]).
    replace (pos + (length t - pos - (length t - j)))%nat with j by lia.
    destruct (IH j) as (H1 & H2 & H3); [lia|lia|]. split_and!.
    + constructor; [done|]. eapply Forall_impl; [exact H1|]. intros s [? ?]. split; [lia|done].
    + constructor; [done|]. eapply Forall_impl; [exact H1|]. by intros s [? _].
    + intros i j' Hi Ho'. destruct (decide (i < j)%nat) as [|Hge].
      * exists (pos, j). split; [left|simpl; lia].
      * destruct (H3 i j') as (s & ? & ?); [lia|done|]. exists s. split; [by right|done].
  - assert (Hno : forall j, ~ occurs r t pos j) by (intros j [_ Hd]; by apply (match_at_none _ _ _ Em) in Hd).
    pose proof (length_place t pos) as Hl. destruct (place_at t pos).2 as [|c s] eqn:Ed.
    + split; [constructor|]. split; [constructor|]. intros i j Hi [Hij _]. cbn in Hl. lia.
    + apply place_next in Ed as [-> Hlt]. destruct (IH (S pos)) as (H1 & H2 & H3); [lia|lia|]. split_and!; [|done|].
      * eapply Forall_impl; [exact H1|]. intros s' [? ?]. split; [lia|done].
      * intros i j Hi Ho. apply (H3 i j); [|done]. destruct (decide (i = pos)) as [->|]; [by destruct (Hno j)|lia].
Qed.

Lemma finditer_spec r t : (0 < min_len r)%nat ->
  Forall (fun s => occurs r t s.1 s.2) (finditer r t) /\ StronglySorted before (finditer r t) /\
  (forall i j, occurs r t i j -> exists s, s ∈ finditer r t /\ (s.1 <= i < s.2)%nat).
Proof.
  intros Hr. destruct (spans_spec r t (S (length t)) Hr 0) as (H1 & H2 & H3); [lia|lia|]. split_and!.
  - eapply Forall_impl; [exact H1|]. by intros s [_ ?].
  - done.
  - intros i j. apply H3. lia.
Qed.

(** [search] finds something exactly when there is something to find. *)
Lemma search_none r t : (0 < min_len r)%nat -> search r t = None <-> forall i j, ~ occurs r t i j.
Proof.
  intros Hr. destruct (finditer_spec r t Hr) as (H1 & _ & H3). unfold search. split.
  - intros Hn i j Ho. destruct (H3 i j Ho) as (s & Hin & _). destruct (finditer r t); [inversion Hin|done].
  - intros Hno. destruct (finditer r t) as [|s l]; [done|]. apply Forall_cons in H1 as [H1 _]. by destruct (Hno s.1 s.2).
Qed.
