(* ===== verification/LongMemory.v ===== *)
(** Component: the long-term memory of agents ([src/src/memory/store.py]): a table of
    items by owner, namespace and key, redacted when they are written, bounded per
    scope, and expiring.

    A table is the list of its rows; a method is one transaction. SQL leaves open
    which of several least recently updated rows [ORDER BY updated LIMIT 1] gives:
    [oldest] is that choice, with what SQL says of it as its law. *)
From S2P Require Import Prelude Errors Yaml Provider Json Regex Guardrails Injection.

Record item := mkItem { it_owner : string; it_ns : string; it_key : string; it_value : string; it_created : Q; it_updated : Q }.
Record MemoryStore := mkMemory { items : list item; retention_s : Q; redacts : bool }.
Definition with_items (s : MemoryStore) l : MemoryStore := mkMemory l (retention_s s) (redacts s).
Definition new_memory (retention_days : Q) (redact : bool) : MemoryStore := mkMemory [] (retention_days * 86400)%Q redact.

Definition MAX_VALUE_CHARS : Z := 8000.
Definition MAX_ITEMS_PER_SCOPE : nat := 10 * 100.

Definition id_of (x : item) : string * string * string := (it_owner x, it_ns x, it_key x).
Definition in_scope (owner ns : string) (x : item) : bool := bool_decide (it_owner x = owner) && bool_decide (it_ns x = ns).
Definition is_item (i : string * string * string) (x : item) : bool := bool_decide (id_of x = i).
Definition lookup_item (i : string * string * string) (s : MemoryStore) : option item := List.find (is_item i) (items s).

Class PickOldest := { oldest : list item -> option item }.
Class PickOldestLaws `{PickOldest} := {
  oldest_none : forall l, oldest l = None -> l = [];
  oldest_some : forall l x, oldest l = Some x -> x ∈ l /\ forall y, y ∈ l -> (it_updated x <= it_updated y)%Q }.

Definition fresh (now : Q) (s : MemoryStore) (x : item) : bool := negb (it_updated x <. now - retention_s s).
Definition expire (now : Q) (s : MemoryStore) : Z * MemoryStore :=
  if Qeq_bool (retention_s s) 0 then (0, s)
  else let kept := List.filter (fresh now s) (items s) in (Z.of_nat (length (items s) - length kept), with_items s kept).

Definition pii_redact (v : string) : string := unstr (redact (str v) DEFAULT_KINDS).
(** [INSERT ... ON CONFLICT DO UPDATE SET value, updated] *)
Definition upsert (x : item) (l : list item) : list item :=
  if existsb (is_item (id_of x)) l
  then map (fun y => if is_item (id_of x) y then mkItem (it_owner y) (it_ns y) (it_key y) (it_value x) (it_created y) (it_updated x) else y) l
  else l ++ [x].

Section Operations.
Context `{PickOldest}.

(** [now] is read first, [later] by [expire]. *)
Definition victim (owner ns key : string) (l : list item) : option item :=
  if existsb (is_item (owner, ns, key)) l then None
  else
    let scope := List.filter (in_scope owner ns) l in
    if (MAX_ITEMS_PER_SCOPE <=? length scope)%nat then oldest scope else None.
Definition spared (gone : option item) (y : item) : bool := match gone with Some x => negb (is_item (id_of x) y) | None => true end.
Definition make_room (owner ns key : string) (l : list item) : list item := List.filter (spared (victim owner ns key l)) l.
Definition remember (owner key value ns : string) (now later : Q) (s : MemoryStore) : res exn unit * MemoryStore :=
  if bool_decide (owner = "") || bool_decide (key = "") then (Raise (ValueError "owner and key are required"), s)
  else if MAX_VALUE_CHARS <? Z.of_nat (String.length value) then (Raise (ValueError "value exceeds 8000 characters"), s)
  else
    let value := if redacts s then pii_redact value else value in
    let s := (expire later s).2 in
    (Ok tt, with_items s (upsert (mkItem owner ns key value now now) (make_room owner ns key (items s)))).
End Operations.

Definition recall (owner key ns : string) (now : Q) (s : MemoryStore) : option string * MemoryStore :=
  let s := (expire now s).2 in (it_value <$> lookup_item (owner, ns, key) s, s).

(** [ORDER BY ns, key] *)
Definition by_name (x y : item) : bool :=
  match String.compare (it_ns x) (it_ns y) with
  | Lt => true
  | Gt => false
  | Eq => match String.compare (it_key x) (it_key y) with Gt => false | _ => true end
  end.
Definition seen (owner : string) (ns : option string) (x : item) : bool :=
  bool_decide (it_owner x = owner) && match ns with Some n => bool_decide (it_ns x = n) | None => true end.
Definition view (owner : string) (ns : option string) (now : Q) (s : MemoryStore) : list item * MemoryStore :=
  let s := (expire now s).2 in (py_sorted by_name (List.filter (seen owner ns) (items s)), s).

(** [str.split()] *)
Fixpoint words_from (cur : text) (t : text) : list text :=
  match t with
  | [] => match cur with [] => [] | _ => [rev cur] end
  | c :: t => if is_white c then match cur with [] => words_from [] t | _ => rev cur :: words_from [] t end else words_from (c :: cur) t
  end.
Definition relevance (ws : list text) (x : item) : Z :=
  let hay := lower_text (str (it_key x +:+ " " +:+ it_value x)) in
  Z.of_nat (length (List.filter (fun w => contains w hay) ws)).
Definition better (a b : Z * item) : bool := (b.1 <? a.1) || ((a.1 =? b.1) && (it_updated b.2 <=. it_updated a.2)).
Definition search (owner query : string) (ns : option string) (limit : Z) (now : Q) (s : MemoryStore) : list item * MemoryStore :=
  let ws := List.filter (fun w => (2 <? length w)%nat) (words_from [] (lower_text (str query))) in
  let '(shown, s) := view owner ns now s in
  let scored := List.filter (fun p => 0 <? p.1) (map (fun x => (relevance ws x, x)) shown) in
  (map snd (first_of limit (py_sorted better scored)), s).

Definition forgotten (owner : string) (key ns : option string) (x : item) : bool :=
  seen owner ns x && match key with Some k => bool_decide (it_key x = k) | None => true end.
Definition forget (owner : string) (key ns : option string) (s : MemoryStore) : Z * MemoryStore :=
  let kept := List.filter (fun x => negb (forgotten owner key ns x)) (items s) in
  (Z.of_nat (length (items s) - length kept), with_items s kept).

(** The tools an agent gets ([memory/tool.py]), bound to one owner and namespace. *)
Definition quoted (k : string) : string := "'" +:+ k +:+ "'.".
Definition tool_remember `{PickOldest} (owner ns key value : string) (now later : Q) (s : MemoryStore) : res exn string * MemoryStore :=
  match remember owner key value ns now later s with
  | (Ok _, s) => (Ok ("Stored " +:+ quoted key), s)
  | (Raise e, s) => (Raise e, s)
  end.
Definition hit_line (show : Z -> string) (i : nat) (x : item) : text :=
  str ("[" +:+ show (Z.of_nat i + 1) +:+ "] " +:+ it_key x +:+ ": ") ++ wrap_untrusted (str (it_value x)) (str (it_key x)) "memory" MAX_CHARS.
Definition tool_search (show : Z -> string) (owner ns query : string) (limit : Z) (now : Q) (s : MemoryStore) : text * MemoryStore :=
  let '(hits, s) := search owner query (Some ns) (Z.max 1 (Z.min limit 20)) now s in
  (match hits with
   | [] => str "No matching memories."
   | _ => joined_chars [newline] (imap (hit_line show) hits)
   end, s).
Definition tool_forget (owner ns key : string) (s : MemoryStore) : string * MemoryStore :=
  let '(n, s) := forget owner (Some key) (Some ns) s in
  (if n =? 0 then "No memory named " +:+ quoted key else "Forgot " +:+ quoted key, s).

(** ** Lemmas *)
Section Table.
Implicit Types (l : list item) (i : string * string * string) (x y : item).

Abbreviation find_item i l := (List.find (is_item i) l).

Lemma is_item_iff i x : is_item i x = true <-> id_of x = i.
Proof. apply bool_decide_eq_true. Qed.

Lemma find_item_spec i l x : NoDup (id_of <$> l) -> find_item i l = Some x <-> x ∈ l /\ id_of x = i.
Proof.
  intros Hnd. split.
  - intros Hf. apply List.find_some in Hf as [Hin Hi]. split; [by apply list_elem_of_In|by apply is_item_iff].
  - intros [Hin Hi]. destruct (find_item i l) as [y|] eqn:E.
    + apply List.find_some in E as [Hy Hyi]. apply is_item_iff in Hyi. apply list_elem_of_In in Hy. f_equal.
      apply list_elem_of_lookup in Hin as [n Hn], Hy as [m Hm]. assert (n = m).
      { eapply (NoDup_lookup _ _ _ i Hnd); rewrite list_lookup_fmap; [rewrite Hn|rewrite Hm]; cbn; congruence. }
      congruence.
    + exfalso. eapply List.find_none in E; [|by apply list_elem_of_In]. apply not_true_iff_false in E. apply E. by apply is_item_iff.
Qed.
Lemma find_item_none i l : find_item i l = None <-> forall x, x ∈ l -> id_of x ≠ i.
Proof.
  split.
  - intros Hf x Hx Hi. eapply List.find_none in Hf; [|by apply list_elem_of_In]. apply not_true_iff_false in Hf. apply Hf. by apply is_item_iff.
  - intros Hno. destruct (find_item i l) as [y|] eqn:E; [|done]. apply List.find_some in E as [Hy Hi].
    apply is_item_iff in Hi. by apply list_elem_of_In in Hy; apply Hno in Hy.
Qed.
Lemma find_item_exists i l : existsb (is_item i) l = bool_decide (is_Some (find_item i l)).
Proof.
  induction l as [|x l IH]; cbn; [done|]. rewrite IH. destruct (is_item i x); done.
Qed.

Lemma filter_ids f l : NoDup (id_of <$> l) -> NoDup (id_of <$> List.filter f l).
Proof. intros Hnd. eapply sublist_NoDup; [exact Hnd|]. apply fmap_sublist, filter_sublist. Qed.
Lemma find_filter f i l : NoDup (id_of <$> l) ->
  find_item i (List.filter f l) = match find_item i l with Some x => if f x then Some x else None | None => None end.
Proof.
  intros Hnd. destruct (find_item i l) as [x|] eqn:E.
  - apply find_item_spec in E as [Hx Hi]; [|done]. destruct (f x) eqn:Ef.
    + apply find_item_spec; [by apply filter_ids|]. split; [by apply list_filter_In|done].
    + apply find_item_none. intros y [Hf Hy]%list_filter_In Hyi. assert (y = x); [|congruence].
      assert (H1 := proj2 (find_item_spec i l x Hnd) (conj Hx Hi)). assert (H2 := proj2 (find_item_spec i l y Hnd) (conj Hy Hyi)). congruence.
  - apply find_item_none. intros y [_ Hy]%list_filter_In. by eapply find_item_none in E.
Qed.

(** What an upsert does to the ids, and to the items found. *)
Lemma upsert_ids x l : id_of <$> upsert x l = if existsb (is_item (id_of x)) l then id_of <$> l else (id_of <$> l) ++ [id_of x].
Proof.
  unfold upsert. destruct (existsb _ l); [|by rewrite fmap_app]. unfold fmap. induction l as [|y l IH]; cbn; [done|].
  rewrite IH. by destruct (is_item (id_of x) y).
Qed.
Lemma find_map g i l : (forall y, id_of (g y) = id_of y) -> find_item i (map g l) = g <$> find_item i l.
Proof.
  intros Hg. induction l as [|y l IH]; cbn; [done|]. unfold is_item at 1. rewrite Hg. fold (is_item i y).
  destruct (is_item i y); [done|apply IH].
Qed.
Lemma find_app i l l' : find_item i (l ++ l') = or_else (find_item i l) (find_item i l').
Proof. induction l as [|y l IH]; cbn; [done|]. by destruct (is_item i y). Qed.
Lemma upsert_find x l i : find_item i (upsert x l) =
  if decide (i = id_of x)
  then Some (mkItem (it_owner x) (it_ns x) (it_key x) (it_value x) (default (it_created x) (it_created <$> find_item i l)) (it_updated x))
  else find_item i l.
Proof.
  unfold upsert. rewrite find_item_exists. case_bool_decide as Hs.
  - rewrite find_map by (intros y; by destruct (is_item (id_of x) y)). destruct Hs as [y0 Hy0]. case_decide as Hi.
    + subst i. rewrite Hy0. cbn. apply List.find_some in Hy0 as [_ Hy0]. rewrite Hy0. apply is_item_iff in Hy0. unfold id_of in Hy0.
      by injection Hy0 as -> -> ->.
    + destruct (find_item i l) as [y|] eqn:E; [|done]. cbn. apply List.find_some in E as [_ E]. apply is_item_iff in E.
      destruct (is_item (id_of x) y) eqn:Ey; [|done]. apply is_item_iff in Ey. congruence.
  - rewrite <- eq_None_not_Some in Hs. rewrite find_app. cbn. case_decide as Hi.
    + subst i. rewrite Hs, (proj2 (is_item_iff (id_of x) x) eq_refl). by destruct x.
    + destruct (is_item i x) eqn:E; [|by destruct (find_item i l)]. apply is_item_iff in E. congruence.
Qed.
End Table.

(** ** The memory is a bounded map *)
Section Bounded.
Context `{PickOldestLaws}.
Implicit Types (s : MemoryStore) (l : list item) (x y : item).

Definition scope_size (owner ns : string) l : nat := length (List.filter (in_scope owner ns) l).
Record mem_ok s : Prop := {
  mo_ids : NoDup (id_of <$> items s);
  mo_bound : forall owner ns, (scope_size owner ns (items s) <= MAX_ITEMS_PER_SCOPE)%nat }.

Lemma new_memory_ok d r : mem_ok (new_memory d r).
Proof. split; cbn; [constructor|unfold scope_size; cbn; lia]. Qed.
Lemma filter_ok f s : mem_ok s -> mem_ok (with_items s (List.filter f (items s))).
Proof.
  intros [H1 H2]. split; cbn; [by apply filter_ids|]. intros o n. eapply Nat.le_trans; [apply filter_filter_le|apply H2].
Qed.
Lemma expire_ok now s : mem_ok s -> mem_ok (expire now s).2.
Proof. intros Hs. unfold expire. destruct (Qeq_bool _ _); [done|by apply filter_ok]. Qed.
Lemma forget_mem_ok owner key ns s : mem_ok s -> mem_ok (forget owner key ns s).2.
Proof. apply filter_ok. Qed.

(** The item that makes room, if one does. *)
Definition makes_room owner ns key l (gone : option item) : Prop :=
  match gone with
  | Some x => x ∈ l /\ in_scope owner ns x = true /\ List.find (is_item (owner, ns, key)) l = None /\
      (MAX_ITEMS_PER_SCOPE <= scope_size owner ns l)%nat /\ forall y, y ∈ l -> in_scope owner ns y = true -> (it_updated x <= it_updated y)%Q
  | None => is_Some (List.find (is_item (owner, ns, key)) l) \/ (scope_size owner ns l < MAX_ITEMS_PER_SCOPE)%nat
  end.
Lemma spare_none l : List.filter (spared None) l = l.
Proof. induction l as [|x l IH]; cbn; [done|]. by f_equal. Qed.
Lemma victim_spec owner ns key l : makes_room owner ns key l (victim owner ns key l).
Proof.
  unfold victim. rewrite find_item_exists. case_bool_decide as Hf; [by left|]. rewrite <- eq_None_not_Some in Hf.
  destruct (_ <=? _)%nat eqn:E; [|right; by apply Nat.leb_gt in E]. apply Nat.leb_le in E. destruct (oldest _) as [x|] eqn:Eo.
  - apply oldest_some in Eo as [Hx Hmin]. apply list_filter_In in Hx as [Hs Hx].
    split_and!; try done. intros y Hy Hsy. apply Hmin. by apply list_filter_In.
  - apply oldest_none in Eo. rewrite Eo in E. unfold MAX_ITEMS_PER_SCOPE in E. cbn in E. lia.
Qed.

Lemma upsert_scope o n x l : scope_size o n (upsert x l) =
  if existsb (is_item (id_of x)) l then scope_size o n l else (scope_size o n l + if in_scope o n x then 1 else 0)%nat.
Proof.
  unfold upsert. destruct (existsb _ l); unfold scope_size.
  - induction l as [|y l IH]; cbn; [done|]. destruct (is_item (id_of x) y); unfold in_scope in *; cbn; destruct (_ && _); cbn; lia.
  - rewrite List.filter_app, length_app. cbn. by destruct (in_scope o n x).
Qed.
Lemma room_made owner ns key l gone : (forall o n, (scope_size o n l <= MAX_ITEMS_PER_SCOPE)%nat) -> makes_room owner ns key l gone ->
  List.find (is_item (owner, ns, key)) l = None -> (scope_size owner ns (List.filter (spared gone) l) < MAX_ITEMS_PER_SCOPE)%nat.
Proof.
  intros Hb Hg Hf. destruct gone as [x|].
  - destruct Hg as (Hx & Hs & _ & Hfull & _). eapply Nat.lt_le_trans; [|apply (Hb owner ns)]. apply (filter_filter_lt _ _ _ x); [done|done|].
    cbn. unfold is_item. by rewrite bool_decide_true.
  - rewrite spare_none. destruct Hg as [Hg|Hg]; [rewrite Hf in Hg; by destruct Hg|done].
Qed.

Lemma stored_ok x s gone : mem_ok s -> makes_room (it_owner x) (it_ns x) (it_key x) (items s) gone ->
  mem_ok (with_items s (upsert x (List.filter (spared gone) (items s)))).
Proof.
  intros [H1 H2] Hg. set (l := List.filter (spared gone) (items s)). assert (Hl : NoDup (id_of <$> l)) by (by apply filter_ids).
  assert (Hb : forall o n, (scope_size o n l <= MAX_ITEMS_PER_SCOPE)%nat) by (intros; eapply Nat.le_trans; [apply filter_filter_le|apply H2]).
  split; cbn [items with_items].
  - rewrite upsert_ids, find_item_exists. case_bool_decide as Hf; [done|]. rewrite <- eq_None_not_Some in Hf.
    apply NoDup_app. split_and!; [done| |apply NoDup_singleton]. intros i Hi Hx. apply list_elem_of_singleton in Hx as ->.
    apply list_elem_of_fmap in Hi as (y & Hy & Hin). by eapply find_item_none in Hf; [|exact Hin].
  - intros o n. rewrite upsert_scope, find_item_exists. case_bool_decide as Hf; [done|]. rewrite <- eq_None_not_Some in Hf.
    destruct (in_scope o n x) eqn:Es; [|rewrite Nat.add_0_r; apply Hb].
    apply andb_true_iff in Es as [Ho%bool_decide_eq_true Hn%bool_decide_eq_true]. subst o n.
    assert (Hlt : (scope_size (it_owner x) (it_ns x) l < MAX_ITEMS_PER_SCOPE)%nat); [|lia].
    destruct (List.find (is_item (id_of x)) (items s)) as [y|] eqn:E; [|by eapply room_made].
    exfalso. unfold l in Hf. rewrite find_filter, E in Hf by done. destruct gone as [z|]; [|done].
    destruct Hg as (_ & _ & Hno & _). unfold id_of in E. congruence.
Qed.

(** What a memory is for a scope's reader: the values by key. *)
Definition recalled (t : Q) (i : string * string * string) s : option string := it_value <$> lookup_item i (expire t s).2.
Lemma recall_recalled owner key ns t s : (recall owner key ns t s).1 = recalled t (owner, ns, key) s.
Proof. done. Qed.

(** [remember] on a store that may come about refuses an empty owner or key and a
    value of more than 8000 characters, and changes nothing then. Otherwise the
    value, redacted if the store redacts, is what is stored for the key from now on,
    with the time of its first writing; no scope holds more than a thousand items;
    and every other item that has not expired stays as it is, but for one least
    recently updated item of the same scope when the key is new and the scope was
    full. *)
Theorem remember_bounded owner key value ns now later s : mem_ok s ->
  let '(r, s') := remember owner key value ns now later s in
  let held := (expire later s).2 in
  let i := (owner, ns, key) in
  mem_ok s' /\
  match r with
  | Raise _ => s' = s /\ (owner = "" \/ key = "" \/ MAX_VALUE_CHARS < Z.of_nat (String.length value))
  | Ok _ =>
    lookup_item i s' = Some (mkItem owner ns key (if redacts s then pii_redact value else value)
                               (default now (it_created <$> lookup_item i held)) now) /\
    exists gone, makes_room owner ns key (items held) gone /\
      forall j, j ≠ i -> lookup_item j s' = match lookup_item j held with Some y => if spared gone y then Some y else None | None => None end
  end.
Proof.
  intros Hs. unfold remember. destruct (_ || _) eqn:E1.
  { split; [done|]. split; [done|]. apply orb_true_iff in E1 as [E%bool_decide_eq_true|E%bool_decide_eq_true]; auto. }
  destruct (_ <? _) eqn:E2; [split; [done|]; split; [done|]; right; right; lia|]. cbv zeta.
  set (v := if redacts s then _ else _). set (held := (expire later s).2).
  assert (Hh : mem_ok held) by (by apply expire_ok).
  pose proof (victim_spec owner ns key (items held)) as Hgone. unfold make_room. revert Hgone. generalize (victim owner ns key (items held)). intros gone Hgone.
  split; [by apply stored_ok|]. unfold lookup_item. cbn [items with_items]. pose proof (mo_ids _ Hh) as Hnd.
  assert (Hkept : forall j, List.find (is_item j) (List.filter (spared gone) (items held)) =
    match List.find (is_item j) (items held) with Some y => if spared gone y then Some y else None | None => None end).
  { intros j. by apply find_filter. }
  split.
  - rewrite upsert_find, decide_True by done. cbn [it_owner it_ns it_key it_value it_created it_updated]. do 2 f_equal. rewrite Hkept.
    destruct gone as [x|]; [destruct Hgone as (_ & _ & -> & _); done|]. by destruct (List.find _ _).
  - exists gone. split; [done|]. intros j Hj. rewrite upsert_find, decide_False by done. apply Hkept.
Qed.

End Bounded.

(** ** Owners are apart *)
Inductive op :=
| Remember (key value ns : string)
| Recall (key ns : string)
| View (ns : option string)
| Search (query : string) (ns : option string) (limit : Z)
| Forget (key ns : option string).
Inductive answer := Done_ (r : res exn unit) | Value (v : option string) | Items (l : list item) | Count (n : Z).

Section Owners.
Context `{PickOldest}.
Implicit Types (s : MemoryStore) (l : list item) (x y : item) (o : op).

Definition act (owner : string) o (now later : Q) s : answer * MemoryStore :=
  match o with
  | Remember key value ns => let '(r, s) := remember owner key value ns now later s in (Done_ r, s)
  | Recall key ns => let '(v, s) := recall owner key ns now s in (Value v, s)
  | View ns => let '(l, s) := view owner ns now s in (Items l, s)
  | Search query ns limit => let '(l, s) := search owner query ns limit now s in (Items l, s)
  | Forget key ns => let '(n, s) := forget owner key ns s in (Count n, s)
  end.

(** A history of calls, and of nothing but expiry. *)
Inductive event := Act (owner : string) (o : op) (now later : Q) | Tick (t : Q).
Fixpoint answers (who : string) (es : list event) s : list answer :=
  match es with
  | [] => []
  | Tick t :: es => answers who es (expire t s).2
  | Act owner o now later :: es =>
    let '(a, s) := act owner o now later s in
    if bool_decide (owner = who) then a :: answers who es s else answers who es s
  end.

(** What a call expires, whoever makes it. *)
Definition ticks (owner : string) o (now later : Q) : list event :=
  match o with
  | Forget _ _ => []
  | Remember key value _ =>
    if bool_decide (owner = "") || bool_decide (key = "") then []
    else if MAX_VALUE_CHARS <? Z.of_nat (String.length value) then [] else [Tick later]
  | _ => [Tick now]
  end.
Definition silenced (who : string) (e : event) : list event :=
  match e with
  | Tick _ => [e]
  | Act owner o now later => if bool_decide (owner = who) then [e] else ticks owner o now later
  end.

Definition owns (who : string) x : bool := bool_decide (it_owner x = who).
Definition mine (who : string) s : list item := List.filter (owns who) (items s).
Definition agree (who : string) s s' : Prop := mine who s = mine who s' /\ retention_s s = retention_s s' /\ redacts s = redacts s'.

Lemma mine_filter who f s : mine who (with_items s (List.filter f (items s))) = List.filter f (mine who s).
Proof. unfold mine. cbn. apply filter_comm. Qed.
Lemma agree_filter who f s s' : agree who s s' ->
  agree who (with_items s (List.filter f (items s))) (with_items s' (List.filter f (items s'))).
Proof. intros (H1 & H2 & H3). split; [|done]. by rewrite !mine_filter, H1. Qed.
Lemma agree_expire who t s s' : agree who s s' -> agree who (expire t s).2 (expire t s').2.
Proof.
  intros Ha. pose proof Ha as (H1 & H2 & H3). unfold expire. rewrite <- H2. destruct (Qeq_bool _ _); [done|]. cbn [snd].
  replace (fresh t s') with (fresh t s); [by apply agree_filter|]. unfold fresh. by rewrite H2.
Qed.

(** What a function of the owner's items gives is the same. *)
Lemma find_mine who ns k s : List.find (is_item (who, ns, k)) (items s) = List.find (is_item (who, ns, k)) (mine who s).
Proof.
  unfold mine. induction (items s) as [|x l IH]; cbn; [done|]. destruct (owns who x) eqn:E; cbn; [by rewrite IH|].
  destruct (is_item _ x) eqn:Ei; [|done]. apply is_item_iff in Ei. unfold id_of in Ei. injection Ei as Ho _ _. unfold owns in E. by rewrite bool_decide_true in E.
Qed.
Lemma seen_mine who ns s : List.filter (seen who ns) (items s) = List.filter (seen who ns) (mine who s).
Proof. symmetry. apply filter_within. intros x Hx. by apply andb_true_iff in Hx as [Hx _]. Qed.
Lemma scope_mine who ns s : List.filter (in_scope who ns) (items s) = List.filter (in_scope who ns) (mine who s).
Proof. symmetry. apply filter_within. intros x Hx. by apply andb_true_iff in Hx as [Hx _]. Qed.
Lemma exists_mine who ns k s : existsb (is_item (who, ns, k)) (items s) = existsb (is_item (who, ns, k)) (mine who s).
Proof. rewrite !find_item_exists. by rewrite find_mine. Qed.

Lemma agree_view who ns now s s' : agree who s s' -> (view who ns now s).1 = (view who ns now s').1 /\ agree who (view who ns now s).2 (view who ns now s').2.
Proof.
  intros Ha. pose proof (agree_expire who now s s' Ha) as He. unfold view. cbn [fst snd]. split; [|done]. rewrite !seen_mine. by rewrite (proj1 He).
Qed.

Lemma mine_upsert who x s : mine who (with_items s (upsert x (items s))) =
  if bool_decide (it_owner x = who) then upsert x (mine who s) else mine who s.
Proof.
  unfold mine. cbn. unfold upsert. case_bool_decide as Ho.
  - assert (He : existsb (is_item (id_of x)) (items s) = existsb (is_item (id_of x)) (List.filter (owns who) (items s)))
      by (subst who; exact (exists_mine (it_owner x) (it_ns x) (it_key x) s)).
    rewrite <- He. destruct (existsb _ (items s)).
    + clear He. induction (items s) as [|y l IH]; cbn; [done|]. destruct (is_item (id_of x) y) eqn:E; unfold owns in *; cbn;
        (case_bool_decide; cbn; [rewrite E; by rewrite IH|done]).
    + rewrite List.filter_app. cbn. unfold owns at 2. by rewrite bool_decide_true.
  - destruct (existsb _ _).
    + induction (items s) as [|y l IH]; cbn; [done|]. destruct (is_item (id_of x) y) eqn:E; unfold owns in *; cbn; [|by rewrite IH].
      apply is_item_iff in E. unfold id_of in E. injection E as Hy _ _. rewrite bool_decide_false by congruence. apply IH.
    + rewrite List.filter_app. cbn. unfold owns at 2. rewrite bool_decide_false by done. apply app_nil_r.
Qed.
Lemma victim_mine owner ns key s : victim owner ns key (items s) = victim owner ns key (mine owner s).
Proof. unfold victim. by rewrite exists_mine, scope_mine. Qed.
Lemma mine_room who ns key s : mine who (with_items s (make_room who ns key (items s))) = make_room who ns key (mine who s).
Proof. unfold make_room. by rewrite mine_filter, victim_mine. Qed.
(** The owner's own calls: the same answer, and again the same items. *)
Lemma act_consistent who o now later s s' : agree who s s' ->
  (act who o now later s).1 = (act who o now later s').1 /\ agree who (act who o now later s).2 (act who o now later s').2.
Proof.
  intros Ha. pose proof Ha as (Hm & Hr & Hd). destruct o as [key value ns|key ns|ns|query ns limit|key ns]; cbn [act].
  - unfold remember. rewrite <- Hd. destruct (_ || _); [done|]. destruct (_ <? _); [done|]. cbv zeta. cbn [fst snd]. split; [done|].
    pose proof (agree_expire who later s s' Ha) as (E1 & E2 & E3). set (a := (expire later s).2) in *. set (b := (expire later s').2) in *.
    split; [|done]. set (x := mkItem _ _ _ _ _ _).
    pose proof (mine_upsert who x (with_items a (make_room who ns key (items a)))) as U1.
    pose proof (mine_upsert who x (with_items b (make_room who ns key (items b)))) as U2.
    rewrite !mine_room, bool_decide_true in U1, U2 by done. cbn [items with_items] in U1, U2. unfold mine in *. cbn [items with_items] in *. by rewrite U1, U2, E1.
  - unfold recall. cbn [fst snd]. pose proof (agree_expire who now s s' Ha) as He. split; [|done]. unfold lookup_item.
    by rewrite !find_mine, (proj1 He).
  - pose proof (agree_view who ns now s s' Ha) as [H1 H2]. destruct (view who ns now s), (view who ns now s'). cbn in *. by rewrite H1.
  - unfold search. pose proof (agree_view who ns now s s' Ha) as [H1 H2]. destruct (view who ns now s), (view who ns now s'). cbn in *. by rewrite H1.
  - unfold forget. cbn [fst snd]. split; [|by apply agree_filter]. do 2 f_equal. rewrite !counted. f_equal.
    assert (Hf : forall l : list item, List.filter (forgotten who key ns) l = List.filter (forgotten who key ns) (List.filter (owns who) l)).
    { intros l. symmetry. apply filter_within. intros x Hx. unfold forgotten, seen in Hx. by apply andb_true_iff in Hx as [[Hx _]%andb_true_iff _]. }
    rewrite (Hf (items s)), (Hf (items s')). by unfold mine in Hm; rewrite Hm.
Qed.

#[export] Instance agree_equivalence who : Equivalence (agree who).
Proof.
  split; [done|intros s s' (? & ? & ?); done|]. intros s1 s2 s3 (A1 & A2 & A3) (B1 & B2 & B3). unfold agree. by rewrite A1, A2, A3.
Qed.
Lemma agree_others who f s : (forall x, owns who x = true -> f x = true) -> agree who (with_items s (List.filter f (items s))) s.
Proof. intros Hf. split; [|done]. unfold mine. cbn. by apply filter_within. Qed.

Definition after_ticks (es : list event) s : MemoryStore := fold_left (fun s e => match e with Tick t => (expire t s).2 | _ => s end) es s.
Lemma answers_ticks who es es' s : Forall (fun e => match e with Tick _ => True | _ => False end) es ->
  answers who (es ++ es') s = answers who es' (after_ticks es s).
Proof. intros Hes. revert s. induction Hes as [|e es He Hes IH]; intros s; [done|]. destruct e; [done|]. apply IH. Qed.
Lemma ticks_only owner o now later : Forall (fun e => match e with Tick _ => True | _ => False end) (ticks owner o now later).
Proof. destruct o; cbn [ticks]; repeat case_match; repeat constructor. Qed.

Context `{!PickOldestLaws}.
(** Another's call: to the owner it is no more than the expiry it brings. *)
Lemma act_local who owner o now later s : owner ≠ who -> agree who (act owner o now later s).2 (after_ticks (ticks owner o now later) s).
Proof.
  intros Hne. destruct o as [key value ns|key ns|ns|query ns limit|key ns]; cbn [act ticks after_ticks fold_left]; try done.
  - unfold remember. destruct (_ || _); [done|]. destruct (_ <? _); [done|]. cbv zeta. cbn [fst snd fold_left]. set (s1 := (expire later s).2). set (x := mkItem _ _ _ _ _ _).
    pose proof (mine_upsert who x (with_items s1 (make_room owner ns key (items s1)))) as U. rewrite bool_decide_false in U by done.
    transitivity (with_items s1 (make_room owner ns key (items s1))); [by split|]. apply agree_others.
    intros y Hy. pose proof (victim_spec owner ns key (items s1)) as Hv. destruct (victim owner ns key (items s1)) as [z|]; [|done]. cbn.
    destruct Hv as (_ & Hz & _). apply andb_true_iff in Hz as [Hz%bool_decide_eq_true _]. apply bool_decide_eq_true in Hy.
    apply negb_true_iff, not_true_iff_false. intros Hi%is_item_iff. unfold id_of in Hi. congruence.
  - apply agree_others. intros x Hx. apply negb_true_iff, not_true_iff_false. intros Hf. unfold forgotten, seen, owns in *.
    apply andb_true_iff in Hf as [[Ho%bool_decide_eq_true _]%andb_true_iff _]. apply bool_decide_eq_true in Hx. congruence.
Qed.

Lemma silenced_answers who es : forall s s', agree who s s' -> answers who es s = answers who (concat (map (silenced who) es)) s'.
Proof.
  induction es as [|[owner o now later|t] es IH]; intros s s' Ha; cbn [map concat answers silenced]; [done| |].
  - case_bool_decide as Ho.
    + subst owner. cbn [app answers]. rewrite bool_decide_true by done. destruct (act_consistent who o now later s s' Ha) as [H1 H2].
      destruct (act who o now later s), (act who o now later s'). cbn in *. subst. f_equal. by apply IH.
    + rewrite answers_ticks by apply ticks_only. pose proof (act_local who owner o now later s Ho) as Hl.
      destruct (act owner o now later s) as [a s1]. cbn in Hl. apply IH. etransitivity; [exact Hl|].
      clear -Ha. revert s s' Ha. generalize (ticks owner o now later). induction l as [|e l IHl]; intros s s' Ha; [done|].
      cbn. apply IHl. destruct e; [done|by apply agree_expire].
  - cbn [app answers]. apply IH. by apply agree_expire.
Qed.

(** C29: Nothing is shared across owners: in any history of calls, what an owner's own
    calls answer is what they would answer if all that the others ever did was to
    let the clock tick (expire old items). *)
Theorem owners_do_not_interfere who es s : answers who es s = answers who (concat (map (silenced who) es)) s.
Proof. by apply silenced_answers. Qed.
End Owners.

Module LongMemoryDemo.
(** The first of the least recently updated. *)
Definition first_oldest (l : list item) : option item := head (py_sorted (fun a b => it_updated a <=. it_updated b) l).
#[export] Instance demo_pick : PickOldest := { oldest := first_oldest }.
#[export] Instance demo_laws : PickOldestLaws.
Proof.
  assert (Ht : forall a b : item, (it_updated a <=. it_updated b) = true \/ (it_updated b <=. it_updated a) = true)
    by (intros a b; rewrite !Qle_bool_iff; destruct (Qlt_le_dec (it_updated a) (it_updated b)); [left; by apply Qlt_le_weak|by right]).
  assert (Htr : forall a b c : item, (it_updated a <=. it_updated b) = true -> (it_updated b <=. it_updated c) = true -> (it_updated a <=. it_updated c) = true)
    by (intros a b c; rewrite !Qle_bool_iff; apply Qle_trans).
  split; intros l; cbn; unfold first_oldest; pose proof (py_sorted_perm (fun a b => it_updated a <=. it_updated b) l) as Hp.
  - destruct (py_sorted _ l) as [|y ys]; [|done]. intros _. by apply Permutation_nil in Hp.
  - intros x. pose proof (py_sorted_sorted _ Ht Htr l) as Hs. destruct (py_sorted _ l) as [|y ys]; [done|]. intros [= ->].
    split; [rewrite <- Hp; left|]. intros z Hz. rewrite <- Hp in Hz. apply StronglySorted_inv in Hs as [_ Hall].
    apply elem_of_cons in Hz as [->|Hz]; [apply Qle_refl|]. rewrite Forall_forall in Hall. apply Qle_bool_iff. by apply Hall.
Qed.

Definition empty : MemoryStore := new_memory 1 true.
Definition stored (k v : string) (t : Q) (s : MemoryStore) : MemoryStore := (remember "ann" k v "default" t t s).2.
Definition two : MemoryStore := stored "mail" "call a.b@example.com" 2 (stored "food" "likes green tea" 1 empty).

Example redacted_on_write : (recall "ann" "mail" "default" 3 two).1 = Some "call [REDACTED:email]".
Proof. vm_compute. reflexivity. Qed.
Example found : map it_key (search "ann" "green TEA" None 5 3 two).1 = ["food"] /\ map it_key (search "bob" "green" None 5 3 two).1 = [].
Proof. vm_compute. split; reflexivity. Qed.
(** A day later only what was updated since is left. *)
Example expired : it_key <$> items (expire (86400 + (3 # 2)) two).2 = ["mail"].
Proof. vm_compute. reflexivity. Qed.

Lemma remember_bounded_witness :
  lookup_item ("ann", "default", "mail") two = Some (mkItem "ann" "default" "mail" "call [REDACTED:email]" 2 2) /\ mem_ok two.
Proof.
  assert (H0 : mem_ok (stored "food" "likes green tea" 1 empty)).
  { exact (proj1 (remember_bounded "ann" "food" "likes green tea" "default" 1 1 empty (new_memory_ok 1 true))). }
  pose proof (remember_bounded "ann" "mail" "call a.b@example.com" "default" 2 2 (stored "food" "likes green tea" 1 empty) H0) as Hr.
  split; [vm_compute; reflexivity|exact (proj1 Hr)].
Defined.
Definition history : list event :=
  [Act "ann" (Remember "food" "likes green tea" "default") 1 1; Act "bob" (Remember "food" "likes coffee" "default") 2 2;
   Act "bob" (Forget None None) 3 3; Act "ann" (Recall "food" "default") 4 4].
Lemma owners_do_not_interfere_witness :
  answers "ann" (concat (map (silenced "ann") history)) empty = [Done_ (Ok tt); Value (Some "likes green tea")].
Proof. rewrite <- (owners_do_not_interfere "ann" history empty). vm_compute. reflexivity. Defined.
End LongMemoryDemo.
