(* ===== verification/RagStore.v ===== *)
(** Component: retrieval ([src/src/rag/store.py], [src/src/rag/tool.py]): splitting a
    text into overlapping chunks, the table of embedded chunks by owner, collection
    and source, and search in it.

    The embedding function is an event: while it is awaited other calls may change
    the table. Square roots and the rounding to single precision are parameters. *)
From S2P Require Import Prelude Errors Yaml Provider Coroutine Bytes Sha256 Json Memory Regex Guardrails Injection.
From Stdlib Require Import Ascii.

(** ** Chunks *)
(** [re.split(r"\n\s*\n", text)], each piece stripped, the empty ones left out. *)
Definition BLANK : rx := sequence [One (fun c => (c =? newline)%char); star (One is_white); One (fun c => (c =? newline)%char)].
Fixpoint pieces_from (t : text) (pos : nat) (l : list (nat * nat)) : list text :=
  match l with
  | [] => [drop pos t]
  | (i, j) :: l => slice pos i t :: pieces_from t j l
  end.
Definition paragraphs (t : text) : list text :=
  List.filter (fun p => match p with [] => false | _ => true end) (map trim (pieces_from t 0 (finditer BLANK t))).

Definition len (t : text) : Z := Z.of_nat (length t).
(** [p[:n]] and [p[n:]], also for a negative [n]. *)
Definition upto (n : Z) (t : text) : text := first_of n t.
Definition blank_line : text := [newline; newline].

(** [while len(p) > size]: what is cut off, and what is left of [p]. *)
Fixpoint cut (fuel : nat) (size overlap : Z) (p : text) : option (list text * text) :=
  if size <? len p then
    match fuel with
    | O => None
    | S fuel => '(l, p') ← cut fuel size overlap (slice_from (size - overlap) p); Some (upto size p :: l, p')
    end
  else Some ([], p).
(** One paragraph: [chunks] and [cur] after it. *)
Definition add_para (size overlap : Z) (st : list text * text) (p : text) : option (list text * text) :=
  let '(chunks, cur) := st in
  '(l, p') ← cut (S (length p)) size overlap p;
  let '(chunks, cur) := match l with
                        | [] => (chunks, cur)
                        | _ => (chunks ++ (match cur with [] => [] | _ => [cur] end) ++ l, [])
                        end in
  Some (match cur with
        | [] => (chunks, p')
        | _ => if size <? len cur + len p' + 2
               then (chunks ++ [cur], if overlap =? 0 then p' else slice_from (- overlap) cur ++ blank_line ++ p')
               else (chunks, cur ++ blank_line ++ p')
        end).
Fixpoint add_paras (size overlap : Z) (st : list text * text) (ps : list text) : option (list text * text) :=
  match ps with [] => Some st | p :: ps => st ← add_para size overlap st p; add_paras size overlap st ps end.
(** [None] when the loop does not end. *)
Definition chunk_text (t : text) (size overlap : Z) : option (res exn (list text)) :=
  if size <=? overlap then Some (Raise (ValueError "size must exceed overlap"))
  else
    '(chunks, cur) ← add_paras size overlap ([], []) (paragraphs t);
    Some (Ok (chunks ++ match cur with [] => [] | _ => [cur] end)).

(** ** Lemmas on chunks *)
Section Chunks.
Implicit Types (w c p cur : text) (chunks l : list text) (size overlap : Z).

Definition within w c : Prop := exists u v, c = u ++ w ++ v.
Lemma within_app_l w c d : within w c -> within w (c ++ d).
Proof. intros (u & v & ->). exists u, (v ++ d). by rewrite <- !app_assoc. Qed.
Lemma within_app_r w c d : within w c -> within w (d ++ c).
Proof. intros (u & v & ->). exists (d ++ u), v. by rewrite <- !app_assoc. Qed.
Definition covered w (st : list text * text) : Prop := (exists c, c ∈ st.1 /\ within w c) \/ within w st.2.
Lemma covered_more w chunks l cur : covered w (chunks, cur) -> covered w (chunks ++ cur :: l, []).
Proof.
  intros [(c & Hc & Hw)|Hw]; left; cbn in *; [exists c|exists cur]; (split; [|done]); apply elem_of_app; [by left|right; left].
Qed.
Lemma len_nonneg c : 0 <= len c.
Proof. unfold len. lia. Qed.
Lemma len_app c d : len (c ++ d) = len c + len d.
Proof. unfold len. rewrite length_app. lia. Qed.
Lemma len_nil c : len c = 0 <-> c = [].
Proof. unfold len. split; [|by intros ->]. destruct c; [done|cbn; lia]. Qed.

Lemma upto_pos n p : 0 <= n -> upto n p = take (Z.to_nat n) p.
Proof. intros Hn. unfold upto, first_of. by destruct (n <? 0) eqn:E; [lia|]. Qed.
Lemma slice_from_pos n p : 0 <= n -> slice_from n p = drop (Z.to_nat n) p.
Proof. intros Hn. unfold slice_from. by destruct (n <? 0) eqn:E; [lia|]. Qed.

Lemma cut_ends fuel size overlap : 0 <= size -> overlap < size -> forall p, (length p < fuel)%nat -> is_Some (cut fuel size overlap p).
Proof.
  intros Hs Ho. induction fuel as [|fuel IH]; intros p Hf; [lia|]. cbn. destruct (size <? len p) eqn:E; [|by eexists].
  rewrite slice_from_pos by lia. destruct (IH (drop (Z.to_nat (size - overlap)) p)) as [[l p'] ->]; [|by eexists].
  rewrite length_drop. unfold len in E. lia.
Qed.

(** What overlaps: a stretch of at most [overlap + 1] characters is whole in a piece. *)
Lemma cut_spec fuel size overlap : 0 <= overlap < size -> forall p l p', cut fuel size overlap p = Some (l, p') ->
  Forall (fun c => len c = size) l /\ len p' <= size /\
  forall w, within w p -> len w <= overlap + 1 -> covered w (l, p').
Proof.
  intros Ho. induction fuel as [|fuel IH]; intros p l p'; cbn; destruct (size <? len p) eqn:E; try done.
  - intros [= <- <-]. split_and!; [done|lia|]. intros w Hw _. by right.
  - destruct (cut fuel size overlap _) as [[l0 p0]|] eqn:Ec; [|done]. intros [= <- <-].
    destruct (IH _ _ _ Ec) as (H1 & H2 & H3). rewrite upto_pos by lia. split_and!; [|done|].
    + constructor; [|done]. unfold len in *. rewrite length_take. lia.
    + intros w (u & v & Hp) Hw. rewrite slice_from_pos in H3 by lia. destruct (decide (len u + len w <= size)) as [Hin|Hout].
      * left. eexists. split; [left|]. exists u. subst p. unfold len in *.
        exists (take (Z.to_nat size - length u - length w) v). rewrite app_assoc, take_app, !take_app. rewrite length_app.
        rewrite (take_ge u), (take_ge w) by lia. rewrite <- app_assoc. do 2 f_equal. f_equal. lia.
      * destruct (H3 w) as [(c & Hc & Hwc)|Hwp]; [|done|left; exists c; split; [by right|done]|by right].
        exists (drop (Z.to_nat (size - overlap)) u), v. subst p. unfold len in *. rewrite drop_app_le by lia. done.
  - intros [= <- <-]. split_and!; [done|lia|]. intros w Hw _. by right.
Qed.

Definition sized size overlap c : Prop := 0 < len c <= size + overlap + 2.
Definition chunks_ok size overlap (st : list text * text) : Prop :=
  Forall (sized size overlap) st.1 /\ len st.2 <= size + overlap + 2.

Lemma add_para_spec size overlap st p : 0 <= overlap < size -> chunks_ok size overlap st ->
  exists st', add_para size overlap st p = Some st' /\ chunks_ok size overlap st' /\
    (forall w, w ≠ [] -> covered w st -> covered w st') /\
    (forall w, w ≠ [] -> within w p -> len w <= overlap + 1 -> covered w st').
Proof.
  intros Ho [Hc Hl]. destruct st as [chunks cur]. unfold add_para. cbn [fst snd] in *.
  destruct (cut_ends (S (length p)) size overlap ltac:(lia) ltac:(lia) p ltac:(lia)) as [[l p'] Ecut]. rewrite Ecut.
  destruct (cut_spec _ size overlap Ho _ _ _ Ecut) as (Hls & Hp' & Hw). cbn [mbind option_bind].
  assert (Hls' : Forall (sized size overlap) l) by (eapply Forall_impl; [exact Hls|]; unfold sized; intros; lia).
  (* the state after the hard splits *)
  set (st1 := match l with [] => (chunks, cur) | _ => _ end).
  assert (H1 : chunks_ok size overlap st1 /\ (forall w, w ≠ [] -> covered w (chunks, cur) -> covered w st1) /\
    (forall c, c ∈ l -> c ∈ st1.1) /\ (l ≠ [] -> st1.2 = [])).
  { subst st1. destruct l as [|c0 l0].
    - split_and!; [by split|done|intros c Hin; by apply elem_of_nil in Hin|done].
    - split_and!; [| | |done]; cbn [fst snd].
      + split; cbn [fst snd]; [|unfold len; cbn; lia]. apply Forall_app. split; [done|]. apply Forall_app. split; [|done].
        destruct cur as [|a cur]; [done|]. apply Forall_cons. split; [|done]. unfold sized. unfold len in *. cbn [length] in *. lia.
      + intros w Hne [(c & Hin & Hwc)|Hwc]; cbn in *; left; cbn.
        * exists c. split; [|done]. apply elem_of_app. by left.
        * destruct cur as [|a cur]; [|exists (a :: cur); split; [|done]; apply elem_of_app; right; left].
          destruct Hwc as (u & v & E). by destruct u, w.
      + intros c Hin. rewrite !elem_of_app. auto. }
  destruct st1 as [chunks1 cur1]. cbn [fst snd] in H1. destruct H1 as ([Hc1 Hl1] & Hkeep & Hin1 & _). cbn [fst snd] in *.
  assert (Hpieces : forall w st', w ≠ [] -> within w p -> len w <= overlap + 1 ->
    (forall c, c ∈ chunks1 -> c ∈ st'.1) -> (within w p' -> covered w st') -> covered w st').
  { intros w st' Hne Hwp Hlen Hsub Hlast. destruct (Hw w Hwp Hlen) as [(c & Hin & Hwc)|Hwc]; [|by apply Hlast].
    left. exists c. split; [|done]. by apply Hsub, Hin1. }
  destruct cur1 as [|a cur1].
  - eexists. split; [done|]. split_and!.
    + split; [done|]. cbn. lia.
    + intros w Hne Hcov. destruct (Hkeep w Hne Hcov) as [Hx|(u & v & E)]; [by left|by destruct u, w].
    + intros w Hne Hwp Hlen. eapply Hpieces; [done|done|done|done|]. intros Hx. by right.
  - set (cur2 := a :: cur1) in *. assert (Hpos : 0 < len cur2) by (unfold len; cbn; lia). destruct (size <? _) eqn:E.
    + eexists. split; [done|]. split_and!.
      * split; cbn [fst snd]; [apply Forall_app; split; [done|]; apply Forall_cons; by split|].
        destruct (overlap =? 0) eqn:Ez; [lia|]. rewrite !len_app. unfold slice_from.
        assert (len (if - overlap <? 0 then drop (Z.to_nat (Z.of_nat (length cur2) + - overlap)) cur2 else drop (Z.to_nat (- overlap)) cur2) <= overlap).
        { destruct (- overlap <? 0) eqn:Eo; [unfold len; rewrite length_drop|]; lia. }
        unfold len at 2, blank_line. cbn [length]. lia.
      * intros w Hne Hcov. left. cbn. destruct (Hkeep w Hne Hcov) as [(c & Hin & Hwc)|Hwc].
        -- exists c. split; [|done]. apply elem_of_app. by left.
        -- exists cur2. split; [|done]. apply elem_of_app. right. left.
      * intros w Hne Hwp Hlen. eapply Hpieces; [done|done|done| |].
        -- intros c Hin. cbn. apply elem_of_app. by left.
        -- intros Hx. right. cbn [snd]. destruct (overlap =? 0); [done|]. by do 2 apply within_app_r.
    + eexists. split; [done|]. split_and!.
      * split; cbn [fst snd]; [done|]. rewrite !len_app. unfold len at 2, blank_line. cbn [length]. lia.
      * intros w Hne Hcov. destruct (Hkeep w Hne Hcov) as [Hx|Hwc]; [by left|right]. by apply within_app_l.
      * intros w Hne Hwp Hlen. eapply Hpieces; [done|done|done|done|]. intros Hx. right. by do 2 apply within_app_r.
Qed.

Lemma add_paras_spec size overlap ps : 0 <= overlap < size -> forall st, chunks_ok size overlap st ->
  exists st', add_paras size overlap st ps = Some st' /\ chunks_ok size overlap st' /\
    (forall w, w ≠ [] -> covered w st -> covered w st') /\
    (forall w p, p ∈ ps -> w ≠ [] -> within w p -> len w <= overlap + 1 -> covered w st').
Proof.
  intros Ho. induction ps as [|p ps IH]; intros st Hst; cbn [add_paras].
  { exists st. split_and!; try done. intros w p Hin. by apply elem_of_nil in Hin. }
  destruct (add_para_spec size overlap st p Ho Hst) as (st1 & -> & H1 & H2 & H3). cbn [mbind option_bind].
  destruct (IH st1 H1) as (st2 & -> & H4 & H5 & H6). exists st2. split_and!; [done|done|auto|].
  intros w q [->|Hq]%elem_of_cons Hne Hwp Hlen; [by apply H5, H3|by eapply H6].
Qed.

(** Splitting a text ends, every chunk has a character and at most
    [size + overlap + 2], and the overlap does what it is for: any stretch of a
    paragraph of at most [overlap + 1] characters is whole in some chunk. *)
Theorem phrases_stay_whole t size overlap : 0 <= overlap < size ->
  exists chunks, chunk_text t size overlap = Some (Ok chunks) /\
    Forall (fun c => 0 < len c <= size + overlap + 2) chunks /\
    forall p w, p ∈ paragraphs t -> w ≠ [] -> within w p -> len w <= overlap + 1 -> exists c, c ∈ chunks /\ within w c.
Proof.
  intros Ho. unfold chunk_text. destruct (size <=? overlap) eqn:E; [lia|].
  destruct (add_paras_spec size overlap (paragraphs t) Ho ([], [])) as ([chunks cur] & -> & [H1 H2] & _ & H3).
  { split; [done|]. unfold len. cbn [snd length]. lia. }
  cbn [mbind option_bind fst snd] in *. eexists. split; [done|]. split.
  - apply Forall_app. split; [done|]. destruct cur as [|a cur]; [done|]. apply Forall_cons. split; [|done]. unfold sized, len in *. cbn [length] in *. lia.
  - intros p w Hp Hne Hw Hlen. destruct (H3 w p Hp Hne Hw Hlen) as [(c & Hc & Hwc)|Hwc]; cbn [fst snd] in *.
    + exists c. split; [|done]. apply elem_of_app. by left.
    + destruct cur as [|a cur]; [destruct Hwc as (u & v & Eu); by destruct u, w|]. eexists. split; [|exact Hwc]. apply elem_of_app. right. left.
Qed.
End Chunks.

Module ChunkDemo.
Definition sample : text := str ("alpha beta gamma" +:+ String newline (String newline "delta")).
Lemma phrases_stay_whole_witness : exists chunks, chunk_text sample 8 3 = Some (Ok chunks) /\ map unstr chunks = ["alpha be"; " beta ga"; " gamma"; String.concat (String newline (String newline "")) ["mma"; "delta"]].
Proof.
  destruct (phrases_stay_whole sample 8 3 ltac:(lia)) as (chunks & Hc & _). exists chunks. split; [exact Hc|].
  vm_compute in Hc. injection Hc as <-. vm_compute. reflexivity.
Defined.
(** With a negative size the loop never ends. *)
Lemma cut_forever fuel p : cut fuel (-1) (-2) p = None.
Proof.
  revert p. induction fuel as [|fuel IH]; intros p; cbn [cut];
    rewrite (proj2 (Z.ltb_lt (-1) (len p))) by (unfold len; lia); [done|]. by rewrite IH.
Qed.
Example negative_size : chunk_text (str "x") (-1) (-2) = None.
Proof. vm_compute. reflexivity. Qed.
End ChunkDemo.

(** ** The table *)
Record chunk_row := mkRow {
  c_owner : string; c_coll : string; c_source : string; c_idx : Z; c_text : text; c_meta : chars; c_vec : list Q; c_hash : string }.
Record VectorStore := mkVectors { chunk_rows : list chunk_row; has_embed : bool }.
Definition with_chunks (s : VectorStore) l : VectorStore := mkVectors l (has_embed s).
Definition MAX_CHUNKS_PER_COLLECTION : Z := 100 * 1000.

Definition of_coll (owner coll : string) (r : chunk_row) : bool := bool_decide (c_owner r = owner) && bool_decide (c_coll r = coll).
Definition of_source (owner coll source : string) (r : chunk_row) : bool := of_coll owner coll r && bool_decide (c_source r = source).
Definition source_rows owner coll source (s : VectorStore) : list chunk_row := List.filter (of_source owner coll source) (chunk_rows s).

(** [math.sqrt], and rounding to single precision ([struct.pack("f", x)]). *)
Class FloatOps := { fsqrt : Q -> Q; single : Q -> Q }.

Section Store.
Context `{FloatOps} `{FloatText}.

Definition dot (a b : list Q) : Q := fsum (zip_with Qmult a b).
Definition _norm (v : list Q) : list Q :=
  let n := fsqrt (fsum (map (fun x => x * x)%Q v)) in
  let n := if Qeq_bool n 0 then 1%Q else n in
  map (fun x => x / n)%Q v.
Definition _pack (v : list Q) : list Q := map single v.

Inductive embed_event : Type -> Type :=
| EEmbed (texts : list text) : embed_event (res exn (list (list Q))).
Abbreviation call := (coro unit VectorStore embed_event).
Definition no_embed : exn := RuntimeError "no embedding function configured".
Definition embed (texts : list text) : call (list (list Q)) := await (EEmbed texts) ≫= fun x => finish (of_res x).

Definition digest (t : text) : string := hex (sha256 (map Ascii.byte_of_ascii t)).
Definition new_rows (owner coll source : string) (meta : chars) (h : string) (chunks : list text) (vecs : list (list Q)) : list chunk_row :=
  imap (fun i cv => mkRow owner coll source (Z.of_nat i) cv.1 meta (_pack (_norm cv.2)) h) (zip chunks vecs).

(** Up to the call of [embed]: the chunks to embed, or none if nothing changed. *)
Definition ingest_begin (owner coll source : string) (t : text) (chunks : res exn (list text)) : SE VectorStore exn (option (list text)) :=
  s ← se_get;
  if negb (has_embed s) then se_raise no_embed
  else
    chunks ← se_lift chunks;
    if bool_decide (c_hash <$> head (source_rows owner coll source s) = Some (digest t)) then mret None
    else if MAX_CHUNKS_PER_COLLECTION <? Z.of_nat (length (List.filter (of_coll owner coll) (chunk_rows s))) + Z.of_nat (length chunks)
    then se_raise (ValueError "collection size limit reached")
    else mret (Some chunks).
Definition on_rows (f : list chunk_row -> list chunk_row) : SE VectorStore exn unit := se_modify (fun s => with_chunks s (f (chunk_rows s))).
(** After it: the source's old chunks go, and the new ones come; [json.dumps] may
    refuse the metadata in between. *)
Definition ingest_end (owner coll source : string) (t : text) (meta : yaml) (chunks : list text) (vecs : list (list Q)) : SE VectorStore exn Z :=
  if negb (length vecs =? length chunks)%nat then se_raise (RuntimeError "embedding count mismatch")
  else
    on_rows (List.filter (fun r => negb (of_source owner coll source r)));;
    match chunks, json_dumps (if ytruthy meta then meta else YMap []) with
    | _ :: _, None => se_raise (TypeError "Object is not JSON serializable")
    | _, text =>
      on_rows (fun l => l ++ new_rows owner coll source (default [] text) (digest t) chunks vecs);;
      mret (Z.of_nat (length chunks))
    end.
(** [None] when the splitting does not end. *)
Definition ingest_text (owner coll source : string) (t : text) (meta : yaml) (size overlap : Z) : option (call Z) :=
  chunks ← chunk_text t size overlap;
  Some (
    todo ← seg (fun _ => ingest_begin owner coll source t chunks);
    match todo with
    | None => mret 0
    | Some chunks =>
      vecs ← match chunks with [] => mret [] | _ => embed chunks end;
      seg (fun _ => ingest_end owner coll source t meta chunks vecs)
    end).

Record hit := mkHit { h_source : string; h_chunk : Z; h_text : text; h_score : Q; h_meta : chars }.
Definition hit_of (q : list Q) (r : chunk_row) : hit := mkHit (c_source r) (c_idx r) (c_text r) (dot q (c_vec r)) (c_meta r).
Definition comparable (q : list Q) (min_score : Q) (r : chunk_row) : bool :=
  (length (c_vec r) =? length q)%nat && (min_score <=. dot q (c_vec r)).
Definition best_first (a b : hit) : bool := h_score b <=. h_score a.
Definition hits_in (owner coll : string) (q : list Q) (k : Z) (min_score : Q) (s : VectorStore) : list hit :=
  first_of k (py_sorted best_first (map (hit_of q) (List.filter (comparable q min_score) (List.filter (of_coll owner coll) (chunk_rows s))))).
Definition search (owner coll : string) (query : text) (k : Z) (min_score : Q) : call (list hit) :=
  s ← seg (fun _ => se_get);
  if negb (has_embed s) then throw no_embed
  else
    vs ← embed [query];
    match vs with
    | [] => throw (IndexError "list index out of range")
    | v :: _ => seg (fun _ => se_gets (hits_in owner coll (_norm v) k min_score))
    end.

Definition delete_source (owner coll source : string) (s : VectorStore) : Z * VectorStore :=
  let kept := List.filter (fun r => negb (of_source owner coll source r)) (chunk_rows s) in
  (Z.of_nat (length (chunk_rows s) - length kept), with_chunks s kept).
(** [GROUP BY source ORDER BY source] *)
Definition sources (owner coll : string) (s : VectorStore) : list (string * Z) :=
  let rows := List.filter (of_coll owner coll) (chunk_rows s) in
  map (fun x => (x, Z.of_nat (length (List.filter (fun r => bool_decide (c_source r = x)) rows))))
    (py_sorted String.leb (remove_dups (map c_source rows))).

(** The retrieval tool of an agent. *)
Definition passage (show : Z -> string) (i : nat) (h : hit) : text :=
  str ("[" +:+ show (Z.of_nat i + 1) +:+ "] ") ++
  wrap_untrusted (h_text h) (str (h_source h +:+ "#" +:+ show (h_chunk h))) "retrieved_document" MAX_CHARS.
Definition retrieval_tool (show : Z -> string) (owner coll : string) (k : Z) (query : text) : call text :=
  hits ← search owner coll query k 0;
  mret (match hits with
        | [] => str "No relevant passages found."
        | _ => joined_chars [newline] (imap (passage show) hits) ++ newline :: str "Cite passages as [n] with their source."
        end).
End Store.

(** ** What a source is indexed as *)
Section Sources.
Context `{FloatOps} `{FloatText}.
Implicit Types (s : VectorStore) (r : chunk_row) (t : text).

(** The source's rows are all chunks of one text, in order, or there are none. *)
Definition indexed (rows : list chunk_row) t : Prop :=
  (exists size overlap, chunk_text t size overlap = Some (Ok (map c_text rows))) /\
  map c_idx rows = seqZ 0 (Z.of_nat (length rows)) /\ Forall (fun r => c_hash r = digest t) rows.
Definition whole s : Prop := forall owner coll source, source_rows owner coll source s = [] \/ exists t, indexed (source_rows owner coll source s) t.

Lemma of_source_iff o c x r : of_source o c x r = true <-> (c_owner r = o /\ c_coll r = c /\ c_source r = x).
Proof. unfold of_source, of_coll. rewrite !andb_true_iff, !bool_decide_eq_true. tauto. Qed.

Lemma rows_dropped o c x o' c' x' s : source_rows o c x (with_chunks s (List.filter (fun r => negb (of_source o' c' x' r)) (chunk_rows s))) =
  if decide ((o, c, x) = (o', c', x')) then [] else source_rows o c x s.
Proof.
  unfold source_rows. cbn. case_decide as Hd.
  - injection Hd as <- <- <-. induction (chunk_rows s) as [|r l IH]; cbn; [done|]. destruct (of_source o c x r) eqn:E; cbn; [done|by rewrite E].
  - apply filter_within. intros r Hr%of_source_iff. apply negb_true_iff, not_true_iff_false. intros Hr'%of_source_iff. destruct Hr as (<- & <- & <-), Hr' as (<- & <- & <-). done.
Qed.

Lemma new_rows_source o c x m h chunks vecs r : r ∈ new_rows o c x m h chunks vecs -> of_source o c x r = true /\ c_hash r = h.
Proof.
  unfold new_rows. intros (i & y & -> & _)%elem_of_lookup_imap. split; [|done]. by apply of_source_iff.
Qed.
Lemma filter_all {A} (f : A -> bool) (l : list A) : (forall x, x ∈ l -> f x = true) -> List.filter f l = l.
Proof. induction l as [|x l IH]; intros Hf; cbn; [done|]. rewrite (Hf x) by left. f_equal. apply IH. intros y Hy. apply Hf. by right. Qed.
Lemma rows_added o c x o' c' x' m h chunks vecs s :
  source_rows o c x (with_chunks s (chunk_rows s ++ new_rows o' c' x' m h chunks vecs)) =
  source_rows o c x s ++ if decide ((o, c, x) = (o', c', x')) then new_rows o' c' x' m h chunks vecs else [].
Proof.
  unfold source_rows. cbn. rewrite List.filter_app. f_equal. case_decide as Hd.
  - injection Hd as -> -> ->. apply filter_all. intros r Hr. by apply new_rows_source in Hr as [? _].
  - apply filter_nil, Forall_forall. intros r Hr. apply new_rows_source in Hr as [Hr _]. apply not_true_iff_false. intros Hr'%of_source_iff.
    apply of_source_iff in Hr. destruct Hr as (<- & <- & <-), Hr' as (<- & <- & <-). done.
Qed.
Lemma new_rows_text o c x m h chunks vecs : length vecs = length chunks -> map c_text (new_rows o c x m h chunks vecs) = chunks.
Proof.
  intros Hl. unfold new_rows. change (map c_text) with (fmap (M := list) c_text). rewrite fmap_imap.
  transitivity (imap (fun _ (cv : text * list Q) => cv.1) (zip chunks vecs)); [done|].
  apply list_eq. intros i. rewrite list_lookup_imap. transitivity (fst <$> zip chunks vecs !! i); [by destruct (zip chunks vecs !! i)|].
  rewrite <- list_lookup_fmap. f_equal. apply fst_zip. lia.
Qed.
Lemma length_new_rows o c x m h chunks vecs : length vecs = length chunks -> length (new_rows o c x m h chunks vecs) = length chunks.
Proof. intros Hl. rewrite <- (new_rows_text o c x m h chunks vecs Hl) at 2. by rewrite length_map. Qed.
Lemma new_rows_idx o c x m h chunks vecs : length vecs = length chunks ->
  map c_idx (new_rows o c x m h chunks vecs) = seqZ 0 (Z.of_nat (length chunks)).
Proof.
  intros Hl. unfold new_rows. change (map c_idx) with (fmap (M := list) c_idx). rewrite fmap_imap. apply list_eq. intros i.
  rewrite list_lookup_imap. cbn. destruct (decide (i < length chunks)%nat) as [Hi|Hi].
  - rewrite lookup_seqZ_lt by lia. destruct (lookup_lt_is_Some_2 (zip chunks vecs) i) as [y ->]; [rewrite length_zip_with; lia|]. done.
  - rewrite lookup_seqZ_ge by lia. by rewrite lookup_ge_None_2 by (rewrite length_zip_with; lia).
Qed.

(** The last segment of an ingestion. *)
Lemma ingest_end_spec o c x t meta chunks vecs s :
  let '(r, s') := ingest_end o c x t meta chunks vecs s in
  has_embed s' = has_embed s /\
  (forall o' c' x', (o', c', x') ≠ (o, c, x) -> source_rows o' c' x' s' = source_rows o' c' x' s) /\
  match r with
  | Ok n => n = Z.of_nat (length chunks) /\ length vecs = length chunks /\
      exists m, source_rows o c x s' = new_rows o c x m (digest t) chunks vecs
  | Raise _ => source_rows o c x s' = source_rows o c x s \/ source_rows o c x s' = []
  end.
Proof.
  unfold ingest_end. destruct (length vecs =? length chunks)%nat eqn:El; cbn [negb]; [|split_and!; auto].
  apply Nat.eqb_eq in El. unfold on_rows, se_modify, mbind, SE_bind. cbn [negb]. set (s1 := with_chunks s (List.filter _ _)).
  assert (Hs1 : forall o' c' x', source_rows o' c' x' s1 = if decide ((o', c', x') = (o, c, x)) then [] else source_rows o' c' x' s)
    by (intros; apply rows_dropped).
  assert (Hok : forall m, let s' := with_chunks s1 (chunk_rows s1 ++ new_rows o c x m (digest t) chunks vecs) in
    has_embed s' = has_embed s /\ (forall o' c' x', (o', c', x') ≠ (o, c, x) -> source_rows o' c' x' s' = source_rows o' c' x' s) /\
    Z.of_nat (length chunks) = Z.of_nat (length chunks) /\ length vecs = length chunks /\ exists m, source_rows o c x s' = new_rows o c x m (digest t) chunks vecs).
  { intros m. cbv zeta. split_and!; [done| |done|done|].
    - intros o' c' x' Hne. rewrite rows_added, Hs1, !decide_False by done. apply app_nil_r.
    - exists m. rewrite rows_added, Hs1, !decide_True by done. done. }
  destruct chunks as [|ch chunks]; [apply Hok|]. destruct (json_dumps _) as [m|]; [apply (Hok m)|].
  unfold se_raise. cbn beta iota. split_and!; [done| |right; by rewrite Hs1, decide_True]. intros o' c' x' Hne. by rewrite Hs1, decide_False.
Qed.

Lemma ingest_end_whole o c x t meta size overlap chunks vecs s : chunk_text t size overlap = Some (Ok chunks) -> whole s ->
  whole (ingest_end o c x t meta chunks vecs s).2.
Proof.
  intros Hc Hs. pose proof (ingest_end_spec o c x t meta chunks vecs s) as Hi. destruct (ingest_end _ _ _ _ _ _ _ s) as [r s'].
  destruct Hi as (_ & Hother & Hsame). cbn. intros o' c' x'. destruct (decide ((o', c', x') = (o, c, x))) as [[= -> -> ->]|Hne].
  - destruct r as [n|e].
    + destruct Hsame as (_ & Hl & m & Hrows). right. exists t. unfold indexed. rewrite Hrows, new_rows_text, new_rows_idx, length_new_rows by done.
      split_and!; [by exists size, overlap|done|]. apply Forall_forall. intros r Hr. by apply new_rows_source in Hr as [_ ?].
    + destruct Hsame as [->| ->]; [apply Hs|by left].
  - rewrite Hother by done. apply Hs.
Qed.
Lemma ingest_begin_chunks o c x t chunks s : match ingest_begin o c x t chunks s with (Ok (Some l), s') => chunks = Ok l /\ s' = s | (_, s') => s' = s end.
Proof.
  unfold ingest_begin, se_get, se_lift, mret, SE_ret, mbind, SE_bind, se_raise. destruct (has_embed s); cbn; [|done]. destruct chunks as [l|e]; [|done].
  case_bool_decide; [done|]. by destruct (_ <? _).
Qed.

(** However ingestions of all sources interleave with each other, with deletions
    and with searches, and whatever the embedding function answers, each source is
    indexed at every moment by all chunks of one text, in their order, or not at
    all; an ingestion that ends gives the number of chunks, or 0. *)
Theorem sources_stay_whole owner coll source t meta size overlap c : ingest_text owner coll source t meta size overlap = Some c ->
  steady whole (fun _ _ _ => True) c (fun o => match o with Return n => n = 0 \/ exists chunks, chunk_text t size overlap = Some (Ok chunks) /\ n = Z.of_nat (length chunks) | _ => True end) /\
  (forall s, whole s -> whole (delete_source owner coll source s).2).
Proof.
  unfold ingest_text. destruct (chunk_text t size overlap) as [chunks|] eqn:Ec; [|done]. cbn [mbind option_bind]. intros [= <-]. split.
  - apply (steady_bind _ _ _ _ (fun o => match o with Return (Some l) => chunks = Ok l | _ => True end)).
    + apply steady_seg. intros _ s Hs. pose proof (ingest_begin_chunks owner coll source t chunks s) as Hb.
      destruct (ingest_begin _ _ _ _ _ s) as [[[l|]|e] s']; cbn; [by destruct Hb as [-> ->]|by subst|by subst].
    + intros [l|] Hl; [|by left]. subst chunks. apply (steady_bind _ _ _ _ (fun _ => True)); [|intros vecs _|done|done].
      * destruct l; [done|]. unfold embed. apply (steady_bind _ _ _ _ (fun _ => True)); [by apply steady_await|intros [v|e] _; done|done|done].
      * apply steady_seg. intros _ s Hs. split; [by eapply ingest_end_whole|]. pose proof (ingest_end_spec owner coll source t meta l vecs s) as Hi.
        destruct (ingest_end _ _ _ _ _ _ _ s) as [[n|e] s']; [|done]. right. exists l. destruct Hi as (_ & _ & -> & _). done.
    + done.
    + done.
  - intros s Hs o c x. unfold delete_source. cbn [snd]. rewrite rows_dropped. case_decide; [by left|apply Hs].
Qed.

(** The [k] best rows of the collection: only such rows, best first, and no row left
    out is better than one that is in. *)
Definition best_of owner coll (q : list Q) (k : Z) (min_score : Q) s (hits : list hit) : Prop :=
  let candidate r := r ∈ chunk_rows s /\ of_coll owner coll r = true /\ comparable q min_score r = true in
  (forall h, h ∈ hits -> exists r, candidate r /\ h = hit_of q r) /\
  Z.of_nat (length hits) <= k /\ StronglySorted (le_rel best_first) hits /\
  forall r, candidate r -> hit_of q r ∈ hits \/
    (Z.of_nat (length hits) = k /\ forall h, h ∈ hits -> (h_score (hit_of q r) <= h_score h)%Q).

Lemma sorted_take {A} (R : A -> A -> Prop) n (l : list A) x y : StronglySorted R l -> x ∈ take n l -> y ∈ drop n l -> R x y.
Proof.
  revert l. induction n as [|n IH]; intros l Hs Hx Hy; [by apply elem_of_nil in Hx|]. destruct l as [|a l]; [by apply elem_of_nil in Hx|].
  cbn in *. apply StronglySorted_inv in Hs as [Hs Ha]. apply elem_of_cons in Hx as [->|Hx]; [|by eapply IH].
  rewrite Forall_forall in Ha. apply Ha. eapply elem_of_submseteq; [exact Hy|]. apply sublist_submseteq, sublist_drop.
Qed.
Lemma sorted_prefix {A} (R : A -> A -> Prop) n (l : list A) : StronglySorted R l -> StronglySorted R (take n l).
Proof.
  revert n. induction l as [|a l IH]; intros [|n] Hs; cbn; try constructor; apply StronglySorted_inv in Hs as [Hs Ha]; [by apply IH|].
  apply Forall_forall. intros y Hy. rewrite Forall_forall in Ha. apply Ha. eapply elem_of_submseteq; [exact Hy|]. apply sublist_submseteq, sublist_take.
Qed.
Lemma best_first_total a b : best_first a b = true \/ best_first b a = true.
Proof. unfold best_first. rewrite !Qle_bool_iff. destruct (Qlt_le_dec (h_score b) (h_score a)); [left; by apply Qlt_le_weak|by right]. Qed.
Lemma best_first_trans a b c : best_first a b = true -> best_first b c = true -> best_first a c = true.
Proof. unfold best_first. rewrite !Qle_bool_iff. intros. by eapply Qle_trans. Qed.

Lemma hits_in_best owner coll q k m s : 0 <= k -> best_of owner coll q k m s (hits_in owner coll q k m s).
Proof.
  intros Hk. unfold hits_in, first_of. destruct (k <? 0) eqn:E; [lia|]. set (l := map (hit_of q) _). set (n := Z.to_nat k).
  pose proof (py_sorted_sorted best_first best_first_total best_first_trans l) as Hs. pose proof (py_sorted_perm best_first l) as Hp.
  set (sl := py_sorted best_first l) in *. unfold best_of.
  assert (Hl : forall h, h ∈ l <-> exists r, (r ∈ chunk_rows s /\ of_coll owner coll r = true /\ comparable q m r = true) /\ h = hit_of q r).
  { intros h. unfold l. change (map (hit_of q)) with (fmap (M := list) (hit_of q)). rewrite list_elem_of_fmap. split.
    - intros (r & -> & [Hc [Ho Hin]%list_filter_In]%list_filter_In). exists r. done.
    - intros (r & (Hin & Ho & Hc) & ->). exists r. split; [done|]. apply list_filter_In. split; [done|]. by apply list_filter_In. }
  split_and!.
  - intros h Hh. apply Hl. rewrite <- Hp. eapply elem_of_submseteq; [exact Hh|]. apply sublist_submseteq, sublist_take.
  - rewrite length_take. lia.
  - by apply sorted_prefix.
  - intros r Hr. assert (Hin : hit_of q r ∈ sl) by (rewrite Hp; apply Hl; by exists r).
    rewrite <- (take_drop n sl) in Hin. apply elem_of_app in Hin as [Hin|Hin]; [by left|right]. split.
    + rewrite length_take. assert (Hn : (n < length sl)%nat); [|lia]. destruct (Nat.lt_ge_cases n (length sl)) as [|Hge]; [done|].
      rewrite drop_ge in Hin by done. by apply elem_of_nil in Hin.
    + intros h Hh. pose proof (sorted_take _ n sl h _ Hs Hh Hin) as Hle. by apply Qle_bool_iff in Hle.
Qed.

(** A search answers with the best passages of its own owner and collection as
    they are when the query's embedding has come, whatever changed meanwhile, and
    with no others. *)
Theorem search_finds_the_best (inv : VectorStore -> Prop) owner coll query k m : 0 <= k ->
  steady inv (fun _ _ _ => True) (search owner coll query k m)
    (fun o => match o with Return hits => exists s q, inv s /\ best_of owner coll q k m s hits | _ => True end).
Proof.
  intros Hk. unfold search. apply (steady_bind _ _ _ _ (fun _ => True)); [by apply steady_seg| |done|done]. intros s0 _.
  destruct (has_embed s0); cbn [negb]; [|done]. apply (steady_bind _ _ _ _ (fun _ => True)); [|intros vs _|done|done].
  - unfold embed. apply (steady_bind _ _ _ _ (fun _ => True)); [by apply steady_await|intros [v|e] _; done|done|done].
  - destruct vs as [|v vs]; [done|]. apply steady_seg. intros _ s Hs. split; [done|]. cbn. exists s, (_norm v). split; [done|by apply hits_in_best].
Qed.
End Sources.

Module RagDemo.
#[export] Instance demo_floats : FloatOps := { fsqrt := fun x => if Qeq_bool x 4 then 2%Q else x; single := fun x => x }.
#[export] Instance demo_text : FloatText := { float_repr := fun _ => []; float_parse := fun _ => None; float_known := fun _ => False }.
Definition none : VectorStore := mkVectors [] true.
(** Two chunks of one source, embedded along two axes. *)
Definition one : VectorStore := (ingest_end "ann" "docs" "a.txt" (str "x") YNull [str "x"; str "y"] [[2; 0]; [0; 1]]%Q none).2.

Lemma sources_stay_whole_witness : exists c, ingest_text "ann" "docs" "a.txt" (str "x") YNull 8 3 = Some c /\
  steady whole (fun _ _ _ => True) c (fun _ => True) /\ whole none.
Proof.
  eexists. split; [reflexivity|]. split; [|intros o c x; by left].
  eapply steady_weaken; [exact (proj1 (sources_stay_whole "ann" "docs" "a.txt" (str "x") YNull 8 3 _ eq_refl))|done].
Defined.
Lemma search_finds_the_best_witness :
  steady whole (fun _ _ _ => True) (search "ann" "docs" (str "q") 1 0) (fun o => match o with Return hits => exists s q, whole s /\ best_of "ann" "docs" q 1 0 s hits | _ => True end) /\
  map (fun h => unstr (h_text h)) (hits_in "ann" "docs" [0; 1]%Q 1 0 one) = ["y"].
Proof. split; [apply (search_finds_the_best whole "ann" "docs" (str "q") 1 0); lia|vm_compute; reflexivity]. Defined.

(** Metadata that JSON cannot hold is refused after the old chunks are gone. *)
Example lost_source : source_rows "ann" "docs" "a.txt" one ≠ [] /\
  let r := ingest_end "ann" "docs" "a.txt" (str "z") (YMap [(YStr "when", YOther "2026-01-01")]) [str "z"] [[1]]%Q one in
  is_ok r.1 = false /\ source_rows "ann" "docs" "a.txt" r.2 = [].
Proof. vm_compute. done. Qed.
End RagDemo.
