(* ===== verification/Approvals.v ===== *)
(** Component: human approval of tool calls ([src/src/tools/approvals.py]). One
    reading of the clock stands for those of one call; the identifier of a new
    approval is an argument. Arguments are JSON objects. *)
From S2P Require Import Prelude Errors Yaml Json.
From Stdlib Require Import Ascii.

Inductive status := PENDING | APPROVED | DENIED | USED.
#[export] Instance status_eq_dec : EqDecision status.
Proof. solve_decision. Defined.

Record Approval := mkApproval {
  a_id : string; a_caller : string; a_tool : string; a_arguments : yaml; a_created : Q; a_status : status; decided_by : option string }.
Definition with_status (s : status) (by_ : option string) (a : Approval) : Approval :=
  mkApproval (a_id a) (a_caller a) (a_tool a) (a_arguments a) (a_created a) s by_.

Record ApprovalStore := mkApprovals { ttl_s : Q; max_items : nat; items : list (string * Approval) }.
Definition with_items (s : ApprovalStore) (l : list (string * Approval)) : ApprovalStore := mkApprovals (ttl_s s) (max_items s) l.

(** [__post_init__]: a bool is not a number; an integer beyond every float is
    refused like an infinity. *)
Definition new_approvals (ttl max : yaml) : res string ApprovalStore :=
  let finite := match ttl with YInt z => int_to_float z | YFloat (Fin q) => Some q | _ => None end in
  match finite with
  | Some q =>
    if 0%Q <. q then
      match int_pos max with
      | Some n => Ok (mkApprovals q (Z.to_nat n) [])
      | None => Raise "max_items must be a positive integer"
      end
    else Raise "ttl_s must be a finite positive number"
  | None => Raise "ttl_s must be a finite positive number"
  end.

Section Approvals.
Context `{FloatText}.

(** [json.dumps(args, sort_keys=True, default=str)] *)
Definition key_leb (a b : yaml * yaml) : bool := match a.1, b.1 with YStr s, YStr t => String.leb s t | _, _ => true end.
Fixpoint canonical (v : yaml) : yaml :=
  match v with
  | YList l => YList (map canonical l)
  | YMap m => YMap (py_sorted key_leb (map (fun kv => (kv.1, canonical kv.2)) m))
  | YOther s => YStr s
  | v => v
  end.
Definition pipe : ascii := "|"%char.
Definition _fingerprint (caller tool : string) (args : yaml) : chars :=
  chars_of caller ++ pipe :: chars_of tool ++ pipe :: json_print (canonical args).
Definition fp_of (a : Approval) : chars := _fingerprint (a_caller a) (a_tool a) (a_arguments a).

Definition expired (s : ApprovalStore) (now : Q) (a : Approval) : bool := ttl_s s <=. (now - a_created a).
Definition _sweep (now : Q) (s : ApprovalStore) : ApprovalStore :=
  with_items s (List.filter (fun kv => negb (expired s now kv.2)) (items s)).

Definition is_open (a : Approval) : bool := bool_decide (a_status a = PENDING) || bool_decide (a_status a = APPROVED).
Definition same_call (fp : chars) (a : Approval) : bool := bool_decide (fp_of a = fp).

(** Decided approvals make room, the oldest first. *)
Fixpoint evict (max : nat) (todo l : list (string * Approval)) : list (string * Approval) :=
  match todo with
  | [] => l
  | (k, a) :: todo =>
    if bool_decide (a_status a = DENIED) || bool_decide (a_status a = USED)
    then let l := od_del k l in if (length l <? max)%nat then l else evict max todo l
    else evict max todo l
  end.

Definition make_room (s : ApprovalStore) : ApprovalStore :=
  if (max_items s <=? length (items s))%nat then with_items s (evict (max_items s) (items s) (items s)) else s.

(** The approval to show, and the notification sent. *)
Definition request (now : Q) (id caller tool : string) (args : yaml) (s : ApprovalStore) : res string (Approval * bool) * ApprovalStore :=
  let s := _sweep now s in
  let fp := _fingerprint caller tool args in
  match List.find (fun kv => is_open kv.2 && same_call fp kv.2) (items s) with
  | Some (_, a) => (Ok (a, false), s)
  | None =>
    let s := make_room s in
    if (max_items s <=? length (items s))%nat then (Raise "too many pending approvals", s)
    else
      let a := mkApproval id caller tool args now PENDING None in
      (Ok (a, true), with_items s (od_set id a (items s)))
  end.

Definition get (now : Q) (id : string) (s : ApprovalStore) : option Approval * ApprovalStore :=
  let s := _sweep now s in (od_get id (items s), s).
Definition pending (now : Q) (s : ApprovalStore) : list Approval * ApprovalStore :=
  let s := _sweep now s in (List.filter (fun a => bool_decide (a_status a = PENDING)) (od_values (items s)), s).

Inductive decide_error := NoSuchApproval (id : string) | AlreadyDecided (s : status).
Definition decide_ (now : Q) (id : string) (approve : bool) (by_ : string) (s : ApprovalStore) : res decide_error Approval * ApprovalStore :=
  let '(found, s) := get now id s in
  match found with
  | None => (Raise (NoSuchApproval id), s)
  | Some a =>
    if negb (bool_decide (a_status a = PENDING)) then (Raise (AlreadyDecided (a_status a)), s)
    else let a := with_status (if approve then APPROVED else DENIED) (Some by_) a in (Ok a, with_items s (od_set id a (items s)))
  end.

(** The first approval of exactly this call is spent. *)
Fixpoint spend (fp : chars) (l : list (string * Approval)) : option (list (string * Approval)) :=
  match l with
  | [] => None
  | (k, a) :: l =>
    if bool_decide (a_status a = APPROVED) && same_call fp a then Some ((k, with_status USED (decided_by a) a) :: l)
    else (cons (k, a)) <$> spend fp l
  end.
Definition consume (now : Q) (caller tool : string) (args : yaml) (s : ApprovalStore) : bool * ApprovalStore :=
  let s := _sweep now s in
  match spend (_fingerprint caller tool args) (items s) with
  | Some l => (true, with_items s l)
  | None => (false, s)
  end.

(** ** Histories *)
Inductive approval_op :=
| ORequest (id caller tool : string) (args : yaml)
| OGet (id : string)
| OPending
| ODecide (id : string) (approve : bool) (by_ : string)
| OConsume (caller tool : string) (args : yaml).

(** What a call did that matters: it approved a call, or spent an approval. *)
Inductive approval_event := Approves (fp : chars) | Spends (fp : chars).
Definition approval_step (now : Q) (o : approval_op) (s : ApprovalStore) : list approval_event * ApprovalStore :=
  match o with
  | ORequest id c t a => ([], (request now id c t a s).2)
  | OGet id => ([], (get now id s).2)
  | OPending => ([], (pending now s).2)
  | ODecide id ok by_ =>
    let '(r, s) := decide_ now id ok by_ s in (match r with Ok a => if ok then [Approves (fp_of a)] else [] | Raise _ => [] end, s)
  | OConsume c t a => let '(b, s) := consume now c t a s in (if b then [Spends (_fingerprint c t a)] else [], s)
  end.
Fixpoint approval_run (ops : list (Q * approval_op)) (s : ApprovalStore) : list approval_event * ApprovalStore :=
  match ops with
  | [] => ([], s)
  | (now, o) :: ops => let '(e, s) := approval_step now o s in let '(es, s) := approval_run ops s in (e ++ es, s)
  end.

Definition approvals_of (fp : chars) (es : list approval_event) : nat :=
  length (List.filter (fun e => match e with Approves f => bool_decide (f = fp) | _ => false end) es).
Definition uses_of (fp : chars) (es : list approval_event) : nat :=
  length (List.filter (fun e => match e with Spends f => bool_decide (f = fp) | _ => false end) es).
(** Approvals of a call that are not spent yet. *)
Definition unspent (fp : chars) (l : list (string * Approval)) : nat :=
  length (List.filter (fun kv => bool_decide (a_status kv.2 = APPROVED) && same_call fp kv.2) l).

Lemma unspent_sublist fp l l' : l `sublist_of` l' -> (unspent fp l <= unspent fp l')%nat.
Proof.
  unfold unspent. induction 1 as [|x l l' Hs IH|x l l' Hs IH]; cbn [List.filter]; [lia| |];
    destruct (_ && _); cbn [length]; lia.
Qed.

Lemma unspent_cons fp kv l : unspent fp (kv :: l) = ((if bool_decide (a_status kv.2 = APPROVED) && same_call fp kv.2 then 1 else 0) + unspent fp l)%nat.
Proof. unfold unspent. cbn [List.filter]. by destruct (_ && _). Qed.

Lemma unspent_set fp k a l :
  (unspent fp (od_set k a l) <= (if bool_decide (a_status a = APPROVED) && same_call fp a then 1 else 0) + unspent fp l)%nat.
Proof.
  induction l as [|[k' b] l IH]; cbn [od_set]; [by rewrite unspent_cons|].
  revert IH. case_decide; rewrite !unspent_cons; cbn [snd]; destruct (_ && same_call fp a), (_ && same_call fp b); lia.
Qed.

Lemma evict_sublist max todo : forall l, evict max todo l `sublist_of` l.
Proof.
  induction todo as [|[k a] todo IH]; intros l; cbn [evict]; [done|].
  destruct (_ || _); [|apply IH]. destruct (_ <? max)%nat; [apply od_del_sublist|].
  etrans; [apply IH|apply od_del_sublist].
Qed.

Lemma sweep_sublist now s : items (_sweep now s) `sublist_of` items s.
Proof. apply filter_sublist. Qed.

Lemma spend_spec fp l l' : spend fp l = Some l' ->
  length l' = length l /\ S (unspent fp l') = unspent fp l /\ forall fp', fp' ≠ fp -> unspent fp' l' = unspent fp' l.
Proof.
  revert l'. induction l as [|[k a] l IH]; intros l'; cbn [spend]; [done|].
  destruct (_ && _) eqn:E.
  - intros [= <-]. apply andb_true_iff in E as [E1%bool_decide_eq_true E2]. split; [done|]. split.
    + rewrite !unspent_cons. cbn [snd]. rewrite E1, E2. done.
    + intros fp' Hne. rewrite !unspent_cons. cbn [snd]. rewrite E1. unfold same_call in *. apply bool_decide_eq_true in E2.
      change (fp_of (with_status USED (decided_by a) a)) with (fp_of a). rewrite (bool_decide_eq_false_2 (fp_of a = fp')) by congruence. reflexivity.
  - destruct (spend fp l) as [l1|]; [|done]. intros [= <-]. destruct (IH l1 eq_refl) as (H1 & H2 & H3).
    split; [cbn; lia|]. split; [rewrite !unspent_cons; destruct (_ && _); lia|]. intros fp' Hne. rewrite !unspent_cons, H3 by done. done.
Qed.
End Approvals.

(** ** Approvals are spent once *)
Section Spending.
Context `{FloatText}.

Lemma approval_step_ok fp now o s :
  (length (items s) <= max_items s)%nat ->
  let '(es, s') := approval_step now o s in
  (uses_of fp es + unspent fp (items s') <= approvals_of fp es + unspent fp (items s))%nat /\
  (length (items s') <= max_items s')%nat /\ max_items s' = max_items s.
Proof.
  intros Hlen. pose proof (unspent_sublist fp _ _ (sweep_sublist now s)) as Hu.
  pose proof (sublist_length _ _ (sweep_sublist now s)) as Hl. unfold approval_step.
  assert (Hskip : (uses_of fp [] + unspent fp (items (_sweep now s)) <= approvals_of fp [] + unspent fp (items s))%nat /\
            (length (items (_sweep now s)) <= max_items (_sweep now s))%nat /\ max_items (_sweep now s) = max_items s).
  { split; [exact Hu|]. split; [cbn [_sweep with_items max_items] in *; lia|done]. }
  destruct o as [id c t a|id| |id ok by_|c t a].
  - unfold request. destruct (List.find _ _) as [[k a0]|]; [exact Hskip|].
    assert (Hs1 : items (make_room (_sweep now s)) `sublist_of` items (_sweep now s) /\ max_items (make_room (_sweep now s)) = max_items s).
    { unfold make_room. destruct (_ <=? _)%nat; [|done]. split; [apply evict_sublist|done]. }
    cbv zeta. set (s1 := make_room (_sweep now s)) in *. clearbody s1.
    destruct Hs1 as [Hs1 Hm1]. pose proof (unspent_sublist fp _ _ Hs1) as Hu1. pose proof (sublist_length _ _ Hs1) as Hl1.
    destruct (max_items s1 <=? length (items s1))%nat eqn:E; cbn [snd].
    + split; [cbn in *; lia|]. rewrite Hm1. split; [lia|done].
    + apply Nat.leb_gt in E. cbn [with_items items max_items]. pose proof (unspent_set fp id (mkApproval id c t a now PENDING None) (items s1)) as Hset.
      rewrite bool_decide_eq_false_2 in Hset by done. cbn [andb] in Hset. pose proof (length_od_set_le id (mkApproval id c t a now PENDING None) (items s1)).
      split; [cbn in *; lia|]. split; [lia|done].
  - exact Hskip.
  - exact Hskip.
  - unfold decide_, get. destruct (od_get id (items (_sweep now s))) as [a|] eqn:Eg; [|exact Hskip].
    destruct (negb _) eqn:Ep; [exact Hskip|]. cbn [with_items items max_items].
    set (a' := with_status _ _ a). pose proof (unspent_set fp id a' (items (_sweep now s))) as Hset.
    rewrite length_od_set_present.
    2: { apply od_get_elem in Eg. unfold od_keys. apply list_elem_of_fmap. by exists (id, a). }
    split; [|split; [cbn [_sweep with_items max_items] in *; lia|done]].
    unfold uses_of, approvals_of. revert Hset. unfold same_call. change (fp_of a') with (fp_of a).
    destruct ok; cbn [List.filter]; [|rewrite bool_decide_eq_false_2 by done; cbn [andb length]; lia].
    destruct (bool_decide (fp_of a = fp)); rewrite ?andb_false_r; cbn [length]; [destruct (bool_decide (a_status a' = APPROVED))|]; cbn [andb]; lia.
  - unfold consume. destruct (spend _ _) as [l|] eqn:Es; [|exact Hskip]. apply spend_spec in Es as (H1 & H2 & H3).
    cbn [with_items items max_items]. split; [|split; [cbn [_sweep with_items max_items] in *; lia|done]].
    unfold uses_of, approvals_of. cbn [List.filter]. case_bool_decide as Ef; cbn [length]; [subst fp; lia|].
    rewrite H3 by congruence. lia.
Qed.

Lemma approval_run_ok fp ops : forall s, (length (items s) <= max_items s)%nat ->
  let '(es, s') := approval_run ops s in
  (uses_of fp es + unspent fp (items s') <= approvals_of fp es + unspent fp (items s))%nat /\ (length (items s') <= max_items s)%nat.
Proof.
  induction ops as [|[now o] ops IH]; intros s Hs; cbn [approval_run]; [cbn; lia|].
  pose proof (approval_step_ok fp now o s Hs) as Hstep. destruct (approval_step now o s) as [e s1]. destruct Hstep as (H1 & H2 & H3).
  specialize (IH s1 H2). destruct (approval_run ops s1) as [es s2]. destruct IH as [H4 H5]. split; [|lia].
  unfold uses_of, approvals_of in *. rewrite !List.filter_app, !length_app. lia.
Qed.

(** C11: However a store is used, a call is let through at most as often as a human
    approved exactly that call, and the store never holds more than its limit. *)
Theorem approvals_are_spent_once ttl max s ops fp :
  new_approvals ttl max = Ok s ->
  let '(es, s') := approval_run ops s in
  (uses_of fp es <= approvals_of fp es)%nat /\ (length (items s') <= max_items s)%nat.
Proof.
  unfold new_approvals. intros Hn.
  assert (Hi : items s = []).
  { destruct (match ttl with YInt z => _ | _ => _ end) as [q|]; [|done]. destruct (0%Q <. q); [|done]. destruct (int_pos max); [|done]. by injection Hn as <-. }
  pose proof (approval_run_ok fp ops s) as Hr. rewrite Hi in Hr. specialize (Hr ltac:(cbn; lia)).
  destruct (approval_run ops s) as [es s']. cbn in Hr. lia.
Qed.
End Spending.

(** ** What a fingerprint identifies

    Printed JSON read by a scanner: outside a string there is no bar and no
    backslash, and every quote opens or closes one. *)
Inductive quoting := Out | In | Esc | Bad.
Definition quote_step (q : quoting) (c : ascii) : quoting :=
  match q with
  | Out => if (code c =? 34) then In else if (code c =? 124) || (code c =? 92) then Bad else Out
  | In => if (code c =? 34) then Out else if (code c =? 92) then Esc else In
  | Esc => In
  | Bad => Bad
  end.
Definition quoting_after (q : quoting) (cs : chars) : quoting := fold_left quote_step cs q.

Lemma quoting_app q a b : quoting_after q (a ++ b) = quoting_after (quoting_after q a) b.
Proof. apply fold_left_app. Qed.

(** The same text cannot be well quoted both from outside and from inside. *)
Lemma quoting_parity cs : quoting_after Out cs = Out -> quoting_after In cs = Out -> False.
Proof.
  assert (Hbad : forall cs, quoting_after Bad cs = Bad) by (intros l; induction l; done).
  assert (Hall : forall cs q q', (q, q') ∈ [(Out, In); (In, Out)] -> quoting_after q cs = Out -> quoting_after q' cs = Out -> False).
  { induction cs0 as [|c cs0 IH]; intros q q' Hq.
    - intros Ho Ho'. cbn in *. subst. repeat (apply elem_of_cons in Hq as [Hq|Hq]; [discriminate|]). inversion Hq.
    - apply elem_of_cons in Hq as [[= -> ->]|[[= -> ->]|Hq]%elem_of_cons]; [| |inversion Hq];
        cbn [quoting_after fold_left quote_step]; destruct (code c =? 34) eqn:E1, (code c =? 92) eqn:E2; rewrite ?orb_true_r;
        try (fold (quoting_after Bad cs0); rewrite Hbad; discriminate);
        try (apply IH; set_solver); destruct (code c =? 124); cbn [orb];
        try (fold (quoting_after Bad cs0); rewrite Hbad; discriminate); apply IH; set_solver. }
  apply Hall. left.
Qed.

Section Fingerprints.
Context `{FloatLaws}.

Lemma json_wf_strong (P : yaml -> Prop) :
  P YNull -> (forall b, P (YBool b)) -> (forall z, P (YInt z)) -> (forall q, float_known q -> P (YFloat (Fin q))) ->
  (forall f, f = NaN \/ f = PInf \/ f = NInf -> P (YFloat f)) -> (forall s, P (YStr s)) ->
  (forall l, Forall json_wf l -> Forall P l -> P (YList l)) ->
  (forall m : list (string * yaml), NoDup m.*1 -> Forall (fun kv => json_wf kv.2) m -> Forall (fun kv => P kv.2) m ->
     P (YMap ((fun kv => (YStr kv.1, kv.2)) <$> m))) ->
  forall v, json_wf v -> P v.
Proof.
  intros H1 H2 H3 H4 H5 H6 H7 H8. fix IH 2. intros v [|b|z|q Hq|f Hf|s|l Hl|m Hnd Hm]; [done|done|done|by apply H4|by apply H5|done| |].
  - apply H7; [done|]. revert l Hl. fix go 2. intros l [|x l' Hx Hl]; [constructor|]. constructor; [by apply IH|by apply go].
  - apply H8; [done|done|]. clear Hnd. revert m Hm. fix go 2. intros m [|x l' Hx Hl]; [constructor|]. constructor; [by apply IH|by apply go].
Qed.

Lemma quoting_plain q cs : q = Out \/ q = In ->
  Forall (fun c => (code c =? 34) = false /\ (code c =? 92) = false /\ (code c =? 124) = false) cs -> quoting_after q cs = q.
Proof.
  intros Hq. induction 1 as [|c cs (E1 & E2 & E3) Hcs IH]; [done|]. cbn [quoting_after fold_left].
  destruct Hq as [-> | ->]; cbn [quote_step]; rewrite E1, ?E2, ?E3; exact IH.
Qed.

Lemma quoting_escape c : quoting_after In (escape c) = In.
Proof.
  cut (forallb (fun c => match quoting_after In (escape c) with In => true | _ => false end) (ascii_of_nat <$> seq 0 256) = true).
  - rewrite forallb_forall. intros Hall. specialize (Hall c). destruct (quoting_after In (escape c)); try done;
      discriminate Hall; rewrite <- (ascii_nat_embedding c); apply in_map, in_seq; pose proof (nat_ascii_bounded c); lia.
  - vm_compute. reflexivity.
Qed.

Lemma quoting_string s : quoting_after Out (print_string s) = Out.
Proof.
  unfold print_string. change (quote_char :: ?x) with ([quote_char] ++ x). rewrite quoting_app.
  change (quoting_after Out [quote_char]) with In. rewrite quoting_app.
  assert (Hf : quoting_after In (flat_map escape (chars_of s)) = In).
  { induction (chars_of s) as [|c cs IH]; [done|]. cbn [flat_map]. by rewrite quoting_app, quoting_escape. }
  by rewrite Hf.
Qed.

Lemma number_char_quoting c : number_char c = true -> (code c =? 34) = false /\ (code c =? 92) = false /\ (code c =? 124) = false.
Proof.
  intros Hc. cut (forallb (fun c => negb (number_char c) || (negb (code c =? 34) && negb (code c =? 92) && negb (code c =? 124)))
                    (ascii_of_nat <$> seq 0 256) = true).
  - rewrite forallb_forall. intros Hall. specialize (Hall c). rewrite Hc in Hall. cbn [negb orb] in Hall.
    assert (Hin : List.In c (ascii_of_nat <$> seq 0 256)).
    { rewrite <- (ascii_nat_embedding c). apply in_map, in_seq. pose proof (nat_ascii_bounded c). lia. }
    specialize (Hall Hin). rewrite !andb_true_iff, !negb_true_iff in Hall. tauto.
  - vm_compute. reflexivity.
Qed.

Lemma quoting_number cs : Forall (fun c => number_char c = true) cs -> quoting_after Out cs = Out.
Proof. intros Hcs. apply quoting_plain; [by left|]. eapply Forall_impl; [exact Hcs|]. apply number_char_quoting. Qed.

Lemma quoting_joined sep l : quoting_after Out sep = Out -> Forall (fun cs => quoting_after Out cs = Out) l ->
  quoting_after Out (joined_chars sep l) = Out.
Proof.
  intros Hs. induction 1 as [|cs l Hcs Hl IH]; [done|]. cbn [joined_chars]. destruct l; [done|].
  by rewrite !quoting_app, Hcs, Hs.
Qed.

Lemma quoting_wrapped a b cs : quoting_after Out [a] = Out -> quoting_after Out [b] = Out -> quoting_after Out cs = Out ->
  quoting_after Out (a :: cs ++ [b]) = Out.
Proof. intros Ha Hb Hcs. change (a :: cs ++ [b]) with ([a] ++ cs ++ [b]). by rewrite !quoting_app, Ha, Hcs, Hb. Qed.

Lemma quoting_print v : json_wf v -> quoting_after Out (json_print v) = Out.
Proof.
  revert v. apply json_wf_strong; cbn [json_print].
  - reflexivity.
  - by intros [].
  - intros z. apply quoting_number, print_int_spec.
  - intros q Hq. by apply quoting_number, float_repr_literal.
  - by intros f [-> | [-> | ->]].
  - apply quoting_string.
  - intros l _ Hl. apply quoting_wrapped; [done|done|]. apply quoting_joined; [done|]. by apply Forall_fmap.
  - intros m _ _ Hm. apply quoting_wrapped; [done|done|]. apply quoting_joined; [done|].
    apply Forall_fmap, Forall_fmap. eapply Forall_impl; [exact Hm|]. intros [k v] Hv. cbn [fst snd print_key].
    unfold compose. cbn [fst snd print_key]. by rewrite !quoting_app, quoting_string.
Qed.

Lemma canonical_wf v : json_wf v -> json_wf (canonical v).
Proof.
  revert v. apply json_wf_strong; cbn [canonical]; try by constructor.
  - intros l _ Hl. constructor. by apply Forall_fmap.
  - intros m Hnd _ Hm. set (m1 := map (fun kv : string * yaml => (kv.1, canonical kv.2)) m).
    assert (He : map (fun kv => (kv.1, canonical kv.2)) ((fun kv : string * yaml => (YStr kv.1, kv.2)) <$> m) = map (fun kv => (YStr kv.1, kv.2)) m1).
    { subst m1. clear. induction m as [|[k v] m IH]; [done|]. cbn in *. by rewrite IH. }
    rewrite He. destruct (Permutation_map_inv _ _ (py_sorted_perm key_leb (map (fun kv => (YStr kv.1, kv.2)) m1))) as (m2 & -> & Hp).
    assert (Hk : m1.*1 = m.*1) by (subst m1; clear; induction m as [|[k v] m IH]; [done|]; cbn in *; by rewrite IH).
    apply wf_map.
    + rewrite <- Hp. by rewrite Hk.
    + rewrite <- Hp. subst m1. by apply Forall_fmap.
Qed.
Lemma pipe_split a b a' b' : pipe ∉ b -> pipe ∉ b' -> a ++ pipe :: b = a' ++ pipe :: b' -> a = a' /\ b = b'.
Proof.
  intros Hb Hb' He. apply app_eq_inv in He as [(k & -> & He)|(k & -> & He)]; (destruct k as [|c k]; cbn [app] in He;
    [injection He as He; by rewrite app_nil_r|injection He as Hc He; exfalso]).
  - apply Hb'. rewrite He. apply elem_of_app. right. left.
  - apply Hb. rewrite He. apply elem_of_app. right. left.
Qed.

Lemma quoted_no_pipe k cs : quoting_after Out cs = Out -> quoting_after Out (k ++ pipe :: cs) = Out -> False.
Proof.
  intros Hcs Hk. rewrite quoting_app in Hk. change (pipe :: cs) with ([pipe] ++ cs) in Hk. rewrite quoting_app in Hk.
  assert (Hbad : quoting_after Bad cs = Bad) by (clear; induction cs; done).
  destruct (quoting_after Out k); change (quoting_after _ [pipe]) with Bad in Hk || change (quoting_after _ [pipe]) with In in Hk;
    [congruence|by apply (quoting_parity cs)|by apply (quoting_parity cs)|congruence].
Qed.

Lemma json_print_inj v v' : json_wf v -> json_wf v' -> json_print v = json_print v' -> v = v'.
Proof.
  intros Hv Hv' He. destruct (loads_dumps v Hv) as [_ H1]. destruct (loads_dumps v' Hv') as [_ H2]. congruence.
Qed.

(** An approval is bound to exactly one call: two calls have one fingerprint
    only if caller, tool and arguments are the same (arguments up to the order of
    their keys), for tools whose name has no bar, as registered names do not. *)
Theorem fingerprint_is_exact caller tool args caller' tool' args' :
  pipe ∉ chars_of tool -> pipe ∉ chars_of tool' -> json_wf args -> json_wf args' ->
  _fingerprint caller tool args = _fingerprint caller' tool' args' ->
  caller = caller' /\ tool = tool' /\ canonical args = canonical args'.
Proof.
  intros Ht Ht' Ha Ha' He. unfold _fingerprint in He.
  pose proof (quoting_print _ (canonical_wf _ Ha)) as Hq. pose proof (quoting_print _ (canonical_wf _ Ha')) as Hq'.
  set (J := json_print (canonical args)) in *. set (J' := json_print (canonical args')) in *.
  change (chars_of caller ++ pipe :: chars_of tool ++ pipe :: J) with (chars_of caller ++ (pipe :: chars_of tool) ++ pipe :: J) in He.
  change (chars_of caller' ++ pipe :: chars_of tool' ++ pipe :: J') with (chars_of caller' ++ (pipe :: chars_of tool') ++ pipe :: J') in He.
  rewrite !app_assoc in He. assert (Hj : chars_of caller ++ pipe :: chars_of tool = chars_of caller' ++ pipe :: chars_of tool' /\ J = J').
  { apply app_eq_inv in He as [(k & Hk & He)|(k & Hk & He)]; (destruct k as [|c k]; cbn [app] in He;
      [injection He as He; by rewrite app_nil_r in Hk|injection He as Hc He; exfalso]).
    - rewrite He in Hq'. by apply (quoted_no_pipe k J).
    - rewrite He in Hq. by apply (quoted_no_pipe k J'). }
  destruct Hj as [Hn Hj]. apply pipe_split in Hn as [Hc Hn]; [|done|done].
  split; [by rewrite <- (text_of_chars caller), Hc, text_of_chars|]. split; [by rewrite <- (text_of_chars tool), Hn, text_of_chars|].
  apply json_print_inj; [by apply canonical_wf|by apply canonical_wf|done].
Qed.
End Fingerprints.

(** ** Examples *)
Module ApprovalsDemo.
#[local] Existing Instance WholeFloats.whole_text.
#[local] Existing Instance WholeFloats.whole_laws.

Definition rm : yaml := YMap ((fun kv => (YStr kv.1, kv.2)) <$> [("path", YStr "/tmp|x"); ("force", YBool true)]).
Definition rm' : yaml := YMap ((fun kv => (YStr kv.1, kv.2)) <$> [("force", YBool true); ("path", YStr "/tmp|x")]).

Lemma fingerprint_is_exact_witness :
  _fingerprint "bob" "shell" rm = _fingerprint "bob" "shell" rm' /\ canonical rm = canonical rm'.
Proof.
  assert (Hw : json_wf rm /\ json_wf rm').
  { split; (apply wf_map; [apply (bool_decide_unpack _); vm_compute; reflexivity|]); repeat constructor. }
  assert (Hp : pipe ∉ chars_of "shell") by (apply (bool_decide_unpack _); vm_compute; reflexivity).
  assert (He : _fingerprint "bob" "shell" rm = _fingerprint "bob" "shell" rm') by (vm_compute; reflexivity).
  split; [exact He|]. exact (proj2 (proj2 (fingerprint_is_exact "bob" "shell" rm "bob" "shell" rm' Hp Hp (proj1 Hw) (proj2 Hw) He))).
Defined.

Definition store : ApprovalStore := mkApprovals 900 2 [].
Definition story : list (Q * approval_op) :=
  [(0, ORequest "a1" "bob" "shell" rm); (1, OConsume "bob" "shell" rm); (2, ODecide "a1" true "ann");
   (3, OConsume "bob" "shell" rm'); (4, OConsume "bob" "shell" rm)]%Q.
Definition bob_rm : chars := _fingerprint "bob" "shell" rm.

(** One approval, one use. *)
Example used_once : (approval_run story store).1 = [Approves bob_rm; Spends bob_rm].
Proof. vm_compute. reflexivity. Qed.

Lemma approvals_are_spent_once_witness :
  new_approvals (YFloat (Fin 900)) (YInt 2) = Ok store /\
  (let '(es, s') := approval_run story store in (uses_of bob_rm es <= approvals_of bob_rm es)%nat /\ (length (items s') <= 2)%nat).
Proof.
  assert (Hn : new_approvals (YFloat (Fin 900)) (YInt 2) = Ok store) by reflexivity.
  split; [exact Hn|]. exact (approvals_are_spent_once (YFloat (Fin 900)) (YInt 2) store story bob_rm Hn).
Defined.
End ApprovalsDemo.
