(* ===== verification/Tools.v ===== *)
(** Component: tools ([src/src/tools/registry.py], [src/src/tools/executor.py]):
    the registry with its checks and rate limit, one call of a tool, and the loop
    that runs the tool calls a model makes.

    The async functions are coroutines over the registry and the state [X] of
    their surroundings. A handler is what the event [EHandler] answers, a model
    what [ERoute] answers; a synchronous handler is one that nothing interrupts.
    Spans and log lines are left out. *)
From S2P Require Import Prelude Window Errors Yaml Json Regex Guardrails Injection Provider Coroutine.
From Stdlib Require Import Ascii.

Inductive Permission := READ_ONLY | WRITE | DESTRUCTIVE.
#[export] Instance Permission_eq_dec : EqDecision Permission.
Proof. solve_decision. Defined.
Definition rank (p : Permission) : Z := match p with READ_ONLY => 0 | WRITE => 1 | DESTRUCTIVE => 2 end.
Definition permission_name (p : Permission) : string :=
  match p with READ_ONLY => "READ_ONLY" | WRITE => "WRITE" | DESTRUCTIVE => "DESTRUCTIVE" end.

Inductive tool_error := ToolError (code message : string) | ApprovalRequired (tool : string).
Definition error_code (e : tool_error) : string := match e with ToolError c _ => c | ApprovalRequired _ => "approval_required" end.
Definition error_text (e : tool_error) : string :=
  match e with ToolError _ m => m | ApprovalRequired t => "Tool '" +:+ t +:+ "' needs human approval." end.

Record Tool := mkTool {
  t_name : string; t_description : string; t_parameters : yaml; t_version : string; t_owner : string;
  timeout_s : yaml; t_permission : Permission; rate_per_minute : Z }.

Definition new_tool (name description : string) (parameters : yaml) (version owner : string) (timeout : yaml)
    (permission : option Permission) (rate : yaml) : res string Tool :=
  match match timeout with YInt z => int_to_float z | YFloat (Fin q) => Some q | _ => None end with
  | Some q =>
    if negb (0%Q <. q) then Raise "tool timeout_s must be a finite positive number"
    else match int_nonneg rate, permission with
         | None, _ => Raise "tool rate_per_minute must be a non-negative integer"
         | _, None => Raise "tool permission must be a Permission value"
         | Some n, Some p => Ok (mkTool name description parameters version owner timeout p n)
         end
  | None => Raise "tool timeout_s must be a finite positive number"
  end.

Definition openai_spec (t : Tool) : yaml :=
  YMap [(YStr "type", YStr "function");
        (YStr "function", YMap [(YStr "name", YStr (t_name t)); (YStr "description", YStr (t_description t));
                                (YStr "parameters", t_parameters t)])].

Record ToolResult := mkToolResult { tr_tool : string; tr_content : string; duration_ms : Q; tr_truncated : bool }.
Definition as_untrusted (r : ToolResult) : string :=
  unstr (wrap_untrusted (str (tr_content r)) (str (tr_tool r)) "tool_output" MAX_CHARS).

(** What [on_call] is told. *)
Record audit_entry := mkAudit { au_caller : string; au_tool : string; au_arguments : yaml; au_outcome : tool_error + ToolResult }.

Record ToolRegistry := mkRegistry {
  _tools : list (string * Tool);
  on_call : bool;                                  (* whether a hook is installed *)
  audited : list audit_entry;
  _hits : list (string * string * list Q) }.
Definition with_tools (r : ToolRegistry) (l : list (string * Tool)) : ToolRegistry := mkRegistry l (on_call r) (audited r) (_hits r).
Definition with_hits (r : ToolRegistry) (l : list (string * string * list Q)) : ToolRegistry := mkRegistry (_tools r) (on_call r) (audited r) l.

(** JSON schemas: whether one is well formed, and whether a value satisfies it. *)
Inductive verdict := Valid | Invalid (message : string) | Broken (e : exn).
Class JsonSchema := { check_schema : yaml -> option exn; validate : yaml -> yaml -> verdict }.

Definition MAX_OUTPUT_CHARS : nat := 20000%nat.
Definition MAX_RATE_LIMIT_KEYS : nat := 10000%nat.

(** ** The registry *)
Definition name_ok (name : string) : bool :=
  match List.filter (fun c => negb ((c =? "_")%char || (c =? "-")%char)) (str name) with
  | [] => false
  | l => forallb (fun c => is_word c && negb (c =? "_")%char) l
  end.

Inductive register_error := InvalidName (name : string) | BadSchema (e : exn) | AlreadyRegistered (name : string).
Definition register `{JsonSchema} (t : Tool) (replace : bool) (r : ToolRegistry) : res register_error unit * ToolRegistry :=
  if negb (name_ok (t_name t)) then (Raise (InvalidName (t_name t)), r)
  else match check_schema (t_parameters t) with
       | Some e => (Raise (BadSchema e), r)
       | None =>
         if od_mem (t_name t) (_tools r) && negb replace then (Raise (AlreadyRegistered (t_name t)), r)
         else (Ok tt, with_tools r (od_set (t_name t) t (_tools r)))
       end.
Definition unregister (name : string) (r : ToolRegistry) : ToolRegistry := with_tools r (od_del name (_tools r)).

Definition name_leb (a b : string * Tool) : bool := String.leb a.1 b.1.
Definition permits_name (allow : list string) (name : string) : bool := bool_decide ("*" ∈ allow) || bool_decide (name ∈ allow).
Definition visible (allowed : option (list string)) (r : ToolRegistry) : list Tool :=
  match allowed with
  | None => []
  | Some allow => (List.filter (fun kv => permits_name allow kv.1) (py_sorted name_leb (_tools r))).*2
  end.
Definition specs (allowed : option (list string)) (r : ToolRegistry) : list yaml := openai_spec <$> visible allowed r.

(** A sliding minute per caller and tool. *)
Definition _check_rate (now : Q) (t : Tool) (caller : string) (r : ToolRegistry) : res tool_error unit * ToolRegistry :=
  if rate_per_minute t =? 0 then (Ok tt, r)
  else
    let key := (caller, t_name t) in
    let take_slot hits r :=
      let hits := pop_old 60 now hits in
      if rate_per_minute t <=? Z.of_nat (length hits)
      then (Raise (ToolError "rate_limited" ("Tool '" +:+ t_name t +:+ "' is limited to " +:+ text_of (print_int (rate_per_minute t)) +:+ " calls/minute.")), with_hits r (od_set key hits (_hits r)))
      else (Ok tt, with_hits r (od_set key (hits ++ [now]) (_hits r))) in
    match od_get key (_hits r) with
    | Some hits => take_slot hits r
    | None =>
      let r := if (MAX_RATE_LIMIT_KEYS <=? length (_hits r))%nat
               then with_hits r (List.filter (fun kv => negb (stale 60 now kv.2)) (_hits r)) else r in
      if (MAX_RATE_LIMIT_KEYS <=? length (_hits r))%nat
      then (Raise (ToolError "rate_limit_capacity" "Rate-limit tracking is at capacity; try again shortly."), r)
      else take_slot [] r
    end.

(** ** One call *)
(** The clocks a segment reads: monotonic, the registry's own, and the wall's. *)
Record tool_reading := mkToolReading { rd_mono : Q; rd_clock : Q; rd_time : Q }.

(** What a handler gives: a value, an exception by its class and text, or a
    [ToolError] of its own (no handler raises [ApprovalRequired]); [TimedOut] also
    when it raises a [TimeoutError] itself. *)
Inductive handler_answer := Returned (v : yaml) | Failed (class message : string) | TimedOut | Refused (code message : string).
Inductive tool_event : Type -> Type :=
| EHandler (name : string) (t : Tool) (arguments : yaml) : tool_event handler_answer
| ERoute (q : CompletionRequest) (timeout : option Q) : tool_event (res exn CompletionResponse).

(** The text of a JSON error. *)
Class JsonErrorText := { json_error_text : string -> string }.

Section Calls.
Context `{PyStr} `{FloatText} `{JsonSchema} `{JsonErrorText} {X : Type}.
Abbreviation S := (ToolRegistry * X)%type.
Abbreviation call_of := (coro tool_reading S tool_event).

(** [json.dumps(value, default=str)], or [str(value)] if that fails. *)
Fixpoint default_str (v : yaml) : yaml :=
  match v with
  | YList l => YList (map default_str l)
  | YMap m => YMap (map (fun kv => (kv.1, default_str kv.2)) m)
  | YOther s => YStr s
  | v => v
  end.
Definition _to_text (v : yaml) : string :=
  match json_dumps (default_str v) with Some cs => text_of cs | None => py_str v end.
Definition text_output (v : yaml) : string := match v with YStr s => s | _ => _to_text v end.
Definition tool_result (name : string) (v : yaml) (seconds : Q) : ToolResult :=
  let s := text_output v in
  let truncated := (MAX_OUTPUT_CHARS <? String.length s)%nat in
  mkToolResult name (if truncated then String.substring 0 MAX_OUTPUT_CHARS s +:+ String newline "[output truncated]" else s)
    (seconds * 1000) truncated.

(** The checks of [_call], in their order. *)
Definition check_call (name : string) (arguments : yaml) (allowed : option (list string)) (approved : bool) (max_permission : Permission)
    (r : ToolRegistry) : res exn (res tool_error Tool) :=
  match od_get name (_tools r) with
  | None => Ok (Raise (ToolError "unknown_tool" ("No such tool '" +:+ name +:+ "'.")))
  | Some t =>
    if negb (permits_name (default [] allowed) name)
    then Ok (Raise (ToolError "not_allowed" ("Tool '" +:+ name +:+ "' is not allowed for this caller.")))
    else if rank max_permission <? rank (t_permission t)
    then Ok (Raise (ToolError "permission_denied" ("Tool '" +:+ name +:+ "' needs " +:+ permission_name (t_permission t) +:+ " permission.")))
    else match arguments with
    | YMap _ =>
      match validate arguments (t_parameters t) with
      | Broken e => Raise e
      | Invalid m => Ok (Raise (ToolError "invalid_arguments" m))
      | Valid => if bool_decide (t_permission t = DESTRUCTIVE) && negb approved then Ok (Raise (ApprovalRequired name)) else Ok (Ok t)
      end
    | _ => Ok (Raise (ToolError "invalid_arguments" "Arguments must be a JSON object."))
    end
  end.
Definition admit_call (now : Q) (name : string) (arguments : yaml) (allowed : option (list string)) (approved : bool)
    (max_permission : Permission) (caller : string) : SE ToolRegistry exn (res tool_error Tool) := fun r =>
  match check_call name arguments allowed approved max_permission r with
  | Raise e => (Raise e, r)
  | Ok (Raise e) => (Ok (Raise e), r)
  | Ok (Ok t) => match _check_rate now t caller r with (Ok _, r) => (Ok (Ok t), r) | (Raise e, r) => (Ok (Raise e), r) end
  end.
Definition reg_seg {A} (m : tool_reading -> SE ToolRegistry exn A) : call_of A :=
  seg (fun rd '(r, x) => let '(a, r) := m rd r in (a, (r, x))).

Definition handled (name : string) (t : Tool) (a : handler_answer) (seconds : Q) : res tool_error ToolResult :=
  match a with
  | Returned v => Ok (tool_result name v seconds)
  | TimedOut => Raise (ToolError "timeout" ("Tool '" +:+ name +:+ "' timed out after " +:+ py_str (timeout_s t) +:+ "s."))
  | Refused k m => Raise (ToolError k m)
  | Failed c m => Raise (ToolError "tool_failed" (c +:+ ": " +:+ m))
  end.
Definition _call (name : string) (arguments : yaml) (allowed : option (list string)) (approved : bool) (max_permission : Permission)
    (start : Q) (caller : string) : call_of (res tool_error ToolResult) :=
  admitted ← reg_seg (fun rd => admit_call (rd_clock rd) name arguments allowed approved max_permission caller);
  match admitted with
  | Raise e => mret (Raise e)
  | Ok t => a ← await (EHandler name t arguments); reg_seg (fun rd => mret (handled name t a (rd_mono rd - start)))
  end.

Definition _audit (caller name : string) (arguments : yaml) (outcome : tool_error + ToolResult) : SE ToolRegistry exn unit :=
  se_modify (fun r => if on_call r then mkRegistry (_tools r) true (audited r ++ [mkAudit caller name arguments outcome]) (_hits r) else r).
Definition other_error (e : exn) : tool_error := ToolError "error" (ex_message e).
Definition registry_call (name : string) (arguments : yaml) (allowed : option (list string)) (caller : string) (approved : bool)
    (max_permission : Permission) : call_of (res tool_error ToolResult) :=
  start ← reg_seg (fun rd => mret (rd_mono rd));
  out ← try_ (_call name arguments allowed approved max_permission start caller);
  match out with
  | Return (Ok r) => reg_seg (fun _ => _audit caller name arguments (inr r));; mret (Ok r)
  | Return (Raise e) => reg_seg (fun _ => _audit caller name arguments (inl e));; mret (Raise e)
  | Throw e => reg_seg (fun _ => _audit caller name arguments (inl (other_error e)));; throw e
  | Cancel => finish Cancel
  end.

(** ** The tool loop *)
Record ToolStep := mkStep {
  s_call_id : string; s_tool : string; s_arguments : yaml; s_ok : bool; s_output : string; s_duration : Q; s_error : option string }.

Variable approved : string -> string -> yaml -> S -> bool * S.

Definition failed_step (c : tool_call) (args : yaml) (output code : string) : ToolStep :=
  mkStep (tc_id c) (tc_name c) args false output 0 (Some code).
Definition finished_step (c : tool_call) (args : yaml) (r : res tool_error ToolResult) : ToolStep :=
  match r with
  | Ok res => mkStep (tc_id c) (tc_name c) args true (as_untrusted res) (duration_ms res) None
  | Raise (ApprovalRequired t) => failed_step c args (error_text (ApprovalRequired t)) "approval_required"
  | Raise (ToolError k m) => failed_step c args ("Tool error (" +:+ k +:+ "): " +:+ m) k
  end.
Definition call_arguments (c : tool_call) : res string yaml :=
  let text := str_or (tc_arguments c) "{}" in
  match json_loads (chars_of text) with
  | None => Raise (json_error_text text)
  | Some (YMap m) => Ok (YMap m)
  | Some _ => Raise "arguments must be an object"
  end.
Definition _run_one (c : tool_call) (allowed : option (list string)) (caller : string) (max_permission : Permission) : call_of ToolStep :=
  match call_arguments c with
  | Raise m => mret (failed_step c (YMap []) ("Invalid arguments: " +:+ m) "invalid_arguments")
  | Ok args =>
    r ← registry_call (tc_name c) args allowed caller false max_permission;
    match r with
    | Raise (ApprovalRequired t) =>
      yes ← seg (fun _ s => let '(b, s) := approved caller (tc_name c) args s in (Ok b, s));
      if yes : bool then r ← registry_call (tc_name c) args allowed caller true max_permission; mret (finished_step c args r)
      else mret (finished_step c args (Raise (ApprovalRequired t)))
    | r => mret (finished_step c args r)
    end
  end.

Inductive stop_reason := answered | max_steps | needs_approval | cost_limit.
Record ToolLoopResult := mkLoopResult {
  lr_response : option CompletionResponse; lr_steps : list ToolStep; lr_stop : stop_reason; pending_approval : option ToolStep;
  tools_skipped : bool; total_cost_usd : Q; lr_input : Z; lr_output : Z }.

(** [resp.metadata.get("tool_calls")]: calls are dicts of text. *)
Definition text_field (key : string) (m : list (yaml * yaml)) : option string :=
  match yget key m with Some (YStr s) => Some s | _ => None end.
Definition calls_of (r : CompletionResponse) : list tool_call :=
  match od_get "tool_calls" (rs_metadata r) with
  | Some (YList l) => omap (fun v => match v with
      | YMap m => Some (mkToolCall (default "" (text_field "id" m)) (default "" (text_field "name" m)) (text_field "arguments" m))
      | _ => None end) l
  | _ => []
  end.

(** The calls of one answer, in their order, until one needs approval. *)
Fixpoint run_calls (calls : list tool_call) (allowed : option (list string)) (caller : string) (max_permission : Permission)
    (ms : list Message) (steps : list ToolStep) : call_of (option ToolStep * list Message * list ToolStep) :=
  match calls with
  | [] => mret (None, ms, steps)
  | c :: calls =>
    step ← _run_one c allowed caller max_permission;
    if bool_decide (s_error step = Some "approval_required") then mret (Some step, ms, steps ++ [step])
    else run_calls calls allowed caller max_permission
           (ms ++ [mkMessage "tool" (s_output step) None (Some (s_call_id step)) None]) (steps ++ [step])
  end.

Definition with_messages (q : CompletionRequest) (ms : list Message) : CompletionRequest :=
  mkRequest ms (rq_model q) (max_tokens q) (temperature q) (rq_stream q) (system_prompt q) (metadata q) (tools q) (tool_choice q) (response_format q).
Definition route (q : CompletionRequest) : call_of CompletionResponse := x ← await (ERoute q None); finish (of_res x).

Definition add_response (r : CompletionResponse) (l : ToolLoopResult) : ToolLoopResult :=
  mkLoopResult (Some r) (lr_steps l) (lr_stop l) (pending_approval l) (tools_skipped l) (total_cost_usd l + rs_cost r)
    (lr_input l + rs_input r) (lr_output l + rs_output r).
Definition stopped (s : stop_reason) (p : option ToolStep) (steps : list ToolStep) (l : ToolLoopResult) : ToolLoopResult :=
  mkLoopResult (lr_response l) steps s p (tools_skipped l) (total_cost_usd l) (lr_input l) (lr_output l).
Fixpoint tool_loop (passes : nat) (limit : Z) (max_cost : option Q) (allowed : option (list string)) (caller : string)
    (max_permission : Permission) (q : CompletionRequest) (l : ToolLoopResult) : call_of ToolLoopResult :=
  match passes with
  | O => mret (stopped max_steps (pending_approval l) (lr_steps l) l)
  | Datatypes.S passes =>
    resp ← route q;
    let l := add_response resp l in
    match calls_of resp with
    | [] => mret l
    | calls =>
      if limit <=? Z.of_nat (length (lr_steps l)) then mret (stopped max_steps (pending_approval l) (lr_steps l) l)
      else if match max_cost with Some c => c <=. total_cost_usd l | None => false end
      then mret (stopped cost_limit (pending_approval l) (lr_steps l) l)
      else
        out ← run_calls calls allowed caller max_permission
                (messages q ++ [mkMessage "assistant" (rs_content resp) (Some calls) None None]) (lr_steps l);
        let '(waiting, ms, steps) := out in
        match waiting with
        | Some step => mret (stopped needs_approval (Some step) steps l)
        | None => tool_loop passes limit max_cost allowed caller max_permission (with_messages q ms)
                    (stopped (lr_stop l) (pending_approval l) steps l)
        end
    end
  end.

(** [allowed] becomes a list at once, so that [None] is no tool at all. *)
Definition run_tool_loop (q : CompletionRequest) (allowed : option (list string)) (caller : string) (limit : Z) (max_cost : option Q)
    (max_permission : Permission) (tools_ok : CompletionRequest -> bool) : call_of ToolLoopResult :=
  let allowed := Some (default [] allowed) in
  offered ← reg_seg (fun _ => se_gets (specs allowed));
  let skipped := negb (bool_decide (offered = [])) && negb (tools_ok q) in
  let offered := if skipped then [] else offered in
  let q := mkRequest (messages q) (rq_model q) (max_tokens q) (temperature q) false (system_prompt q) (metadata q)
             (match offered with [] => tools q | _ => Some (default [] (tools q) ++ offered) end) (tool_choice q) (response_format q) in
  tool_loop (Z.to_nat (limit + 1)) limit max_cost allowed caller max_permission q
    (mkLoopResult None [] answered None skipped 0 0 0).
End Calls.
Definition DEFAULT_MAX_STEPS : Z := 5.
