(* ===== verification/ToolsProps.v ===== *)
(** The theorems on tools: what a handler that runs has passed, how often a tool
    runs, and how many model calls the loop makes. *)
From S2P Require Import Prelude Window Errors Yaml Json Regex Guardrails Injection Provider Coroutine Tools.
From Stdlib Require Import Ascii.

(** ** Whatever a coroutine asks for *)
Section Asking.
Context {X : Type}.
Abbreviation S := (ToolRegistry * X)%type.
Variables (asks : tool_reading -> forall Y, tool_event Y -> Prop) (rely : relation S).
Definition safe {A} (c : coro tool_reading S tool_event A) : Prop := forall r s, runs rely asks c (fun _ _ _ => True) r s.

Lemma safe_after {A B} (c : coro tool_reading S tool_event A) (f : outcome A -> coro tool_reading S tool_event B) :
  safe c -> (forall o, safe (f o)) -> safe (after c f).
Proof. intros Hc Hf r s. eapply runs_after; [apply Hc|]. intros o r' s' _. apply Hf. Qed.
Lemma safe_bind {A B} (c : coro tool_reading S tool_event A) (f : A -> coro tool_reading S tool_event B) :
  safe c -> (forall a, safe (f a)) -> safe (c ≫= f).
Proof. intros Hc Hf. apply safe_after; [done|]. intros [a|e|]; [apply Hf|done|done]. Qed.
Lemma safe_try {A} (c : coro tool_reading S tool_event A) : safe c -> safe (try_ c).
Proof. intros Hc. by apply safe_after. Qed.
Lemma safe_seg {A} (m : tool_reading -> SE S exn A) : safe (seg m).
Proof. intros r s. by apply runs_seg. Qed.
Lemma safe_reg {A} (m : tool_reading -> SE ToolRegistry exn A) : safe (reg_seg m).
Proof. apply safe_seg. Qed.
End Asking.

(** ** Every handler that starts was admitted *)
Section Admission.
Context `{PyStr} `{FloatText} `{JsonSchema} `{JsonErrorText} {X : Type}.
Abbreviation S := (ToolRegistry * X)%type.
Variable approved : string -> string -> yaml -> S -> bool * S.
Variable grants : string -> string -> yaml -> Prop.      (* the calls [approved] says yes to *)
Context (Happroved : forall c n a s, (approved c n a s).1 = true -> grants c n a).
Variables (allowed : option (list string)) (caller : string) (max_permission : Permission).

Definition admitted (name : string) (t : Tool) (args : yaml) : Prop :=
  permits_name (default [] allowed) name = true /\ rank (t_permission t) <= rank max_permission /\
  (exists m, args = YMap m) /\ validate args (t_parameters t) = Valid /\
  (t_permission t = DESTRUCTIVE -> grants caller name args).
Definition asks (_ : tool_reading) (Y : Type) (e : tool_event Y) : Prop :=
  match e with EHandler name t args => admitted name t args | ERoute _ _ => True end.
Variable rely : relation S.
Abbreviation safe := (safe asks rely).
Lemma safe_route q t : safe (await (ERoute q t)).
Proof. intros r s. by apply runs_await. Qed.


Lemma check_call_ok name args ok r t :
  check_call name args allowed ok max_permission r = Ok (Ok t) -> (ok = true -> grants caller name args) -> admitted name t args.
Proof.
  unfold check_call. intros Hc Hok. destruct (od_get name (_tools r)) as [t'|]; [|done].
  destruct (permits_name _ _) eqn:Ea; [|done]. cbn [negb] in Hc. destruct (_ <? _) eqn:Ep; [done|]. destruct args; try done.
  destruct (validate _ _) eqn:Ev; try done. destruct (_ && _) eqn:Ed; [done|]. injection Hc as <-. apply Z.ltb_ge in Ep.
  split_and!; [done|done|by eexists|done|]. intros Hd. rewrite Hd in Ed. destruct ok; [by apply Hok|done].
Qed.

(** A call starts at most its own handler, and only if it is admitted. *)
Definition asks_only name args (_ : tool_reading) (Y : Type) (e : tool_event Y) : Prop :=
  match e with EHandler n t a => n = name /\ a = args /\ admitted name t args | ERoute _ _ => False end.
Lemma call_asks name args ok start : (ok = true -> grants caller name args) ->
  ToolsProps.safe (asks_only name args) rely (_call name args allowed ok max_permission start caller).
Proof.
  intros Hok r s. unfold _call. eapply (runs_bind _ _ _ _ (fun o _ _ => forall t, o = Return (Ok t) -> admitted name t args)).
  - apply runs_seg. intros rd t. destruct s as [reg x]. unfold admit_call.
    destruct (check_call name args allowed ok max_permission reg) as [[t'|e]|e] eqn:Ec; cbn; [|by intros [=]|by intros [=]].
    destruct (_check_rate (rd_clock rd) t' caller reg) as [[[]|e] reg']; cbn; [|by intros [=]]. intros [= <-]. by eapply check_call_ok.
  - intros [t|e] r' s' Ht; [|done]. apply (runs_bind _ _ _ _ (fun _ _ _ => True)); [|by intros; apply safe_reg|done|done].
    apply runs_await; [split_and!; [done|done|by apply Ht]|done|done].
  - done.
  - done.
Qed.
Lemma registry_call_asks name args ok : (ok = true -> grants caller name args) ->
  ToolsProps.safe (asks_only name args) rely (registry_call name args allowed caller ok max_permission).
Proof.
  intros Hok. unfold registry_call. apply safe_bind; [apply safe_reg|]. intros start.
  apply safe_bind; [apply safe_try; by apply call_asks|].
  intros [[r|e]|e|]; try (apply safe_bind; [apply safe_reg|]); intros; done.
Qed.
Lemma registry_call_safe name args ok : (ok = true -> grants caller name args) ->
  safe (registry_call name args allowed caller ok max_permission).
Proof.
  intros Hok r s. eapply runs_asks; [|by apply registry_call_asks]. intros rd Y []; cbn; [by intros (-> & -> & ?)|done].
Qed.

Lemma run_one_safe c : safe (_run_one approved c allowed caller max_permission).
Proof.
  unfold _run_one. destruct (call_arguments c) as [args|m]; [|done].
  apply safe_bind; [by apply registry_call_safe|]. intros [res|[k m|t]]; [done|done|]. intros r s.
  apply (runs_bind _ _ _ _ (fun o _ _ => o = Return true -> grants caller (tc_name c) args)).
  - apply runs_seg. intros rd. pose proof (Happroved caller (tc_name c) args s) as Ha.
    destruct (approved caller (tc_name c) args s) as [b s']. cbn in *. by intros [= ->]; apply Ha.
  - intros [] r' s' Hg; [|done]. apply safe_bind; [|done]. apply registry_call_safe. intros _. by apply Hg.
  - done.
  - done.
Qed.

Lemma run_calls_safe calls : forall ms steps, safe (run_calls approved calls allowed caller max_permission ms steps).
Proof.
  induction calls as [|c calls IH]; intros ms steps; [done|]. cbn [run_calls]. apply safe_bind; [apply run_one_safe|].
  intros step. case_bool_decide; [done|]. apply IH.
Qed.

Lemma tool_loop_safe passes limit max_cost : forall q l, safe (tool_loop approved passes limit max_cost allowed caller max_permission q l).
Proof.
  induction passes as [|passes IH]; intros q l; [done|]. cbn [tool_loop].
  apply safe_bind; [unfold route; apply safe_bind; [apply safe_route|done]|]. intros resp.
  destruct (calls_of resp) as [|c calls]; [done|]. destruct (_ <=? _); [done|]. destruct (match max_cost with Some _ => _ | None => _ end); [done|].
  apply safe_bind; [apply run_calls_safe|]. intros [[[step|] ms] steps]; [done|apply IH].
Qed.
End Admission.

(** ** Rates *)
Section Rates.

Record check := mkCheck { c_tool : Tool; c_caller : string }.
(** The checks of a history, at their clock readings: the registry they leave,
    and those that passed. *)
Fixpoint check_all (ops : list (Q * check)) (r : ToolRegistry) : list (Q * check) * ToolRegistry :=
  match ops with
  | [] => ([], r)
  | (now, c) :: ops =>
    let '(x, r) := _check_rate now (c_tool c) (c_caller c) r in
    let '(l, r) := check_all ops r in
    ((if is_ok x then [(now, c)] else []) ++ l, r)
  end.
Definition is_key (key : string * string) (nc : Q * check) : bool := bool_decide ((c_caller nc.2, t_name (c_tool nc.2)) = key).
Definition starts_for (key : string * string) (l : list (Q * check)) : list Q := (List.filter (is_key key) l).*1.

Lemma starts_for_app key l l' : starts_for key (l ++ l') = starts_for key l ++ starts_for key l'.
Proof. unfold starts_for. by rewrite List.filter_app, fmap_app. Qed.

Variable key : string * string.
Variable n : nat.

Abbreviation rate_ok := (rate_ok 60 key n).

Lemma check_rate_ok now c r times :
  ((c_caller c, t_name (c_tool c)) = key -> 0 < rate_per_minute (c_tool c) /\ (Z.to_nat (rate_per_minute (c_tool c)) <= n)%nat) ->
  rate_ok now (_hits r) times ->
  let '(x, r') := _check_rate now (c_tool c) (c_caller c) r in
  rate_ok now (_hits r') (times ++ starts_for key (if is_ok x then [(now, c)] else [])).
Proof.
  intros Hc Hr. unfold _check_rate. set (t := c_tool c) in *. set (k := (c_caller c, t_name t)) in *.
  assert (Hstart : starts_for key [(now, c)] = if bool_decide (k = key) then [now] else []).
  { unfold starts_for. cbn [List.filter]. unfold is_key. cbn [fst snd]. subst k t. by destruct (bool_decide _). }
  assert (Hnil : starts_for key [] = []) by done.
  destruct (decide (k = key)) as [Hk|Hk].
  - rewrite (bool_decide_eq_true_2 _ Hk) in Hstart. destruct (Hc Hk) as [Hpos Hn]. rewrite (proj2 (Z.eqb_neq _ _)) by lia.
    assert (Hadmit : forall hits r0, rate_ok now (_hits r0) times -> od_get k (_hits r0) = Some hits \/ (hits = [] /\ od_get k (_hits r0) = None) ->
      let '(x, r') := (let hits := pop_old 60 now hits in
        if rate_per_minute t <=? Z.of_nat (length hits)
        then (Raise (ToolError "rate_limited" ("Tool '" +:+ t_name t +:+ "' is limited to " +:+ text_of (print_int (rate_per_minute t)) +:+ " calls/minute.")),
              with_hits r0 (od_set k hits (_hits r0)))
        else (Ok tt, with_hits r0 (od_set k (hits ++ [now]) (_hits r0)))) in
      rate_ok now (_hits r') (times ++ starts_for key (if is_ok x then [(now, c)] else []))).
    { intros hits r0 [H1 H2 H3 H4] Hg. rewrite Hk in Hg.
      assert (Hh : StronglySorted Qle hits /\ Forall (fun x => x <= now)%Q hits /\ recent_in 60 now times = recent_in 60 now hits).
      { destruct Hg as [Hg|[-> Hg]]; rewrite Hg in H2; [done|]. split; [constructor|]. split; [constructor|done]. }
      destruct Hh as (Hs & Hl & Hrec). assert (Hspan : (0 < 60)%Q) by done. pose proof (rate_ok_take 60 key n now (_hits r0) times hits (rate_per_minute t) Hspan H1 H3 H4 Hs Hl Hrec Hn) as Ha.
      cbv zeta in *. rewrite Hk. destruct (_ <=? _); cbn [is_ok with_hits _hits]; [by rewrite Hnil, app_nil_r|by rewrite Hstart]. }
    destruct (od_get k (_hits r)) as [hits|] eqn:Eg; [apply Hadmit; [done|by left]|].
    set (r1 := if (MAX_RATE_LIMIT_KEYS <=? _)%nat then _ else r).
    assert (Hr1 : rate_ok now (_hits r1) times /\ od_get k (_hits r1) = None).
    { subst r1. destruct (_ <=? _)%nat; [|done]. cbn [with_hits _hits]. split; [by apply Window.rate_ok_evict|].
      rewrite (od_get_filter_values (fun v => negb (stale 60 now v))) by apply Hr. by rewrite Eg. }
    destruct (MAX_RATE_LIMIT_KEYS <=? length (_hits r1))%nat; [cbn [is_ok]; rewrite Hnil, app_nil_r; apply Hr1|].
    apply Hadmit; [apply Hr1|right; split; [done|apply Hr1]].
  - rewrite (bool_decide_eq_false_2 _ Hk) in Hstart.
    assert (Hsame : forall x : res tool_error unit, times ++ starts_for key (if is_ok x then [(now, c)] else []) = times).
    { intros x. destruct (is_ok x); rewrite ?Hstart, ?Hnil; apply app_nil_r. }
    destruct (_ =? 0); [rewrite Hsame; exact Hr|].
    destruct (od_get k (_hits r)) as [hits|].
    + destruct (_ <=? _); rewrite Hsame; by apply rate_ok_other.
    + set (r1 := if (MAX_RATE_LIMIT_KEYS <=? _)%nat then _ else r).
      assert (Hr1 : rate_ok now (_hits r1) times) by (subst r1; destruct (_ <=? _)%nat; [by apply Window.rate_ok_evict|done]).
      destruct (MAX_RATE_LIMIT_KEYS <=? length (_hits r1))%nat; [rewrite Hsame; apply Hr1|].
      destruct (_ <=? _); rewrite Hsame; by apply rate_ok_other.
Qed.
End Rates.

Definition empty_registry : ToolRegistry := mkRegistry [] false [] [].

Lemma check_all_ok key n ops : forall now r times,
  Forall (fun nc => is_key key nc = true -> 0 < rate_per_minute (c_tool nc.2) /\ (Z.to_nat (rate_per_minute (c_tool nc.2)) <= n)%nat) ops ->
  clock_from now ops -> rate_ok 60 key n now (_hits r) times ->
  let '(l, r') := check_all ops r in exists last, rate_ok 60 key n last (_hits r') (times ++ starts_for key l).
Proof.
  induction ops as [|[t c] ops IH]; intros now r times Hops Hc Hr; cbn [check_all].
  { exists now. cbn. by rewrite app_nil_r. }
  apply Forall_cons in Hops as [Hop Hops]. destruct Hc as [Ht Hc]. apply (rate_ok_later _ _ _ _ t) in Hr; [|done].
  pose proof (check_rate_ok key n t c r times) as Hstep. destruct (_check_rate t (c_tool c) (c_caller c) r) as [x r1].
  assert (H1 : rate_ok 60 key n t (_hits r1) (times ++ starts_for key (if is_ok x then [(t, c)] else []))).
  { apply Hstep; [|done]. intros Hk. apply Hop. by apply bool_decide_eq_true. }
  specialize (IH t r1 _ Hops Hc H1). destruct (check_all ops r1) as [l r2].
  destruct IH as (last & Hl). exists last. by rewrite starts_for_app, app_assoc.
Qed.

(** A tool limited to [n] calls a minute (or less) is not started more than [n]
    times for one caller in any sixty seconds, whoever else calls what, whatever
    is forgotten to bound the table. *)
Theorem tools_respect_rates key n ops start :
  clock_from start ops ->
  Forall (fun nc => is_key key nc = true -> 0 < rate_per_minute (c_tool nc.2) /\ (Z.to_nat (rate_per_minute (c_tool nc.2)) <= n)%nat) ops ->
  forall y, (count_in 60 y (starts_for key (check_all ops empty_registry).1) <= n)%nat.
Proof.
  intros Hc Hops y. pose proof (check_all_ok key n ops start empty_registry [] Hops Hc) as Hr.
  destruct (check_all ops empty_registry) as [l r]. destruct Hr as (last & Hl); [|by apply Hl].
  split; cbn; [constructor|done|constructor|intros; lia].
Qed.

(** ** The loop *)
Section Loop.
Context `{PyStr} `{FloatText} `{JsonSchema} `{JsonErrorText} {X : Type}.
Abbreviation S := (ToolRegistry * X)%type.
Variable approved : string -> string -> yaml -> S -> bool * S.

(** C7: Every tool handler that the loop starts is allowed for the caller, within
    the permission, and called with arguments that satisfy its schema; a
    destructive one only after [approved] said yes to exactly this caller, tool
    and arguments. This holds whatever the model and the handlers answer and
    whatever happens to the registry in between. *)
Theorem handlers_are_admitted (grants : string -> string -> yaml -> Prop) rely allowed caller max_permission q limit max_cost tools_ok r s :
  (forall c n a s, (approved c n a s).1 = true -> grants c n a) ->
  runs rely (asks grants allowed caller max_permission) (run_tool_loop approved q allowed caller limit max_cost max_permission tools_ok)
    (fun _ _ _ => True) r s.
Proof.
  intros Happ. unfold run_tool_loop. apply safe_bind; [apply safe_reg|]. intros offered. by apply (tool_loop_safe approved grants Happ (Some (default [] allowed))).
Qed.

Definition model_calls (Y : Type) (e : tool_event Y) : nat := match e with ERoute _ _ => 1 | EHandler _ _ _ => 0 end.
Definition tool_runs (Y : Type) (e : tool_event Y) : nat := match e with ERoute _ _ => 0 | EHandler _ _ _ => 1 end.

Lemma registry_call_counts (cost : forall Y, tool_event Y -> nat) name args allowed caller ok max_permission n :
  (forall t, cost _ (EHandler name t args) <= n)%nat ->
  at_most (S := S) anything cost (registry_call name args allowed caller ok max_permission) n.
Proof.
  intros Hn. unfold registry_call. change n with (0 + n)%nat. apply at_most_bind; [apply at_most_seg|]. intros start.
  rewrite <- (Nat.add_0_r n). apply at_most_bind.
  - apply at_most_try. unfold _call. change n with (0 + n)%nat. apply at_most_bind; [apply at_most_seg|]. intros [t|e]; [|done].
    rewrite <- (Nat.add_0_r n). apply at_most_bind; [by apply at_most_await|]. intros. apply at_most_seg.
  - intros [[r|e]|e|]; try done; change 0%nat with (0 + 0)%nat; (apply at_most_bind; [apply at_most_seg|]); done.
Qed.

Lemma run_one_counts (cost : forall Y, tool_event Y -> nat) c allowed caller max_permission n :
  (forall name t args, cost _ (EHandler name t args) <= n)%nat ->
  at_most (S := S) anything cost (_run_one approved c allowed caller max_permission) (n + n).
Proof.
  intros Hn. unfold _run_one. destruct (call_arguments c); [|done]. apply at_most_bind; [by apply registry_call_counts|].
  intros [r|[k m|t]]; [done|done|]. change n with (0 + n)%nat. apply at_most_bind; [apply at_most_seg|]. intros []; [|done].
  rewrite <- (Nat.add_0_r n). apply at_most_bind; [by apply registry_call_counts|]. done.
Qed.

Lemma run_calls_counts calls allowed caller max_permission : forall ms steps,
  at_most (S := S) anything model_calls (run_calls approved calls allowed caller max_permission ms steps) 0.
Proof.
  induction calls as [|c calls IH]; intros ms steps; [done|]. cbn [run_calls]. change 0%nat with (0 + 0 + 0)%nat.
  apply at_most_bind; [by apply run_one_counts|]. intros step. case_bool_decide; [done|]. apply IH.
Qed.

(** The loop makes at most [max_steps + 1] model calls, and it ends: its
    passes are counted down. *)
Theorem model_calls_bounded allowed caller max_permission q limit max_cost tools_ok :
  at_most (S := S) anything model_calls (run_tool_loop approved q allowed caller limit max_cost max_permission tools_ok) (Z.to_nat (limit + 1)).
Proof.
  unfold run_tool_loop. generalize (Z.to_nat (limit + 1)) as n. intros n. change n with (0 + n)%nat at 2.
  apply at_most_bind; [apply at_most_seg|]. intros offered.
  match goal with |- at_most _ _ (tool_loop _ _ _ _ _ _ _ ?q ?l) _ => generalize q l end.
  induction n as [|n IH]; intros q' l; [done|]. cbn [tool_loop].
  apply (at_most_bind _ _ _ _ 1).
  - unfold route. apply (at_most_bind _ _ _ _ 1 0); [by apply at_most_await|done].
  - intros resp. destruct (calls_of resp) as [|c calls]; [done|]. destruct (_ <=? _); [done|].
    destruct (match max_cost with Some _ => _ | None => _ end); [done|].
    change n with (0 + n)%nat. apply at_most_bind; [apply run_calls_counts|]. intros [[[step|] ms] steps]; [done|apply IH].
Qed.
End Loop.

(** ** Examples *)
Module ToolsDemo.
#[local] Existing Instance WholeFloats.whole_text.
#[local] Instance repr : PyStr := {| py_repr := fun _ => "?" |}.
#[local] Instance any_schema : JsonSchema := {| check_schema := fun _ => None; validate := fun _ _ => Valid |}.
#[local] Instance no_error_text : JsonErrorText := {| json_error_text := fun _ => "bad" |}.

Definition wipe : Tool := mkTool "wipe" "" (YMap []) "1" "builtin" (YInt 30) DESTRUCTIVE 1.
Definition registry : ToolRegistry := (register wipe false empty_registry).2.
Definition key : string * string := ("bob", "wipe").
Definition checks : list (Q * check) := [(0, mkCheck wipe "bob"); (30, mkCheck wipe "bob"); (61, mkCheck wipe "bob")]%Q.

Lemma tools_respect_rates_witness :
  starts_for key (check_all checks empty_registry).1 = [0; 61]%Q /\
  (count_in 60 61 (starts_for key (check_all checks empty_registry).1) <= 1)%nat.
Proof.
  split; [vm_compute; reflexivity|]. apply (tools_respect_rates key 1 checks 0).
  - cbn. repeat split; by apply Qle_bool_iff.
  - repeat constructor; cbn; lia.
Defined.

(** Only what the list names. *)
Definition yes_to (names : list string) (c n : string) (a : yaml) (s : ToolRegistry * unit) : bool * (ToolRegistry * unit) :=
  (bool_decide (n ∈ names), s).
Definition ask_bob : CompletionRequest := mkRequest [] None 100 0 false None [] None None None.

Lemma handlers_are_admitted_witness :
  runs (fun _ _ => True) (asks (fun _ n _ => n = "wipe") (Some ["*"]) "bob" DESTRUCTIVE)
    (run_tool_loop (yes_to ["wipe"]) ask_bob (Some ["*"]) "bob" 5 None DESTRUCTIVE (fun _ => true)) (fun _ _ _ => True)
    (mkToolReading 0 0 0) (registry, tt).
Proof.
  apply handlers_are_admitted. intros c n a s Hy. cbn in Hy. apply bool_decide_eq_true in Hy. by apply list_elem_of_singleton in Hy.
Defined.
End ToolsDemo.
