(* ===== verification/Workflow.v ===== *)
(** Component: fixed-step workflows ([src/src/harness/workflow.py]): parsing, the
    templates of steps, and the run of one workflow over the tool registry. A step's
    fields have the types its class declares. *)
From S2P Require Import Prelude Errors Yaml Json Regex Guardrails Injection Provider Coroutine Tools ToolsProps.
From Stdlib Require Import Ascii.

Inductive step_kind := KTool | KModel.
Record Step := mkWStep { st_id : string; st_kind : step_kind; st_tool : string; st_args : yaml; st_prompt : string; st_model : option string }.
(** One mapping of the configuration. *)
Record raw_step := mkRaw { rw_id : option string; rw_tool : option string; rw_args : option yaml; rw_prompt : option string; rw_model : option string }.

(** ** Parsing *)
Definition step_of (sid : string) (d : raw_step) : option Step :=
  let args := match rw_args d with Some v => if ytruthy v then v else YMap [] | None => YMap [] end in
  let make k := mkWStep sid k (default "" (rw_tool d)) args (default "" (rw_prompt d)) (rw_model d) in
  match rw_tool d, rw_prompt d with
  | Some _, _ => Some (make KTool)
  | None, Some _ => Some (make KModel)
  | None, None => None
  end.
Fixpoint parse_from (i : Z) (seen : list string) (raw : list raw_step) : list Step * list string :=
  match raw with
  | [] => ([], [])
  | d :: raw =>
    let sid := default "" (rw_id d) in
    let bad := bool_decide (sid = "") || bool_decide (sid ∈ seen) || bool_decide (sid = "input") in
    let here := if bad then ["step " +:+ text_of (print_int i) +:+ ": id missing, duplicate or reserved"] else [] in
    let '(steps, problems) := parse_from (i + 1) (seen ++ [sid]) raw in
    match step_of sid d with
    | Some st => (st :: steps, here ++ problems)
    | None => (steps, here ++ ("step " +:+ (if bool_decide (sid = "") then text_of (print_int i) else sid) +:+ ": needs 'tool' or 'prompt'") :: problems)
    end
  end.
Definition parse_steps (raw : list raw_step) : res string (list Step) :=
  let '(steps, problems) := parse_from 0 [] raw in
  let problems := problems ++ match steps with [] => ["workflow has no steps"] | _ => [] end in
  match problems with [] => Ok steps | _ => Raise (joined problems) end.

(** ** Templates

    [string.Template(t).safe_substitute(values)] *)
Definition id_start (c : ascii) : bool := class_of "_a-zA-Z" c.
Definition id_char (c : ascii) : bool := class_of "_a-zA-Z0-9" c.
Fixpoint ident (t : text) : text * text :=
  match t with c :: t' => if id_char c then let '(n, r) := ident t' in (c :: n, r) else ([], t) | [] => ([], []) end.
Definition name_at (t : text) : option (text * text) :=
  match t with c :: _ => if id_start c then Some (ident t) else None | [] => None end.
Definition braced_at (t : text) : option (text * text) :=
  match t with
  | c :: t => if (c =? "{")%char then match name_at t with
                | Some (n, c' :: r) => if (c' =? "}")%char then Some (n, r) else None
                | _ => None end
              else None
  | [] => None
  end.
(** The values substituted, and what stands between them. *)
Inductive part := Plain (c : ascii) | Escaped | Hole (shown : text) (name value : string).
Definition dollar : ascii := "$"%char.
Fixpoint parts (fuel : nat) (values : list (string * string)) (t : text) : list part :=
  match fuel, t with
  | O, _ | _, [] => []
  | Datatypes.S fuel, c :: t =>
    if (c =? dollar)%char then
      match t with
      | c' :: t' =>
        if (c' =? dollar)%char then Escaped :: parts fuel values t'
        else
          let found := match name_at t with
                       | Some (n, r) => Some (n, n, r)
                       | None => match braced_at t with Some (n, r) => Some (n, "{"%char :: n ++ ["}"%char], r) | None => None end
                       end in
          match found with
          | Some (n, shown, r) =>
            match od_get (unstr n) values with
            | Some v => Hole (dollar :: shown) (unstr n) v :: parts fuel values r
            | None => map Plain (dollar :: shown) ++ parts fuel values r
            end
          | None => Plain dollar :: parts fuel values t
          end
      | [] => [Plain dollar]
      end
    else Plain c :: parts fuel values t
  end.
Definition part_text (p : part) : text := match p with Plain c => [c] | Escaped => [dollar] | Hole _ _ v => str v end.
Definition part_source (p : part) : text := match p with Plain c => [c] | Escaped => [dollar; dollar] | Hole shown _ _ => shown end.
Definition substitute (template : string) (values : list (string * string)) : string :=
  unstr (concat (map part_text (parts (Datatypes.S (String.length template)) values (str template)))).
Fixpoint _fill (template : yaml) (values : list (string * string)) : yaml :=
  match template with
  | YStr s => YStr (substitute s values)
  | YMap m => YMap (map (fun kv => (kv.1, _fill kv.2 values)) m)
  | YList l => YList (map (fun v => _fill v values) l)
  | v => v
  end.

(** ** The run *)
Inductive wf_status := WCompleted | WCostLimit | WNeedsApproval | WFailed.
Record step_record := mkRec { rc_id : string; rc_kind : step_kind; rc_ok : bool; rc_error : option string; rc_output : option string }.
Record wf_out := mkOut { wf_state : wf_status; wf_steps : list step_record; wf_failed : option string; wf_cost : Q; wf_result : option string }.

Section Run.
Context `{PyStr} `{FloatText} `{JsonSchema} `{JsonErrorText} {X : Type}.
Abbreviation S := (ToolRegistry * X)%type.
Abbreviation call_of := (coro tool_reading S tool_event).
Variables (allowed : option (list string)) (caller : string) (approved : list string) (max_permission : Permission) (max_cost : option Q).

(** What a step leaves: its output for tools, its output for models, and its cost;
    or the error of its record. *)
Definition step_end : Type := res (wf_status * string) (string * string * Q).
Definition exn_name (e : exn) : string := default "" (head (mro_names e)).
Definition step_request (st : Step) (safe : list (string * string)) : CompletionRequest :=
  mkRequest [mkMessage "user" (substitute (st_prompt st) safe) None None None] (st_model st) 1024 0 false None
    [("workflow_step", YStr (st_id st))] None None None.
Definition run_step (st : Step) (raw safe : list (string * string)) : call_of step_end :=
  out ← try_ (match st_kind st with
              | KTool =>
                r ← registry_call (st_tool st) (_fill (st_args st) raw) allowed caller (bool_decide (st_id st ∈ approved)) max_permission;
                mret (match r with
                      | Ok r => Ok (tr_content r, as_untrusted r, 0%Q)
                      | Raise (ApprovalRequired _) => Raise (WNeedsApproval, "approval_required")
                      | Raise e => Raise (WFailed, error_code e)
                      end)
              | KModel => r ← route (step_request st safe); mret (Ok (rs_content r, rs_content r, rs_cost r))
              end);
  match out with
  | Return r => mret r
  | Throw e => mret (Raise (WFailed, exn_name e))
  | Cancel => finish Cancel
  end.

Fixpoint run_steps (steps : list Step) (raw safe : list (string * string)) (done_ : list step_record) (cost : Q)
    : call_of (wf_out * list (string * string)) :=
  match steps with
  | [] => mret (mkOut WCompleted done_ None cost None, raw)
  | st :: steps =>
    if match max_cost with Some c => c <=. cost | None => false end then mret (mkOut WCostLimit done_ (Some (st_id st)) cost None, raw)
    else
      out ← run_step st raw safe;
      match out with
      | Raise (status, error) =>
        mret (mkOut status (done_ ++ [mkRec (st_id st) (st_kind st) false (Some error) None]) (Some (st_id st)) cost None, raw)
      | Ok (r, s, c) =>
        run_steps steps (od_set (st_id st) r raw) (od_set (st_id st) s safe)
          (done_ ++ [mkRec (st_id st) (st_kind st) true None (Some (unstr (take 2000 (str r))))]) (cost + c)%Q
      end
  end.
Definition run_workflow (steps : list Step) (input : string) : call_of wf_out :=
  x ← run_steps steps [("input", input)] [("input", input)] [] 0;
  let '(out, raw) := x in
  match wf_state out with
  | WCompleted =>
    match last steps with
    | Some st => mret (mkOut WCompleted (wf_steps out) None (py_round 6 (wf_cost out)) (od_get (st_id st) raw))
    | None => throw (IndexError "list index out of range")
    end
  | _ => mret out
  end.
End Run.

(** ** Templates keep their text *)
Lemma ident_app t : (ident t).1 ++ (ident t).2 = t.
Proof. induction t as [|c t IH]; [done|]. cbn [ident]. destruct (id_char c); [|done]. destruct (ident t) as [n r]. cbn [fst snd app] in *. by rewrite IH. Qed.
Lemma name_at_app t n r : name_at t = Some (n, r) -> n ++ r = t /\ n ≠ [].
Proof.
  unfold name_at. destruct t as [|c t]; [done|]. destruct (id_start c) eqn:Ec; [|done]. intros Hn. apply (inj Some) in Hn.
  pose proof (ident_app (c :: t)) as Ha. rewrite Hn in Ha. split; [done|].
  assert (Hc : id_char c = true).
  { unfold id_start, id_char in *. cbn in *. repeat (apply orb_true_iff in Ec as [Ec|Ec]; [rewrite Ec; rewrite ?orb_true_r; done|]). done. }
  cbn [ident] in Hn. rewrite Hc in Hn. destruct (ident t). by injection Hn as <- <-.
Qed.
Lemma braced_at_app t n r : braced_at t = Some (n, r) -> "{"%char :: n ++ "}"%char :: r = t.
Proof.
  unfold braced_at. destruct t as [|c t]; [done|]. destruct (c =? "{")%char eqn:Ec; [|done]. apply Ascii.eqb_eq in Ec as ->.
  destruct (name_at t) as [[n' [|c' r']]|] eqn:En; try done. destruct (c' =? "}")%char eqn:Ec'; [|done]. apply Ascii.eqb_eq in Ec' as ->.
  intros [= <- <-]. apply name_at_app in En as [<- _]. done.
Qed.
Lemma plain_source l : concat (map part_source (map Plain l)) = l.
Proof. induction l as [|c l IH]; cbn; [done|]. by f_equal. Qed.

(** The parts of a template are its text, and each hole's value is the one given. *)
Lemma parts_source values fuel : forall t, (length t < fuel)%nat -> concat (map part_source (parts fuel values t)) = t.
Proof.
  induction fuel as [|fuel IH]; intros t Hf; [lia|]. destruct t as [|c t]; [done|]. cbn [parts length] in *.
  destruct (c =? dollar)%char eqn:Ec; [|cbn; f_equal; apply IH; lia]. apply Ascii.eqb_eq in Ec as ->.
  destruct t as [|c' t']; [done|]. destruct (c' =? dollar)%char eqn:Ec'; [apply Ascii.eqb_eq in Ec' as ->; cbn in *; do 2 f_equal; apply IH; lia|].
  set (found := match name_at (c' :: t') with Some (n, r) => Some (n, n, r) | None => _ end).
  assert (Hfound : match found with Some (n, shown, r) => shown ++ r = c' :: t' /\ shown ≠ [] | None => True end).
  { subst found. destruct (name_at (c' :: t')) as [[n r]|] eqn:En; [by apply name_at_app|].
    destruct (braced_at (c' :: t')) as [[n r]|] eqn:Eb; [|done]. apply braced_at_app in Eb. split; [|done].
    rewrite <- Eb. cbn. by rewrite <- app_assoc. }
  destruct found as [[[n shown] r]|]; [|cbn; f_equal; apply IH; cbn in *; lia]. destruct Hfound as [Hs Hne].
  assert (Hr : (length r < fuel)%nat).
  { assert (Hl : length (shown ++ r) = length (c' :: t')) by (by rewrite Hs). rewrite length_app in Hl. cbn [length] in *.
    destruct shown; [done|]. cbn in *. lia. }
  rewrite <- Hs. destruct (od_get (unstr n) values) as [v|]; cbn; rewrite ?map_app, ?concat_app, ?plain_source, IH by done; done.
Qed.
Lemma parts_holes values fuel : forall t sh n v, Hole sh n v ∈ parts fuel values t -> od_get n values = Some v.
Proof.
  induction fuel as [|fuel IH]; intros t sh n v; [cbn; by intros ?%elem_of_nil|]. destruct t as [|c t]; [cbn; by intros ?%elem_of_nil|]. cbn [parts].
  assert (Hc : forall p l, p ≠ Hole sh n v -> (Hole sh n v ∈ l -> od_get n values = Some v) -> Hole sh n v ∈ p :: l -> od_get n values = Some v).
  { intros p l Hp Hl Hin. apply elem_of_cons in Hin as [Hin|Hin]; [by rewrite Hin in Hp|by apply Hl]. }
  destruct (c =? dollar)%char; [|by apply Hc, IH]. destruct t as [|c' t']; [by apply Hc; [|intros ?%elem_of_nil]|].
  destruct (c' =? dollar)%char; [by apply Hc, IH|]. destruct (match name_at _ with Some _ => _ | None => _ end) as [[[m shown] r]|]; [|by apply Hc, IH].
  destruct (od_get (unstr m) values) as [w|] eqn:Ew.
  - intros Hin. apply elem_of_cons in Hin as [[= -> -> ->]|Hin]; [done|by eapply IH].
  - intros Hin. apply elem_of_app in Hin as [Hin|Hin]; [|by eapply IH]. change (map Plain) with (fmap (M := list) Plain) in Hin.
    apply list_elem_of_fmap in Hin as (y & [=] & _).
Qed.

(** ** Parsed workflows *)
Definition step_ok (st : Step) : Prop := st_id st ≠ "" /\ st_id st ≠ "input".
Lemma parse_from_ok i seen raw steps : parse_from i seen raw = (steps, []) ->
  Forall step_ok steps /\ NoDup (map st_id steps) /\ (forall st, st ∈ steps -> st_id st ∉ seen) /\ length steps = length raw.
Proof.
  revert i seen steps. induction raw as [|d raw IH]; intros i seen steps; cbn [parse_from].
  { intros [= <-]. split_and!; [done|constructor|intros st Hst; by apply elem_of_nil in Hst|done]. }
  set (sid := default "" (rw_id d)). destruct (parse_from (i + 1) (seen ++ [sid]) raw) as [rest problems] eqn:Ep.
  destruct (step_of sid d) as [st|] eqn:Es; intros [= <- Hp]; [|by destruct (_ || _)].
  destruct (_ || _) eqn:Eb in Hp; [done|]. cbn in Hp. subst problems. apply orb_false_iff in Eb as [[Eb1 Eb2]%orb_false_iff Eb3].
  apply bool_decide_eq_false in Eb1, Eb2, Eb3. destruct (IH _ _ _ Ep) as (H1 & H2 & H3 & H4).
  assert (Hid : st_id st = sid) by (unfold step_of in Es; destruct (rw_tool d), (rw_prompt d); by simplify_eq).
  split_and!.
  - apply Forall_cons. split; [|done]. unfold step_ok. by rewrite Hid.
  - cbn. apply NoDup_cons. split; [|done]. rewrite Hid. change (map st_id rest) with (st_id <$> rest). intros Hin.
    apply list_elem_of_fmap in Hin as (st' & Heq & Hst'). apply (H3 st' Hst'). rewrite <- Heq. apply elem_of_app. right. left.
  - intros st' Hst' Hin. apply elem_of_cons in Hst' as [->|Hst']; [by rewrite Hid in Hin|]. apply (H3 st' Hst'). apply elem_of_app. by left.
  - cbn. by rewrite H4.
Qed.
(** What is parsed has at least one step, and ids that templates can tell apart. *)
Lemma parse_steps_ok raw steps : parse_steps raw = Ok steps ->
  steps ≠ [] /\ Forall step_ok steps /\ NoDup (map st_id steps) /\ length steps = length raw.
Proof.
  unfold parse_steps. destruct (parse_from 0 [] raw) as [l problems] eqn:Ep. destruct (problems ++ _) as [|p ps] eqn:E; [|done].
  intros [= <-]. apply app_eq_nil in E as [-> E]. destruct (parse_from_ok _ _ _ _ Ep) as (H1 & H2 & _ & H4). split_and!; try done. by destruct l.
Qed.

(** ** Runs follow their steps *)
Section Follow.
Context `{PyStr} `{FloatText} `{JsonSchema} `{JsonErrorText} {X : Type}.
Abbreviation S := (ToolRegistry * X)%type.
Variables (allowed : option (list string)) (caller : string) (approved : list string) (max_permission : Permission) (max_cost : option Q).
Variables (all : list Step) (input : string) (rely : relation S).

(** What a model may be shown: the input, a model's own output, or a tool's output
    in its wrapper. *)
Definition labelled (safe : list (string * string)) : Prop := forall n v, od_get n safe = Some v ->
  (n = "input" /\ v = input) \/
  (exists st, st ∈ all /\ st_id st = n /\ match st_kind st with KModel => True | KTool => exists r, v = as_untrusted r end).

(** Every event is a step's own: its model call with labelled values only, or its
    tool with its arguments, admitted, and approved by name if it is destructive. *)
Definition wf_asks (_ : tool_reading) (Y : Type) (e : tool_event Y) : Prop :=
  exists st, st ∈ all /\
  match e with
  | ERoute q _ => st_kind st = KModel /\ exists safe, labelled safe /\ q = step_request st safe
  | EHandler name t args => st_kind st = KTool /\ name = st_tool st /\ (exists raw, args = _fill (st_args st) raw) /\
      admitted (fun _ _ _ => st_id st ∈ approved) allowed caller max_permission name t args
  end.

Definition good_end (st : Step) (x : step_end) : Prop :=
  match x with Ok (_, s, _) => match st_kind st with KTool => exists r, s = as_untrusted r | KModel => True end | Raise (status, _) => status ≠ WCompleted /\ status ≠ WCostLimit end.

Lemma run_step_asks st raw safe r s : st ∈ all -> labelled safe ->
  runs rely wf_asks (run_step (X := X) allowed caller approved max_permission st raw safe) (fun o _ _ => match o with Return x => good_end st x | _ => True end) r s.
Proof.
  intros Hst Hsafe. unfold run_step.
  apply (runs_bind _ _ _ _ (fun o _ _ => match o with Return (Return x) => good_end st x | Return _ => True | _ => False end)); [|intros [x|e|] r' s' Hx; [exact Hx|done|done]|done|done].
  eapply (runs_try _ _ _ (fun o _ _ => match o with Return x => good_end st x | _ => True end)); [|by intros [x|e|]].
  destruct (st_kind st) eqn:Ek.
  - apply (runs_bind _ _ _ _ (fun _ _ _ => True)); [| |done|done].
    + eapply runs_asks; [|apply (registry_call_asks (fun _ _ _ => st_id st ∈ approved)); intros Hb; by apply bool_decide_eq_true in Hb].
      intros rd Y [n t a|q t]; cbn; [|done]. intros (-> & -> & Ha). exists st. split; [done|]. split_and!; [done|done|by eexists|done].
    + intros [x|e] r' s' _; cbn; unfold good_end; [rewrite Ek; by eexists|]. by destruct e.
  - apply (runs_bind _ _ _ _ (fun _ _ _ => True)); [| |done|done].
    + unfold route. apply (runs_bind _ _ _ _ (fun _ _ _ => True)); [|by intros [x|e]|done|done]. apply runs_await; [|done|done].
      exists st. split; [done|]. split; [done|by exists safe].
    + intros x r' s' _; cbn; unfold good_end; by rewrite Ek.
Qed.

(** The records: the steps in their order, up to where the run ends. *)
Definition record_of (st : Step) (rc : step_record) : Prop := rc_id rc = st_id st /\ rc_kind rc = st_kind st.
Definition follows (steps : list Step) (done_ : list step_record) (out : wf_out) : Prop :=
  exists fresh, wf_steps out = done_ ++ fresh /\ Forall2 record_of (take (length fresh) steps) fresh /\
  match wf_state out with
  | WCompleted => length fresh = length steps /\ Forall (fun rc => rc_ok rc = true) fresh /\ wf_failed out = None
  | WCostLimit => Forall (fun rc => rc_ok rc = true) fresh /\ wf_failed out = st_id <$> (steps !! length fresh) /\ is_Some (wf_failed out)
  | _ => exists before rc, fresh = before ++ [rc] /\ Forall (fun rc => rc_ok rc = true) before /\ rc_ok rc = false /\ wf_failed out = Some (rc_id rc)
  end.

Lemma follows_cons st steps done_ rc out : record_of st rc -> rc_ok rc = true -> follows steps (done_ ++ [rc]) out -> follows (st :: steps) done_ out.
Proof.
  intros Hr Hok (fresh & Hs & Hf & Hm). exists (rc :: fresh). rewrite Hs, <- app_assoc. split; [done|]. split; [by constructor|].
  destruct (wf_state out).
  - destruct Hm as (Hl & Ha & Hn). split_and!; [cbn; by rewrite Hl|by constructor|done].
  - destruct Hm as (Ha & Hn & Hi). split_and!; [by constructor|done|done].
  - destruct Hm as (before & x & -> & Ha & Hx & Hn). exists (rc :: before), x. split_and!; [done|by constructor|done|done].
  - destruct Hm as (before & x & -> & Ha & Hx & Hn). exists (rc :: before), x. split_and!; [done|by constructor|done|done].
Qed.

Lemma labelled_set safe st v : labelled safe -> st ∈ all -> match st_kind st with KModel => True | KTool => exists r, v = as_untrusted r end ->
  labelled (od_set (st_id st) v safe).
Proof.
  intros Hs Hst Hv n w. rewrite od_get_set. case_decide as Hn; [|apply Hs]. intros [= <-]. right. by exists st.
Qed.

Lemma run_steps_follow steps : forall raw safe done_ cost r s, (forall st, st ∈ steps -> st ∈ all) -> labelled safe ->
  runs rely wf_asks (run_steps (X := X) allowed caller approved max_permission max_cost steps raw safe done_ cost)
    (fun o _ _ => match o with Return (out, _) => follows steps done_ out | _ => True end) r s.
Proof.
  induction steps as [|st steps IH]; intros raw safe done_ cost r s Hall Hsafe; cbn [run_steps].
  { exists []. rewrite app_nil_r. by split_and!. }
  destruct (match max_cost with Some _ => _ | None => _ end).
  { exists []. rewrite app_nil_r. split_and!; try done; by eexists. }
  apply (runs_bind _ _ _ _ (fun o _ _ => match o with Return x => good_end st x | _ => True end)); [| |done|done].
  { apply run_step_asks; [apply Hall; left|done]. }
  intros [[[x y] c]|[status err]] r' s' He; cbn in He.
  - eapply runs_weaken; [apply IH|].
    + intros st' Hst'. apply Hall. by right.
    + apply labelled_set; [done|apply Hall; left|done].
    + intros [[out raw']|e|] r1 s1 Ho; [|done|done]. by eapply follows_cons; [..|exact Ho].
  - destruct He as [He1 He2]. eexists [_]. split_and!; [done|by repeat constructor|]. cbn.
    destruct status; try done; eexists [], _; split_and!; done.
Qed.

End Follow.

Module WorkflowDemo.
#[export] Instance demo_str : PyStr := { py_repr := fun _ => "" }.
#[export] Instance demo_floats : FloatText := { float_repr := fun _ => []; float_parse := fun _ => None; float_known := fun _ => False }.
#[export] Instance demo_schema : JsonSchema := { check_schema := fun _ => None; validate := fun _ _ => Valid }.

Definition raw_steps : list raw_step :=
  [mkRaw (Some "page") (Some "fetch") (Some (YMap [(YStr "url", YStr "https://x.test/${input}")])) None None;
   mkRaw (Some "sum") None None (Some "Price $$5. Summarise: ${page}") None].
Definition steps : list Step := match parse_steps raw_steps with Ok l => l | Raise _ => [] end.

Example filled : map (fun st => _fill (st_args st) [("input", "cats")]) (take 1 steps) = [YMap [(YStr "url", YStr "https://x.test/cats")]].
Proof. vm_compute. reflexivity. Qed.
Example escapes : substitute "Price $$5 for $item, ${other}" [("item", "tea")] = "Price $5 for tea, ${other}".
Proof. vm_compute. reflexivity. Qed.
(** Ids that [parse_steps] takes, but no template can name. *)
Example unreachable_id :
  is_ok (parse_steps [mkRaw (Some "get-page") (Some "fetch") None None None; mkRaw (Some "s") None None (Some "${get-page}") None]) = true /\
  substitute "${get-page}" [("get-page", "text")] = "${get-page}".
Proof. split; vm_compute; reflexivity. Qed.
Example problems : parse_steps [mkRaw None (Some "fetch") None None None; mkRaw (Some "a") None None None None] =
  Raise "step 0: id missing, duplicate or reserved; step a: needs 'tool' or 'prompt'".
Proof. vm_compute. reflexivity. Qed.
End WorkflowDemo.
