(* ===== verification/HarnessContext.v ===== *)
(** Component: keeping an agent's conversation within its window
    ([src/src/harness/context.py]). Texts are counted in characters; the
    ellipsis of a shortened output counts as one. *)
From S2P Require Import Prelude Errors Yaml Json Regex Guardrails Provider Coroutine.
From Stdlib Require Import Ascii.

Definition OLD_TOOL_OUTPUT_CHARS : nat := 300%nat.
Definition SUMMARY_PREFIX : string := "[Earlier steps, condensed] ".
Definition ELLIPSIS : ascii := ascii_of_nat 133.

(** [utils.tokens.estimate_tokens] with its default ratio. *)
Definition estimate_tokens (text : string) : Z :=
  if decide (text = EmptyString) then 0 else Z.max 1 (Z.of_nat (String.length text) / 4).

Definition call_tokens (c : tool_call) : Z := estimate_tokens (default EmptyString (tc_arguments c)) + 8.
Definition message_tokens (m : Message) : Z :=
  estimate_tokens (content m) + 4 + fold_right Z.add 0 (map call_tokens (default [] (tool_calls m))).
Definition count (ms : list Message) (system : string) : Z :=
  estimate_tokens system + fold_right Z.add 0 (map message_tokens ms).

Definition is_tool (m : Message) : bool := bool_decide (role m = "tool").
(** A tool message joins the turn before it; the turns, the last one open. *)
Fixpoint turns_from (current : list Message) (ms : list Message) : list (list Message) :=
  match ms with
  | [] => [current]
  | m :: ms => if is_tool m then turns_from (current ++ [m]) ms else current :: turns_from [m] ms
  end.
Definition _turns (ms : list Message) : list (list Message) := match ms with [] => [] | m :: ms => turns_from [m] ms end.

Fixpoint first_uses (l : list string) : list string :=
  match l with [] => [] | x :: l => x :: List.filter (fun y => negb (bool_decide (y = x))) (first_uses l) end.
Definition digest (dropped : list Message) : string :=
  let tools := flat_map (fun m => map tc_name (default [] (tool_calls m))) dropped in
  let parts := (text_of (print_int (Z.of_nat (length dropped))) +:+ " messages removed")
    :: (match tools with [] => [] | _ => ["tools used: " +:+ String.concat ", " (first_uses tools)] end) in
  SUMMARY_PREFIX +:+ String.concat "; " parts +:+ ".".

Definition shorten (m : Message) : Message :=
  if is_tool m && (OLD_TOOL_OUTPUT_CHARS <? String.length (content m))%nat
  then mkMessage (role m) (String.substring 0 OLD_TOOL_OUTPUT_CHARS (content m) +:+ " " +:+ String ELLIPSIS "[truncated]")
         (tool_calls m) (tool_call_id m) (images m)
  else m.
Definition shrink (cut : nat) (rest : list Message) : list Message := map shorten (take cut rest) ++ drop cut rest.

Definition plain_message (r c : string) : Message := mkMessage r c None None None.
Definition placeholder : Message := plain_message "user" (SUMMARY_PREFIX +:+ text_of (repeat "x"%char 80)).
Definition over (pinned : list Message) (system : string) (max_tokens : Z) (turns : list (list Message)) : bool :=
  max_tokens <? count (pinned ++ [placeholder] ++ concat turns) system.
(** The oldest turns go while there is more than one, [min(keep_recent, 1)]
    messages would stay, and the rest does not fit. *)
Fixpoint drop_turns (pinned : list Message) (system : string) (max_tokens keep_recent : Z) (turns : list (list Message))
    : list Message * list (list Message) :=
  match turns with
  | t :: (_ :: _) as turns' =>
    if (Z.min keep_recent 1 <=? Z.of_nat (length (concat turns'))) && over pinned system max_tokens turns
    then let '(dropped, left_) := drop_turns pinned system max_tokens keep_recent turns' in (t ++ dropped, left_)
    else ([], turns)
  | _ => ([], turns)
  end.
Fixpoint strip_tools (ms : list Message) : list Message :=
  match ms with m :: ms' => if is_tool m then strip_tools ms' else ms | [] => [] end.

(** What remains to be said after the steps that need no model. *)
Inductive compaction :=
| Fits (ms : list Message) (changed : bool)
| Crashes                                  (* a negative [keep_recent] indexes past the end *)
| Dropped (pinned dropped : list Message) (turns : list (list Message)).
Definition plan_compaction (ms : list Message) (system : string) (max_tokens keep_recent : Z) : compaction :=
  if count ms system <=? max_tokens then Fits ms false
  else if keep_recent <? 0 then Crashes
  else
    let pinned := take 1 ms in
    let rest := drop 1 ms in
    let rest := shrink (Z.to_nat (Z.of_nat (length rest) - keep_recent)) rest in
    if count (pinned ++ rest) system <=? max_tokens then Fits (pinned ++ rest) true
    else let '(dropped, turns) := drop_turns pinned system max_tokens keep_recent (_turns rest) in Dropped pinned dropped turns.
Definition with_note (pinned : list Message) (note : option string) (turns : list (list Message)) : list Message :=
  pinned ++ strip_tools ((match note with Some n => [plain_message "user" n] | None => [] end) ++ concat turns).

(** [str.strip] *)
Definition strip_text (s : string) : string := unstr (trim (str s)).


Section Compact.
Context {R S : Type} {event : Type -> Type}.
Abbreviation call := (coro R S event).

Definition compact (ms : list Message) (system : string) (max_tokens keep_recent : Z)
    (summarizer : option (list Message -> call string)) : call (list Message * bool) :=
  match plan_compaction ms system max_tokens keep_recent with
  | Fits ms changed => mret (ms, changed)
  | Crashes => throw (IndexError "list index out of range")
  | Dropped pinned [] turns => mret (with_note pinned None turns, true)
  | Dropped pinned dropped turns =>
    match summarizer with
    | None => mret (with_note pinned (Some (digest dropped)) turns, true)
    | Some f =>
      out ← try_ (f dropped);
      match out with
      | Return s => mret (with_note pinned (Some (SUMMARY_PREFIX +:+ strip_text s)) turns, true)
      | Throw _ => mret (with_note pinned (Some (digest dropped)) turns, true)
      | Cancel => finish Cancel
      end
    end
  end.
End Compact.

(** ** Tool results stay with their calls

    A block is a message with the results of exactly its tool calls, in order. *)
Definition call_ids (m : Message) : list (option string) := map (fun c => Some (tc_id c)) (default [] (tool_calls m)).
Definition block (b : list Message) : Prop :=
  match b with
  | m :: results => is_tool m = false /\ Forall (fun x => is_tool x = true) results /\ map tool_call_id results = call_ids m
  | [] => False
  end.
(** A conversation in which every tool call is answered. *)
Definition answered (ms : list Message) : Prop := exists bs, ms = concat bs /\ Forall block bs.

(** Messages that differ in their text at most. *)
Definition similar (m m' : Message) : Prop := role m' = role m /\ tool_calls m' = tool_calls m /\ tool_call_id m' = tool_call_id m.

Lemma similar_refl m : similar m m.
Proof. done. Qed.
Lemma similar_shorten m : similar m (shorten m).
Proof. unfold shorten. by destruct (_ && _). Qed.
Lemma similar_tool m m' : similar m m' -> is_tool m' = is_tool m.
Proof. unfold is_tool. by intros (-> & _). Qed.

Lemma similar_shrink cut ms : Forall2 similar ms (shrink cut ms).
Proof.
  unfold shrink. rewrite <- (take_drop cut ms) at 1. apply Forall2_app.
  - induction (take cut ms); constructor; [apply similar_shorten|done].
  - induction (drop cut ms); constructor; [apply similar_refl|done].
Qed.

Lemma similar_block b b' : Forall2 similar b b' -> block b -> block b'.
Proof.
  intros Hs. destruct Hs as [|m m' rs rs' Hm Hrs]; [done|]. cbn. intros (H1 & H2 & H3).
  split; [by rewrite (similar_tool m m')|]. split.
  - clear H3. induction Hrs as [|x x' rs rs' Hx Hrs IH]; [constructor|]. apply Forall_cons in H2 as [Hx2 H2].
    constructor; [by rewrite (similar_tool x x')|by apply IH].
  - unfold call_ids in *. destruct Hm as (_ & -> & _). rewrite <- H3. clear -Hrs.
    induction Hrs as [|x x' rs rs' (_ & _ & Hx) Hrs IH]; [done|]. cbn. by rewrite Hx, IH.
Qed.

Lemma similar_blocks bs ms : Forall2 similar (concat bs) ms -> exists bs', ms = concat bs' /\ Forall2 (Forall2 similar) bs bs'.
Proof.
  revert ms. induction bs as [|b bs IH]; intros ms Hs; cbn in Hs.
  - inversion Hs. by exists [].
  - apply Forall2_app_inv_l in Hs as (b' & ms' & Hb & Hms & ->). destruct (IH ms' Hms) as (bs' & -> & Hbs).
    exists (b' :: bs'). split; [done|by constructor].
Qed.

Lemma blocks_similar bs bs' : Forall2 (Forall2 similar) bs bs' -> Forall block bs -> Forall block bs'.
Proof.
  induction 1 as [|b b' bs bs' Hb Hbs IH]; [done|]. intros [H1 H2]%Forall_cons. constructor; [by eapply similar_block|by apply IH].
Qed.

Lemma turns_from_tools current results ms : Forall (fun x => is_tool x = true) results ->
  turns_from current (results ++ ms) = turns_from (current ++ results) ms.
Proof.
  intros Hr. revert current. induction Hr as [|x results Hx Hr IH]; intros current; [by rewrite app_nil_r|].
  cbn [app turns_from]. rewrite Hx, IH. by rewrite <- app_assoc.
Qed.

Lemma turns_blocks bs : Forall block bs -> _turns (concat bs) = bs.
Proof.
  assert (Hgen : forall bs current, Forall block bs -> turns_from current (concat bs) = current :: bs).
  { induction bs0 as [|b bs0 IH]; intros current Hb; [done|]. apply Forall_cons in Hb as [Hb Hbs].
    destruct b as [|m results]; [done|]. destruct Hb as (Hm & Hr & _). cbn [concat app turns_from]. rewrite Hm.
    rewrite turns_from_tools by done. cbn [app]. by rewrite IH. }
  destruct bs as [|b bs]; [done|]. intros [Hb Hbs]%Forall_cons. destruct b as [|m results]; [done|]. destruct Hb as (Hm & Hr & _).
  cbn [concat app _turns]. rewrite turns_from_tools by done. cbn [app]. by apply Hgen.
Qed.

Lemma drop_turns_spec pinned system max_tokens keep turns :
  let '(dropped, left_) := drop_turns pinned system max_tokens keep turns in
  exists k, dropped = concat (take k turns) /\ left_ = drop k turns /\ (turns = [] \/ left_ ≠ []) /\
    (0 <= keep -> Forall (fun t => t ≠ []) turns -> over pinned system max_tokens left_ = false \/ (length left_ <= 1)%nat).
Proof.
  induction turns as [|t turns IH]; cbn [drop_turns]; [exists 0%nat; cbn; split_and!; auto|].
  destruct turns as [|t' turns]; [exists 0%nat; cbn; split_and!; auto|].
  destruct (_ && _) eqn:E.
  - destruct (drop_turns pinned system max_tokens keep (t' :: turns)) as [dropped left_]. destruct IH as (k & -> & -> & Hne & Ho).
    exists (S k). cbn [take drop concat]. split; [done|]. split; [done|]. split; [right; by destruct Hne|].
    intros Hk [_ Hf]%Forall_cons. by apply Ho.
  - exists 0%nat. split; [done|]. split; [done|]. split; [by right|]. intros Hk Hf.
    apply andb_false_iff in E as [E|E]; [|by left]. exfalso. apply Z.leb_gt in E. apply Forall_cons in Hf as [_ [Ht _]%Forall_cons].
    destruct t' as [|m t']; [done|]. cbn [concat app length] in E. lia.
Qed.

Lemma plan_compaction_spec first bs system max_tokens keep_recent :
  Forall block bs ->
  match plan_compaction (first :: concat bs) system max_tokens keep_recent with
  | Fits ms changed => count ms system <= max_tokens /\ (changed = false -> ms = first :: concat bs) /\
      exists bs', ms = first :: concat bs' /\ Forall2 (Forall2 similar) bs bs' /\ Forall block bs'
  | Crashes => keep_recent < 0
  | Dropped pinned dropped turns => pinned = [first] /\ 0 <= keep_recent /\
      exists k bs', Forall2 (Forall2 similar) bs bs' /\ Forall block bs' /\ dropped = concat (take k bs') /\ turns = drop k bs' /\
        (bs = [] \/ turns ≠ []) /\ (over pinned system max_tokens turns = false \/ (length turns <= 1)%nat)
  end.
Proof.
  intros Hbs. unfold plan_compaction. destruct (count (first :: concat bs) system <=? max_tokens) eqn:E1.
  { split; [by apply Z.leb_le|]. split; [done|]. exists bs. split; [done|]. split; [|done]. clear. induction bs as [|b bs IH]; constructor; [|done].
    induction b; constructor; [apply similar_refl|done]. }
  destruct (keep_recent <? 0) eqn:Ek; [by apply Z.ltb_lt|]. apply Z.ltb_ge in Ek.
  change (take 1 (first :: concat bs)) with [first]. change (drop 1 (first :: concat bs)) with (concat bs).
  set (cut := Z.to_nat _). destruct (similar_blocks bs (shrink cut (concat bs))) as (bs' & Hs & Hf); [apply similar_shrink|].
  pose proof (blocks_similar _ _ Hf Hbs) as Hbs'. rewrite Hs.
  destruct (count ([first] ++ concat bs') system <=? max_tokens) eqn:E2.
  { split; [by apply Z.leb_le|]. split; [done|]. exists bs'. by split_and!. }
  rewrite turns_blocks by done. pose proof (drop_turns_spec [first] system max_tokens keep_recent bs') as Hd.
  destruct (drop_turns _ _ _ _ _) as [dropped left_]. destruct Hd as (k & -> & -> & Hne & Ho). split; [done|]. split; [done|].
  exists k, bs'. split_and!; [done..| |].
  - destruct Hne as [->|]; [|by right]. left. by inversion Hf.
  - apply Ho; [done|]. eapply Forall_impl; [exact Hbs'|]. by intros [] Hb.
Qed.

(** *** The conversation compaction leaves *)
Definition conversation (ms : list Message) : Prop := exists first bs, ms = first :: concat bs /\ Forall block bs.

Lemma block_plain r c : r ≠ "tool" -> block [plain_message r c].
Proof. intros Hr. cbn. split; [by apply bool_decide_eq_false|]. by split. Qed.

Lemma strip_tools_blocks bs : Forall block bs -> strip_tools (concat bs) = concat bs.
Proof.
  destruct bs as [|b bs]; [done|]. intros [Hb _]%Forall_cons. destruct b as [|m results]; [done|]. destruct Hb as (Hm & _).
  cbn [concat app strip_tools]. by rewrite Hm.
Qed.

Lemma with_note_conversation first note turns : Forall block turns -> conversation (with_note [first] note turns).
Proof.
  intros Ht. unfold with_note. exists first. destruct note as [n|].
  - exists ([plain_message "user" n] :: turns). split; [done|]. constructor; [by apply block_plain|done].
  - exists turns. split; [|done]. cbn [app]. by rewrite strip_tools_blocks.
Qed.

(** Compaction of a conversation whose tool calls are answered keeps its first
    message, changes the text of old tool outputs at most, and drops only whole
    blocks from the front, never all of them, so that every result stays with its
    call. It stops when what is left fits beside a short note, or is one block. *)
Theorem compaction_keeps_blocks first bs system max_tokens keep_recent :
  Forall block bs -> 0 <= keep_recent ->
  match plan_compaction (first :: concat bs) system max_tokens keep_recent with
  | Fits ms changed => count ms system <= max_tokens /\
      exists bs', ms = first :: concat bs' /\ Forall2 (Forall2 similar) bs bs' /\ Forall block bs'
  | Crashes => False
  | Dropped pinned dropped turns => pinned = [first] /\
      exists k bs', Forall2 (Forall2 similar) bs bs' /\ Forall block bs' /\ dropped = concat (take k bs') /\ turns = drop k bs' /\
        (bs = [] \/ turns ≠ []) /\ (over pinned system max_tokens turns = false \/ (length turns <= 1)%nat)
  end.
Proof.
  intros Hbs Hk. pose proof (plan_compaction_spec first bs system max_tokens keep_recent Hbs) as Hp.
  destruct (plan_compaction _ _ _ _); [|lia|].
  - by destruct Hp as (? & _ & ?).
  - by destruct Hp as (? & _ & ?).
Qed.

(** ** Examples *)
Module ContextDemo.
Definition say (r c : string) : Message := plain_message r c.
Definition asks (id : string) : Message := mkMessage "assistant" "" (Some [mkToolCall id "search" (Some "{}")]) None None.
Definition gives (id c : string) : Message := mkMessage "tool" c None (Some id) None.
Definition demo_blocks : list (list Message) := [[asks "1"; gives "1" "one"]; [asks "2"; gives "2" "two"]; [say "assistant" "done"]].

(** With a window of ten tokens and six messages to keep, all steps but the last
    are dropped: the window of recent messages is not kept. *)
Example recent_window_is_dropped :
  plan_compaction (say "user" "task" :: concat demo_blocks) "" 10 6 =
  Dropped [say "user" "task"] (concat (take 2 demo_blocks)) [[say "assistant" "done"]].
Proof. vm_compute. reflexivity. Qed.

Lemma compaction_keeps_blocks_witness :
  Forall block demo_blocks /\ plan_compaction (say "user" "task" :: concat demo_blocks) "" 10 6 ≠ Crashes.
Proof.
  assert (Hb : Forall block demo_blocks) by (repeat constructor).
  split; [exact Hb|]. intros Hp. pose proof (compaction_keeps_blocks (say "user" "task") demo_blocks "" 10 6 Hb ltac:(lia)) as H.
  rewrite Hp in H. exact H.
Defined.

(** Room is kept for a short note; the one that is written may be longer, and
    the conversation that is called fitting then is too large. *)
Definition long_call (id : string) : Message :=
  mkMessage "assistant" "" (Some [mkToolCall id (text_of (repeat "n"%char 400)) (Some "{}")]) None None.
Example note_overflows :
  match plan_compaction [say "user" "task"; long_call "1"; gives "1" (text_of (repeat "o"%char 100)); say "assistant" "done"] "" 45 6 with
  | Dropped pinned dropped turns =>
    (over pinned "" 45 turns, count (with_note pinned (Some (digest dropped)) turns) "") = (false, 129)
  | _ => False
  end.
Proof. vm_compute. reflexivity. Qed.
End ContextDemo.
