(* ===== verification/HarnessStore.v ===== *)
(** Component: durable runs of agents ([src/src/harness/store.py]) and agent
    definitions ([src/src/harness/config.py]). A table is a list of rows by
    identifier; each method is one statement, or one transaction. Messages are
    stored without their images. *)
From S2P Require Import Prelude Errors Yaml Provider.

(** ** Agents *)
Record AgentDef := mkAgent {
  ad_name : string; ad_system : string; ad_model : option string; allowed_tools : list string; ad_max_steps : Z;
  max_cost_usd : option Q; max_total_tokens : option Z; deadline_s : option Q; context_tokens : Z; keep_recent : Z;
  ad_max_tokens : Z; ad_temperature : Q; stall_repeats : Z; approval_tools : list string; ad_local : bool; summarize : bool;
  ad_plan : bool; plan_max_steps : Z; ask_when_uncertain : bool; memory_ns : option string; memory_recall : Z }.

(** [LOCAL_CAPS]: a local model only ever lowers the limits. *)
Definition effective (a : AgentDef) : AgentDef :=
  if ad_local a then
    mkAgent (ad_name a) (ad_system a) (ad_model a) (allowed_tools a) (Z.min (ad_max_steps a) 8) (max_cost_usd a) (max_total_tokens a)
      (deadline_s a) (Z.min (context_tokens a) 6000) (keep_recent a) (Z.min (ad_max_tokens a) 512) (ad_temperature a)
      (stall_repeats a) (approval_tools a) (ad_local a) (summarize a) (ad_plan a) (plan_max_steps a) (ask_when_uncertain a)
      (memory_ns a) (memory_recall a)
  else a.

(** ** Rows *)
Record run_state := mkState { step : Z; cost_usd : Q; input_tokens : Z; output_tokens : Z }.
Record run := mkRun {
  r_id : string; r_agent : string; r_owner : string; r_status : string; r_stop : option string; r_state : run_state;
  r_control : string; r_pending : option (list tool_call); r_messages : list Message; r_result : option string;
  r_created : Q; r_updated : Q; r_deadline : option Q }.

Definition upd_status (s : string) (stop : option string) (control : string) (r : run) : run :=
  mkRun (r_id r) (r_agent r) (r_owner r) s stop (r_state r) control (r_pending r) (r_messages r) (r_result r) (r_created r) (r_updated r) (r_deadline r).
Definition upd_control (c : string) (r : run) : run := upd_status (r_status r) (r_stop r) c r.
Definition upd_pending (p : option (list tool_call)) (r : run) : run :=
  mkRun (r_id r) (r_agent r) (r_owner r) (r_status r) (r_stop r) (r_state r) (r_control r) p (r_messages r) (r_result r) (r_created r) (r_updated r) (r_deadline r).
Definition upd_result (x : option string) (r : run) : run :=
  mkRun (r_id r) (r_agent r) (r_owner r) (r_status r) (r_stop r) (r_state r) (r_control r) (r_pending r) (r_messages r) x (r_created r) (r_updated r) (r_deadline r).
Definition upd_time (t : Q) (r : run) : run :=
  mkRun (r_id r) (r_agent r) (r_owner r) (r_status r) (r_stop r) (r_state r) (r_control r) (r_pending r) (r_messages r) (r_result r) (r_created r) t (r_deadline r).
Definition upd_progress (ms : list Message) (st : run_state) (r : run) : run :=
  mkRun (r_id r) (r_agent r) (r_owner r) (r_status r) (r_stop r) st (r_control r) (r_pending r) ms (r_result r) (r_created r) (r_updated r) (r_deadline r).

(** ** The trace *)
Inductive trace_event :=
| RunStarted (agent owner : string) | Started (step : Z) | Resumed (step : Z)
| PlanMade (chars : nat) (r : CompletionResponse) | ContextCompacted (messages : nat) (tokens : Z)
| ModelCall (step : Z) (r : CompletionResponse) (ms : Q) (calls : nat)
| ApprovalGiven (tool : string) (yes : bool) | ApprovalRequested (tool call_id : string)
| ToolCall (step : Z) (tool : string) (ok : bool) (error : option string)
| Checkpoint (step : Z) | Paused (step : Z) | ErrorSeen (e : exn) | RunFinished (reason : string).
(** What the event bus is told when a run ends. *)
Record notice := mkNotice { n_run : string; n_agent : option string; n_owner : option string; n_status : string; n_reason : string; n_cost : Q }.

Record RunStore := mkStore { rows : list (string * run); trace : list (string * Q * trace_event); notices : list notice }.
Definition with_rows (s : RunStore) (l : list (string * run)) : RunStore := mkStore l (trace s) (notices s).

Definition strip_images (m : Message) : Message := mkMessage (role m) (content m) (tool_calls m) (tool_call_id m) None.

(** [UPDATE runs SET ... WHERE id = ?] *)
Definition update (rid : string) (f : run -> run) (s : RunStore) : RunStore :=
  match od_get rid (rows s) with Some r => with_rows s (od_set rid (f r) (rows s)) | None => s end.

Definition create (now : Q) (rid agent owner : string) (ms : list Message) (deadline : option Q) (s : RunStore) : RunStore :=
  with_rows s (od_set rid (mkRun rid agent owner "running" None (mkState 0 0 0 0) "" None (map strip_images ms) None now now deadline) (rows s)).
Definition get (rid : string) (s : RunStore) : option run := od_get rid (rows s).
Definition stored_messages (rid : string) (s : RunStore) : list Message := match get rid s with Some r => r_messages r | None => [] end.
(** The columns beside messages, state and time are set by [extra]. *)
Definition checkpoint (now : Q) (rid : string) (ms : list Message) (st : run_state) (extra : run -> run) (s : RunStore) : RunStore :=
  update rid (fun r => extra (upd_time now (upd_progress (map strip_images ms) st r))) s.
Definition set_ (now : Q) (rid : string) (f : run -> run) (s : RunStore) : RunStore := update rid (fun r => upd_time now (f r)) s.

Definition ACTIVE : list string := ["running"; "paused"; "waiting_approval"].
Definition is_active (r : run) : bool := bool_decide (r_status r ∈ ACTIVE).
Definition request (rid control : string) (s : RunStore) : bool * RunStore :=
  match get rid s with
  | Some r => if is_active r then (true, update rid (upd_control control) s) else (false, s)
  | None => (false, s)
  end.
Definition owned_by (owner : option string) (r : run) : bool :=
  match owner with Some o => bool_decide (o = EmptyString) || bool_decide (r_owner r = o) | None => true end.
Definition kill_rows (owner : option string) (s : RunStore) : nat * RunStore :=
  let hit r := is_active r && owned_by owner r in
  (length (List.filter (fun kv => hit kv.2) (rows s)), with_rows s (od_map (fun r => if hit r then upd_control "kill" r else r) (rows s))).
Definition newest_first (a b : run) : bool := r_created b <=. r_created a.
Definition list_runs (owner status : option string) (s : RunStore) : list run :=
  let has o x := match o with Some v => bool_decide (v = EmptyString) || bool_decide (x = v) | None => true end in
  py_sorted newest_first (List.filter (fun r => has owner (r_owner r) && has status (r_status r)) (od_values (rows s))).
(** Runs a crashed process left. *)
Definition interrupted (s : RunStore) : list string :=
  (List.filter (fun kv => bool_decide (r_status kv.2 = "running")) (rows s)).*1.

Definition event (now : Q) (rid : string) (e : trace_event) (s : RunStore) : RunStore :=
  mkStore (rows s) (trace s ++ [(rid, now, e)]) (notices s).
(** The events of a run after the [after]th; they are numbered from one. *)
Definition events (rid : string) (after : nat) (s : RunStore) : list (nat * (Q * trace_event)) :=
  let own := (fun x => (x.1.2, x.2)) <$> List.filter (fun x => bool_decide (x.1.1 = rid)) (trace s) in
  drop after (combine (seq 1 (length own)) own).
Definition notify (n : notice) (s : RunStore) : RunStore := mkStore (rows s) (trace s) (notices s ++ [n]).
