(* ===== verification/Harness.v ===== *)
(** Component: the agent runner ([src/src/harness/runner.py]). A run is a
    coroutine over the tool registry and the run store; its local variables, the
    messages and the counters, are passed along, because the handlers of
    exceptions save them as they are at that moment. Spans and log lines are left
    out; [stream], which polls the trace, is not modelled. *)
From S2P Require Import Prelude Errors Yaml Json Regex Guardrails Injection Provider Coroutine Tools HarnessContext HarnessStore.

Definition REVIEW_TOOL : string := "request_human_review".
Definition REVIEW_SPEC : yaml :=
  let text := YMap [(YStr "type", YStr "string")] in
  YMap [(YStr "type", YStr "function");
        (YStr "function", YMap [(YStr "name", YStr REVIEW_TOOL);
          (YStr "description", YStr "Pause and ask a human before continuing. Use when you are unsure or an action is risky. Give your question and what you would do.");
          (YStr "parameters", YMap [(YStr "type", YStr "object");
             (YStr "properties", YMap [(YStr "question", text); (YStr "proposed_action", text)]);
             (YStr "required", YList [YStr "question"])])])].
Definition PLAN_MARK : string := blank_line +:+ "[Plan]" +:+ String LF EmptyString.
Definition plan_prompt (n : Z) (task : string) : string :=
  "Before acting, write a short numbered plan (at most " +:+ text_of (print_int n) +:+ " steps) for the task below. "
  +:+ "Name the tools you expect to use. Do not carry out the task yet and do not call tools." +:+ blank_line
  +:+ "Task:" +:+ String LF task.

Definition _finished (r : run) : bool :=
  bool_decide (r_status r ∈ ["completed"; "cancelled"]) ||
  (bool_decide (r_status r = "failed") && negb (bool_decide (r_stop r = Some "error"))).
Definition PAUSE_REASONS : list (string * string) := [("pause", "paused"); ("cancel", "cancelled"); ("kill", "killed")].

(** [if run["deadline"]]: zero is no deadline. *)
Definition deadline_of (r : run) : option Q := match r_deadline r with Some d => if Qeq_bool d 0 then None else Some d | None => None end.

(** [_limit], of the row and the counters. *)
Definition limit_reason (now : Q) (a : AgentDef) (st : run_state) (r : run) : option string :=
  match od_get (r_control r) PAUSE_REASONS with
  | Some reason => Some reason
  | None =>
    if match deadline_of r with Some d => d <=. now | None => false end then Some "deadline"
    else if ad_max_steps a <=? step st then Some "max_steps"
    else if match max_cost_usd a with Some c => c <=. cost_usd st | None => false end then Some "cost_limit"
    else if match max_total_tokens a with Some n => negb (n =? 0) && (n <=? input_tokens st + output_tokens st) | None => false end
    then Some "token_limit"
    else None
  end.

Definition signature (m : Message) : list (string * option string) := map (fun c => (tc_name c, tc_arguments c)) (default [] (tool_calls m)).
Definition signatures (ms : list Message) : list (list (string * option string)) :=
  map signature (List.filter (fun m => bool_decide (role m = "assistant") && nonempty (tool_calls m)) ms).
Definition _stalled (ms : list Message) (a : AgentDef) : bool :=
  let n := stall_repeats a in
  let sigs := signatures ms in
  if (1 <? n) && (n <=? Z.of_nat (length sigs)) then
    match drop (length sigs - Z.to_nat n) sigs with
    | s :: rest => forallb (fun s' => bool_decide (s' = s)) rest
    | [] => false
    end
  else false.

Definition KeyError (name : string) : exn :=
  plain_exn (COther ["KeyError"; "LookupError"; "Exception"; "BaseException"; "object"] false false) ANone name.

(** [memory.search(owner, task, ns=, limit=)], newest knowledge of the caller's store. *)
Abbreviation memory_search := (string -> string -> string -> Z -> list (string * string)).

Section Runner.
Context `{PyStr} `{FloatText} `{JsonSchema} `{JsonErrorText}.
Variables (agents : list (string * AgentDef)) (caller : string) (max_permission : Permission) (memory : option memory_search).
Abbreviation S := (ToolRegistry * RunStore)%type.
Abbreviation call := (coro tool_reading S tool_event).
Implicit Types (rid : string) (a : AgentDef).

Definition store_seg {A} (m : tool_reading -> SE RunStore exn A) : call A :=
  seg (fun rd '(r, s) => let '(x, s) := m rd s in (x, (r, s))).
Definition store_do (f : Q -> RunStore -> RunStore) : call unit := store_seg (fun rd => se_modify (f (rd_time rd))).
Definition _get rid : call run :=
  store_seg (fun _ s => match get rid s with Some r => (Ok r, s) | None => (Raise (KeyError rid), s) end).
Definition _agent (name : string) : res exn AgentDef :=
  match od_get name agents with Some a => Ok a | None => Raise (KeyError ("unknown agent: " +:+ name)) end.
Definition log rid (e : trace_event) : call unit := store_do (fun t => event t rid e).

(** ** Local variables *)
Record locals := mkLocals { l_msgs : list Message; l_state : run_state }.
Definition local_call (A : Type) : Type := locals -> call (outcome A * locals).
Definition l_ret {A} (x : A) : local_call A := fun l => mret (Return x, l).
Definition l_bind {A B} (m : local_call A) (f : A -> local_call B) : local_call B := fun l =>
  p ← m l;
  match p with
  | (Return x, l) => f x l
  | (Throw e, l) => mret (Throw e, l)
  | (Cancel, l) => mret (Cancel, l)
  end.
#[local] Notation "x <<- m ; f" := (l_bind m (fun x => f)) (at level 20, m at level 100, f at level 200, only parsing).
Definition l_lift {A} (c : call A) : local_call A := fun l => o ← try_ c; mret (o, l).
Definition l_with {A} (f : locals -> call A) : local_call A := fun l => l_lift (f l) l.
Definition l_get : local_call locals := fun l => mret (Return l, l).
Definition l_update (f : locals -> locals) : local_call unit := fun l => mret (Return tt, f l).
Definition add_message (m : Message) : local_call unit := l_update (fun l => mkLocals (l_msgs l ++ [m]) (l_state l)).
Definition count_response (r : CompletionResponse) (st : run_state) : run_state :=
  mkState (step st) (cost_usd st + rs_cost r) (input_tokens st + rs_input r) (output_tokens st + rs_output r).
Definition set_state (f : run_state -> run_state) : local_call unit := l_update (fun l => mkLocals (l_msgs l) (f (l_state l))).

Definition _checkpoint rid (extra : run -> run) : local_call unit :=
  l_with (fun l => store_do (fun t s => event t rid (Checkpoint (step (l_state l))) (checkpoint t rid (l_msgs l) (l_state l) extra s))).

(** ** Waiting, limits, endings *)
Definition _wait rid (calls : list tool_call) : local_call bool :=
  _ <<- _checkpoint rid (fun r => upd_pending (Some calls) (upd_status "waiting_approval" (r_stop r) (r_control r) r));
  _ <<- l_lift (log rid (ApprovalRequested (match calls with c :: _ => tc_name c | [] => EmptyString end)
                                           (match calls with c :: _ => tc_id c | [] => EmptyString end)));
  l_ret true.
Definition _limit rid a : local_call (option string) :=
  l_with (fun l => store_seg (fun rd s => match get rid s with
                                          | Some r => (Ok (limit_reason (rd_time rd) a (l_state l) r), s)
                                          | None => (Raise (KeyError rid), s)
                                          end)).

Definition end_status (reason : string) : string :=
  if bool_decide (reason = "completed") then "completed"
  else if bool_decide (reason ∈ ["cancelled"; "killed"]) then "cancelled" else "failed".
Definition _notify_finished rid (status reason : string) (cost : option Q) (s : RunStore) : RunStore :=
  let r := get rid s in
  let c := match cost with Some c => c | None => match r with Some r => cost_usd (r_state r) | None => 0%Q end end in
  notify (mkNotice rid (r_agent <$> r) (r_owner <$> r) status reason (py_round 6 c)) s.
Definition _end rid (reason : string) (result : option string) : local_call run :=
  if bool_decide (reason = "paused") then
    _ <<- _checkpoint rid (upd_status "paused" (Some "paused") "");
    _ <<- l_with (fun l => log rid (Paused (step (l_state l))));
    l_lift (_get rid)
  else
    let status := end_status reason in
    _ <<- _checkpoint rid (fun r => upd_result result (upd_status status (Some reason) "" r));
    _ <<- l_lift (log rid (RunFinished reason));
    _ <<- l_with (fun l => store_do (fun _ => _notify_finished rid status reason (Some (cost_usd (l_state l)))));
    l_lift (_get rid).
Definition _finish (now : Q) rid (status reason : string) (s : RunStore) : RunStore :=
  _notify_finished rid status reason None (event now rid (RunFinished reason) (set_ now rid (upd_status status (Some reason) "") s)).

(** ** Tools *)
Definition yes_no (b : bool) (_ _ : string) (_ : yaml) (s : S) : bool * S := (b, s).
Definition reply (c : tool_call) (text : string) : Message := mkMessage "tool" text None (Some (tc_id c)) None.

(** One call of the model's, [first] when a human has decided on it: whether the
    run stops to wait. *)
Definition one_call rid a (first : bool) (decision : option bool) (c : tool_call) (rest : list tool_call) : local_call bool :=
  let name := tc_name c in
  let yes := bool_decide (decision = Some true) in
  if bool_decide (name = REVIEW_TOOL) && ask_when_uncertain a then
    if negb first then _wait rid (c :: rest)
    else
      _ <<- l_lift (log rid (ApprovalGiven name yes));
      _ <<- add_message (reply c (if yes then "Human reviewer approved: proceed." else "Human reviewer declined; choose another approach."));
      l_ret false
  else if bool_decide (name ∈ approval_tools a) && negb first then _wait rid (c :: rest)
  else if first && negb yes then
    _ <<- l_lift (log rid (ApprovalGiven name false));
    _ <<- l_with (fun l => log rid (ToolCall (step (l_state l)) name false (Some "denied")));
    _ <<- add_message (reply c "Denied by human reviewer; do not retry this call.");
    l_ret false
  else
    s <<- l_lift (_run_one (yes_no first) c (Some (allowed_tools a)) caller max_permission);
    if bool_decide (s_error s = Some "approval_required") then _wait rid (c :: rest)
    else
      _ <<- (if first then l_lift (log rid (ApprovalGiven name true)) else l_ret tt);
      _ <<- l_with (fun l => log rid (ToolCall (step (l_state l)) name (s_ok s) (s_error s)));
      _ <<- add_message (reply c (s_output s));
      l_ret false.
(** A decision is for the first of the calls. *)
Fixpoint _tools rid a (decision : option bool) (calls : list tool_call) : local_call bool :=
  match calls with
  | [] => l_ret false
  | c :: rest =>
    waits <<- one_call rid a (bool_decide (decision ≠ None)) decision c rest;
    if waits : bool then l_ret true else _tools rid a None rest
  end.

(** ** Model calls *)
Definition _system rid a (ms : list Message) : call string :=
  match memory, memory_ns a with
  | Some search, Some ns =>
    if negb (bool_decide (ns = EmptyString)) && (0 <? memory_recall a) then
      let task := match List.find (fun m => bool_decide (role m = "user") && negb (bool_decide (content m = EmptyString))) ms with
                  | Some m => content m | None => EmptyString end in
      r ← _get rid;
      match search (r_owner r) task ns (memory_recall a) with
      | [] => mret (ad_system a)
      | found =>
        let text := String.concat (String LF EmptyString) (map (fun kv => "- " +:+ kv.1 +:+ ": " +:+ kv.2) found) in
        mret (ad_system a +:+ blank_line +:+ "Relevant stored memories:" +:+ String LF
                (unstr (wrap_untrusted (str text) (str ("memory:" +:+ ns)) "memory" MAX_CHARS)))
      end
    else mret (ad_system a)
  | _, _ => mret (ad_system a)
  end.

Definition call_timeout (now : Q) (r : run) : option Q :=
  match deadline_of r with Some d => Some (fmax (1 # 10) (d - now)) | None => None end.
Definition run_metadata rid a (owner : string) : list (string * yaml) :=
  [("run_id", YStr rid); ("agent", YStr (ad_name a)); ("owner", YStr owner)].

Definition summary_prompt (dropped : list Message) : string :=
  "Summarize these earlier agent steps in under 120 words, keeping facts needed to finish the task:" +:+ String LF
    (String.concat (String LF EmptyString) (map (fun m => role m +:+ ": " +:+ String.substring 0 400 (content m)) dropped)).
Definition _summarizer a (dropped : list Message) : call string :=
  let q := mkRequest [plain_message "user" (summary_prompt dropped)] (ad_model a) 200 0 false None [] None None None in
  x ← await (ERoute q None);
  r ← finish (of_res x);
  mret (rs_content r).

Definition offered a (r : ToolRegistry) : option (list yaml) :=
  match specs (Some (allowed_tools a)) r ++ (if ask_when_uncertain a then [REVIEW_SPEC] else []) with [] => None | l => Some l end.
Definition budget_left a (st : run_state) : list (string * yaml) :=
  match max_cost_usd a with
  | Some c => [("budget_remaining_usd", YFloat (Fin (fmax 0 (c - cost_usd st))))]
  | None => []
  end.
(** The request of a step, and the time the model has. *)
Definition step_request rid a (system : string) (l : locals) : call (CompletionRequest * option Q) :=
  seg (fun rd '(reg, s) =>
    match get rid s with
    | None => (Raise (KeyError rid), (reg, s))
    | Some r =>
      (Ok (mkRequest (l_msgs l) (ad_model a) (ad_max_tokens a) (ad_temperature a) false (Some system)
             (run_metadata rid a (r_owner r) ++ budget_left a (l_state l)) (offered a reg) None None,
           call_timeout (rd_time rd) r), (reg, s))
    end).
Definition _model rid a : local_call CompletionResponse :=
  system <<- l_with (fun l => _system rid a (l_msgs l));
  fitted <<- l_with (fun l => compact (l_msgs l) system (context_tokens a) (keep_recent a) (if summarize a then Some (_summarizer a) else None));
  let '(ms, changed) := fitted in
  _ <<- (if changed : bool then
           _ <<- l_update (fun l => mkLocals ms (l_state l));
           l_lift (log rid (ContextCompacted (length ms) (HarnessContext.count ms system)))
         else l_ret tt);
  q <<- l_with (step_request rid a system);
  started <<- l_lift (store_seg (fun rd => mret (rd_time rd)));
  x <<- l_lift (await (ERoute q.1 q.2));
  r <<- l_lift (finish (of_res x));
  _ <<- set_state (count_response r);
  _ <<- l_with (fun l => store_do (fun t => event t rid (ModelCall (step (l_state l) + 1) r (py_round 1 ((t - started) * 1000)) (length (calls_of r)))));
  l_ret r.

Fixpoint has_plan (s : string) : bool := String.prefix PLAN_MARK s || match s with String _ s => has_plan s | EmptyString => false end.
Definition _plan rid a : local_call unit :=
  l <<- l_get;
  match l_msgs l with
  | [] => l_lift (throw (IndexError "list index out of range"))
  | first :: others =>
    if has_plan (content first) then l_ret tt
    else
      system <<- l_lift (_system rid a (l_msgs l));
      q <<- l_lift (store_seg (fun rd s => match get rid s with
        | None => (Raise (KeyError rid), s)
        | Some r => (Ok (mkRequest [plain_message "user" (plan_prompt (plan_max_steps a) (content first))] (ad_model a) (ad_max_tokens a)
                           (ad_temperature a) false (Some system) (run_metadata rid a (r_owner r) ++ [("purpose", YStr "plan")]) None None None,
                         call_timeout (rd_time rd) r), s)
        end));
      x <<- l_lift (await (ERoute q.1 q.2));
      r <<- l_lift (finish (of_res x));
      _ <<- set_state (count_response r);
      let plan := strip_text (rs_content r) in
      _ <<- l_lift (log rid (PlanMade (String.length plan) r));
      _ <<- (if bool_decide (plan = EmptyString) then l_ret tt
             else l_update (fun l => mkLocals (plain_message (role first) (content first +:+ PLAN_MARK +:+ plan +:+ blank_line
                                       +:+ "Follow the plan; revise it if a step fails.") :: others) (l_state l)));
      _checkpoint rid (fun r => r)
  end.

(** ** The loop

    [passes] bounds the loop; [loop_passes] of them are enough. *)
Fixpoint main_loop (passes : nat) rid a : local_call (option run) :=
  reason <<- _limit rid a;
  match reason with
  | Some reason => r <<- _end rid reason None; l_ret (Some r)
  | None =>
    match passes with
    | O => l_ret None
    | Datatypes.S passes =>
      resp <<- _model rid a;
      _ <<- set_state (fun st => mkState (step st + 1) (cost_usd st) (input_tokens st) (output_tokens st));
      match calls_of resp with
      | [] =>
        _ <<- add_message (plain_message "assistant" (rs_content resp));
        _ <<- _checkpoint rid (upd_result (Some (rs_content resp)));
        r <<- _end rid "completed" (Some (rs_content resp));
        l_ret (Some r)
      | calls =>
        _ <<- add_message (mkMessage "assistant" (rs_content resp) (Some calls) None None);
        waits <<- _tools rid a None calls;
        if waits : bool then r <<- l_lift (_get rid); l_ret (Some r)
        else
          _ <<- _checkpoint rid (fun r => r);
          l <<- l_get;
          if _stalled (l_msgs l) a then r <<- _end rid "stalled" None; l_ret (Some r) else main_loop passes rid a
      end
    end
  end.
Definition loop_passes a (st : run_state) : nat := Z.to_nat (ad_max_steps a - step st).

(** The body of the [try]: [None] if the passes did not suffice. *)
Definition run_body rid a (pending : option (list tool_call)) (decision : option bool) : local_call (option run) :=
  waits <<- (match pending with Some calls => _tools rid a decision calls | None => l_ret false end);
  if waits : bool then r <<- l_lift (_get rid); l_ret (Some r)
  else
    l <<- l_get;
    if ad_plan a && (step (l_state l) =? 0) && bool_decide (pending = None) then
      reason <<- _limit rid a;
      match reason with
      | Some reason => r <<- _end rid reason None; l_ret (Some r)
      | None => _ <<- _plan rid a; main_loop (loop_passes a (l_state l)) rid a
      end
    else main_loop (loop_passes a (l_state l)) rid a.

(** What [_execute] reads and writes before the [try]. *)
Inductive prepared := Over (r : run) | Ready (a : AgentDef) (l : locals) (pending : option (list tool_call)).
Definition prepare (now : Q) rid (s : RunStore) : res exn prepared * RunStore :=
  match get rid s with
  | None => (Raise (KeyError rid), s)
  | Some r =>
    if _finished r then (Ok (Over r), s)
    else match _agent (r_agent r) with
    | Raise e => (Raise e, s)
    | Ok a =>
      let s := set_ now rid (fun r => upd_pending None (upd_status "running" (r_stop r) (r_control r) r)) s in
      let resumed := negb (step (r_state r) =? 0) || bool_decide (r_pending r ≠ None) in
      (Ok (Ready (effective a) (mkLocals (r_messages r) (r_state r)) (r_pending r)),
       event now rid (if resumed then Resumed (step (r_state r)) else Started (step (r_state r))) s)
    end
  end.
Definition save rid (l : locals) (extra : run -> run) : call unit :=
  store_do (fun t s => event t rid (Checkpoint (step (l_state l))) (checkpoint t rid (l_msgs l) (l_state l) extra s)).
(** What follows: the body, and what its handlers of exceptions save. *)
Definition proceed rid (decision : option bool) (p : prepared) : call (option run) :=
  match p with
  | Over r => mret (Some r)
  | Ready a l pending =>
    out ← run_body rid a pending decision l;
    match out with
    | (Return r, _) => mret r
    | (Cancel, l) => save rid l (fun r => upd_status "paused" (Some "shutdown") (r_control r) r);; finish Cancel
    | (Throw e, l) =>
      log rid (ErrorSeen e);;
      save rid l (fun r => r);;
      store_do (fun t => set_ t rid (fun r => upd_status "failed" (Some "error") (r_control r) r));;
      log rid (RunFinished "error");;
      r ← _get rid; mret (Some r)
    end
  end.
Definition _execute rid (decision : option bool) : call (option run) :=
  p ← store_seg (fun rd => prepare (rd_time rd) rid); proceed rid decision p.

(** ** The run API *)
Definition create_run (now : Q) rid (agent task owner : string) (s : RunStore) : res exn unit * RunStore :=
  match _agent agent with
  | Raise e => (Raise e, s)
  | Ok a =>
    let deadline := match deadline_s a with Some d => if Qeq_bool d 0 then None else Some (now + d)%Q | None => None end in
    (Ok tt, event now rid (RunStarted agent owner) (create now rid agent owner [plain_message "user" task] deadline s))
  end.
Definition is_idle (r : run) : bool := bool_decide (r_status r ∈ ["paused"; "waiting_approval"]).
Definition cancel (now : Q) rid (s : RunStore) : bool * RunStore :=
  match get rid s with
  | Some r => if is_idle r then (true, _finish now rid "cancelled" "cancelled" s) else request rid "cancel" s
  | None => request rid "cancel" s
  end.
Definition pause rid (s : RunStore) : bool * RunStore := request rid "pause" s.
Definition kill (now : Q) (owner : option string) (s : RunStore) : nat * RunStore :=
  let '(n, s) := kill_rows owner s in
  (n, fold_left (fun s r => if is_idle r then _finish now (r_id r) "cancelled" "killed" s else s) (list_runs owner None s) s).
Definition resume rid (approve : option bool) : call (option run) :=
  ok ← store_seg (fun _ s => match get rid s with
    | None => (Raise (KeyError rid), s)
    | Some r => if bool_decide (r_status r = "waiting_approval") && bool_decide (approve = None)
                then (Raise (ValueError "run is waiting for an approval decision"), s) else (Ok tt, s)
    end);
  _execute rid approve.
End Runner.
