(* ===== verification/HarnessProps.v ===== *)
(** The theorems on the agent runner: which calls a human decided on, how many
    model calls a run makes, and what each of them is asked. The rules first, for
    the runner's local variables over the counting logic of coroutines; an error
    or a cancellation makes no further request, so the rules only speak of what
    returns. *)
From S2P Require Import Prelude Errors Yaml Json Regex Guardrails Injection Provider Coroutine Tools ToolsProps HarnessContext HarnessStore Harness.

#[local] Notation "x <<- m ; f" := (l_bind m (fun x => f)) (at level 20, m at level 100, f at level 200, only parsing).
Abbreviation S := (ToolRegistry * RunStore)%type.
Abbreviation call := (coro tool_reading S tool_event).

(** ** Rules *)
Section Rules.
Variables (ok : forall Y, tool_event Y -> Prop) (cost : forall Y, tool_event Y -> nat).

Definition returns {A} (Q : A -> nat -> Prop) (o : outcome A) (k : nat) : Prop :=
  match o with Return x => Q x k | _ => True end.
Definition lspends {A} (m : local_call A) (l : locals) (n : nat) (Q : A -> locals -> nat -> Prop) : Prop :=
  spends ok cost (m l) n (fun o k => match o with Return (Return x, l) => Q x l k | Return _ => True | _ => False end).

Lemma lspends_ret {A} (x : A) l n (Q : A -> locals -> nat -> Prop) : Q x l n -> lspends (l_ret x) l n Q.
Proof. done. Qed.
Lemma lspends_bind {A B} (m : local_call A) (f : A -> local_call B) l n Q :
  lspends m l n (fun x l k => lspends (f x) l k Q) -> lspends (l_bind m f) l n Q.
Proof.
  intros Hm. unfold lspends, l_bind. eapply spends_bind; [exact Hm| |done|done].
  intros [[x|e|] l'] k Hk; [exact Hk|done|done].
Qed.
Lemma lspends_weaken {A} (m : local_call A) l n k (P Q : A -> locals -> nat -> Prop) :
  (n <= k)%nat -> (forall x l i j, (i <= j)%nat -> P x l i -> Q x l j) -> lspends m l n P -> lspends m l k Q.
Proof.
  intros Hn HPQ. unfold lspends. apply spends_weaken; [done|]. intros [[[x|e|] l']|e|] i j Hij Hp; try done. by eapply HPQ.
Qed.
Lemma lspends_lift {A} (c : call A) l n (Q : A -> locals -> nat -> Prop) :
  spends ok cost c n (returns (fun x k => Q x l k)) -> lspends (l_lift c) l n Q.
Proof.
  intros Hc. unfold lspends, l_lift. eapply spends_bind with (P := fun o k => match o with Return o => returns (fun x k => Q x l k) o k | _ => False end).
  - eapply spends_try; [exact Hc|done].
  - intros [x|e|] k Hk; [exact Hk|done|done].
  - done.
  - done.
Qed.
Lemma lspends_with {A} (f : locals -> call A) l n (Q : A -> locals -> nat -> Prop) :
  spends ok cost (f l) n (returns (fun x k => Q x l k)) -> lspends (l_with f) l n Q.
Proof. apply lspends_lift. Qed.
Lemma lspends_call {A} (c : call A) l n (P : A -> nat -> Prop) (Q : A -> locals -> nat -> Prop) :
  spends ok cost c n (returns P) -> (forall x k, P x k -> Q x l k) -> lspends (l_lift c) l n Q.
Proof. intros Hc HPQ. apply lspends_lift. eapply spends_post; [|exact Hc]. intros [x|e|] k Hp; [by apply HPQ|done|done]. Qed.
Lemma lspends_update f l n (Q : unit -> locals -> nat -> Prop) : Q tt (f l) n -> lspends (l_update f) l n Q.
Proof. done. Qed.
Lemma lspends_get l n (Q : locals -> locals -> nat -> Prop) : Q l l n -> lspends l_get l n Q.
Proof. done. Qed.

(** A segment asks for nothing. *)
Lemma quiet_seg {A} (m : tool_reading -> SE S exn A) n (Q : A -> nat -> Prop) :
  (forall rd s x, (m rd s).1 = Ok x -> Q x n) -> spends ok cost (seg m) n (returns Q).
Proof.
  intros HQ. apply spends_seg. intros rd s. pose proof (HQ rd s) as Hx. destruct (m rd s) as [[x|e] s']; [by apply Hx|done].
Qed.
Lemma quiet_store {A} (m : tool_reading -> SE RunStore exn A) n (Q : A -> nat -> Prop) :
  (forall rd s x, (m rd s).1 = Ok x -> Q x n) -> spends ok cost (store_seg m) n (returns Q).
Proof.
  intros HQ. apply quiet_seg. intros rd [reg s] x. pose proof (HQ rd s x) as Hx. by destruct (m rd s).
Qed.
Lemma quiet_do f n (Q : unit -> nat -> Prop) : Q tt n -> spends ok cost (store_do f) n (returns Q).
Proof. intros HQ. apply quiet_store. by intros rd s []. Qed.
Lemma quiet_get rid n (Q : run -> nat -> Prop) : (forall r, Q r n) -> spends ok cost (_get rid) n (returns Q).
Proof. intros HQ. by apply quiet_store. Qed.
Lemma quiet_of_res {A} (x : res exn A) n (Q : A -> nat -> Prop) : (forall a, x = Ok a -> Q a n) -> spends ok cost (finish (of_res x) : call A) n (returns Q).
Proof. intros HQ. destruct x as [a|e]; [by apply HQ|done]. Qed.

Lemma lspends_log rid e l n (Q : unit -> locals -> nat -> Prop) : Q tt l n -> lspends (l_lift (log rid e)) l n Q.
Proof. intros HQ. by apply lspends_lift, quiet_do. Qed.
Lemma lspends_checkpoint rid extra l n (Q : unit -> locals -> nat -> Prop) : Q tt l n -> lspends (_checkpoint rid extra) l n Q.
Proof. intros HQ. by apply lspends_with, quiet_do. Qed.
Lemma lspends_wait rid calls l n (Q : bool -> locals -> nat -> Prop) : Q true l n -> lspends (_wait rid calls) l n Q.
Proof. intros HQ. by apply lspends_bind, lspends_checkpoint, lspends_bind, lspends_log, lspends_ret. Qed.
Lemma lspends_row rid l n (Q : run -> locals -> nat -> Prop) : (forall r, Q r l n) -> lspends (l_lift (_get rid)) l n Q.
Proof. intros HQ. by apply lspends_lift, quiet_get. Qed.
Lemma lspends_end rid reason result l n (Q : run -> locals -> nat -> Prop) :
  (forall r, Q r l n) -> lspends (_end rid reason result) l n Q.
Proof.
  intros HQ. unfold _end. case_bool_decide.
  - apply lspends_bind, lspends_checkpoint, lspends_bind, lspends_with, quiet_do. by apply lspends_row.
  - apply lspends_bind, lspends_checkpoint, lspends_bind, lspends_log, lspends_bind, lspends_with, quiet_do. by apply lspends_row.
Qed.
(** Saved and told, the run is the row's. *)
Lemma lspends_ended rid reason result l n (Q : option run -> locals -> nat -> Prop) :
  (forall r, Q (Some r) l n) -> lspends (r <<- _end rid reason result; l_ret (Some r)) l n Q.
Proof. intros HQ. apply lspends_bind, lspends_end. intros r. by apply lspends_ret. Qed.
Lemma lspends_limit rid a l n (Q : option string -> locals -> nat -> Prop) :
  (forall now r, Q (limit_reason now a (l_state l) r) l n) -> lspends (_limit rid a) l n Q.
Proof.
  intros HQ. apply lspends_with, quiet_store. intros rd s x. destruct (get rid s) as [r|]; [|done]. by intros [= <-].
Qed.
End Rules.

(** ** What a run asks for *)
Section Demands.
Context `{PyStr} `{FloatText} `{JsonSchema} `{JsonErrorText}.
Variables (caller : string) (max_permission : Permission) (a : AgentDef).
Variables (pending : option (list tool_call)) (decision : option bool).

(** The call a human said yes to: the first of the calls that waited. *)
Definition decided (name : string) (args : yaml) : Prop :=
  decision = Some true /\ exists c rest, pending = Some (c :: rest) /\ tc_name c = name /\ call_arguments c = Ok args.
Definition needs_human (name : string) (t : Tool) : bool :=
  bool_decide (t_permission t = DESTRUCTIVE) || bool_decide (name ∈ approval_tools a).
Definition handler_ok (name : string) (t : Tool) (args : yaml) : Prop :=
  admitted (fun _ => decided) (Some (allowed_tools a)) caller max_permission name t args /\
  (name ∈ approval_tools a -> decided name args).

(** The model call of a step; plans and summaries are no steps. *)
Definition is_step (q : CompletionRequest) : bool :=
  bool_decide (is_Some (od_get "run_id" (metadata q))) && bool_decide (od_get "purpose" (metadata q) = None).
Definition budget_ok (q : CompletionRequest) : Prop :=
  max_cost_usd a = None \/ exists b, od_get "budget_remaining_usd" (metadata q) = Some (YFloat (Fin b)) /\ (0 < b)%Q.
Definition timeout_ok (t : option Q) : Prop := match t with Some t => (1 # 10 <= t)%Q | None => True end.

(** The conversation with the tool calls that still wait for their results. *)
Definition waiting (ms : list Message) (calls : list tool_call) : Prop :=
  exists first bs m replies, ms = first :: concat bs ++ m :: replies /\ Forall block bs /\ is_tool m = false /\
    Forall (fun x => is_tool x = true) replies /\ map tool_call_id replies ++ map (fun c => Some (tc_id c)) calls = call_ids m.
Definition resumable (ms : list Message) (pending : option (list tool_call)) : Prop :=
  match pending with Some calls => waiting ms calls | None => conversation ms end.

Lemma waiting_nil ms : waiting ms [] -> conversation ms.
Proof.
  intros (first & bs & m & replies & -> & Hbs & Hm & Hr & Hids). exists first, (bs ++ [m :: replies]). split.
  - by rewrite concat_app; cbn; rewrite app_nil_r.
  - apply Forall_app. split; [done|]. constructor; [|done]. rewrite app_nil_r in Hids. by split_and!.
Qed.
Lemma waiting_reply ms c rest text : waiting ms (c :: rest) -> waiting (ms ++ [reply c text]) rest.
Proof.
  intros (first & bs & m & replies & -> & Hbs & Hm & Hr & Hids). exists first, bs, m, (replies ++ [reply c text]). split_and!; try done.
  - cbn. by rewrite <- app_assoc.
  - apply Forall_app. by split; [|constructor].
  - rewrite map_app, <- app_assoc. exact Hids.
Qed.
Lemma waiting_calls ms text calls : conversation ms -> waiting (ms ++ [mkMessage "assistant" text (Some calls) None None]) calls.
Proof. intros (first & bs & -> & Hbs). exists first, bs, (mkMessage "assistant" text (Some calls) None None), []. by split_and!. Qed.
Lemma conversation_answer ms text : conversation ms -> conversation (ms ++ [plain_message "assistant" text]).
Proof.
  intros (first & bs & -> & Hbs). exists first, (bs ++ [[plain_message "assistant" text]]). split.
  - by rewrite concat_app.
  - apply Forall_app. split; [done|]. constructor; [by apply block_plain|done].
Qed.
Lemma conversation_plan first text ms : conversation (first :: ms) -> conversation (plain_message (role first) text :: ms).
Proof. intros (f & bs & [= -> ->] & Hbs). by exists (plain_message (role f) text), bs. Qed.

(** ** The discipline *)
Variables (Wf : Prop) (wh ws : nat).   (* the cost of a call that needs a human, and of a step *)
Definition ok (Y : Type) (e : tool_event Y) : Prop :=
  match e with
  | EHandler name t args => handler_ok name t args
  | ERoute q timeout => is_step q = true -> budget_ok q /\ timeout_ok timeout /\ (Wf -> conversation (messages q))
  end.
Definition cost (Y : Type) (e : tool_event Y) : nat :=
  match e with
  | EHandler name t _ => if needs_human name t then wh else 0
  | ERoute q _ => if is_step q then ws else 0
  end.
Abbreviation spends := (spends ok cost).
Abbreviation lspends := (lspends ok cost).

(** A tool call that needs approval has not been made. *)
Definition unless_approval (n m : nat) (o : outcome (res tool_error ToolResult)) (k : nat) : Prop :=
  match o with Return (Raise (ApprovalRequired _)) => k = n | Return _ => (m <= k)%nat | _ => True end.

Lemma call_spends name args yes start n m : (m <= n)%nat ->
  (yes = true -> decided name args) -> (name ∈ approval_tools a -> decided name args) ->
  (forall t, (t_permission t = DESTRUCTIVE -> yes = true) -> (cost _ (EHandler name t args) + m <= n)%nat) ->
  spends (_call name args (Some (allowed_tools a)) yes max_permission start caller : call _) n (unless_approval n m).
Proof.
  intros Hmn Hyes Hname Hcost. unfold _call.
  eapply (spends_bind _ _ _ _ (fun o k => k = n /\ forall t, o = Return (Ok t) -> admitted (fun _ _ _ => yes = true) (Some (allowed_tools a)) caller max_permission name t args)).
  - apply spends_seg. intros rd [reg x]. split; [done|]. unfold admit_call.
    destruct (check_call name args _ yes max_permission reg) as [[t'|e]|e] eqn:Ec; cbn; [|by intros t [=]|by intros t [=]].
    destruct (_check_rate (rd_clock rd) t' caller reg) as [[[]|e] reg']; cbn; [|by intros t [=]]. intros t [= <-]. by eapply check_call_ok.
  - intros [t|e] k [-> Ht].
    + specialize (Ht t eq_refl). pose proof (Hcost t (proj2 (proj2 (proj2 (proj2 Ht))))) as Hc.
      eapply (spends_bind _ _ _ _ (fun _ k => (m <= k)%nat)); [|intros x k Hk|done|done].
      * apply spends_await; [|lia|intros; lia]. destruct Ht as (Ha1 & Ha2 & Ha3 & Ha4 & Ha5). split; [|exact Hname]. split_and!; auto.
      * apply spends_seg. intros rd [reg s]. by destruct x.
    + destruct e; cbn; lia.
  - done.
  - done.
Qed.

Lemma registry_call_spends name args yes n m : (m <= n)%nat ->
  (yes = true -> decided name args) -> (name ∈ approval_tools a -> decided name args) ->
  (forall t, (t_permission t = DESTRUCTIVE -> yes = true) -> (cost _ (EHandler name t args) + m <= n)%nat) ->
  spends (registry_call name args (Some (allowed_tools a)) caller yes max_permission : call _) n (unless_approval n m).
Proof.
  intros Hmn Hyes Hname Hcost. unfold registry_call. eapply (spends_bind _ _ _ _ (fun _ k => k = n)); [by apply spends_seg| |done|done].
  intros start k ->. eapply (spends_bind _ _ _ _ (fun o k => exists x, o = Return x /\ unless_approval n m x k)).
  - eapply spends_try; [by apply call_spends|]. intros o k Ho. by exists o.
  - intros o k (x & [= <-] & Hx). destruct o as [[r|e]|e|]; [..|done].
    all: eapply (spends_bind _ _ _ _ (fun _ k' => k' = k)); [by apply spends_seg|intros [] ? ->|done|done].
    all: exact Hx.
  - by intros e k (x & [=] & _).
  - by intros k (x & [=] & _).
Qed.

(** [first]: the human said yes to this call. *)
Lemma run_one_spends first c m :
  (first = true -> forall args, call_arguments c = Ok args -> decided (tc_name c) args) ->
  (tc_name c ∈ approval_tools a -> first = true) ->
  spends (_run_one (yes_no first) c (Some (allowed_tools a)) caller max_permission) ((if first then wh else 0) + m)
    (returns (fun _ k => (m <= k)%nat)).
Proof.
  intros Hfirst Hforced. unfold _run_one. destruct (call_arguments c) as [args|e] eqn:Ea; [|cbn; lia].
  assert (Hd : first = true -> decided (tc_name c) args) by (intros Hf; by apply Hfirst).
  assert (Hcost : forall t yes n, (t_permission t = DESTRUCTIVE -> yes = true) -> (yes = true -> first = true) ->
    n = ((if first then wh else 0) + m)%nat -> (cost _ (EHandler (tc_name c) t args) + m <= n)%nat).
  { intros t yes n Hy Hyf ->. cbn. destruct (needs_human (tc_name c) t) eqn:En; [|lia].
    enough (first = true) as -> by lia. apply orb_true_iff in En as [En|En]; apply bool_decide_eq_true in En; auto. }
  eapply spends_bind; [apply (registry_call_spends _ _ false _ m); [lia|done|auto|]| |done|done].
  { intros t Ht. by eapply Hcost. }
  intros [r|[k e|t]] k' Hk; cbn in Hk; [exact Hk|exact Hk|]. subst k'.
  eapply (spends_bind _ _ _ _ (fun o k => o = Return first /\ k = ((if first then wh else 0) + m)%nat)); [by apply spends_seg|..].
  - intros yes k [[= ->] ->]. destruct first; [|cbn; lia].
    eapply spends_bind; [apply (registry_call_spends _ _ true _ m); [lia|auto|auto|]| |done|done].
    + intros t' Ht. by eapply Hcost.
    + intros [r|[k e|t']] k' Hk; cbn in *; lia.
  - by intros e k [[=] _].
  - by intros k [[=] _].
Qed.

Lemma one_call_spends rid first yes c rest l m :
  (first = true -> forall args, yes = Some true -> call_arguments c = Ok args -> decided (tc_name c) args) ->
  lspends (one_call caller max_permission rid a first yes c rest) l ((if first && bool_decide (yes = Some true) then wh else 0) + m)
    (fun waits l' k => waits = false -> l_state l' = l_state l /\ (exists text, l_msgs l' = l_msgs l ++ [reply c text]) /\ (m <= k)%nat).
Proof.
  intros Hfirst. unfold one_call. destruct (_ && ask_when_uncertain a).
  { destruct first; cbn [negb]; [|by apply lspends_wait].
    apply lspends_bind, lspends_log, lspends_bind, lspends_update, lspends_ret. intros _. split_and!; [done|by eexists|lia]. }
  destruct (bool_decide (tc_name c ∈ approval_tools a) && negb first) eqn:Eforced; [by apply lspends_wait|].
  destruct (first && negb (bool_decide (yes = Some true))) eqn:Edenied.
  { apply lspends_bind, lspends_log, lspends_bind, lspends_with, quiet_do, lspends_bind, lspends_update, lspends_ret.
    intros _. split_and!; [done|by eexists|lia]. }
  assert (Hcost : first && bool_decide (yes = Some true) = first) by (destruct first; [by apply negb_false_iff|done]). rewrite Hcost.
  apply lspends_bind, lspends_lift. eapply spends_weaken; [reflexivity| |apply run_one_spends].
  2: { intros -> args. apply Hfirst; [done|]. by apply bool_decide_eq_true in Hcost. }
  2: { intros Hin. rewrite (bool_decide_eq_true_2 _ Hin) in Eforced. by destruct first. }
  intros [s|e|] k k' Hk Hm; [|done|done]. unfold returns in *.
  destruct (bool_decide (s_error s = _)); [by apply lspends_wait|].
  apply lspends_bind. destruct first; [apply lspends_log|apply lspends_ret].
  all: apply lspends_bind, lspends_with, quiet_do, lspends_bind, lspends_update, lspends_ret; intros _; split_and!; [done|by eexists|lia].
Qed.

Lemma tools_spends rid yes calls l m :
  (forall c rest args, calls = c :: rest -> yes = Some true -> call_arguments c = Ok args -> decided (tc_name c) args) ->
  (Wf -> waiting (l_msgs l) calls) ->
  lspends (_tools caller max_permission rid a yes calls) l ((if bool_decide (yes = Some true) then wh else 0) + m)
    (fun waits l' k => waits = false -> l_state l' = l_state l /\ (Wf -> conversation (l_msgs l')) /\ (m <= k)%nat).
Proof.
  revert yes l. induction calls as [|c rest IH]; intros yes l Hyes Hw; cbn [_tools].
  { apply lspends_ret. intros _. split_and!; [done|intros; by apply waiting_nil, Hw|lia]. }
  apply lspends_bind. eapply lspends_weaken; [| |apply (one_call_spends rid _ yes c rest l m)].
  - by destruct yes as [[]|].
  - intros [] l' i j Hij Hout; [by apply lspends_ret|]. destruct (Hout eq_refl) as (Hst & (text & Hms) & Hi).
    assert (Hrest := IH None l'). rewrite Hst in Hrest.
    eapply lspends_weaken; [| |apply Hrest; [done|]].
    + cbn. change (m <= j)%nat. lia.
    + intros waits l'' i' j' Hij' Hp Hf. destruct (Hp Hf) as (Hq1 & Hq2 & Hq3). split_and!; [exact Hq1|exact Hq2|lia].
    + intros Hwf. rewrite Hms. by apply waiting_reply, Hw.
  - intros _ args Hy Ha. by eapply Hyes.
Qed.

(** ** Model calls *)
Variable memory : option memory_search.
Abbreviation free n := (fun _ k => (n <= k)%nat).

Lemma system_spends rid ms n : spends (_system memory rid a ms) n (returns (free n)).
Proof.
  unfold _system. destruct memory as [search|]; [|cbn; lia]. destruct (memory_ns a) as [ns|]; [|cbn; lia].
  destruct (_ && _); [|cbn; lia]. eapply spends_bind; [by apply (quiet_get _ _ _ _ (fun _ k => k = n))| |done|done].
  intros r k ->. destruct (search _ _ _ _); cbn; lia.
Qed.

Lemma route_spends q t n m : ok _ (ERoute q t) -> (cost _ (ERoute q t) + m <= n)%nat ->
  spends (await (ERoute q t) : call _) n (free m).
Proof. intros Hok Hn. apply spends_await; [done|lia|intros; lia]. Qed.

Lemma summarizer_spends dropped n : spends (_summarizer a dropped) n (free n).
Proof.
  unfold _summarizer. eapply spends_bind; [apply (route_spends _ _ _ n); [done|cbn; lia]| |done|done].
  intros x k Hk. eapply (spends_bind _ _ _ _ (fun _ k' => k' = k)); [by destruct x|by intros r _ ->|by intros e _ ->|by intros _ ->].
Qed.

Lemma compact_spends ms system n : (Wf -> conversation ms) ->
  spends (compact ms system (context_tokens a) (keep_recent a) (if summarize a then Some (_summarizer a) else None)) n
    (returns (fun out k => (Wf -> conversation out.1) /\ (out.2 = false -> out.1 = ms) /\ (n <= k)%nat)).
Proof.
  intros Hconv. unfold compact.
  assert (Hplan : match plan_compaction ms system (context_tokens a) (keep_recent a) with
    | Fits ms' changed => (Wf -> conversation ms') /\ (changed = false -> ms' = ms)
    | Crashes => True
    | Dropped pinned _ turns => Wf -> forall note, conversation (with_note pinned note turns)
    end).
  { destruct (plan_compaction _ _ _ _) as [ms' changed| |pinned dropped turns] eqn:Ep; [split| |]; [| |done|].
    1,3: intros Hwf; destruct (Hconv Hwf) as (first & bs & -> & Hbs);
      pose proof (plan_compaction_spec first bs system (context_tokens a) (keep_recent a) Hbs) as Hp; rewrite Ep in Hp.
    - destruct Hp as (_ & _ & bs' & -> & _ & Hbs'). by exists first, bs'.
    - destruct Hp as (-> & _ & k & bs' & _ & Hbs' & _ & -> & _). intros note. apply with_note_conversation. by apply Forall_drop.
    - unfold plan_compaction in Ep. intros ->. repeat case_match; simplify_eq; done. }
  destruct (plan_compaction _ _ _ _) as [ms' changed| |pinned [|m dropped] turns]; [|done|..].
  - split_and!; [apply Hplan..|done].
  - split_and!; [by intros Hwf; apply Hplan|done|done].
  - destruct (summarize a); [|split_and!; [by intros Hwf; apply Hplan|done|done]].
    eapply (spends_bind _ _ _ _ (fun o k => exists x, o = Return x /\ (n <= k)%nat)).
    + eapply spends_try; [apply summarizer_spends|]. intros o k Ho. by exists o.
    + intros o k (o' & [= <-] & Ho). destruct o as [x|e|]; [| |done].
      all: by split_and!; [intros Hwf; apply Hplan|..].
    + by intros e k (o & [=] & _).
    + by intros k (o & [=] & _).
Qed.

Lemma answered_spends (x : res exn CompletionResponse) l n (Q : CompletionResponse -> locals -> nat -> Prop) :
  (forall r, Q r l n) -> lspends (l_lift (finish (of_res x))) l n Q.
Proof. intros HQ. by apply lspends_lift, quiet_of_res. Qed.

Definition under_cost (st : run_state) : Prop := match max_cost_usd a with Some c => (cost_usd st < c)%Q | None => True end.

Lemma call_timeout_ok now r : timeout_ok (call_timeout now r).
Proof. unfold timeout_ok, call_timeout. destruct (deadline_of r); [apply fmax_l|done]. Qed.

Lemma step_request_spends rid system l n : under_cost (l_state l) -> (Wf -> conversation (l_msgs l)) ->
  spends (step_request rid a system l) n (returns (fun x k => k = n /\ ok _ (ERoute x.1 x.2) /\ (cost _ (ERoute x.1 x.2) <= ws)%nat)).
Proof.
  intros Hcost Hconv. apply quiet_seg. intros rd [reg s] x. destruct (get rid s) as [r|]; [|done]. intros [= <-]. split; [done|]. split.
  - intros _. split_and!; [|apply call_timeout_ok|done]. unfold budget_ok, budget_left. cbn [metadata fst]. unfold under_cost in Hcost.
    destruct (max_cost_usd a) as [c|]; [right|by left]. eexists. split; [reflexivity|].
    eapply Qlt_le_trans; [|apply fmax_r]. lra.
  - cbn [cost]. destruct (is_step _); lia.
Qed.

Lemma model_spends rid l n : under_cost (l_state l) -> (Wf -> conversation (l_msgs l)) ->
  lspends (_model memory rid a) l (ws + n)
    (fun _ l' k => step (l_state l') = step (l_state l) /\ (Wf -> conversation (l_msgs l')) /\ (n <= k)%nat).
Proof.
  intros Hcost Hconv. unfold _model. apply lspends_bind. eapply lspends_call; [apply system_spends|]. cbn beta. intros system k Hk.
  apply lspends_bind. eapply lspends_call; [by apply compact_spends|]. cbn beta. intros [ms changed] k' (Hms & Hsame & Hk').
  cbn [fst snd] in *. apply lspends_bind.
  assert (Hnext : forall l', l_state l' = l_state l -> (Wf -> conversation (l_msgs l')) ->
    lspends (q <<- l_with (step_request rid a system);
             started <<- l_lift (store_seg (fun rd => mret (rd_time rd)));
             x <<- l_lift (await (ERoute q.1 q.2));
             r <<- l_lift (finish (of_res x));
             _ <<- set_state (count_response r);
             _ <<- l_with (fun l => store_do (fun t => event t rid (ModelCall (step (l_state l) + 1) r (py_round 1 ((t - started) * 1000)) (length (calls_of r)))));
             l_ret r) l' k'
      (fun _ l' k => step (l_state l') = step (l_state l) /\ (Wf -> conversation (l_msgs l')) /\ (n <= k)%nat)).
  { intros l' Hst Hc. apply lspends_bind. eapply lspends_call; [apply step_request_spends; [by rewrite Hst|done]|]. cbn beta.
    intros q ? (-> & Hok & Hq). apply lspends_bind, lspends_lift, quiet_store. intros rd s started _.
    apply lspends_bind. eapply lspends_call; [eapply spends_post; [|by apply (route_spends _ _ _ n); [|lia]]|].
    { intros [x|e|] i Hi; [exact Hi|done|done]. }
    cbn beta. intros x i Hi. apply lspends_bind, answered_spends. intros r.
    apply lspends_bind, lspends_update, lspends_bind, lspends_with, quiet_do, lspends_ret. cbn. by rewrite Hst. }
  destruct changed.
  - apply lspends_bind, lspends_update, lspends_log. by apply Hnext.
  - apply lspends_ret. by apply Hnext.
Qed.

Lemma plan_spends rid l n : (Wf -> conversation (l_msgs l)) ->
  lspends (_plan memory rid a) l n
    (fun _ l' k => step (l_state l') = step (l_state l) /\ (Wf -> conversation (l_msgs l')) /\ (n <= k)%nat).
Proof.
  intros Hconv. unfold _plan. apply lspends_bind, lspends_get. destruct (l_msgs l) as [|first others] eqn:Hl; [by apply lspends_lift|].
  destruct (has_plan (content first)); [apply lspends_ret; split_and!; [done|by rewrite Hl|lia]|].
  apply lspends_bind. eapply lspends_call; [apply system_spends|]. cbn beta. intros system k Hk.
  apply lspends_bind, (lspends_call _ _ _ _ _ (fun x k' => k' = k /\ is_step x.1 = false)).
  { apply quiet_store. intros rd s x. destruct (get rid s) as [r|]; [|done]. by intros [= <-]. }
  intros q ? [-> Hq]. apply lspends_bind. eapply lspends_call; [eapply spends_post; [|apply (route_spends _ _ _ n)]|].
  { intros [x|e|] i Hi; [exact Hi|done|done]. }
  { cbn. by rewrite Hq. }
  { cbn. rewrite Hq. lia. }
  cbn beta. intros x i Hi. apply lspends_bind, answered_spends. intros r. apply lspends_bind, lspends_update, lspends_bind, lspends_log, lspends_bind.
  case_bool_decide.
  - apply lspends_ret, lspends_checkpoint. cbn. by rewrite Hl.
  - apply lspends_update, lspends_checkpoint. cbn. split_and!; [done|intros; by eapply conversation_plan, Hconv|done].
Qed.

Lemma limit_none now st r : limit_reason now a st r = None -> step st < ad_max_steps a /\ under_cost st.
Proof.
  unfold limit_reason, under_cost. intros Hl. repeat (case_match; try done); fprops; split; try lia; done.
Qed.

Lemma loop_spends passes rid l m : passes = loop_passes a (l_state l) -> (Wf -> conversation (l_msgs l)) ->
  lspends (main_loop caller max_permission memory passes rid a) l (ws * passes + m) (fun x _ _ => x ≠ None).
Proof.
  revert l. induction passes as [|passes IH]; intros l Hp Hconv; cbn [main_loop]; apply lspends_bind, lspends_limit; intros now row.
  all: destruct (limit_reason now a (l_state l) row) as [reason|] eqn:Hl; [by apply lspends_ended|].
  all: apply limit_none in Hl as [Hstep Hcost]; unfold loop_passes in *.
  1: exfalso; lia.
  replace (ws * Datatypes.S passes + m)%nat with (ws + (ws * passes + m))%nat by lia.
  apply lspends_bind. eapply lspends_weaken; [reflexivity| |by apply model_spends]. cbn beta. intros resp l' i j Hij (Hst & Hc & Hi).
  apply lspends_bind, lspends_update. set (l1 := mkLocals _ _).
  assert (Hp1 : passes = Z.to_nat (ad_max_steps a - step (l_state l1))) by (cbn; rewrite Hst; lia).
  destruct (calls_of resp) as [|c calls].
  - by apply lspends_bind, lspends_update, lspends_bind, lspends_checkpoint, lspends_ended.
  - apply lspends_bind, lspends_update, lspends_bind. set (l2 := mkLocals _ _).
    eapply lspends_weaken; [| |apply (tools_spends rid None (c :: calls) l2 (ws * passes + m))]; [cbn; change (ws * passes + m <= j)%nat; lia| |done|].
    + intros [] l3 i' j' Hij' Hout; [by apply lspends_bind, lspends_row; intros; apply lspends_ret|].
      destruct (Hout eq_refl) as (Hst3 & Hc3 & Hi3). apply lspends_bind, lspends_checkpoint, lspends_bind, lspends_get.
      destruct (_stalled _ _); [by apply lspends_ended|]. eapply lspends_weaken; [| |apply (IH l3)]; [lia|done|by rewrite Hst3|done].
    + intros Hwf. apply waiting_calls. by apply Hc.
Qed.

Lemma body_spends rid l m : (Wf -> resumable (l_msgs l) pending) ->
  lspends (run_body caller max_permission memory rid a pending decision) l
    ((if bool_decide (decision = Some true) then wh else 0) + (ws * loop_passes a (l_state l) + m)) (fun x _ _ => x ≠ None).
Proof.
  intros Hres. unfold run_body. apply lspends_bind.
  apply (lspends_weaken _ _ _ _ _ _
    (fun waits l' k => waits = false -> l_state l' = l_state l /\ (Wf -> conversation (l_msgs l')) /\ (ws * loop_passes a (l_state l) + m <= k)%nat) _
    (reflexivity _)).
  2: { destruct pending as [calls|] eqn:Hp.
       - apply tools_spends; [|done]. intros c rest args -> Hy Ha. split; [done|]. rewrite Hp. by exists c, rest.
       - apply lspends_ret. intros _. split; [done|]. split; [exact Hres|lia]. }
  intros [] l' i j Hij Hout; [by apply lspends_bind, lspends_row; intros; apply lspends_ret|].
  destruct (Hout eq_refl) as (Hst & Hc & Hi). apply lspends_bind, lspends_get.
  assert (Hloop : forall l'' k, step (l_state l'') = step (l_state l) -> (Wf -> conversation (l_msgs l'')) -> (ws * loop_passes a (l_state l) + m <= k)%nat ->
    lspends (main_loop caller max_permission memory (loop_passes a (l_state l')) rid a) l'' k (fun x _ _ => x ≠ None)).
  { intros l'' k Hst'' Hc'' Hk. rewrite Hst. eapply lspends_weaken; [exact Hk| |apply loop_spends; [|done]]; [done|]. unfold loop_passes. by rewrite Hst''. }
  destruct (_ && bool_decide (pending = None)); [|by apply Hloop; [rewrite Hst|..|lia]].
  apply lspends_bind, lspends_limit. intros now row. destruct (limit_reason _ _ _ _); [by apply lspends_ended|].
  apply lspends_bind. eapply lspends_weaken; [reflexivity| |by apply plan_spends]. cbn beta. intros _ l'' i' j' Hij' (Hst'' & Hc'' & Hi').
  apply Hloop; [by rewrite Hst'', Hst|done|lia].
Qed.

Lemma after_seg {A B} (m : tool_reading -> SE S exn A) (f : A -> call B) n Q :
  (forall x, spends (f x) n Q) -> (forall e, Q (Throw e) n) -> spends (seg m ≫= f) n Q.
Proof.
  intros Hf He. eapply (spends_bind _ _ _ _ (fun o k => k = n /\ o ≠ Cancel)).
  - apply spends_seg. intros rd s. by destruct (m rd s) as [[] ?].
  - intros x k [-> _]. apply Hf.
  - intros e k [-> _]. apply He.
  - by intros k [_ ?].
Qed.

Lemma proceed_spends rid l m : (Wf -> resumable (l_msgs l) pending) ->
  spends (proceed caller max_permission memory rid decision (Ready a l pending))
    ((if bool_decide (decision = Some true) then wh else 0) + (ws * loop_passes a (l_state l) + m)) (fun o _ => o ≠ Return None).
Proof.
  intros Hres. unfold proceed. eapply spends_bind; [by apply body_spends|..|done|done].
  intros [[x|e|] l'] k Hx; cbn in Hx.
  - intros [=]. by apply Hx.
  - do 5 (apply after_seg; [|done]; intros). done.
  - by apply after_seg.
Qed.
End Demands.

(** ** The theorems *)
Section Runs.
Context `{PyStr} `{FloatText} `{JsonSchema} `{JsonErrorText}.
Variables (caller : string) (max_permission : Permission) (memory : option memory_search).
Implicit Types (rid : string) (a : AgentDef) (l : locals).
Abbreviation proceed := (proceed caller max_permission memory).

Definition human_calls a (Y : Type) (e : tool_event Y) : nat :=
  match e with EHandler name t _ => if needs_human a name t then 1 else 0 | ERoute _ _ => 0 end.
Definition step_calls (Y : Type) (e : tool_event Y) : nat :=
  match e with ERoute q _ => if is_step q then 1 else 0 | EHandler _ _ _ => 0 end.
Definition handlers_ok a pending decision (Y : Type) (e : tool_event Y) : Prop :=
  match e with EHandler name t args => handler_ok caller max_permission a pending decision name t args | ERoute _ _ => True end.
Definition steps_ok a (Y : Type) (e : tool_event Y) : Prop :=
  match e with
  | ERoute q t => is_step q = true -> conversation (messages q) /\ budget_ok a q /\ timeout_ok t
  | EHandler _ _ _ => True
  end.

(** C4: Whatever the model and the tools answer, and whatever happens to the store
    and the registry meanwhile, a run started or resumed only starts handlers of
    tools its agent may use, within the permission and the schema. A destructive
    tool, or one the agent names for approval, is started only when a human said
    yes, for the call that waited first and with its arguments, and only once. *)
Theorem human_decides rid a l pending decision :
  spends (handlers_ok a pending decision) (human_calls a) (proceed rid decision (Ready a l pending))
    (if bool_decide (decision = Some true) then 1 else 0) (fun _ _ => True).
Proof.
  pose proof (proceed_spends caller max_permission a pending decision False 1 0 memory rid l 0 ltac:(done)) as Hs.
  rewrite Nat.add_0_r in Hs. eapply spends_post; [|eapply spends_events; [..|exact Hs]].
  - done.
  - by intros Y [name t args|q t].
  - intros Y [name t args|q t]; [done|]. cbn. by destruct (is_step q).
Qed.

(** A run makes no more model calls for its steps than its agent has steps
    left, and its loop ends: the passes the model of it is given always suffice. *)
Theorem run_ends rid a l pending decision :
  spends anything step_calls (proceed rid decision (Ready a l pending)) (loop_passes a (l_state l)) (fun o _ => o ≠ Return None).
Proof.
  pose proof (proceed_spends caller max_permission a pending decision False 0 1 memory rid l 0 ltac:(done)) as Hs.
  replace ((if bool_decide (decision = Some true) then 0 else 0) + (1 * loop_passes a (l_state l) + 0))%nat
    with (loop_passes a (l_state l)) in Hs by (destruct (bool_decide _); lia).
  eapply spends_events; [..|exact Hs]; [done|]. intros Y [name t args|q t]; [|done]. cbn. by destruct (needs_human a name t).
Qed.

End Runs.

(** ** Examples *)
Module HarnessDemo.
#[local] Existing Instance WholeFloats.whole_text.
#[local] Instance repr : PyStr := {| py_repr := fun _ => "?" |}.
#[local] Instance any_schema : JsonSchema := {| check_schema := fun _ => None; validate := fun _ _ => Valid |}.
#[local] Instance no_error_text : JsonErrorText := {| json_error_text := fun _ => "bad" |}.

Definition cleaner : AgentDef :=
  mkAgent "cleaner" "" None ["wipe"] 5 (Some 1%Q) None None 4000 6 512 0 3 [] false false false 5 false None 0.
Definition registry : ToolRegistry := (register (mkTool "wipe" "" (YMap []) "1" "builtin" (YInt 30) DESTRUCTIVE 0) false (mkRegistry [] false [] [])).2.
Definition wipe (id : string) : tool_call := mkToolCall id "wipe" (Some "{}").
Definition asked : list Message := [plain_message "user" "clean up"; mkMessage "assistant" "" (Some [wipe "1"; wipe "2"]) None None].
Definition at_rest : locals := mkLocals asked (mkState 1 0 0 0).


(** What a coroutine asks for first, and how it ends when that is cancelled. *)
Inductive request := AsksTool (name : string) | AsksModel (ms : list Message) | Ends.
Definition now : tool_reading := mkToolReading 0 0 0.
Fixpoint first_request {A} (c : call A) (s : S) : request :=
  match c with
  | Done _ => Ends
  | Seg f => let '(c, s) := f now s in first_request c s
  | Await e _ => match e with EHandler name _ _ => AsksTool name | ERoute q _ => AsksModel (messages q) end
  end.
Fixpoint cancelled {A} (c : call A) (s : S) : S :=
  match c with
  | Done _ => s
  | Seg f => let '(c, s) := f now s in cancelled c s
  | Await _ k => cancelled (k None) s
  end.
Definition agents : list (string * AgentDef) := [("cleaner", cleaner)].
Abbreviation resume := (resume agents "bob" DESTRUCTIVE None "r").

(** A run that is killed and then waits for its approval. *)
Definition created : RunStore := (create_run agents 0 "r" "cleaner" "clean up" "bob" (mkStore [] [] [])).2.
Definition killed : RunStore := (kill 0 (Some "bob") created).2.
Definition blocked (s : RunStore) : S := cancelled (_wait "r" [wipe "1"; wipe "2"] at_rest) (registry, s).

(** Being killed does not stop it: the call runs when the run is resumed, before
    the loop looks at its control. *)
Example killed_run_still_acts :
  option_map r_control (get "r" (blocked killed).2) = Some "kill" /\
  first_request (resume (Some true)) (blocked killed) = AsksTool "wipe".
Proof. split; vm_compute; reflexivity. Qed.

(** A shutdown during a tool call keeps neither its result nor the calls that
    wait: the next model call has calls without results. *)
Example cancelled_calls_are_lost :
  first_request (resume None) (cancelled (resume (Some true)) (blocked created)) = AsksModel asked.
Proof. vm_compute. reflexivity. Qed.
End HarnessDemo.
