(* ===== verification/Middleware.v ===== *)
(** Component: the rate limiter in front of the HTTP interface
    ([src/src/api/middleware.py]): who a request is from, a sliding minute per
    client, a table of clients that never outgrows its bound, and what a refused
    client is told. *)
From S2P Require Import Prelude Errors Window Regex Guardrails HarnessContext Bytes Sha256 Json Coroutine.

(** ** Who asks *)
Record Request := mkRequest { headers : list (string * string); client : option string }.
Definition header (name : string) (r : Request) : option string := od_get (str_lower name) (headers r).

(** The first sixteen digits of a key's digest. *)
Definition digest16 (s : string) : string := String.substring 0 16 (hex (sha256 (encode_text s))).
Definition drop_chars (n : nat) (s : string) : string := String.substring n (String.length s) s.

Definition _get_client_key (r : Request) : string :=
  let api_key := str_or (header "X-API-Key" r) "" in
  if bool_decide (api_key ≠ "") then "key:" +:+ digest16 api_key
  else
    let auth := str_or (header "Authorization" r) "" in
    let token := strip_text (drop_chars 7 auth) in
    if str_prefix "bearer " (str_lower auth) && bool_decide (token ≠ "") then "bearer:" +:+ digest16 token
    else "ip:" +:+ default "unknown" (client r).

(** ** The windows *)
Record RateLimitMiddleware := mkMiddleware { rpm : Z; _windows : list (string * list Q); _last_sweep : Q }.
Definition new_middleware (rpm : Z) : RateLimitMiddleware := mkMiddleware rpm [] 0.
Definition with_windows (m : RateLimitMiddleware) w := mkMiddleware (rpm m) w (_last_sweep m).
Definition SWEEP_INTERVAL_S : Q := 60.
Definition MAX_CLIENTS : nat := 100 * 100.

(** [not w or w[-1] <= cutoff] *)
Definition idle (cutoff : Q) (w : list Q) : bool := match rev w with [] => true | x :: _ => x <=. cutoff end.
Definition _sweep (now cutoff : Q) (m : RateLimitMiddleware) : RateLimitMiddleware :=
  if (now - _last_sweep m) <. SWEEP_INTERVAL_S then m
  else mkMiddleware (rpm m) (List.filter (fun kv => negb (idle cutoff kv.2)) (_windows m)) now.

Fixpoint popleft_until (cutoff : Q) (w : list Q) : list Q :=
  match w with x :: w' => if x <=. cutoff then popleft_until cutoff w' else w | [] => [] end.

Definition index_error : exn :=
  IndexError "deque index out of range".

Definition _check_rate_limit (now : Q) (client_key : string) (m : RateLimitMiddleware)
    : res exn (bool * Q) * RateLimitMiddleware :=
  let cutoff := (now - 60)%Q in
  let m := _sweep now cutoff m in
  let known := od_get client_key (_windows m) in
  if (match known with None => true | Some _ => false end) && (MAX_CLIENTS <=? length (_windows m))%nat
  then (Ok (false, 60%Q), m)
  else
    let window := popleft_until cutoff (default [] known) in
    let keep w := with_windows m (od_set client_key w (_windows m)) in
    if rpm m <=? Z.of_nat (length window) then
      match window with
      | oldest :: _ => (Ok (false, fmax (60 - (now - oldest)) 0), keep window)
      | [] => (Raise index_error, keep window)
      end
    else (Ok (true, 0%Q), keep (window ++ [now])).

Definition _remaining (now : Q) (client_key : string) (m : RateLimitMiddleware) : Z :=
  let window := default [] (od_get client_key (_windows m)) in
  let cutoff := (now - 60)%Q in
  Z.max 0 (rpm m - Z.of_nat (length (List.filter (fun ts => cutoff <. ts) window))).

(** ** The middleware

    What the application does is an event; a reading is [time.time()]. *)
Record Response := mkResponse { status_code : Z; content : string; response_headers : list (string * string) }.
Inductive app_event : Type -> Type :=
| ECallNext (r : Request) : app_event Response.

Definition int_text (z : Z) : string := text_of (print_int z).
Definition with_header (name value : string) (r : Response) : Response :=
  mkResponse (status_code r) (content r) (od_set name value (response_headers r)).
Definition refusal (retry_after : Q) : Response :=
  mkResponse 429 ("Rate limit exceeded. Retry after " +:+ int_text (round_half_even retry_after) +:+ "s.")
    [("Retry-After", int_text (Qfloor retry_after))].

Abbreviation M := (coro Q RateLimitMiddleware app_event).

Definition check_ (client_key : string) : M (bool * Q) := seg (fun now m => _check_rate_limit now client_key m).
Definition dispatch (request : Request) : M Response :=
  let client_key := _get_client_key request in
  '(allowed, retry_after) ← check_ client_key;
  if allowed : bool then
    response ← await (ECallNext request);
    seg (fun now m =>
      (Ok (with_header "X-RateLimit-Remaining" (int_text (_remaining now client_key m))
            (with_header "X-RateLimit-Limit" (int_text (rpm m)) response)), m))
  else mret (refusal retry_after).

(** ** Lemmas *)
Lemma fleb_shift (x now : Q) : (x <=. (now - 60)) = (60 <=. (now - x)).
Proof. apply eq_true_iff_eq. rewrite !fleb_le. split; intros; lra. Qed.
Lemma popleft_pop now w : popleft_until (now - 60) w = pop_old 60 now w.
Proof. induction w as [|x w IH]; [done|]. cbn [popleft_until pop_old]. rewrite fleb_shift. by rewrite IH. Qed.
Lemma idle_stale now w : idle (now - 60) w = stale 60 now w.
Proof. unfold idle, stale. destruct (rev w); [done|]. apply fleb_shift. Qed.

Lemma sweep_rpm now m : rpm (_sweep now (now - 60) m) = rpm m.
Proof. unfold _sweep. by destruct (_ <. _). Qed.
Lemma sweep_length now m : (length (_windows (_sweep now (now - 60) m)) <= length (_windows m))%nat.
Proof. unfold _sweep. destruct (_ <. _); [done|]. apply sublist_length, filter_sublist. Qed.
Lemma sweep_rate_ok key n now m times :
  rate_ok 60 key n now (_windows m) times -> rate_ok 60 key n now (_windows (_sweep now (now - 60) m)) times.
Proof.
  intros Hr. unfold _sweep. destruct (_ <. _); [done|]. cbn [_windows].
  rewrite (List.filter_ext _ (fun kv => negb (stale 60 now kv.2))); [by apply rate_ok_evict|].
  intros kv. by rewrite idle_stale.
Qed.

(** What one check does to the table: it stays as it is, or the client's window is
    set to the times that count, with this request if it is admitted. *)
Lemma check_cases now k m :
  let m1 := _sweep now (now - 60) m in
  let w := pop_old 60 now (default [] (od_get k (_windows m1))) in
  _check_rate_limit now k m =
    if (match od_get k (_windows m1) with None => true | Some _ => false end) && (MAX_CLIENTS <=? length (_windows m1))%nat
    then (Ok (false, 60%Q), m1)
    else if rpm m <=? Z.of_nat (length w)
    then (match w with x :: _ => Ok (false, fmax (60 - (now - x)) 0) | [] => Raise index_error end, with_windows m1 (od_set k w (_windows m1)))
    else (Ok (true, 0%Q), with_windows m1 (od_set k (w ++ [now]) (_windows m1))).
Proof.
  cbv zeta. unfold _check_rate_limit. rewrite sweep_rpm, popleft_pop.
  destruct (_ && _); [done|]. destruct (_ <=? _); [|done]. by destruct (pop_old _ _ _).
Qed.

(** ** Histories *)
Definition admitted (x : res exn (bool * Q)) : bool := match x with Ok (b, _) => b | Raise _ => false end.
Fixpoint check_all (ops : list (Q * string)) (m : RateLimitMiddleware) : list (Q * string) * RateLimitMiddleware :=
  match ops with
  | [] => ([], m)
  | (now, k) :: ops =>
    let '(x, m) := _check_rate_limit now k m in
    let '(l, m) := check_all ops m in
    ((if admitted x then [(now, k)] else []) ++ l, m)
  end.
Definition times_of (key : string) (l : list (Q * string)) : list Q := (List.filter (fun nk => bool_decide (nk.2 = key)) l).*1.

Lemma times_of_app key l l' : times_of key (l ++ l') = times_of key l ++ times_of key l'.
Proof. unfold times_of. by rewrite List.filter_app, fmap_app. Qed.
Lemma times_of_one key now k (b : bool) : times_of key (if b then [(now, k)] else []) = if b && bool_decide (k = key) then [now] else [].
Proof. destruct b; [|done]. unfold times_of. cbn. by destruct (bool_decide _). Qed.

Section Checks.
Variable key : string.
Implicit Types m : RateLimitMiddleware.

Definition within (now : Q) m (times : list Q) : Prop :=
  rate_ok 60 key (Z.to_nat (rpm m)) now (_windows m) times /\ (length (_windows m) <= MAX_CLIENTS)%nat.

Lemma within_later now now' m times : (now <= now')%Q -> within now m times -> within now' m times.
Proof. intros Hn [Hr Hl]. split; [by eapply rate_ok_later|done]. Qed.

Lemma set_within_bound k w (d : list (string * list Q)) :
  (match od_get k d with None => true | Some _ => false end) && (MAX_CLIENTS <=? length d)%nat = false ->
  (length d <= MAX_CLIENTS)%nat -> (length (od_set k w d) <= MAX_CLIENTS)%nat.
Proof.
  intros Hf Hl. destruct (od_get k d) as [v|] eqn:E; cbn [andb] in Hf.
  - rewrite length_od_set_present; [done|]. apply od_get_elem in E. apply list_elem_of_fmap. by exists (k, v).
  - apply Nat.leb_gt in Hf. pose proof (length_od_set_le k w d). lia.
Qed.

Lemma check_within now k m times : within now m times ->
  within now (_check_rate_limit now k m).2 (times ++ times_of key (if admitted (_check_rate_limit now k m).1 then [(now, k)] else [])).
Proof.
  intros [Hr Hl]. rewrite times_of_one, check_cases. cbv zeta. apply sweep_rate_ok in Hr.
  pose proof (sweep_length now m) as Hl1. pose proof (sweep_rpm now m) as Hrpm. revert Hr Hl1 Hrpm.
  set (m1 := _sweep now (now - 60) m). intros Hr Hl1 Hrpm.
  destruct (_ && _) eqn:Efull; [cbn [fst snd admitted andb]; rewrite app_nil_r; split; [by rewrite Hrpm|lia]|].
  assert (Hset : forall w, (length (od_set k w (_windows m1)) <= MAX_CLIENTS)%nat) by (intros; apply set_within_bound; [done|lia]).
  destruct (decide (k = key)) as [->|Hk].
  - rewrite bool_decide_eq_true_2, andb_true_r by done.
    assert (Hspan : (0 < 60)%Q) by done. destruct Hr as [H1 H2 H3 H4].
    pose proof (rate_ok_take 60 key (Z.to_nat (rpm m)) now (_windows m1) times (default [] (od_get key (_windows m1))) (rpm m) Hspan H1 H3 H4) as Ht.
    assert (Ht' := Ht ltac:(destruct (od_get key _); [apply H2|constructor]) ltac:(destruct (od_get key _); [apply H2|constructor])
      ltac:(destruct (od_get key _); [apply H2|exact H2]) (Nat.le_refl _)). clear Ht. cbv zeta in Ht'. destruct (_ <=? _).
    + split; cbn [snd with_windows _windows rpm]; [|apply Hset]. destruct (pop_old _ _ _); cbn [fst admitted]; rewrite app_nil_r; by rewrite Hrpm.
    + cbn [fst snd admitted]. split; cbn [with_windows _windows rpm]; [by rewrite Hrpm|apply Hset].
  - rewrite bool_decide_eq_false_2, andb_false_r, app_nil_r by done.
    destruct (_ <=? _); split; cbn [snd with_windows _windows rpm]; rewrite ?Hrpm; try apply Hset; by apply rate_ok_other.
Qed.

Lemma check_all_within ops : forall now m times, clock_from now ops -> within now m times ->
  exists last, within last (check_all ops m).2 (times ++ times_of key (check_all ops m).1).
Proof.
  induction ops as [|[t k] ops IH]; intros now m times Hc Hw; cbn [check_all].
  { exists now. cbn. by rewrite app_nil_r. }
  destruct Hc as [Ht Hc]. apply (within_later _ t) in Hw; [|done]. apply (check_within t k) in Hw.
  destruct (_check_rate_limit t k m) as [x m1]. cbn [fst snd] in Hw. specialize (IH t m1 _ Hc Hw) as (last & Hl).
  exists last. destruct (check_all ops m1) as [l m2]. cbn [fst snd] in *. by rewrite times_of_app, app_assoc.
Qed.
Lemma check_rpm now k m : rpm (_check_rate_limit now k m).2 = rpm m.
Proof. rewrite check_cases. cbv zeta. destruct (_ && _); [apply sweep_rpm|]. destruct (_ <=? _); apply sweep_rpm. Qed.
Lemma check_all_rpm ops : forall m, rpm (check_all ops m).2 = rpm m.
Proof.
  induction ops as [|[t k] ops IH]; intros m; [done|]. cbn [check_all]. pose proof (check_rpm t k m) as Hr.
  destruct (_check_rate_limit t k m) as [x m1]. specialize (IH m1). destruct (check_all ops m1) as [l m2]. cbn in *. congruence.
Qed.
End Checks.

(** Whoever asks what and whichever clients are forgotten: of the requests of
    one client at most [rpm] pass in any sixty seconds (none if [rpm] is not
    positive), and the table never holds more than [MAX_CLIENTS] clients. *)
Theorem clients_respect_rate key limit start ops :
  clock_from start ops ->
  let '(passed, m) := check_all ops (new_middleware limit) in
  (forall y, (count_in 60 y (times_of key passed) <= Z.to_nat limit)%nat) /\ (length (_windows m) <= MAX_CLIENTS)%nat.
Proof.
  intros Hc. destruct (check_all_within key ops start (new_middleware limit) [] Hc) as (last & Hr & Hl).
  { split; [split|cbn; lia]; cbn; [constructor|done|constructor|intros; lia]. }
  rewrite check_all_rpm in Hr. destruct (check_all ops _) as [passed m]. split; [apply Hr|exact Hl].
Qed.

(** ** What a refused client is told *)
Section Told.
Implicit Types m : RateLimitMiddleware.
Definition window_ok (now : Q) (limit : Z) (w : list Q) : Prop :=
  StronglySorted Qle w /\ Forall (fun x => x <= now)%Q w /\ Z.of_nat (length w) <= limit.
Record tidy (now : Q) m : Prop := {
  ti_rpm : 0 < rpm m;
  ti_sweep : (_last_sweep m <= now)%Q;
  ti_keys : NoDup (od_keys (_windows m));
  ti_windows : Forall (fun kv => window_ok now (rpm m) kv.2) (_windows m);
  ti_size : (length (_windows m) <= MAX_CLIENTS)%nat }.

Lemma tidy_later now now' m : (now <= now')%Q -> tidy now m -> tidy now' m.
Proof.
  intros Hn [H1 H2 Hk H3 H4]. split; [done|lra|done| |done]. eapply Forall_impl; [exact H3|]. intros kv (Hs & Hx & Hl).
  split_and!; [done| |done]. eapply Forall_impl; [exact Hx|]. cbn. intros; lra.
Qed.
Lemma tidy_sweep now m : tidy now m -> tidy now (_sweep now (now - 60) m).
Proof.
  intros [H1 H2 Hk H3 H4]. pose proof (sweep_length now m) as Hl. unfold _sweep in *. destruct (_ <. _); [by split|].
  split; cbn [rpm _last_sweep _windows] in *; [done|lra|by apply NoDup_filter_keys|by apply Forall_list_filter|lia].
Qed.
Lemma window_ok_get now m k : tidy now m -> window_ok now (rpm m) (default [] (od_get k (_windows m))).
Proof.
  intros Ht. destruct (od_get k (_windows m)) as [w|] eqn:E.
  - apply od_get_elem in E. pose proof (ti_windows _ _ Ht) as Hw. rewrite Forall_forall in Hw. by apply (Hw (k, w)).
  - destruct Ht. split_and!; [constructor|constructor|cbn; lia].
Qed.
Lemma tidy_check now k m : tidy now m -> tidy now (_check_rate_limit now k m).2.
Proof.
  intros Ht. rewrite check_cases. cbv zeta. rewrite <- (sweep_rpm now). apply tidy_sweep in Ht.
  revert Ht. set (m1 := _sweep now (now - 60) m). intros Ht. destruct (_ && _) eqn:Ef; [done|].
  destruct (window_ok_get now m1 k Ht) as (Hs & Hx & Hl). rewrite pop_old_recent by done.
  assert (Hlen : Z.of_nat (length (recent_in 60 now (default [] (od_get k (_windows m1))))) <= rpm m1).
  { pose proof (sublist_length _ _ (filter_sublist (fun x => (now - x) <. 60) (default [] (od_get k (_windows m1))))). unfold recent_in. lia. }
  assert (Hx' : Forall (fun x => x <= now)%Q (recent_in 60 now (default [] (od_get k (_windows m1))))) by (by apply Forall_list_filter).
  destruct Ht as [H1 H2 Hk H3 H4].
  destruct (_ <=? _) eqn:E; (split; cbn [snd with_windows rpm _last_sweep _windows]; [done|done|by apply NoDup_od_set|apply Forall_od_set; [|done]|by apply set_within_bound]);
    split_and!; try done.
  - by apply recent_sorted.
  - by apply times_snoc; [apply recent_sorted|].
  - apply Forall_app. split; [done|]. apply Forall_singleton, Qle_refl.
  - rewrite length_app. cbn. apply Z.leb_gt in E. lia.
Qed.

Lemma tidy_all now k ops : forall t m, clock_from t (ops ++ [(now, k)]) -> tidy t m -> tidy now (check_all ops m).2.
Proof.
  induction ops as [|[t' k'] ops IH]; intros t m [Hn Hc] Ht; [by eapply tidy_later|]. cbn [check_all].
  apply (tidy_later _ t'), (tidy_check t' k') in Ht; [|done]. destruct (_check_rate_limit t' k' m) as [x m1].
  specialize (IH t' m1 Hc Ht). by destruct (check_all ops m1).
Qed.

(** A client whose window has room passes. *)
Lemma passes now k m :
  let m1 := _sweep now (now - 60) m in
  (od_get k (_windows m1) = None -> (length (_windows m1) < MAX_CLIENTS)%nat) ->
  Z.of_nat (length (pop_old 60 now (default [] (od_get k (_windows m1))))) < rpm m ->
  (_check_rate_limit now k m).1 = Ok (true, 0%Q).
Proof.
  cbv zeta. intros Hfull Hroom. rewrite check_cases. cbv zeta. rewrite (proj2 (Z.leb_gt _ _) Hroom).
  destruct (od_get k _); cbn [andb]; [done|]. by rewrite (proj2 (Nat.leb_gt _ _) (Hfull eq_refl)).
Qed.

Lemma all_gone now now' m : tidy now m -> (now + 60 <= now')%Q ->
  Forall (fun kv => pop_old 60 now' kv.2 = [] /\ stale 60 now' kv.2 = true) (_windows m).
Proof. intros Ht Hn. eapply Forall_impl; [apply Ht|]. intros kv (_ & Hx & _). by eapply gone_old. Qed.

Lemma full_then_passes now now' k m : tidy now m -> (now + 60 <= now')%Q -> (_check_rate_limit now' k m).1 = Ok (true, 0%Q).
Proof.
  intros Ht Hn. pose proof (all_gone _ _ _ Ht Hn) as Hg. pose proof (ti_rpm _ _ Ht) as Hrpm.
  assert (Hs : _windows (_sweep now' (now' - 60) m) = []).
  { unfold _sweep. rewrite (proj2 (fltb_ge _ _)) by (unfold SWEEP_INTERVAL_S; pose proof (ti_sweep _ _ Ht); lra). cbn [_windows].
    apply filter_nil. eapply Forall_impl; [exact Hg|]. intros kv [_ Hst]. by rewrite idle_stale, Hst. }
  apply passes; rewrite Hs; cbn; [unfold MAX_CLIENTS; lia|lia].
Qed.

(** The client's window is full: when the oldest time leaves it, there is room. *)
Lemma waited_then_passes now now' k m x w :
  tidy now m -> od_get k (_windows m) = Some (x :: w) -> (x + 60 <= now')%Q -> (_check_rate_limit now' k m).1 = Ok (true, 0%Q).
Proof.
  intros Ht Hk Hn. pose proof (window_ok_get now m k Ht) as (_ & _ & Hl). rewrite Hk in Hl. cbn [from_option id length] in Hl.
  assert (Hroom : Z.of_nat (length (pop_old 60 now' (x :: w))) < rpm m).
  { cbn [pop_old]. rewrite (proj2 (fleb_le 60 (now' - x))) by lra. pose proof (pop_old_length 60 now' w). lia. }
  pose proof (ti_rpm _ _ Ht) as Hrpm. apply passes; unfold _sweep; (destruct (_ <. _); [by rewrite Hk|]); cbn [_windows];
    rewrite (od_get_filter_values (fun v => negb (idle (now' - 60) v))) by apply Ht; rewrite Hk; destruct (idle _ _) eqn:E; cbn [negb]; try done; try (cbn; lia).
  intros _. pose proof (ti_size _ _ Ht) as Hsize.
  rewrite (filter_split (fun kv => negb (idle (now' - 60) kv.2))) in Hsize.
  assert (Hin : (k, x :: w) ∈ List.filter (fun kv => negb (negb (idle (now' - 60) kv.2))) (_windows m)).
  { apply list_filter_In. split; [cbn [snd]; by rewrite E|]. by apply od_get_elem. }
  destruct (List.filter (fun kv => negb (negb _)) _); [by apply elem_of_nil in Hin|]. cbn [length] in Hsize. lia.
Qed.

(** What a refusal says, and what it leaves. *)
Lemma refusal_facts now k m r m' : tidy now m -> _check_rate_limit now k m = (Ok (false, r), m') ->
  (0 <= r <= 60)%Q /\ (r = 60%Q \/ exists x w, od_get k (_windows m') = Some (x :: w) /\ r == x + 60 - now)%Q.
Proof.
  intros Ht. rewrite check_cases. cbv zeta. set (m1 := _sweep now (now - 60) m).
  assert (Ht1 : tidy now m1) by (by apply tidy_sweep). destruct (_ && _); [intros [= <- <-]; split; [split; lra|by left]|].
  destruct (_ <=? _); [|done]. destruct (window_ok_get now m1 k Ht1) as (Hs & Hx & _). rewrite (pop_old_recent 60 now) by done.
  destruct (recent_in _ _ _) as [|x w] eqn:E; [done|]. intros [= <- <-]. cbn [with_windows _windows]. rewrite od_get_set_eq.
  assert (Hin : x ∈ recent_in 60 now (default [] (od_get k (_windows m1)))) by (rewrite E; left).
  unfold recent_in in Hin. apply list_filter_In in Hin as [Hr Hin]. rewrite Forall_forall in Hx. specialize (Hx x Hin). fprops.
  assert (Hf : (fmax (60 - (now - x)) 0 == x + 60 - now)%Q) by fsolve. split; [rewrite Hf; split; lra|]. right. by exists x, w.
Qed.
End Told.

(** What a refused client is told is enough: once it has waited that long, and
    if nobody else asked meanwhile, its next request passes. *)
Theorem retry_after_suffices limit start ops now k r later :
  0 < limit -> (0 <= start)%Q -> clock_from start (ops ++ [(now, k)]) ->
  let m := (check_all ops (new_middleware limit)).2 in
  (_check_rate_limit now k m).1 = Ok (false, r) -> (now + r <= later)%Q ->
  (0 <= r <= 60)%Q /\ (_check_rate_limit later k (_check_rate_limit now k m).2).1 = Ok (true, 0%Q).
Proof.
  intros Hl Hs Hc m Hr Hlater. assert (Ht : tidy now m).
  { apply (tidy_all now k ops start); [done|]. split; cbn; [done|done|constructor|constructor|unfold MAX_CLIENTS; lia]. }
  pose proof (tidy_check now k m Ht) as Ht'. destruct (_check_rate_limit now k m) as [y m'] eqn:E. cbn [fst snd] in *. subst y.
  destruct (refusal_facts now k m r m' Ht E) as [Hb [-> | (x & w & Hg & Hx)]]; (split; [done|]).
  - by apply (full_then_passes now).
  - apply (waited_then_passes now _ _ _ x w); [done|done|lra].
Qed.

(** ** Examples *)
Module MiddlewareDemo.
Definition one : RateLimitMiddleware := new_middleware 1.
Definition asked : RateLimitMiddleware := (check_all [(100, "ip:a")%Q] one).2.

Lemma clients_respect_rate_witness :
  (count_in 60 100 (times_of "ip:a" (check_all [(100%Q, "ip:a"); (110%Q, "ip:a"); (160%Q, "ip:a")] one).1) <= 1)%nat.
Proof.
  pose proof (clients_respect_rate "ip:a" 1 100 [(100%Q, "ip:a"); (110%Q, "ip:a"); (160%Q, "ip:a")]) as Hr.
  specialize (Hr ltac:(cbn; repeat split; lra)). exact (proj1 Hr 100%Q).
Defined.

Lemma retry_after_suffices_witness :
  (_check_rate_limit 160 "ip:a" (_check_rate_limit 110 "ip:a" asked).2).1 = Ok (true, 0%Q).
Proof.
  apply (retry_after_suffices 1 100 [(100%Q, "ip:a")] 110 "ip:a" 50); [lia|lra|cbn; repeat split; lra|vm_compute; reflexivity|lra].
Defined.

(** The header rounds down: a client that waits what [Retry-After] says is refused
    again. *)
Example header_is_short :
  let m := (check_all [(201 # 2, "ip:a")%Q; (101, "ip:a")%Q] one).2 in
  let told := (_check_rate_limit 101 "ip:a" m).1 in
  match told with Ok (false, r) => response_headers (refusal r) = [("Retry-After", "59")] | _ => False end /\
  admitted (_check_rate_limit (101 + 59) "ip:a" m).1 = false.
Proof. vm_compute. done. Qed.

(** With a limit of no requests the first check raises. *)
Example no_requests : (_check_rate_limit 1 "ip:a" (new_middleware 0)).1 = Raise index_error.
Proof. vm_compute. reflexivity. Qed.

(** An API key, a bearer token, neither. *)
Example who_asks :
  _get_client_key (mkRequest [("authorization", "Bearer  ")] (Some "10.0.0.1")) = "ip:10.0.0.1" /\
  _get_client_key (mkRequest [("authorization", "bearer t")] None) = "bearer:" +:+ digest16 "t" /\
  _get_client_key (mkRequest [("x-api-key", "k"); ("authorization", "bearer t")] None) = "key:" +:+ digest16 "k" /\
  _get_client_key (mkRequest [] None) = "ip:unknown".
Proof. vm_compute. done. Qed.
End MiddlewareDemo.
