(* ===== verification/AuditTrail.v ===== *)
(** Component: the audit log ([src/src/coreai/audit.py]): what an event keeps of
    the data it is given, the bounded ring of events, and the file they are
    appended to, which is rotated. *)
From S2P Require Import Prelude Errors Yaml Json.
From Stdlib Require Import Ascii.

(** ** What is kept of a value *)
Definition _SECRET_HINTS : list string := ["key"; "token"; "secret"; "password"; "authorization"; "credential"].
Definition _MAX_VALUE_CHARS : Z := 500.
Definition _MAX_CONTAINER_ITEMS : nat := 50.
Definition _MAX_CLEAN_CHARS : Z := 50000.
Definition _MAX_EVENT_BYTES : Z := 64000.

Definition text_length (s : string) : Z := Z.of_nat (String.length s).
(** [text[:n]] for [n >= 0]. *)
Definition text_prefix (n : Z) (s : string) : string := String.substring 0 (Z.to_nat n) s.

Definition _clip_text (text : string) (budget : Z) : string * Z :=
  let size := Z.min _MAX_VALUE_CHARS budget in
  let clipped :=
    if text_length text <=? size then text
    else let marker := if 3 <=? size then "..." else "" in text_prefix (size - text_length marker) text +:+ marker in
  (clipped, budget - text_length clipped).

Definition looks_secret (raw_key : string) : bool := existsb (fun h => str_contains h (str_lower raw_key)) _SECRET_HINTS.
(** [value.bit_length() <= 1024] *)
Definition small_int (z : Z) : bool := Z.abs z <? 2 ^ 1024.

Section Clean.
Context `{PyStr}.

(** The two loops, over what cleans one item: the budget passes through. *)
Section Loops.
Variable clean_item : yaml -> Z -> yaml * Z.
Fixpoint clean_items (l : list yaml) (budget : Z) : list yaml * Z :=
  match l with
  | [] => ([], budget)
  | v :: l =>
    let '(x, budget) := clean_item v budget in
    let '(xs, budget) := clean_items l budget in (x :: xs, budget)
  end.
Fixpoint clean_entries (index : nat) (m : list (yaml * yaml)) (out : list (string * yaml)) (budget : Z)
    : list (string * yaml) * Z :=
  match m with
  | [] => (out, budget)
  | (key, item) :: m =>
    if (_MAX_CONTAINER_ITEMS <=? index)%nat || (budget <=? 0) then (od_set "_truncated" (YBool true) out, budget)
    else
      let raw_key := py_str key in
      let '(safe_key, budget) := _clip_text raw_key budget in
      if looks_secret raw_key
      then clean_entries (S index) m (od_set safe_key (YStr "[redacted]") out) (Z.max 0 (budget - text_length "[redacted]"))
      else
        let '(x, budget) := clean_item item budget in
        clean_entries (S index) m (od_set safe_key x out) budget
  end.
End Loops.

Definition text_map (d : list (string * yaml)) : yaml := YMap ((fun kv => (YStr kv.1, kv.2)) <$> d).

(** [levels] is what remains of the depth: [3 - depth]. *)
Fixpoint _clean (levels : nat) (value : yaml) (budget : Z) : yaml * Z :=
  if budget <=? 0 then (YStr "[truncated]", budget)
  else
    match value with
    | YMap m =>
      match levels with
      | O => (YStr "[nested data truncated]", budget)
      | S levels => let '(out, budget) := clean_entries (_clean levels) 0 m [] budget in (text_map out, budget)
      end
    | YList l =>
      match levels with
      | O => (YStr "[nested data truncated]", budget)
      | S levels =>
        let '(items, budget) := clean_items (_clean levels) (take _MAX_CONTAINER_ITEMS l) budget in
        (YList (items ++ (if (_MAX_CONTAINER_ITEMS <? length l)%nat && (0 <? budget) then [YStr "[truncated]"] else [])), budget)
      end
    | YBool _ | YNull => (value, budget)
    | YInt z => (if small_int z then value else YStr "[number truncated]", budget)
    | YFloat x => (match x with Fin _ => value | _ => YNull end, budget)
    | YStr _ | YOther _ => let '(s, budget) := _clip_text (py_str value) budget in (YStr s, budget)
    end.
Definition clean (value : yaml) : yaml := (_clean 3 value _MAX_CLEAN_CHARS).1.
(** [_clean] of a text. *)
Definition clean_text (s : string) : string := (_clip_text s _MAX_CLEAN_CHARS).1.
End Clean.

(** ** The log *)
Record Event := mkEvent {
  ev_id : Z; ev_ts : Q; ev_action : string; ev_actor : string; ev_target : option string; ev_outcome : string; ev_details : yaml }.
(** The file and its backup, as lines. *)
Record files := mkFiles { current : option (list string); backup : option (list string) }.
Record AuditLog := mkAudit {
  path : option string; max_events : Z; max_bytes : Z; _events : list Event; _seq : Z; write_errors : Z; disk : files }.

Section Log.
Context `{PyStr} `{FloatText}.

(** [json.dumps(event, separators=(",", ":"))] *)
Fixpoint compact (v : yaml) : chars :=
  match v with
  | YList l => "["%char :: joined_chars [","%char] (map compact l) ++ ["]"%char]
  | YMap m => "{"%char :: joined_chars [","%char] (map (fun kv => print_key kv.1 ++ ":"%char :: compact kv.2) m) ++ ["}"%char]
  | v => json_print v
  end.
Definition event_json (e : Event) : yaml :=
  text_map [("id", YInt (ev_id e)); ("ts", YFloat (Fin (ev_ts e))); ("action", YStr (ev_action e)); ("actor", YStr (ev_actor e));
            ("target", match ev_target e with Some t => YStr t | None => YNull end); ("outcome", YStr (ev_outcome e)); ("details", ev_details e)].
Definition event_line (e : Event) : string := text_of (compact (event_json e)).

(** What the file system answers: all goes well, the backup cannot be made, the
    line cannot be written. *)
Inductive io := IoOk | NoReplace | NoWrite.
Definition lines_bytes (ls : list string) : Z := foldr Z.add 0 ((fun s => text_length s + 1) <$> ls).
Definition _append_to_file (answer : io) (e : Event) (a : AuditLog) : AuditLog :=
  let keep errors disk := mkAudit (path a) (max_events a) (max_bytes a) (_events a) (_seq a) errors disk in
  if bool_decide (str_or (path a) "" = "") then a
  else
    let full := match current (disk a) with Some ls => max_bytes a <=? lines_bytes ls | None => false end in
    match full, answer with
    | true, NoReplace => keep (write_errors a + 1) (disk a)
    | _, _ =>
      let d := if full then mkFiles None (current (disk a)) else disk a in
      match answer with
      | NoWrite => keep (write_errors a + 1) d
      | _ => keep (write_errors a) (mkFiles (Some (default [] (current d) ++ [event_line e])) (backup d))
      end
    end.

(** [deque(maxlen=max_events)] *)
Definition push_event (a : AuditLog) (e : Event) : list Event := od_trim (Z.to_nat (max_events a)) (_events a ++ [e]).
Definition record (now : Q) (answer : io) (action actor : string) (target : option string) (outcome : string) (details : option yaml)
    (a : AuditLog) : Event * AuditLog :=
  let seq := _seq a + 1 in
  let given := match details with Some d => if ytruthy d then d else YMap [] | None => YMap [] end in
  let e := mkEvent seq (py_round 3 now) (clean_text action) (clean_text actor) (clean_text <$> target) (clean_text outcome) (clean given) in
  let e :=
    if _MAX_EVENT_BYTES <? Z.of_nat (length (compact (event_json e)))
    then mkEvent (ev_id e) (ev_ts e) (ev_action e) (ev_actor e) (ev_target e) (ev_outcome e)
           (text_map [("_truncated", YStr "event exceeded size limit")])
    else e in
  (e, _append_to_file answer e (mkAudit (path a) (max_events a) (max_bytes a) (push_event a e) seq (write_errors a) (disk a))).

(** Newest first; the limit is looked at after an event is taken. *)
Definition action_matches (action : option string) (e : Event) : bool :=
  let wanted := str_or action "" in
  bool_decide (wanted = "") || bool_decide (ev_action e = wanted) || str_prefix (wanted +:+ ".") (ev_action e).
Definition actor_matches (actor : option string) (e : Event) : bool :=
  let wanted := str_or actor "" in bool_decide (wanted = "") || bool_decide (ev_actor e = wanted).
Fixpoint pick (limit : Z) (action actor : option string) (taken : Z) (l : list Event) : list Event :=
  match l with
  | [] => []
  | e :: l =>
    if negb (action_matches action e) then pick limit action actor taken l
    else if negb (actor_matches actor e) then pick limit action actor taken l
    else e :: (if limit <=? taken + 1 then [] else pick limit action actor (taken + 1) l)
  end.
Definition events (limit : Z) (action actor : option string) (a : AuditLog) : list Event := pick limit action actor 0 (rev (_events a)).
End Log.

(** ** Secrets *)
Section Secrets.
Context `{PyStr} `{FloatText}.

(** Equal but for what stands under keys that look secret, at any depth. *)
Inductive same_public : yaml -> yaml -> Prop :=
| same_value v : same_public v v
| same_list l l' : Forall2 same_public l l' -> same_public (YList l) (YList l')
| same_map m m' : Forall2 same_entry m m' -> same_public (YMap m) (YMap m')
with same_entry : yaml * yaml -> yaml * yaml -> Prop :=
| same_secret k v v' : looks_secret (py_str k) = true -> same_entry (k, v) (k, v')
| same_item k v v' : same_public v v' -> same_entry (k, v) (k, v').

Lemma clean_items_same f l l' : (forall v v' b, same_public v v' -> f v b = f v' b) -> Forall2 same_public l l' ->
  forall b, clean_items f l b = clean_items f l' b.
Proof.
  intros Hf. induction 1 as [|v v' l l' Hv Hl IH]; intros b; [done|]. cbn [clean_items]. rewrite (Hf v v' b Hv).
  destruct (f v' b) as [x b']. by rewrite IH.
Qed.

Lemma clean_entries_same f m m' : (forall v v' b, same_public v v' -> f v b = f v' b) -> Forall2 same_entry m m' ->
  forall index out b, clean_entries f index m out b = clean_entries f index m' out b.
Proof.
  intros Hf. induction 1 as [|kv kv' m m' Hv Hl IH]; intros index out b; [done|].
  destruct Hv as [k v v' Hk|k v v' Hv]; cbn [clean_entries]; destruct (_ || _); try done; destruct (_clip_text _ b) as [s b'].
  - by rewrite Hk.
  - destruct (looks_secret _); [done|]. rewrite (Hf v v' b' Hv). by destruct (f v' b').
Qed.

Lemma Forall2_take {A B} (R : A -> B -> Prop) n l l' : Forall2 R l l' -> Forall2 R (take n l) (take n l').
Proof. intros Hl. revert n. induction Hl; intros [|n]; cbn; constructor; auto. Qed.

Lemma clean_same levels : forall v v' b, same_public v v' -> _clean levels v b = _clean levels v' b.
Proof.
  induction levels as [|levels IH]; intros v v' b [w|l l' Hl|m m' Hm]; try done; cbn [_clean]; destruct (b <=? 0); try done.
  - rewrite (clean_items_same _ _ _ IH (Forall2_take _ _ _ _ Hl)). by rewrite (Forall2_length _ _ _ Hl).
  - by rewrite (clean_entries_same _ _ _ IH Hm).
Qed.

Lemma truthy_same v v' : same_public v v' -> ytruthy v = ytruthy v'.
Proof. intros [w|l l' Hl|m m' Hm]; [done|by destruct Hl|by destruct Hm]. Qed.

(** C31: Nothing of a value that stands under a key that looks secret gets into the
    log, at any depth: two records whose details differ only there leave the same
    event, the same ring and the same lines in the file. *)
Theorem secrets_are_not_logged now answer action actor target outcome d d' a :
  same_public d d' ->
  record now answer action actor target outcome (Some d) a = record now answer action actor target outcome (Some d') a.
Proof.
  intros Hd. unfold record. rewrite (truthy_same d d' Hd). destruct (ytruthy d'); [|done].
  unfold clean. by rewrite (clean_same 3 d d' _ Hd).
Qed.
End Secrets.

(** ** What is kept is small *)
Section Small.
Context `{PyStr} `{FloatText}.

Fixpoint tame (levels : nat) (v : yaml) : Prop :=
  match v with
  | YNull | YBool _ | YFloat (Fin _) => True
  | YInt z => Z.abs z < 2 ^ 1024
  | YStr s => text_length s <= _MAX_VALUE_CHARS
  | YList l => match levels with O => False | S levels => (length l <= S _MAX_CONTAINER_ITEMS)%nat /\ Forall (tame levels) l end
  | YMap m =>
    match levels with
    | O => False
    | S levels => (length m <= S _MAX_CONTAINER_ITEMS)%nat /\ NoDup (od_keys m) /\
        Forall (fun kv => (exists s, kv.1 = YStr s /\ text_length s <= _MAX_VALUE_CHARS) /\ tame levels kv.2) m
    end
  | YFloat _ | YOther _ => False
  end.

Lemma text_prefix_length n s : 0 <= n <= text_length s -> text_length (text_prefix n s) = n.
Proof.
  unfold text_length, text_prefix. intros Hn. rewrite <- (Z2Nat.id n) at 2 by lia. f_equal.
  assert (Hm : (Z.to_nat n <= String.length s)%nat) by lia. revert Hm. generalize (Z.to_nat n). clear. 
  induction s as [|c s IH]; intros [|m] Hm; cbn in *; try done; try lia. f_equal. apply IH. lia.
Qed.
Lemma text_length_app s t : text_length (s +:+ t) = text_length s + text_length t.
Proof.
  unfold text_length. rewrite <- Nat2Z.inj_add. f_equal. induction s as [|c s IH]; [done|]. cbn [String.append String.length Nat.add]. by rewrite <- IH.
Qed.

Lemma clip_length s b : 0 <= b -> text_length (_clip_text s b).1 <= _MAX_VALUE_CHARS /\ 0 <= (_clip_text s b).2 <= b.
Proof.
  intros Hb. unfold _clip_text. cbn [fst snd]. set (size := Z.min _MAX_VALUE_CHARS b).
  assert (Hs : 0 <= size <= _MAX_VALUE_CHARS /\ size <= b) by (unfold size, _MAX_VALUE_CHARS; lia).
  pose proof (Zle_0_nat (String.length s)) as Hlen. change (0 <= text_length s) in Hlen.
  destruct (text_length s <=? size) eqn:E; [apply Z.leb_le in E; lia|]. apply Z.leb_gt in E.
  destruct (3 <=? size) eqn:E3; rewrite text_length_app; [apply Z.leb_le in E3; change (text_length "...") with 3|change (text_length "") with 0];
    rewrite text_prefix_length by lia; lia.
Qed.

Lemma clean_items_tame f levels l : (forall v b, 0 <= b -> tame levels (f v b).1 /\ 0 <= (f v b).2 <= b) ->
  forall b, 0 <= b -> Forall (tame levels) (clean_items f l b).1 /\ 0 <= (clean_items f l b).2 <= b /\ length (clean_items f l b).1 = length l.
Proof.
  intros Hf. induction l as [|v l IH]; intros b Hb; [cbn; split_and!; [constructor|lia|lia|done]|]. cbn [clean_items].
  destruct (Hf v b Hb) as (Hx & Hb'). destruct (f v b) as [x b']. cbn [fst snd] in *. destruct (IH b' ltac:(lia)) as (H1 & H2 & H3).
  destruct (clean_items f l b') as [xs b'']. cbn [fst snd length] in *. split_and!; [by constructor|lia..].
Qed.

Definition tame_entries (levels : nat) (out : list (string * yaml)) : Prop :=
  NoDup (od_keys out) /\ Forall (fun kv => text_length kv.1 <= _MAX_VALUE_CHARS /\ tame levels kv.2) out.
Lemma tame_set levels k v out : text_length k <= _MAX_VALUE_CHARS -> tame levels v -> tame_entries levels out -> tame_entries levels (od_set k v out).
Proof.
  intros Hk Hv [Hnd Hall]. split; [by apply NoDup_od_set|]. clear Hnd.
  induction Hall as [|[k' v'] out Hx Hall IH]; cbn; [by apply Forall_singleton|]. case_decide; by constructor.
Qed.

Lemma tame_text levels s : text_length s <= _MAX_VALUE_CHARS -> tame levels (YStr s).
Proof. by destruct levels. Qed.
Lemma clean_entries_tame f levels m : (forall v b, 0 <= b -> tame levels (f v b).1 /\ 0 <= (f v b).2 <= b) ->
  forall index out b, 0 <= b -> tame_entries levels out -> (length out <= index)%nat -> (index <= _MAX_CONTAINER_ITEMS)%nat ->
  let r := clean_entries f index m out b in
  tame_entries levels r.1 /\ 0 <= r.2 <= b /\ (length r.1 <= S _MAX_CONTAINER_ITEMS)%nat.
Proof.
  intros Hf. induction m as [|[key item] m IH]; intros index out b Hb Ho Hl Hi; cbv zeta; cbn [clean_entries].
  { cbn [fst snd]. split_and!; [done|lia|lia|lia]. }
  destruct (_ || _) eqn:E.
  { cbn [fst snd]. pose proof (length_od_set_le "_truncated" (YBool true) out). split_and!; [|lia..]. apply tame_set; [done|by destruct levels|done]. }
  apply orb_false_iff in E as [E1%Nat.leb_gt E2%Z.leb_gt]. destruct (clip_length (py_str key) b Hb) as [Hc Hb'].
  destruct (_clip_text _ b) as [s b']. cbn [fst snd] in *. pose proof (length_od_set_le s (YStr "[redacted]") out) as Hl1.
  destruct (looks_secret _).
  - destruct (IH (S index) (od_set s (YStr "[redacted]") out) (Z.max 0 (b' - text_length "[redacted]"))) as (H1 & H2 & H3); [lia|apply tame_set; [done|by apply tame_text|done]|lia|lia|].
    change (text_length "[redacted]") with 10 in *. split_and!; [done|lia..].
  - destruct (Hf item b' ltac:(lia)) as [Hx Hb'']. destruct (f item b') as [x b'']. cbn [fst snd] in *.
    pose proof (length_od_set_le s x out) as Hl2.
    destruct (IH (S index) (od_set s x out) b'') as (H1 & H2 & H3); [lia|by apply tame_set|lia|lia|]. split_and!; [done|lia..].
Qed.

Lemma tame_map levels out : tame_entries levels out -> (length out <= S _MAX_CONTAINER_ITEMS)%nat -> tame (S levels) (text_map out).
Proof.
  intros [Hnd Hall] Hl. unfold text_map. cbn. rewrite length_fmap. split_and!; [done| |].
  - unfold od_keys. rewrite <- list_fmap_compose. change (NoDup ((YStr ∘ fst) <$> out)). rewrite list_fmap_compose.
    apply NoDup_fmap_2; [|done]. by intros x y [= ->].
  - apply Forall_fmap. eapply Forall_impl; [exact Hall|]. intros [k v] [Hk Hv]. cbn. split; [by exists k|done].
Qed.

(** What is not a container. *)
Definition is_scalar (v : yaml) : bool := match v with YList _ | YMap _ => false | _ => true end.
Lemma clean_scalar levels v b : is_scalar v = true -> 0 <= b -> tame levels (_clean levels v b).1 /\ 0 <= (_clean levels v b).2 <= b.
Proof.
  intros Hv Hb. assert (Hc : _clean levels v b = if b <=? 0 then (YStr "[truncated]", b) else match v with
    | YInt z => (if small_int z then v else YStr "[number truncated]", b)
    | YFloat x => (match x with Fin _ => v | _ => YNull end, b)
    | YStr _ | YOther _ => let '(s, b) := _clip_text (py_str v) b in (YStr s, b)
    | _ => (v, b)
    end) by (destruct levels, v; done).
  rewrite Hc. clear Hc. destruct (b <=? 0); [split; [by apply tame_text|cbn; lia]|].
  destruct v as [|c|z|x|s|l|m|s]; try done; cbn [fst snd].
  - split; [by destruct levels|lia].
  - split; [by destruct levels|lia].
  - split; [|lia]. unfold small_int. destruct (_ <? _) eqn:E; [|by apply tame_text]. apply Z.ltb_lt in E. by destruct levels.
  - split; [|lia]. by destruct levels, x.
  - destruct (clip_length (py_str (YStr s)) b Hb) as [H1 H2]. destruct (_clip_text _ b). split; [by apply tame_text|done].
  - destruct (clip_length (py_str (YOther s)) b Hb) as [H1 H2]. destruct (_clip_text _ b). split; [by apply tame_text|done].
Qed.

Lemma clean_tame levels : forall v b, 0 <= b -> tame levels (_clean levels v b).1 /\ 0 <= (_clean levels v b).2 <= b.
Proof.
  induction levels as [|levels IH]; intros v b Hb; (destruct (is_scalar v) eqn:Ev; [by apply clean_scalar|]);
    destruct v as [| | | | |l|m|]; try done; cbn [_clean]; (destruct (b <=? 0); [split; [by apply tame_text|cbn; lia]|]);
    [split; [by apply tame_text|cbn; lia]..| |].
  - destruct (clean_items_tame (_clean levels) levels (take _MAX_CONTAINER_ITEMS l) IH b Hb) as (H1 & H2 & H3).
    destruct (clean_items _ _ b) as [items b']. cbn [fst snd] in *. split; [|done]. rewrite length_take in H3. cbn [tame]. split.
    + rewrite length_app. destruct (_ && _); cbn [length]; lia.
    + apply Forall_app. split; [done|]. destruct (_ && _); constructor; [by apply tame_text|constructor].
  - destruct (clean_entries_tame (_clean levels) levels m IH 0 [] b Hb) as (H1 & H2 & H3); [split; constructor|cbn; lia|lia|].
    destruct (clean_entries _ _ _ _ b) as [out b']. cbn [fst snd] in *. split; [by apply tame_map|done].
Qed.

(** What is tame can be written as JSON. *)
Lemma tame_jsonable levels : forall v, tame levels v -> jsonable v = true.
Proof.
  induction levels as [|levels IH]; intros [|c|z|x|s|l|m|s] Hv; try done; cbn [jsonable]; destruct Hv as [_ Hv].
  - apply List.forallb_forall. rewrite Forall_forall in Hv. intros w Hw%list_elem_of_In. by apply IH, Hv.
  - destruct Hv as [_ Hv]. apply List.forallb_forall. rewrite Forall_forall in Hv. intros [k w] Hw%list_elem_of_In.
    destruct (Hv _ Hw) as [(s & Hk & _) Ht]. cbn in *. subst k. by apply IH.
Qed.

(** What the log keeps of a value is small and can be written, whatever the value
    is: at most three levels of containers with at most 51 items each under
    distinct keys, texts of at most 500 characters, no number beyond 1024 bits
    and none that is not finite. *)
Theorem logged_data_is_small v : tame 3 (clean v) /\ json_dumps (clean v) = Some (json_print (clean v)).
Proof.
  assert (Ht : tame 3 (clean v)) by (apply clean_tame; unfold _MAX_CLEAN_CHARS; lia).
  split; [done|]. unfold json_dumps. by rewrite (tame_jsonable 3).
Qed.
End Small.

(** ** The ring and the file *)
Section Bounds.
Context `{PyStr} `{FloatText}.
Implicit Types a : AuditLog.

Record request := mkAsk {
  q_now : Q; q_io : io; q_action : string; q_actor : string; q_target : option string; q_outcome : string; q_details : option yaml }.
Fixpoint record_all (qs : list request) (a : AuditLog) : list Event * AuditLog :=
  match qs with
  | [] => ([], a)
  | q :: qs =>
    let '(e, a) := record (q_now q) (q_io q) (q_action q) (q_actor q) (q_target q) (q_outcome q) (q_details q) a in
    let '(es, a) := record_all qs a in (e :: es, a)
  end.
Definition new_audit (path : option string) (max_events max_bytes : Z) (d : files) : AuditLog := mkAudit path max_events max_bytes [] 0 0 d.

(** All but the last line of the file is below the size at which it is rotated. *)
Definition rotated (a : AuditLog) : Prop :=
  match current (disk a) with Some ls => lines_bytes (removelast ls) < max_bytes a | None => True end.
Lemma append_keeps answer e a :
  let a' := _append_to_file answer e a in _events a' = _events a /\ _seq a' = _seq a /\ max_events a' = max_events a /\ max_bytes a' = max_bytes a.
Proof.
  cbv zeta. unfold _append_to_file. destruct (bool_decide _); [done|]. destruct (match current (disk a) with Some _ => _ | None => _ end), answer; done.
Qed.

Lemma append_rotated answer e a : 0 < max_bytes a -> rotated a -> rotated (_append_to_file answer e a).
Proof.
  intros Hpos Ha. unfold _append_to_file. destruct (bool_decide _); [done|].
  destruct (match current (disk a) with Some ls => max_bytes a <=? lines_bytes ls | None => false end) eqn:Ef.
  - destruct answer; unfold rotated; cbn; [lia|exact Ha|done].
  - assert (Hok : match current (disk a) with Some ls => lines_bytes ls < max_bytes a | None => True end)
      by (destruct (current (disk a)); [by apply Z.leb_gt|done]).
    destruct answer; unfold rotated in *; cbn [disk current max_bytes]; [..|exact Ha];
      rewrite removelast_last; (destruct (current (disk a)); [exact Hok|exact Hpos]).
Qed.

Lemma trim_push n (l : list Event) e : od_trim n (od_trim n l ++ [e]) = od_trim n (l ++ [e]).
Proof.
  unfold od_trim. rewrite !length_app, !length_drop. cbn [length].
  destruct (decide (length l <= n)%nat) as [Hl|Hl].
  - replace (length l - n)%nat with 0%nat by lia. by rewrite drop_0, Nat.sub_0_r.
  - rewrite <- (drop_app_le l [e] (length l - n)) by lia. rewrite drop_drop. f_equal. lia.
Qed.

Lemma record_ring now answer action actor target outcome d a :
  let '(e, a') := record now answer action actor target outcome d a in
  _events a' = od_trim (Z.to_nat (max_events a)) (_events a ++ [e]) /\ _seq a' = _seq a + 1 /\ ev_id e = _seq a + 1 /\
  max_events a' = max_events a /\ max_bytes a' = max_bytes a /\ (0 < max_bytes a -> rotated a -> rotated a').
Proof.
  unfold record. set (e := if _ <? _ then _ else _). set (a1 := mkAudit _ _ _ _ _ _ _).
  destruct (append_keeps answer e a1) as (-> & -> & -> & ->). split_and!; try done.
  - subst e. by destruct (_ <? _).
  - intros Hpos Ha. by apply append_rotated.
Qed.

Lemma record_all_ring qs : forall a before, 0 < max_bytes a -> rotated a ->
  _events a = od_trim (Z.to_nat (max_events a)) before ->
  let '(es, a') := record_all qs a in
  _events a' = od_trim (Z.to_nat (max_events a)) (before ++ es) /\
  ev_id <$> es = seqZ (_seq a + 1) (Z.of_nat (length qs)) /\ rotated a'.
Proof.
  induction qs as [|q qs IH]; intros a before Hpos Ha Hr; cbn [record_all]; [by rewrite app_nil_r|].
  pose proof (record_ring (q_now q) (q_io q) (q_action q) (q_actor q) (q_target q) (q_outcome q) (q_details q) a) as Hq.
  destruct (record _ _ _ _ _ _ _ a) as [e a1]. destruct Hq as (He & Hs & Hid & Hm & Hb & Hf).
  specialize (IH a1 (before ++ [e])). rewrite Hm, Hb, Hs in IH. destruct (record_all qs a1) as [es a2].
  destruct IH as (H1 & H2 & H3); [done|by apply Hf|by rewrite He, Hr, trim_push|]. split_and!; [by rewrite H1, <- app_assoc| |done].
  cbn [fmap list_fmap length]. rewrite Hid, H2, (seqZ_cons (_seq a + 1)) by lia. by replace (Z.pred (Z.of_nat (S (length qs)))) with (Z.of_nat (length qs)) by lia.
Qed.

(** The ring holds the latest [max_events] of all events recorded, in their order,
    numbered from 1 without a gap; whatever the file system does, the file
    without its last line stays below [max_bytes]. *)
Theorem ring_keeps_the_latest p me mb d qs :
  0 < mb -> rotated (new_audit p me mb d) ->
  let '(es, a) := record_all qs (new_audit p me mb d) in
  _events a = od_trim (Z.to_nat me) es /\ ev_id <$> es = seqZ 1 (Z.of_nat (length qs)) /\ rotated a.
Proof.
  intros Hpos Hr. apply (record_all_ring qs (new_audit p me mb d) []); [done|done|done].
Qed.

(** ** Queries *)
Lemma pick_take limit action actor l : forall taken, 0 <= taken -> taken < Z.max 1 limit ->
  pick limit action actor taken l =
  take (Z.to_nat (Z.max 1 limit - taken)) (List.filter (fun e => action_matches action e && actor_matches actor e) l).
Proof.
  induction l as [|e l IH]; intros taken H1 H2; cbn [pick List.filter]; [by rewrite take_nil|].
  destruct (action_matches action e); cbn [negb andb]; [|by apply IH]. destruct (actor_matches actor e); cbn [negb]; [|by apply IH].
  replace (Z.to_nat (Z.max 1 limit - taken)) with (S (Z.to_nat (Z.max 1 limit - (taken + 1)))) by lia. cbn [take]. f_equal.
  destruct (limit <=? taken + 1) eqn:E; [|apply IH; lia]. apply Z.leb_le in E.
  by replace (Z.to_nat (Z.max 1 limit - (taken + 1))) with 0%nat by lia.
Qed.

(** A query gives the latest matching events, newest first, [limit] at most, but one
    where [limit] is not positive. *)
Lemma events_spec limit action actor a :
  events limit action actor a =
  take (Z.to_nat (Z.max 1 limit)) (List.filter (fun e => action_matches action e && actor_matches actor e) (rev (_events a))).
Proof. unfold events. rewrite pick_take by lia. by rewrite Z.sub_0_r. Qed.
End Bounds.

(** ** Examples *)
Module AuditDemo.
#[local] Instance repr : PyStr := {| py_repr := fun _ => "?" |}.
#[local] Existing Instance WholeFloats.whole_text.
Definition change (secret : string) : yaml :=
  text_map [("provider", YStr "openai"); ("config", text_map [("Api_Key", YStr secret); ("region", YStr "eu")])].
Definition log : AuditLog := new_audit (Some "audit.jsonl") 2 10 (mkFiles None None).

Lemma secrets_are_not_logged_witness :
  same_public (change "sk-1") (change "sk-2") /\
  record 0 IoOk "policy.reload" "admin" None "ok" (Some (change "sk-1")) log =
  record 0 IoOk "policy.reload" "admin" None "ok" (Some (change "sk-2")) log.
Proof.
  assert (Hs : same_public (change "sk-1") (change "sk-2")).
  { apply same_map. constructor; [apply same_item, same_value|]. constructor; [|constructor].
    apply same_item, same_map. constructor; [by apply same_secret|]. constructor; [apply same_item, same_value|constructor]. }
  split; [exact Hs|]. apply secrets_are_not_logged. exact Hs.
Defined.

Definition asked (i : Z) (answer : io) : request := mkAsk (inject_Z i) answer "kill" "admin" None "ok" None.
Lemma ring_keeps_the_latest_witness :
  ev_id <$> _events (record_all [asked 1 IoOk; asked 2 NoReplace; asked 3 IoOk] log).2 = [2; 3].
Proof.
  pose proof (ring_keeps_the_latest (Some "audit.jsonl") 2 10 (mkFiles None None) [asked 1 IoOk; asked 2 NoReplace; asked 3 IoOk] eq_refl I) as Hr.
  change (new_audit (Some "audit.jsonl") 2 10 (mkFiles None None)) with log in Hr.
  destruct (record_all [asked 1 IoOk; asked 2 NoReplace; asked 3 IoOk] log) as [es a].
  destruct Hr as (He & Hids & _). cbn [snd]. rewrite He. unfold od_trim. rewrite fmap_drop, Hids.
  assert (Hl : length es = 3%nat) by (rewrite <- (length_fmap ev_id es), Hids; reflexivity). rewrite Hl. reflexivity.
Defined.

Example what_is_kept :
  (record 0 IoOk "policy.reload" "admin" None "ok" (Some (change "sk-1")) log).1 =
  mkEvent 1 (py_round 3 0) "policy.reload" "admin" None "ok"
    (text_map [("provider", YStr "openai"); ("config", text_map [("Api_Key", YStr "[redacted]"); ("region", YStr "eu")])]).
Proof. vm_compute. reflexivity. Qed.

(** A limit of none still gives an event. *)
Example no_limit : length (events 0 None None (record_all [asked 1 IoOk; asked 2 IoOk] log).2) = 1%nat.
Proof. vm_compute. reflexivity. Qed.
End AuditDemo.
