(* ===== verification/Orchestrator.v ===== *)
(** Component: the task store and the orchestrator
    ([src/src/coreai/orchestrator.py]): tasks with their status, the agents they are
    assigned to with their counters, and the finished tasks that are kept.

    A task is one mutable object of the source, reached through the store; here it is
    the store's entry, and a write through a reference to a task that has left the
    store is a write to nothing. *)
From S2P Require Import Prelude Errors Yaml Provider.

Inductive TaskStatus := PENDING | RUNNING | COMPLETED | FAILED | CANCELLED.
#[export] Instance TaskStatus_eq_dec : EqDecision TaskStatus.
Proof. solve_decision. Defined.
Definition _TERMINAL : list TaskStatus := [COMPLETED; FAILED; CANCELLED].
Definition terminal (s : TaskStatus) : bool := bool_decide (s ∈ _TERMINAL).

Record AgentTask := mkTask {
  task_id : string; agent_id : string; objective : string; context : yaml; status : TaskStatus;
  result : option string; error : option string; created_at : Q; started_at : option Q; completed_at : option Q;
  iterations : Z; max_iterations : Z; priority : Z }.
Definition set_started (now : Q) (t : AgentTask) : AgentTask :=
  mkTask (task_id t) (agent_id t) (objective t) (context t) RUNNING (result t) (error t) (created_at t) (Some now) (completed_at t)
    (iterations t) (max_iterations t) (priority t).
Definition set_ended (s : TaskStatus) (r e : option string) (now : Q) (t : AgentTask) : AgentTask :=
  mkTask (task_id t) (agent_id t) (objective t) (context t) s (or_else r (result t)) (or_else e (error t)) (created_at t) (started_at t) (Some now)
    (iterations t) (max_iterations t) (priority t).
Definition set_iterations (n : Z) (t : AgentTask) : AgentTask :=
  mkTask (task_id t) (agent_id t) (objective t) (context t) (status t) (result t) (error t) (created_at t) (started_at t) (completed_at t)
    n (max_iterations t) (priority t).
Definition duration_seconds (now : Q) (t : AgentTask) : option Q :=
  match started_at t with Some s => Some (default now (completed_at t) - s)%Q | None => None end.

(** ** The store *)
Record TaskStore := mkTaskStore { tasks : list (string * AgentTask); max_finished : nat; _finished : list string }.
Definition with_store_tasks (s : TaskStore) t : TaskStore := mkTaskStore t (max_finished s) (_finished s).

(** [while len(_finished) > max_finished: popitem(last=False)] *)
Fixpoint drop_oldest (max : nat) (finished : list string) (tasks : list (string * AgentTask)) : list string * list (string * AgentTask) :=
  match finished with
  | old :: rest => if (max <? length finished)%nat then drop_oldest max rest (od_del old tasks) else (finished, tasks)
  | [] => ([], tasks)
  end.
Definition _prune (t : AgentTask) (s : TaskStore) : TaskStore :=
  if terminal (status t) then
    let finished := List.filter (fun i => negb (bool_decide (i = task_id t))) (_finished s) ++ [task_id t] in
    let '(finished, tasks) := drop_oldest (max_finished s) finished (tasks s) in
    mkTaskStore tasks (max_finished s) finished
  else s.

Definition new_task (id agent objective : string) (context : yaml) (priority : Z) (now : Q) : AgentTask :=
  mkTask id agent objective context PENDING None None now None None 0 10 priority.
Definition create (t : AgentTask) (s : TaskStore) : TaskStore := with_store_tasks s (od_set (task_id t) t (tasks s)).
Definition get (id : string) (s : TaskStore) : option AgentTask := od_get id (tasks s).
Definition update (t : AgentTask) (s : TaskStore) : TaskStore := _prune t (with_store_tasks s (od_set (task_id t) t (tasks s))).
Definition list_by_agent (agent : string) (s : TaskStore) : list AgentTask :=
  List.filter (fun t => bool_decide (agent_id t = agent)) (od_values (tasks s)).
Definition urgent_first (a b : AgentTask) : bool :=
  (priority b <? priority a) || ((priority a =? priority b) && (created_at a <=. created_at b)).
Definition list_by_status (st : TaskStatus) (s : TaskStore) : list AgentTask :=
  py_sorted urgent_first (List.filter (fun t => bool_decide (status t = st)) (od_values (tasks s))).
Definition delete (id : string) (s : TaskStore) : TaskStore :=
  mkTaskStore (od_del id (tasks s)) (max_finished s) (List.filter (fun i => negb (bool_decide (i = id))) (_finished s)).

(** ** The orchestrator *)
Record AgentRow := mkRow { a_config : yaml; a_created : Q; total_tasks : Z; completed_tasks : Z; failed_tasks : Z }.
Record Orchestrator := mkOrchestrator { task_store : TaskStore; agents : list (string * AgentRow); active_tasks : list (string * string) }.
Definition new_orchestrator : Orchestrator := mkOrchestrator (mkTaskStore [] (10 * 100) []) [] [].
Abbreviation OM := (SE Orchestrator exn).
Definition on_store (f : TaskStore -> TaskStore) : OM unit := se_modify (fun o => mkOrchestrator (f (task_store o)) (agents o) (active_tasks o)).
Definition set_active f : OM unit := se_modify (fun o => mkOrchestrator (task_store o) (agents o) (f (active_tasks o))).
Definition set_agents f : OM unit := se_modify (fun o => mkOrchestrator (task_store o) (f (agents o)) (active_tasks o)).

Definition register_agent (agent : string) (config : yaml) (now : Q) : OM unit :=
  set_agents (od_set agent (mkRow (if ytruthy config then config else YMap []) now 0 0 0)).

Definition get_task (id : string) : OM (option AgentTask) := se_gets (fun o => get id (task_store o)).
Definition task_or_raise (id : string) : OM AgentTask :=
  t ← get_task id; match t with Some t => mret t | None => se_raise (ValueError ("Task " +:+ id +:+ " not found")) end.

(** [self.agents[agent_id][counter] += 1] *)
Definition count_task (agent : string) (f : AgentRow -> AgentRow) : OM unit :=
  o ← se_get;
  match od_get agent (agents o) with
  | Some row => set_agents (od_set agent (f row))
  | None => se_raise (KeyError agent)
  end.
Definition one_total (r : AgentRow) := mkRow (a_config r) (a_created r) (total_tasks r + 1) (completed_tasks r) (failed_tasks r).
Definition one_completed (r : AgentRow) := mkRow (a_config r) (a_created r) (total_tasks r) (completed_tasks r + 1) (failed_tasks r).
Definition one_failed (r : AgentRow) := mkRow (a_config r) (a_created r) (total_tasks r) (completed_tasks r) (failed_tasks r + 1).

Definition assign_task (id agent objective : string) (context : yaml) (priority : Z) (now : Q) : OM AgentTask :=
  o ← se_get;
  if negb (od_mem agent (agents o)) then se_raise (ValueError ("Agent " +:+ agent +:+ " not registered"))
  else
    let t := new_task id agent objective (if ytruthy context then context else YMap []) priority now in
    on_store (create t);;
    set_active (od_set id agent);;
    count_task agent one_total;;
    mret t.

Definition start_task (id : string) (now : Q) : OM unit :=
  t ← task_or_raise id;
  on_store (update (set_started now t)).

(** [self.active_tasks.pop(task_id, None)], counted for the agent. *)
Definition pop_active (id : string) (f : AgentRow -> AgentRow) : OM unit :=
  o ← se_get;
  set_active (od_del id);;
  match od_get id (active_tasks o) with
  | Some agent => if bool_decide (agent = "") then mret tt else count_task agent f
  | None => mret tt
  end.

(** The log line formats the duration, which a task that never started has not. *)
Definition complete_task (id res : string) (now : Q) : OM unit :=
  t ← task_or_raise id;
  let t := set_ended COMPLETED (Some res) None now t in
  on_store (update t);;
  pop_active id one_completed;;
  match duration_seconds now t with
  | Some _ => mret tt
  | None => se_raise (TypeError "unsupported format string passed to NoneType.__format__")
  end.
Definition fail_task (id err : string) (now : Q) : OM unit :=
  t ← task_or_raise id;
  on_store (update (set_ended FAILED None (Some err) now t));;
  pop_active id one_failed.
Definition cancel_task (id : string) (now : Q) : OM unit :=
  t ← get_task id;
  match t with
  | None => mret tt
  | Some t => on_store (update (set_ended CANCELLED None None now t));; set_active (od_del id)
  end.

Fixpoint cancel_active (agent : string) (l : list (string * string)) (now : Q) : OM unit :=
  match l with
  | [] => mret tt
  | (id, aid) :: l => (if bool_decide (aid = agent) then cancel_task id now else mret tt);; cancel_active agent l now
  end.
Definition unregister_agent (agent : string) (now : Q) : OM unit :=
  o ← se_get;
  cancel_active agent (active_tasks o) now;;
  set_agents (od_del agent).

Record OrchestratorStats := mkOrchStats {
  os_agents : Z; os_total : Z; os_completed : Z; os_failed : Z; os_active : Z; os_pending : Z; os_rows : list (string * AgentRow) }.
Definition stats (o : Orchestrator) : OrchestratorStats :=
  let n st := Z.of_nat (length (list_by_status st (task_store o))) in
  mkOrchStats (Z.of_nat (length (agents o))) (Z.of_nat (length (tasks (task_store o)))) (n COMPLETED) (n FAILED) (n RUNNING) (n PENDING) (agents o).

(** ** Lemmas on the store *)
Section Store.
Implicit Types (s : TaskStore) (t : AgentTask) (id : string).

Lemma drop_oldest_eq max finished : forall d,
  drop_oldest max finished d =
  (drop (length finished - max) finished, fold_left (fun d k => od_del k d) (take (length finished - max) finished) d).
Proof.
  induction finished as [|old rest IH]; intros d; cbn [drop_oldest]; [done|].
  destruct (max <? length (old :: rest))%nat eqn:E.
  - apply Nat.ltb_lt in E. rewrite IH. cbn [length] in *. by replace (S (length rest) - max)%nat with (S (length rest - max)) by lia.
  - apply Nat.ltb_ge in E. by replace (length (old :: rest) - max)%nat with 0%nat by lia.
Qed.

Record store_ok s : Prop := {
  so_keys : NoDup (od_keys (tasks s));
  so_ids : forall id t, get id s = Some t -> task_id t = id;
  so_nodup : NoDup (_finished s);
  so_finished : forall id, id ∈ _finished s <-> exists t, get id s = Some t /\ terminal (status t) = true;
  so_bound : (length (_finished s) <= max_finished s)%nat }.

(** A task's life only moves forward. *)
Definition later (st st' : TaskStatus) : Prop := st = st' \/ st = PENDING \/ (st = RUNNING /\ terminal st' = true).
Definition moves s s' : Prop := forall id t t', get id s = Some t -> get id s' = Some t' ->
  agent_id t' = agent_id t /\ later (status t) (status t').

Lemma later_trans a b c : later a b -> later b c -> later a c.
Proof. unfold later. intros [->|[->|[-> Hb]]] [->|[->|[-> Hc]]]; auto; try done. Qed.
Lemma later_terminal a b : later a b -> terminal a = true -> a = b.
Proof. by intros [->|[->|[-> _]]]. Qed.

(** What an update changes: the task itself, and the oldest finished tasks go. *)
Lemma update_live id t s : terminal (status t) = false -> get id (update t s) = if decide (id = task_id t) then Some t else get id s.
Proof. intros Ht. unfold update, _prune, get. rewrite Ht. cbn [with_store_tasks tasks]. apply od_get_set. Qed.

Definition finish_order t s : list string := List.filter (fun i => negb (bool_decide (i = task_id t))) (_finished s) ++ [task_id t].
Definition forgotten t s : list string := take (length (finish_order t s) - max_finished s) (finish_order t s).
Lemma finish_elem t s id : id ∈ finish_order t s <-> id = task_id t \/ id ∈ _finished s.
Proof.
  unfold finish_order. rewrite elem_of_app, list_filter_In, list_elem_of_singleton, negb_true_iff, bool_decide_eq_false.
  destruct (decide (id = task_id t)); naive_solver.
Qed.
Lemma finish_NoDup t s : NoDup (_finished s) -> NoDup (finish_order t s).
Proof.
  intros Hnd. unfold finish_order. apply NoDup_app. split_and!; [eapply sublist_NoDup; [exact Hnd|apply filter_sublist]| |apply NoDup_singleton].
  intros x Hx Hy. apply list_elem_of_singleton in Hy as ->. apply list_filter_In in Hx as [Hx _].
  apply negb_true_iff, bool_decide_eq_false in Hx. done.
Qed.

Lemma update_ended id t s : NoDup (od_keys (tasks s)) -> terminal (status t) = true ->
  get id (update t s) = if decide (id ∈ forgotten t s) then None else if decide (id = task_id t) then Some t else get id s.
Proof.
  intros Hk Ht. unfold update, _prune, get. rewrite Ht. cbn [with_store_tasks tasks max_finished _finished]. fold (finish_order t s).
  rewrite drop_oldest_eq. cbn [tasks]. rewrite fold_del_get by (by apply NoDup_od_set). fold (forgotten t s).
  case_decide; [done|]. apply od_get_set.
Qed.

(** Pending and running tasks are always kept. *)
Lemma update_keeps_unfinished id t t' s : store_ok s -> id ≠ task_id t -> get id s = Some t' -> terminal (status t') = false ->
  get id (update t s) = Some t'.
Proof.
  intros Hs Hne Hg Ht'. destruct (terminal (status t)) eqn:Et; [|by rewrite update_live, decide_False].
  rewrite update_ended by (done || apply Hs). rewrite !decide_False; [done|done|].
  intros Hin. assert (Hf : id ∈ finish_order t s) by (eapply elem_of_submseteq; [exact Hin|]; apply sublist_submseteq, sublist_take).
  apply finish_elem in Hf as [|Hf]; [done|]. apply (so_finished _ Hs) in Hf as (t2 & Hg2 & H2). congruence.
Qed.

Lemma update_ok t t0 s : store_ok s -> get (task_id t) s = Some t0 -> (terminal (status t0) = true -> terminal (status t) = true) ->
  store_ok (update t s).
Proof.
  intros Hs H0 Hterm. destruct (terminal (status t)) eqn:Et.
  - assert (Hg := fun id => update_ended id t s (so_keys _ Hs) Et). pose proof (finish_NoDup t s (so_nodup _ Hs)) as Hnd.
    assert (Hfin : _finished (update t s) = drop (length (finish_order t s) - max_finished s) (finish_order t s)).
    { unfold update, _prune. rewrite Et. cbn [with_store_tasks tasks max_finished _finished]. fold (finish_order t s). by rewrite drop_oldest_eq. }
    assert (Hmax : max_finished (update t s) = max_finished s).
    { unfold update, _prune. rewrite Et. cbn [with_store_tasks tasks max_finished _finished]. fold (finish_order t s). by rewrite drop_oldest_eq. }
    split.
    + unfold update, _prune. rewrite Et. cbn [with_store_tasks tasks max_finished _finished]. rewrite drop_oldest_eq. cbn [tasks].
      apply fold_del_keys, NoDup_od_set, Hs.
    + intros id t'. rewrite Hg. case_decide; [done|]. case_decide as Hid; [by intros [= ->]|]. apply Hs.
    + rewrite Hfin. eapply sublist_NoDup; [exact Hnd|apply sublist_drop].
    + intros id. rewrite Hfin, Hg. split.
      * intros Hin. rewrite decide_False.
        -- case_decide as Hid; [by exists t|]. apply (so_finished _ Hs).
           assert (Hf : id ∈ finish_order t s) by (eapply elem_of_submseteq; [exact Hin|]; apply sublist_submseteq, sublist_drop).
           by apply finish_elem in Hf as [|].
        -- intros Hin'. rewrite <- (take_drop (length (finish_order t s) - max_finished s) (finish_order t s)) in Hnd.
           apply NoDup_app in Hnd as (_ & Hd & _). by apply (Hd id).
      * intros (t' & Ht' & Hterm'). case_decide as Hin; [done|].
        assert (Hf : id ∈ finish_order t s).
        { apply finish_elem. case_decide as Hid; [by left|right]. apply (so_finished _ Hs). by exists t'. }
        rewrite <- (take_drop (length (finish_order t s) - max_finished s) (finish_order t s)) in Hf. by apply elem_of_app in Hf as [|].
    + rewrite Hfin, Hmax, length_drop. lia.
  - assert (Hg := fun id => update_live id t s Et).
    assert (Hf : _finished (update t s) = _finished s /\ max_finished (update t s) = max_finished s /\ tasks (update t s) = od_set (task_id t) t (tasks s)).
    { unfold update, _prune. by rewrite Et. }
    destruct Hf as (Hf & Hm & Ht). split.
    + rewrite Ht. apply NoDup_od_set, Hs.
    + intros id t'. rewrite Hg. case_decide as Hid; [by intros [= ->]|]. apply Hs.
    + rewrite Hf. apply Hs.
    + intros id. rewrite Hf, Hg, (so_finished _ Hs). case_decide as Hid; [subst id|done]. split.
      * intros (t' & Ht' & Hterm'). rewrite H0 in Ht'. injection Ht' as ->. by discriminate Hterm.
      * intros (t' & [= <-] & Hx). congruence.
    + rewrite Hf, Hm. apply Hs.
Qed.
End Store.

(** ** The orchestrator's state *)
Section Orchestration.
Implicit Types (o : Orchestrator) (t : AgentTask) (id a : string).

Lemma moves_refl s : moves s s.
Proof. intros id t t' Ht Ht'. rewrite Ht in Ht'. injection Ht' as <-. split; [done|by left]. Qed.

Lemma update_moves t t0 s : store_ok s -> get (task_id t) s = Some t0 -> agent_id t = agent_id t0 -> later (status t0) (status t) ->
  moves s (update t s).
Proof.
  intros Hs H0 Ha Hl id t1 t2 H1. destruct (terminal (status t)) eqn:Et.
  - rewrite update_ended by (done || apply Hs). case_decide; [done|]. case_decide as Hid; [|intros H2; rewrite H1 in H2; injection H2 as <-; split; [done|by left]].
    intros [= <-]. subst id. rewrite H0 in H1. by injection H1 as <-.
  - rewrite update_live by done. case_decide as Hid; [|intros H2; rewrite H1 in H2; injection H2 as <-; split; [done|by left]].
    intros [= <-]. subst id. rewrite H0 in H1. by injection H1 as <-.
Qed.

(** The unfinished tasks are the active ones, under their agents, which are known. *)
Record orch_ok o : Prop := {
  oo_store : store_ok (task_store o);
  oo_nodup : NoDup (od_keys (active_tasks o));
  oo_active : forall id a, od_get id (active_tasks o) = Some a <->
    exists t, get id (task_store o) = Some t /\ agent_id t = a /\ terminal (status t) = false;
  oo_agents : forall id a, od_get id (active_tasks o) = Some a -> od_mem a (agents o) = true }.

Lemma new_orchestrator_ok : orch_ok new_orchestrator.
Proof.
  split; cbn; [split; cbn; try done; try constructor; try lia|constructor| |done].
  - by intros Hx%elem_of_nil.
  - by intros (t & Ht & _).
  - intros id a. split; [done|]. by intros (t & Ht & _).
Qed.

(** A task that is not finished goes on, under the same agent. *)
Lemma live_update_ok t t0 o : orch_ok o -> get (task_id t) (task_store o) = Some t0 -> agent_id t = agent_id t0 ->
  terminal (status t0) = false -> terminal (status t) = false ->
  orch_ok (mkOrchestrator (update t (task_store o)) (agents o) (active_tasks o)).
Proof.
  intros [H1 H2 H3 H4] Hg Ha Ht0 Ht. split; cbn [task_store agents active_tasks]; [|done| |done].
  - eapply update_ok; [done|exact Hg|]. congruence.
  - intros id a. rewrite H3. rewrite update_live by done. case_decide as Hid; [subst id|done]. rewrite Hg. split.
    + intros (t' & [= <-] & <- & _). by exists t.
    + intros (t' & [= <-] & <- & _). by exists t0.
Qed.

(** A task that ends leaves the active ones. *)
Lemma end_update_ok t t0 o rows : orch_ok o -> get (task_id t) (task_store o) = Some t0 -> terminal (status t) = true ->
  (forall a, od_mem a (agents o) = true -> od_mem a rows = true) ->
  orch_ok (mkOrchestrator (update t (task_store o)) rows (od_del (task_id t) (active_tasks o))).
Proof.
  intros [H1 H2 H3 H4] Hg Ht Hrows. split; cbn [task_store agents active_tasks].
  - eapply update_ok; [done|exact Hg|done].
  - by apply NoDup_od_del.
  - intros id a. destruct (decide (id = task_id t)) as [->|Hne].
    + rewrite od_get_del_eq by done. split; [done|]. intros (t' & Ht' & _ & Hl). rewrite update_ended in Ht' by (done || apply H1).
      case_decide; [done|]. rewrite decide_True in Ht' by done. injection Ht' as <-. congruence.
    + rewrite od_get_del_ne by done. rewrite H3. split.
      * intros (t' & Hg' & Ha & Hl). exists t'. split_and!; [|done|done]. by apply update_keeps_unfinished.
      * intros (t' & Hg' & Ha & Hl). exists t'. split_and!; [|done|done]. rewrite update_ended in Hg' by (done || apply H1).
        case_decide; [done|]. by rewrite decide_False in Hg'.
  - intros id a Hd. apply od_get_del_some_any in Hd as [_ Hd]; [|done]. by eapply Hrows, H4.
Qed.

Lemma od_mem_set {V} a b (v : V) d : od_mem a d = true -> od_mem a (od_set b v d) = true.
Proof. unfold od_mem. rewrite od_get_set. by case_decide. Qed.

(** What the operations do, on tasks that are there and not finished. *)
Lemma start_task_spec id now t o : get id (task_store o) = Some t ->
  start_task id now o = (Ok tt, mkOrchestrator (update (set_started now t) (task_store o)) (agents o) (active_tasks o)).
Proof. intros Hg. unfold start_task, task_or_raise, get_task, se_gets, mbind, SE_bind. by rewrite Hg. Qed.

Definition ended t id (rows : list (string * AgentRow)) o : Orchestrator :=
  mkOrchestrator (update t (task_store o)) rows (od_del id (active_tasks o)).

Lemma get_id id t o : orch_ok o -> get id (task_store o) = Some t -> task_id t = id.
Proof. intros Ho. apply Ho. Qed.

(** [pop_active] after an update that ended the task: its agent is still known. *)
Lemma pop_ended_spec id f t o : orch_ok o -> task_id t = id -> get id (task_store o) <> None -> terminal (status t) = true ->
  exists rows, pop_active id f (mkOrchestrator (update t (task_store o)) (agents o) (active_tasks o)) = (Ok tt, ended t id rows o) /\
    orch_ok (ended t id rows o).
Proof.
  intros Ho Hid Hg Ht. unfold pop_active, se_get, set_active, se_modify, count_task, set_agents, mbind, SE_bind. cbn [agents active_tasks task_store].
  assert (Hok : forall rows, (forall a, od_mem a (agents o) = true -> od_mem a rows = true) -> orch_ok (ended t id rows o)).
  { intros rows Hr. unfold ended. subst id. destruct (get (task_id t) (task_store o)) as [t0|] eqn:E; [|done]. by apply (end_update_ok t t0). }
  destruct (od_get id (active_tasks o)) as [a|] eqn:Ea; [|exists (agents o); split; [done|by apply Hok]].
  destruct (bool_decide _); [exists (agents o); split; [done|by apply Hok]|]. pose proof (oo_agents _ Ho id a Ea) as Hm. unfold od_mem in Hm.
  destruct (od_get a (agents o)) as [row|] eqn:Er; [|done]. exists (od_set a (f row) (agents o)). split; [cbn; by rewrite Er|].
  apply Hok. intros. by apply od_mem_set.
Qed.

Lemma complete_task_spec id r now t o : orch_ok o -> get id (task_store o) = Some t ->
  let t' := set_ended COMPLETED (Some r) None now t in
  exists rows, (complete_task id r now o).2 = ended t' id rows o /\ orch_ok (ended t' id rows o).
Proof.
  intros Ho Hg t'. destruct (pop_ended_spec id one_completed t' o Ho) as (rows & Hp & Hok); [exact (get_id id t o Ho Hg)|by rewrite Hg|done|].
  exists rows. split; [|done]. unfold complete_task, task_or_raise, get_task, se_gets, on_store, se_modify, mret, SE_ret, mbind, SE_bind. rewrite Hg. cbn beta iota zeta. unfold t' in *. rewrite Hp.
  by destruct (duration_seconds _ _).
Qed.

Lemma fail_task_spec id e now t o : orch_ok o -> get id (task_store o) = Some t ->
  let t' := set_ended FAILED None (Some e) now t in
  exists rows, (fail_task id e now o).2 = ended t' id rows o /\ orch_ok (ended t' id rows o).
Proof.
  intros Ho Hg t'. destruct (pop_ended_spec id one_failed t' o Ho) as (rows & Hp & Hok); [exact (get_id id t o Ho Hg)|by rewrite Hg|done|].
  exists rows. split; [|done]. unfold fail_task, task_or_raise, get_task, se_gets, on_store, se_modify, mret, SE_ret, mbind, SE_bind. rewrite Hg. cbn beta iota zeta. unfold t' in *. by rewrite Hp.
Qed.

Lemma cancel_task_spec id now t o : orch_ok o -> get id (task_store o) = Some t ->
  let t' := set_ended CANCELLED None None now t in
  (cancel_task id now o).2 = ended t' id (agents o) o /\ orch_ok (ended t' id (agents o) o).
Proof.
  intros Ho Hg t'. split.
  - unfold cancel_task, get_task, se_gets, on_store, set_active, se_modify, mbind, SE_bind. by rewrite Hg.
  - unfold ended. assert (Hid : task_id t' = id) by exact (get_id _ _ _ Ho Hg). pose proof (end_update_ok t' t o (agents o) Ho) as He. rewrite Hid in He. by apply He.
Qed.

(** A task of a fresh id is pending. *)
Lemma assign_task_ok id a obj ctx p now o : orch_ok o -> get id (task_store o) = None ->
  let o' := (assign_task id a obj ctx p now o).2 in
  orch_ok o' /\ (forall id', id' ≠ id -> get id' (task_store o') = get id' (task_store o)) /\
  (forall t, get id (task_store o') = Some t -> agent_id t = a /\ status t = PENDING).
Proof.
  intros Ho Hg. cbv zeta. unfold assign_task, se_get, on_store, set_active, count_task, set_agents, se_modify, se_raise, mret, SE_ret, mbind, SE_bind.
  cbn [agents active_tasks task_store]. destruct (od_mem a (agents o)) eqn:Em; cbn [negb snd].
  2:{ split_and!; [done|done|]. intros t Ht. congruence. }
  unfold od_mem in Em. destruct (od_get a (agents o)) as [row|] eqn:Er; [|done]. set (t := new_task _ _ _ _ _ _).
  assert (Hact : od_get id (active_tasks o) = None).
  { destruct (od_get id (active_tasks o)) as [b|] eqn:Eb; [|done]. apply (oo_active _ Ho) in Eb as (t' & Ht' & _). congruence. }
  assert (Hget : forall id', get id' (create t (task_store o)) = if decide (id' = id) then Some t else get id' (task_store o)).
  { intros id'. unfold get, create. cbn [with_store_tasks tasks]. apply od_get_set. }
  cbn. rewrite Er. cbn [snd task_store agents active_tasks]. split_and!; [|intros id' Hne; by rewrite Hget, decide_False|rewrite Hget, decide_True by done; by intros ? [= <-]].
  destruct Ho as [[K1 K2 K3 K4 K5] H2 H3 H4]. split; cbn [task_store agents active_tasks].
  - split; [by apply NoDup_od_set| |done| |done].
    + intros id' t'. rewrite Hget. case_decide as Hid; [by intros [= <-]|]. apply K2.
    + intros id'. change (_finished (create t (task_store o))) with (_finished (task_store o)). rewrite K4, Hget. case_decide as Hid; [subst id'|done].
      split; [intros (t' & Ht' & _); congruence|]. by intros (t' & [= <-] & Hx).
  - by apply NoDup_od_set.
  - intros id' b. rewrite od_get_set, Hget. case_decide as Hid; [|apply H3]. split; [intros [= <-]; by exists t|]. by intros (t' & [= <-] & <- & _).
  - intros id' b. rewrite od_get_set. case_decide as Hid; [intros [= <-]|].
    + unfold od_mem. by rewrite od_get_set, decide_True.
    + intros Hb. apply od_mem_set. by eapply H4.
Qed.

Lemma register_agent_ok a c now o : orch_ok o -> orch_ok (register_agent a c now o).2.
Proof. intros [H1 H2 H3 H4]. split; [done|done|done|]. intros id b Hb. cbn. eapply od_mem_set, H4, Hb. Qed.

(** Tasks move forward and none comes up. *)
Definition advances s s' : Prop := moves s s' /\ forall id, get id s = None -> get id s' = None.
Lemma advances_refl s : advances s s.
Proof. split; [apply moves_refl|done]. Qed.
Lemma advances_trans s1 s2 s3 : advances s1 s2 -> advances s2 s3 -> advances s1 s3.
Proof.
  intros [M1 N1] [M2 N2]. split; [|auto]. intros id t t3 H1 H3. destruct (get id s2) as [t2|] eqn:H2; [|by rewrite N2 in H3].
  destruct (M1 _ _ _ H1 H2) as [A1 L1], (M2 _ _ _ H2 H3) as [A2 L2]. split; [congruence|by eapply later_trans].
Qed.
Lemma update_advances t t0 s : store_ok s -> get (task_id t) s = Some t0 -> agent_id t = agent_id t0 -> later (status t0) (status t) ->
  advances s (update t s).
Proof.
  intros Hs H0 Ha Hl. split; [by eapply update_moves|]. intros id Hn. destruct (terminal (status t)) eqn:Et.
  - rewrite update_ended by (done || apply Hs). case_decide; [done|]. case_decide as Hid; [congruence|done].
  - rewrite update_live by done. case_decide; [congruence|done].
Qed.

(** A task that ends by an operation moves forward; unfinished others stay. *)
Lemma ended_advances id st r e now t rows o : orch_ok o -> get id (task_store o) = Some t -> terminal (status t) = false ->
  status t = RUNNING \/ status t = PENDING -> terminal st = true ->
  let o' := ended (set_ended st r e now t) id rows o in
  advances (task_store o) (task_store o') /\
  (forall id' t', id' ≠ id -> get id' (task_store o) = Some t' -> terminal (status t') = false -> get id' (task_store o') = Some t').
Proof.
  intros Ho Hg Ht Hst Hterm o'. pose proof (get_id _ _ _ Ho Hg) as Hid. split.
  - apply (update_advances _ t); [apply Ho|by cbn; rewrite Hid|done|]. cbn. unfold later. destruct Hst as [-> | ->]; auto.
  - intros id' t' Hne Hg' Ht'. apply update_keeps_unfinished; [apply Ho|cbn; congruence|done|done].
Qed.
Lemma unfinished_cases st : terminal st = false -> st = RUNNING \/ st = PENDING.
Proof. destruct st; try done; auto. Qed.

Lemma cancel_active_spec agent now l : forall o, orch_ok o -> NoDup (od_keys l) ->
  (forall id a, (id, a) ∈ l -> od_get id (active_tasks o) = Some a) ->
  let r := cancel_active agent l now o in
  r.1 = Ok tt /\ orch_ok r.2 /\ agents r.2 = agents o /\ advances (task_store o) (task_store r.2) /\
  (forall id t, get id (task_store o) = Some t -> agent_id t ≠ agent -> terminal (status t) = false -> get id (task_store r.2) = Some t) /\
  (forall id, od_get id (active_tasks r.2) = Some agent -> od_get id (active_tasks o) = Some agent /\ id ∉ od_keys l).
Proof.
  induction l as [|[id a] l IH]; intros o Ho Hnd Hl; cbn [cancel_active].
  { split_and!; try done; [apply advances_refl|]. intros id Hid. split; [done|apply not_elem_of_nil]. }
  apply NoDup_cons in Hnd as [Hid Hnd]. cbn [fst] in Hid. cbv zeta.
  assert (Hact : od_get id (active_tasks o) = Some a) by (apply Hl; left).
  pose proof (proj1 (oo_active _ Ho id a) Hact) as (t & Hg & Ha & Ht).
  destruct (bool_decide (a = agent)) eqn:Ea.
  - apply bool_decide_eq_true in Ea as ->. destruct (cancel_task_spec id now t o Ho Hg) as [Hc Hok].
    destruct (ended_advances id CANCELLED None None now t (agents o) o Ho Hg Ht (unfinished_cases _ Ht) eq_refl) as [Hadv Hkeep].
    assert (Hr : cancel_task id now o = (Ok tt, ended (set_ended CANCELLED None None now t) id (agents o) o)).
    { rewrite <- Hc. unfold cancel_task, get_task, se_gets, on_store, set_active, se_modify, mbind, SE_bind. by rewrite Hg. }
    rewrite (se_bind_ok _ _ _ _ _ Hr). revert Hadv Hkeep Hok. set (o1 := ended _ id (agents o) o). intros Hadv Hkeep Hok.
    assert (Hact1 : forall id', id' ≠ id -> od_get id' (active_tasks o1) = od_get id' (active_tasks o)) by (intros; by apply od_get_del_ne, not_eq_sym).
    destruct (IH o1 Hok Hnd) as (E1 & E2 & E3 & E4 & E5 & E6).
    { intros id' b Hin. rewrite Hact1; [apply Hl; by right|]. intros ->. apply Hid. apply list_elem_of_fmap. by exists (id, b). }
    split_and!; [done|done|by rewrite E3|by eapply advances_trans| |].
    + intros id' t' Hg' Ha' Ht'. apply E5; [|done|done]. apply Hkeep; [|done|done]. intros ->. congruence.
    + intros id' Hd. destruct (E6 id' Hd) as [Hd1 Hn]. apply od_get_del_some_any in Hd1 as [Hne Hd1]; [|apply Ho].
      split; [done|]. by apply not_elem_of_cons.
  - apply bool_decide_eq_false in Ea. rewrite (se_bind_ok _ _ _ tt o) by done.
    destruct (IH o Ho Hnd) as (E1 & E2 & E3 & E4 & E5 & E6); [intros; apply Hl; by right|].
    split_and!; try done. intros id' Hd. destruct (E6 id' Hd) as [Hd1 Hn]. split; [done|]. apply not_elem_of_cons. split; [|done].
    cbn. intros ->. congruence.
Qed.

Lemma unregister_agent_spec a now o : orch_ok o ->
  let o' := (unregister_agent a now o).2 in
  orch_ok o' /\ advances (task_store o) (task_store o') /\
  (forall id t, get id (task_store o) = Some t -> agent_id t ≠ a -> terminal (status t) = false -> get id (task_store o') = Some t).
Proof.
  intros Ho. cbv zeta. unfold unregister_agent. cbn [mbind SE_bind]. unfold se_get.
  destruct (cancel_active_spec a now (active_tasks o) o Ho (oo_nodup _ Ho)) as (E1 & E2 & E3 & E4 & E5 & E6).
  { intros id b Hin. apply elem_od_get; [apply Ho|done]. }
  unfold mbind, SE_bind. destruct (cancel_active a (active_tasks o) now o) as [x o1]. cbn [fst snd] in *. subst x.
  unfold set_agents, se_modify. cbn [snd task_store]. split_and!; [|done|done].
  destruct E2 as [K1 K2 K3 K4]. split; [done|done|done|]. cbn [agents active_tasks]. intros id b Hb.
  destruct (decide (b = a)) as [->|Hne].
  - destruct (E6 id Hb) as [Hd Hn]. exfalso. apply Hn. apply od_get_elem in Hd. apply list_elem_of_fmap. by exists (id, a).
  - specialize (K4 id b Hb). unfold od_mem in *. by rewrite od_get_del_ne.
Qed.
End Orchestration.
