(* ===== verification/TaskRunner.v ===== *)
(** Component: the task runner ([src/src/coreai/task_runner.py]): a priority queue and
    a worker per agent, the run of one task, cancelling, and dropping an agent.

    Workers and runs are asyncio tasks; each is a numbered object here, so that a
    reference to one that has been replaced stays what it was. One label of [step]
    is what one of them, or a caller, does between two suspensions; labels come in
    any order. *)
From S2P Require Import Prelude Errors Yaml Json Provider Heapq Orchestrator.

(** ** State *)
Record entry := mkEntry { e_rank : Z; e_seq : Z; e_task : string }.     (* (-priority, sequence, task) *)
Definition entry_lt (x y : entry) : bool := (e_rank x <? e_rank y) || ((e_rank x =? e_rank y) && (e_seq x <? e_seq y)).

(** Before its first step, at [q.get()], waiting for a run, waiting for a run it has
    cancelled, and ended. *)
Inductive worker_state := WStart | WGet (q : nat) | WWait (q r : nat) | WStopping (r : nat) | WDone.
Record worker := mkWorker { w_agent : string; w_state : worker_state; w_cancelled : bool }.
Inductive run_state := RFresh | RActive | RDone.
Record run := mkRun { r_task : string; r_agent : string; r_state : run_state; r_cancelled : bool }.

Record TaskRunner := mkRunner {
  orch : Orchestrator;
  manager_agents : list string;                     (* the agents the manager has *)
  timeout_text : string;                            (* [f"{timeout_s:.0f}"] *)
  _queues : list (string * nat); queues : list (list entry);
  _workers : list (string * nat); workers : list worker;
  _current : list (string * (string * nat)); run_list : list run;
  _seq : Z;
  dropping : list (string * nat) }.                 (* [drop_agent] calls that wait for a worker *)

Definition with_orch o (s : TaskRunner) := mkRunner o (manager_agents s) (timeout_text s) (_queues s) (queues s) (_workers s) (workers s) (_current s) (run_list s) (_seq s) (dropping s).
Definition with_queues n q (s : TaskRunner) := mkRunner (orch s) (manager_agents s) (timeout_text s) n q (_workers s) (workers s) (_current s) (run_list s) (_seq s) (dropping s).
Definition with_workers n w (s : TaskRunner) := mkRunner (orch s) (manager_agents s) (timeout_text s) (_queues s) (queues s) n w (_current s) (run_list s) (_seq s) (dropping s).
Definition with_runs c r (s : TaskRunner) := mkRunner (orch s) (manager_agents s) (timeout_text s) (_queues s) (queues s) (_workers s) (workers s) c r (_seq s) (dropping s).
Definition with_seq n (s : TaskRunner) := mkRunner (orch s) (manager_agents s) (timeout_text s) (_queues s) (queues s) (_workers s) (workers s) (_current s) (run_list s) n (dropping s).
Definition with_dropping d (s : TaskRunner) := mkRunner (orch s) (manager_agents s) (timeout_text s) (_queues s) (queues s) (_workers s) (workers s) (_current s) (run_list s) (_seq s) d.
Definition with_manager a (s : TaskRunner) := mkRunner (orch s) a (timeout_text s) (_queues s) (queues s) (_workers s) (workers s) (_current s) (run_list s) (_seq s) (dropping s).
Definition new_runner (o : Orchestrator) (manager : list string) (timeout : string) : TaskRunner :=
  mkRunner o manager timeout [] [] [] [] [] [] 0 [].

Definition set_worker (k : nat) (st : worker_state) (s : TaskRunner) : TaskRunner :=
  match workers s !! k with
  | Some w => with_workers (_workers s) (<[k := mkWorker (w_agent w) st (w_cancelled w)]> (workers s)) s
  | None => s
  end.
Definition cancel_worker (k : nat) (s : TaskRunner) : TaskRunner :=
  match workers s !! k with
  | Some w => with_workers (_workers s) (<[k := mkWorker (w_agent w) (w_state w) true]> (workers s)) s
  | None => s
  end.
Definition set_run (k : nat) (st : run_state) (s : TaskRunner) : TaskRunner :=
  match run_list s !! k with
  | Some r => with_runs (_current s) (<[k := mkRun (r_task r) (r_agent r) st (r_cancelled r)]> (run_list s)) s
  | None => s
  end.
Definition cancel_run (k : nat) (s : TaskRunner) : TaskRunner :=
  match run_list s !! k with
  | Some r => with_runs (_current s) (<[k := mkRun (r_task r) (r_agent r) (r_state r) true]> (run_list s)) s
  | None => s
  end.
Definition worker_done (k : nat) (s : TaskRunner) : bool :=
  match workers s !! k with Some w => match w_state w with WDone => true | _ => false end | None => true end.
Definition run_done (k : nat) (s : TaskRunner) : bool :=
  match run_list s !! k with Some r => match r_state r with RDone => true | _ => false end | None => true end.

Definition status_of (id : string) (s : TaskRunner) : option TaskStatus := status <$> get id (task_store (orch s)).
Definition on_orch {A} (m : OM A) (s : TaskRunner) : res exn A * TaskRunner :=
  let '(x, o) := m (orch s) in (x, with_orch o s).

(** ** Submitting *)
Definition submit (id : string) (s : TaskRunner) : res exn unit * TaskRunner :=
  match get id (task_store (orch s)) with
  | None => (Raise (KeyError id), s)
  | Some t =>
    let a := agent_id t in
    let '(q, s) := match od_get a (_queues s) with
                   | Some q => (q, s)
                   | None => (length (queues s), with_queues (od_set a (length (queues s)) (_queues s)) (queues s ++ [[]]) s)
                   end in
    let e := mkEntry (- priority t) (_seq s) id in
    let s := with_seq (_seq s + 1) (with_queues (_queues s) (<[q := heappush entry_lt (default [] (queues s !! q)) e]> (queues s)) s) in
    match od_get a (_workers s) with
    | Some k => if worker_done k s then (Ok tt, with_workers (od_set a (length (workers s)) (_workers s)) (workers s ++ [mkWorker a WStart false]) s)
                else (Ok tt, s)
    | None => (Ok tt, with_workers (od_set a (length (workers s)) (_workers s)) (workers s ++ [mkWorker a WStart false]) s)
    end
  end.

(** ** The worker *)
(** [q.get()] until a task is still pending: what is taken, and what is left. *)
Fixpoint take_pending (pending : string -> bool) (fuel : nat) (q : list entry) : option entry * list entry :=
  match fuel with
  | O => (None, q)
  | S fuel =>
    match heappop entry_lt q with
    | None => (None, q)
    | Some (e, q) => if pending (e_task e) then (Some e, q) else take_pending pending fuel q
    end
  end.
Definition is_pending (s : TaskRunner) (id : string) : bool := bool_decide (status_of id s = Some PENDING).

(** From [q.get()] on, until it suspends. *)
Definition worker_loop (k : nat) (agent : string) (qi : nat) (s : TaskRunner) : TaskRunner :=
  let q := default [] (queues s !! qi) in
  let '(next, q) := take_pending (is_pending s) (length q) q in
  let s := with_queues (_queues s) (<[qi := q]> (queues s)) s in
  match next with
  | None => set_worker k (WGet qi) s
  | Some e =>
    let r := length (run_list s) in
    set_worker k (WWait qi r)
      (with_runs (od_set agent (e_task e, r) (_current s)) (run_list s ++ [mkRun (e_task e) agent RFresh false]) s)
  end.
Definition forget_current (agent : string) (s : TaskRunner) : TaskRunner := with_runs (od_del agent (_current s)) (run_list s) s.

(** One resumption of a worker, where it can be resumed. *)
Definition worker_step (k : nat) (s : TaskRunner) : option TaskRunner :=
  match workers s !! k with
  | None => None
  | Some w =>
    let a := w_agent w in
    match w_state w with
    | WStart =>
      if w_cancelled w then Some (set_worker k WDone s)
      else match od_get a (_queues s) with
           | Some q => Some (worker_loop k a q s)
           | None => Some (set_worker k WDone s)                     (* KeyError *)
           end
    | WGet q =>
      if w_cancelled w then Some (set_worker k WDone s)
      else match default [] (queues s !! q) with [] => None | _ => Some (worker_loop k a q s) end
    | WWait q r =>
      if w_cancelled w then Some (set_worker k (WStopping r) (cancel_run r s))
      else if run_done r s then Some (worker_loop k a q (forget_current a s)) else None
    | WStopping r => if run_done r s then Some (set_worker k WDone (forget_current a s)) else None
    | WDone => None
    end
  end.

(** ** The run of a task *)
Definition _still_running (id : string) (s : TaskRunner) : bool := bool_decide (status_of id s = Some RUNNING).
Definition _fail (id err : string) (now : Q) (s : TaskRunner) : TaskRunner :=
  if _still_running id s || is_pending s id then (on_orch (fail_task id err now) s).2 else s.

(** [f"{type(exc).__name__}: {exc}"] *)
Definition exc_text (e : exn) : string := default "" (head (mro_names e)) +:+ ": " +:+ ex_message e.

(** Up to the dispatch to the agent. *)
Definition run_start (k : nat) (now : Q) (s : TaskRunner) : option TaskRunner :=
  match run_list s !! k with
  | Some r =>
    match r_state r with
    | RFresh =>
      let id := r_task r in
      if r_cancelled r then Some (set_run k RDone s)
      else match get id (task_store (orch s)) with
           | None => Some (set_run k RDone s)                          (* KeyError *)
           | Some _ =>
             if bool_decide (r_agent r ∈ manager_agents s) then
               match on_orch (start_task id now) s with
               | (Ok _, s) => Some (set_run k RActive s)
               | (Raise e, s) => Some (set_run k RDone (_fail id (exc_text e) now s))
               end
             else Some (set_run k RDone (_fail id ("RuntimeError: Agent " +:+ r_agent r +:+ " is no longer available") now s))
           end
    | _ => None
    end
  | None => None
  end.

(** How the dispatch ends: its result, [None], a timeout, an exception by class and
    text, and the run's own cancellation. *)
Inductive dispatch_end := Result (text : string) | NoResult | TimedOut | Raised (class message : string) | RunCancelled.
Definition run_end (k : nat) (e : dispatch_end) (now : Q) (s : TaskRunner) : option TaskRunner :=
  match run_list s !! k with
  | Some r =>
    match r_state r with
    | RActive =>
      let id := r_task r in
      match e with
      | Result text =>
        if _still_running id s then
          match on_orch (complete_task id text now) s with
          | (Ok _, s) => Some (set_run k RDone s)
          | (Raise e, s) => Some (set_run k RDone (_fail id (exc_text e) now s))
          end
        else Some (set_run k RDone s)
      | NoResult => Some (set_run k RDone (_fail id "RuntimeError: Agent finished without a final result" now s))
      | TimedOut => Some (set_run k RDone (_fail id ("Task timed out after " +:+ timeout_text s +:+ "s") now s))
      | Raised class message => Some (set_run k RDone (_fail id (class +:+ ": " +:+ message) now s))
      | RunCancelled => if r_cancelled r then Some (set_run k RDone s) else None
      end
    | _ => None
    end
  | None => None
  end.
(** [on_step]: written to the task itself. *)
Definition progress (k : nat) (n : Z) (s : TaskRunner) : option TaskRunner :=
  match run_list s !! k with
  | Some r =>
    match r_state r, get (r_task r) (task_store (orch s)) with
    | RActive, None => Some s
    | RActive, Some t =>
      Some (with_orch (mkOrchestrator (with_store_tasks (task_store (orch s)) (od_set (r_task r) (set_iterations n t) (tasks (task_store (orch s)))))
                        (agents (orch s)) (active_tasks (orch s))) s)
    | _, _ => None
    end
  | None => None
  end.

(** ** Cancelling, and dropping an agent *)
Definition cancel (id : string) (now : Q) (s : TaskRunner) : bool * TaskRunner :=
  match get id (task_store (orch s)) with
  | Some t =>
    if bool_decide (status t = PENDING) || bool_decide (status t = RUNNING) then
      let s := (on_orch (cancel_task id now) s).2 in
      match od_get (agent_id t) (_current s) with
      | Some (cur, r) => (true, if bool_decide (cur = id) then cancel_run r s else s)
      | None => (true, s)
      end
    else (false, s)
  | None => (false, s)
  end.

Definition cancel_all (ids : list string) (now : Q) (s : TaskRunner) : TaskRunner := fold_left (fun s id => (cancel id now s).2) ids s.
Definition drop_rest (agent : string) (now : Q) (s : TaskRunner) : TaskRunner :=
  (on_orch (unregister_agent agent now) (with_queues (od_del agent (_queues s)) (queues s) s)).2.
Definition drop_begin (agent : string) (now : Q) (s : TaskRunner) : TaskRunner :=
  let s := cancel_all (task_id <$> list_by_agent agent (task_store (orch s))) now s in
  let w := od_get agent (_workers s) in
  let s := with_workers (od_del agent (_workers s)) (workers s) s in
  match w with
  | Some k => with_dropping (dropping s ++ [(agent, k)]) (cancel_worker k s)
  | None => drop_rest agent now s
  end.
(** The [i]-th waiting call goes on when its worker has ended. *)
Definition drop_end (i : nat) (now : Q) (s : TaskRunner) : option TaskRunner :=
  match dropping s !! i with
  | Some (agent, k) =>
    if worker_done k s then Some (drop_rest agent now (with_dropping (stdpp.base.delete i (dropping s)) s)) else None
  | None => None
  end.

(** ** Steps *)
Inductive label :=
| LRegister (agent : string) (config : yaml) (now : Q)
| LAssign (id agent objective : string) (context : yaml) (priority : Z) (now : Q)
| LSubmit (id : string)
| LWorker (k : nat)
| LRunStart (k : nat) (now : Q)
| LProgress (k : nat) (n : Z)
| LRunEnd (k : nat) (e : dispatch_end) (now : Q)
| LCancel (id : string) (now : Q)
| LDrop (agent : string) (now : Q)
| LDropEnd (i : nat) (now : Q)
| LManager (agents : list string)                   (* the manager's agents change *)
| LCancelTask (id : string) (now : Q).              (* the orchestrator's own [cancel_task], as the kernel's stop calls it *)

Definition step (l : label) (s : TaskRunner) : option TaskRunner :=
  match l with
  | LRegister agent config now => Some (on_orch (register_agent agent config now) s).2
  | LAssign id agent objective context priority now => Some (on_orch (assign_task id agent objective context priority now) s).2
  | LSubmit id => Some (submit id s).2
  | LWorker k => worker_step k s
  | LRunStart k now => run_start k now s
  | LProgress k n => progress k n s
  | LRunEnd k e now => run_end k e now s
  | LCancel id now => Some (cancel id now s).2
  | LDrop agent now => Some (drop_begin agent now s)
  | LDropEnd i now => drop_end i now s
  | LManager agents => Some (with_manager agents s)
  | LCancelTask id now => Some (on_orch (cancel_task id now) s).2
  end.
Fixpoint run_labels (ls : list label) (s : TaskRunner) : option TaskRunner :=
  match ls with [] => Some s | l :: ls => s ← step l s; run_labels ls s end.
