(* ===== verification/TaskRunnerProps.v ===== *)
(** The theorems on the task runner: an agent runs one task at a time, a task's life
    only moves forward, and a worker takes the most urgent task first. *)
From S2P Require Import Prelude Errors Yaml Json Provider Heapq Orchestrator TaskRunner.

(** ** One run at a time *)
Section OneRun.
Implicit Types (s : TaskRunner) (w : worker) (x : run) (a : string).

Definition waits (r : nat) (st : worker_state) : Prop :=
  match st with WWait _ r' | WStopping r' => r' = r | _ => False end.

(** A live worker is its agent's own or one that a drop waits for; an agent that is
    being dropped has no other; a run that has not ended has a worker that waits for
    it. *)
Record safe s : Prop := {
  sf_live : forall k w, workers s !! k = Some w -> w_state w ≠ WDone ->
    od_get (w_agent w) (_workers s) = Some k \/ (w_agent w, k) ∈ dropping s;
  sf_run : forall r x, run_list s !! r = Some x -> r_state x ≠ RDone ->
    exists k w, workers s !! k = Some w /\ w_agent w = r_agent x /\ waits r (w_state w);
  sf_free : forall a k, od_get a (_workers s) = Some k -> a ∉ (dropping s).*1;
  sf_keys : NoDup (od_keys (_workers s));
  sf_nodup : NoDup (dropping s).*1 }.

Lemma new_runner_safe o m t : safe (new_runner o m t).
Proof. split; cbn; [done|done|done|constructor|constructor]. Qed.

Lemma pair_unique {B} (l : list (string * B)) a b b' : NoDup l.*1 -> (a, b) ∈ l -> (a, b') ∈ l -> b = b'.
Proof.
  intros Hnd Hb Hb'. assert (Hd : NoDup (od_keys l)) by done.
  apply (elem_od_get a b l Hd) in Hb. apply (elem_od_get a b' l Hd) in Hb'. congruence.
Qed.

Lemma one_worker s k k' w w' : safe s -> workers s !! k = Some w -> workers s !! k' = Some w' ->
  w_state w ≠ WDone -> w_state w' ≠ WDone -> w_agent w = w_agent w' -> k = k'.
Proof.
  intros Hs Hk Hk' Hl Hl' Ha. destruct (sf_live _ Hs k w Hk Hl) as [Ht|Hd], (sf_live _ Hs k' w' Hk' Hl') as [Ht'|Hd'].
  - congruence.
  - exfalso. apply (sf_free _ Hs _ _ Ht). apply list_elem_of_fmap. exists (w_agent w', k'). by rewrite Ha.
  - exfalso. apply (sf_free _ Hs _ _ Ht'). apply list_elem_of_fmap. exists (w_agent w, k). by rewrite <- Ha.
  - rewrite Ha in Hd. exact (pair_unique _ _ _ _ (sf_nodup _ Hs) Hd Hd').
Qed.

Lemma waits_live r st : waits r st -> st ≠ WDone.
Proof. by destruct st. Qed.
Lemma waits_inj r r' st : waits r st -> waits r' st -> r = r'.
Proof. destruct st; cbn; intros; (done || congruence). Qed.

Lemma safe_one_run s r r' x x' : safe s -> run_list s !! r = Some x -> run_list s !! r' = Some x' ->
  r_state x ≠ RDone -> r_state x' ≠ RDone -> r_agent x = r_agent x' -> r = r'.
Proof.
  intros Hs Hr Hr' Hl Hl' Ha. destruct (sf_run _ Hs r x Hr Hl) as (k & w & Hk & Hw & Hwait).
  destruct (sf_run _ Hs r' x' Hr' Hl') as (k' & w' & Hk' & Hw' & Hwait').
  assert (k = k') by (eapply (one_worker s k k' w w'); [done|done|done|by eapply waits_live|by eapply waits_live|congruence]).
  subst k'. rewrite Hk in Hk'. injection Hk' as <-. by eapply waits_inj.
Qed.

(** Only these parts matter. *)
Lemma safe_frame s s' : safe s -> workers s' = workers s -> _workers s' = _workers s -> run_list s' = run_list s -> dropping s' = dropping s -> safe s'.
Proof. intros [H1 H2 H3 H4 H5] E1 E2 E3 E4. split; rewrite ?E1, ?E2, ?E3, ?E4; done. Qed.

Lemma lookup_insert_cases {A} (l : list A) i j (x y : A) :
  <[i := x]> l !! j = Some y -> (i = j /\ y = x /\ is_Some (l !! i)) \/ (i ≠ j /\ l !! j = Some y).
Proof.
  intros Hl. destruct (decide (i = j)) as [->|Hne]; [|right; by rewrite list_lookup_insert_ne in Hl].
  left. assert (Hi : (j < length l)%nat) by (apply lookup_lt_Some in Hl; by rewrite length_insert in Hl).
  rewrite list_lookup_insert_eq in Hl by done. injection Hl as <-. split_and!; [done|done|by apply lookup_lt_is_Some].
Qed.

Lemma safe_set_worker k st s w : safe s -> workers s !! k = Some w -> w_state w ≠ WDone ->
  (forall r x, waits r (w_state w) -> run_list s !! r = Some x -> r_state x ≠ RDone -> waits r st) -> safe (set_worker k st s).
Proof.
  intros Hs Hk Hl Hwait. unfold set_worker. rewrite Hk. destruct Hs as [H1 H2 H3 H4 H5]. split; cbn; [| |done|done|done].
  - intros j w' Hj Hst. apply lookup_insert_cases in Hj as [(<- & -> & _)|[Hne Hj]]; [exact (H1 k w Hk Hl)|by apply H1].
  - intros r x Hr Hx. destruct (H2 r x Hr Hx) as (j & w' & Hj & Ha & Hw). destruct (decide (j = k)) as [->|Hne].
    + rewrite Hk in Hj. injection Hj as <-. eexists k, _. split; [apply list_lookup_insert_eq; by eapply lookup_lt_Some|]. split; [done|]. exact (Hwait r x Hw Hr Hx).
    + exists j, w'. split_and!; [by rewrite list_lookup_insert_ne|done|done].
Qed.
Lemma safe_cancel_worker k s : safe s -> safe (cancel_worker k s).
Proof.
  intros [H1 H2 H3 H4 H5]. unfold cancel_worker. destruct (workers s !! k) as [w|] eqn:Hk; [|by split]. split; cbn; [| |done|done|done].
  - intros j w' Hj Hst. apply lookup_insert_cases in Hj as [(<- & -> & _)|[Hne Hj]]; [exact (H1 k w Hk Hst)|by apply H1].
  - intros r x Hr Hx. destruct (H2 r x Hr Hx) as (j & w' & Hj & Ha & Hw). destruct (decide (j = k)) as [->|Hne].
    + rewrite Hk in Hj. injection Hj as <-. eexists k, _. by split; [apply list_lookup_insert_eq; by eapply lookup_lt_Some|].
    + exists j, w'. split_and!; [by rewrite list_lookup_insert_ne|done|done].
Qed.

Lemma safe_runs s runs cur : safe s ->
  (forall r x, runs !! r = Some x -> r_state x ≠ RDone -> exists y, run_list s !! r = Some y /\ r_agent y = r_agent x /\ r_state y ≠ RDone) ->
  safe (with_runs cur runs s).
Proof.
  intros [H1 H2 H3 H4 H5] Hr. split; cbn; try done. intros r x Hx Hd. destruct (Hr r x Hx Hd) as (y & Hy & Ha & Hyd).
  rewrite <- Ha. by apply H2.
Qed.
Lemma safe_set_run k st s : safe s -> (st ≠ RDone -> run_done k s = false) -> safe (set_run k st s).
Proof.
  intros Hs Hst. unfold set_run. destruct (run_list s !! k) as [x|] eqn:Ek; [|done]. apply safe_runs; [done|].
  intros r y Hr Hd. apply lookup_insert_cases in Hr as [(<- & -> & _)|[Hne Hr]]; [|by exists y].
  exists x. split_and!; [done|done|]. cbn in Hd. specialize (Hst Hd). unfold run_done in Hst. rewrite Ek in Hst. by destruct (r_state x).
Qed.
Lemma safe_cancel_run k s : safe s -> safe (cancel_run k s).
Proof.
  intros Hs. unfold cancel_run. destruct (run_list s !! k) as [x|] eqn:Ek; [|done]. apply safe_runs; [done|].
  intros r y Hr Hd. apply lookup_insert_cases in Hr as [(<- & -> & _)|[Hne Hr]]; [by exists x|by exists y].
Qed.
Lemma safe_orch {A} (m : OM A) s : safe s -> safe (on_orch m s).2.
Proof. intros Hs. unfold on_orch. destruct (m (orch s)) as [y o]. by apply (safe_frame s). Qed.

(** The worker's loop, entered by a live worker whose run has ended. *)
Lemma safe_worker_loop k q s w : safe s -> workers s !! k = Some w -> w_state w ≠ WDone ->
  (forall r x, waits r (w_state w) -> run_list s !! r = Some x -> r_state x = RDone) -> safe (worker_loop k (w_agent w) q s).
Proof.
  intros Hs Hk Hl Hdone. unfold worker_loop. destruct (take_pending _ _ _) as [next rest].
  set (s1 := with_queues _ _ s). assert (Hs1 : safe s1) by (by apply (safe_frame s)). destruct next as [e|].
  2:{ apply (safe_set_worker k (WGet q) s1 w Hs1); [done|done|]. intros r x Hw Hr Hx. by specialize (Hdone r x Hw Hr). }
  cbv zeta. set (r := length (run_list s1)). unfold set_worker. cbn [with_runs workers]. change (workers s1) with (workers s). rewrite Hk.
  destruct Hs as [H1 H2 H3 H4 H5]. split; cbn; [| |done|done|done].
  - intros j w' Hj Hst. apply lookup_insert_cases in Hj as [(<- & -> & _)|[Hne Hj]]; [exact (H1 k w Hk Hl)|by apply H1].
  - intros r' x Hr Hx. apply lookup_app_Some in Hr as [Hr|[Hge Hr]].
    + destruct (H2 r' x Hr Hx) as (j & w' & Hj & Ha & Hw). destruct (decide (j = k)) as [->|Hne].
      * rewrite Hk in Hj. injection Hj as <-. by specialize (Hdone r' x Hw Hr).
      * exists j, w'. split_and!; [by rewrite list_lookup_insert_ne|done|done].
    + assert (Hz : (r' - length (run_list s))%nat = 0%nat) by (apply lookup_lt_Some in Hr; cbn in Hr; lia).
      rewrite Hz in Hr. injection Hr as <-. eexists k, _. split; [apply list_lookup_insert_eq; by eapply lookup_lt_Some|]. split; [done|]. cbn. subst r. cbn. lia.
Qed.
Lemma run_done_lookup r s x : run_done r s = true -> run_list s !! r = Some x -> r_state x = RDone.
Proof. unfold run_done. intros Hd Hr. rewrite Hr in Hd. by destruct (r_state x). Qed.

Lemma safe_forget a s : safe s -> safe (forget_current a s).
Proof. intros Hs. unfold forget_current. apply safe_runs; [done|]. intros r x Hr Hd. by exists x. Qed.

Lemma safe_worker_step k s s' : safe s -> worker_step k s = Some s' -> safe s'.
Proof.
  intros Hs. unfold worker_step. destruct (workers s !! k) as [w|] eqn:Hk; [|done]. destruct (w_state w) as [|q|q r|r|] eqn:Est; try done.
  - assert (Hl : w_state w ≠ WDone) by congruence.
    assert (Hd : safe (set_worker k WDone s)) by (apply (safe_set_worker k WDone s w); [done|done|done|]; intros r x; by rewrite Est).
    destruct (w_cancelled w); [by intros [= <-]|]. destruct (od_get _ _) as [q|]; intros [= <-]; [|done].
    apply safe_worker_loop; [done|done|done|]. intros r x. by rewrite Est.
  - assert (Hl : w_state w ≠ WDone) by congruence. destruct (w_cancelled w).
    + intros [= <-]. apply (safe_set_worker k WDone s w); [done|done|done|]. intros r x. by rewrite Est.
    + destruct (default [] (queues s !! q)); [done|]. intros [= <-]. apply safe_worker_loop; [done|done|done|]. intros r x. by rewrite Est.
  - destruct (w_cancelled w).
    + intros [= <-]. assert (Hk' : workers (cancel_run r s) !! k = Some w) by (unfold cancel_run; by destruct (run_list s !! r)).
      apply (safe_set_worker k (WStopping r) _ w); [by apply safe_cancel_run|done|congruence|]. intros r' x. rewrite Est. by intros <-.
    + destruct (run_done r s) eqn:Ed; [|done]. intros [= <-]. apply safe_worker_loop; [by apply safe_forget|done|congruence|].
      intros r' x. rewrite Est. cbn. intros <-. by apply run_done_lookup.
  - destruct (run_done r s) eqn:Ed; [|done]. intros [= <-]. apply (safe_set_worker k WDone _ w); [by apply safe_forget|done|congruence|].
    intros r' x. rewrite Est. cbn. intros <- Hr Hx. by apply (run_done_lookup r s x Ed) in Hr.
Qed.

(** The environment: nobody submits a task to an agent that is being dropped. *)
Definition quiet (l : label) s : Prop :=
  match l with
  | LSubmit id => forall t, get id (task_store (orch s)) = Some t -> agent_id t ∉ (dropping s).*1
  | _ => True
  end.

Lemma safe_new_worker a s : safe s -> a ∉ (dropping s).*1 -> (forall k, od_get a (_workers s) = Some k -> worker_done k s = true) ->
  safe (with_workers (od_set a (length (workers s)) (_workers s)) (workers s ++ [mkWorker a WStart false]) s).
Proof.
  intros [H1 H2 H3 H4 H5] Hfree Hdone. split; cbn; [| | |by apply NoDup_od_set|done].
  - intros k w Hk Hl. apply lookup_app_Some in Hk as [Hk|[Hge Hk]].
    + destruct (H1 k w Hk Hl) as [Ht|Hd]; [|by right]. left. destruct (decide (w_agent w = a)) as [Ha|Hne]; [|by rewrite od_get_set_ne by congruence].
      exfalso. rewrite Ha in Ht. specialize (Hdone k Ht). unfold worker_done in Hdone. rewrite Hk in Hdone. by destruct (w_state w).
    + assert (Hz : (k - length (workers s))%nat = 0%nat) by (apply lookup_lt_Some in Hk; cbn in Hk; lia).
      rewrite Hz in Hk. injection Hk as <-. left. cbn. rewrite od_get_set_eq. f_equal. lia.
  - intros r x Hr Hx. destruct (H2 r x Hr Hx) as (k & w & Hk & Hw). exists k, w. split; [by apply lookup_app_l_Some|done].
  - intros b k. rewrite od_get_set. case_decide as Hb; [by subst b|]. apply H3.
Qed.

Lemma safe_submit id s : safe s -> quiet (LSubmit id) s -> safe (submit id s).2.
Proof.
  intros Hs Hq. unfold submit. destruct (get id (task_store (orch s))) as [t|] eqn:Et; [|done]. specialize (Hq t Et). cbv zeta.
  set (qs := match od_get (agent_id t) (_queues s) with Some q => (q, s) | None => _ end). 
  assert (Hqs : workers qs.2 = workers s /\ _workers qs.2 = _workers s /\ run_list qs.2 = run_list s /\ dropping qs.2 = dropping s)
    by (subst qs; by destruct (od_get _ (_queues s))).
  destruct qs as [q s1]. destruct Hqs as (E1 & E2 & E3 & E4). cbn [snd] in *. set (s2 := with_seq _ _).
  assert (Hs2 : safe s2) by (apply (safe_frame s); done). change (_workers s2) with (_workers s1). rewrite E2.
  destruct (od_get (agent_id t) (_workers s)) as [k|] eqn:Ek.
  - destruct (worker_done k s2) eqn:Ed; cbn [snd]; [|done]. rewrite <- E2. change (_workers s1) with (_workers s2).
    apply safe_new_worker; [done|by change (dropping s2) with (dropping s1); rewrite E4|].
    intros k' Hk'. change (_workers s2) with (_workers s1) in Hk'. rewrite E2, Ek in Hk'. by injection Hk' as <-.
  - cbn [snd]. rewrite <- E2. change (_workers s1) with (_workers s2).
    apply safe_new_worker; [done|by change (dropping s2) with (dropping s1); rewrite E4|].
    intros k' Hk'. change (_workers s2) with (_workers s1) in Hk'. by rewrite E2, Ek in Hk'.
Qed.

Lemma safe_cancel id now s : safe s -> safe (cancel id now s).2.
Proof.
  intros Hs. unfold cancel. destruct (get _ _) as [t|]; [|done]. destruct (_ || _); [|done]. cbv zeta.
  pose proof (safe_orch (cancel_task id now) s Hs) as Hs1. revert Hs1. generalize (on_orch (cancel_task id now) s).2. intros s1 Hs1.
  destruct (od_get _ _) as [[cur r]|]; [|done]. cbn [snd]. destruct (bool_decide _); [by apply safe_cancel_run|done].
Qed.
Lemma safe_cancel_all ids now : forall s, safe s -> safe (cancel_all ids now s).
Proof. induction ids as [|id ids IH]; intros s Hs; [done|]. cbn. by apply IH, safe_cancel. Qed.
Lemma safe_drop_rest a now s : safe s -> safe (drop_rest a now s).
Proof. intros Hs. unfold drop_rest. apply safe_orch. by apply (safe_frame s). Qed.

Lemma safe_drop_begin a now s : safe s -> safe (drop_begin a now s).
Proof.
  intros Hs. unfold drop_begin. cbv zeta. set (s1 := cancel_all _ now s). assert (Hs1 : safe s1) by (by apply safe_cancel_all).
  destruct (od_get a (_workers s1)) as [k|] eqn:Ek.
  - set (s2 := with_workers (od_del a (_workers s1)) (workers s1) s1).
    assert (Hs2 : safe (with_dropping (dropping s2 ++ [(a, k)]) s2)).
    { destruct Hs1 as [H1 H2 H3 H4 H5]. pose proof (H3 a k Ek) as Hn. split; cbn; [|done| |by apply NoDup_od_del|].
      - intros j w Hj Hl. destruct (H1 j w Hj Hl) as [Ht|Hd]; [|right; apply elem_of_app; by left].
        destruct (decide (w_agent w = a)) as [Ha|Hne]; [|left; by rewrite od_get_del_ne by congruence].
        right. apply elem_of_app. right. rewrite Ha, Ek in Ht. injection Ht as <-. rewrite Ha. left.
      - intros b j Hb. apply od_get_del_some_any in Hb as [Hne Hb]; [|done]. rewrite fmap_app, elem_of_app. intros [Hin|Hin]; [by apply (H3 b j Hb)|].
        by apply list_elem_of_singleton in Hin.
      - rewrite fmap_app. apply NoDup_app. split_and!; [done| |apply NoDup_singleton]. intros b Hb Hb'. apply list_elem_of_singleton in Hb' as ->. done. }
    apply (safe_cancel_worker k) in Hs2. eapply safe_frame; [exact Hs2|..]; unfold cancel_worker; cbn; by destruct (workers s1 !! k).
  - apply safe_drop_rest. destruct Hs1 as [H1 H2 H3 H4 H5]. split; cbn; [|done| |by apply NoDup_od_del|done].
    + intros j w Hj Hl. destruct (H1 j w Hj Hl) as [Ht|Hd]; [|by right]. left. rewrite od_get_del_ne; [done|]. intros ->. congruence.
    + intros b j Hb. apply od_get_del_some_any in Hb as [_ Hb]; [|done]. by eapply H3.
Qed.

(** The drop whose worker has ended is no longer waited for. *)
Lemma safe_dropped i a k s : safe s -> dropping s !! i = Some (a, k) -> worker_done k s = true ->
  safe (with_dropping (stdpp.base.delete i (dropping s)) s).
Proof.
  intros [H1 H2 H3 H4 H5] Ei Ed.
  assert (Hsub : stdpp.base.delete i (dropping s) `sublist_of` dropping s) by apply sublist_delete.
  split; cbn; [|done| |done|].
  - intros j w Hj Hl. destruct (H1 j w Hj Hl) as [Ht|Hd]; [by left|right]. apply list_elem_of_lookup in Hd as [n Hn].
    destruct (decide (n = i)) as [->|Hne].
    + rewrite Ei in Hn. injection Hn as -> ->. unfold worker_done in Ed. rewrite Hj in Ed. by destruct (w_state w).
    + rewrite (delete_Permutation _ _ _ Ei) in H5. assert (Hp : (w_agent w, j) ∈ (a, k) :: stdpp.base.delete i (dropping s)).
      { rewrite <- (delete_Permutation _ _ _ Ei). by eapply list_elem_of_lookup_2. }
      apply elem_of_cons in Hp as [Hp|Hp]; [|done]. injection Hp as Ha Hkk. subst j.
      unfold worker_done in Ed. rewrite Hj in Ed. by destruct (w_state w).
  - intros b j Hb Hin. apply (H3 b j Hb). apply list_elem_of_fmap in Hin as (p & -> & Hp). apply list_elem_of_fmap. exists p. split; [done|].
    eapply elem_of_submseteq; [exact Hp|]. by apply sublist_submseteq.
  - eapply sublist_NoDup; [exact H5|]. by apply fmap_sublist.
Qed.
Lemma safe_drop_end i now s s' : safe s -> drop_end i now s = Some s' -> safe s'.
Proof.
  intros Hs. unfold drop_end. destruct (dropping s !! i) as [[a k]|] eqn:Ei; [|done]. destruct (worker_done k s) eqn:Ed; [|done].
  intros [= <-]. apply safe_drop_rest. by eapply safe_dropped.
Qed.
End OneRun.

(** ** Traces *)
Section Traces.
Implicit Types (s : TaskRunner) (l : label).

Inductive reachable (ok : label -> TaskRunner -> Prop) (s0 : TaskRunner) : TaskRunner -> Prop :=
| reach_start : reachable ok s0 s0
| reach_step l s s' : reachable ok s0 s -> ok l s -> step l s = Some s' -> reachable ok s0 s'.

Lemma safe_fail id e now s : safe s -> safe (_fail id e now s).
Proof. intros Hs. unfold _fail. destruct (_ || _); [by apply safe_orch|done]. Qed.
Lemma safe_ended k s : safe s -> safe (set_run k RDone s).
Proof. intros Hs. by apply safe_set_run. Qed.

Lemma safe_run_start k now s s' : safe s -> run_start k now s = Some s' -> safe s'.
Proof.
  intros Hs. unfold run_start. destruct (run_list s !! k) as [x|] eqn:Ek; [|done]. destruct (r_state x) eqn:Ex; try done.
  destruct (r_cancelled x); [intros [= <-]; by apply safe_ended|]. destruct (get _ _); [|intros [= <-]; by apply safe_ended].
  destruct (bool_decide _); [|intros [= <-]; by apply safe_ended, safe_fail].
  pose proof (safe_orch (start_task (r_task x) now) s Hs) as Hs1.
  assert (Hr : run_list (on_orch (start_task (r_task x) now) s).2 = run_list s) by (unfold on_orch; by destruct (start_task _ _ _)).
  destruct (on_orch _ s) as [[u|e] s1]; intros [= <-]; [|by apply safe_ended, safe_fail].
  apply safe_set_run; [done|]. intros _. unfold run_done. cbn [snd] in Hr. by rewrite Hr, Ek, Ex.
Qed.
Lemma safe_run_end k e now s s' : safe s -> run_end k e now s = Some s' -> safe s'.
Proof.
  intros Hs. unfold run_end. destruct (run_list s !! k) as [x|] eqn:Ek; [|done]. destruct (r_state x); try done.
  destruct e as [text| | |c m|]; try (intros [= <-]; by apply safe_ended, safe_fail).
  - destruct (_still_running _ _); [|intros [= <-]; by apply safe_ended]. pose proof (safe_orch (complete_task (r_task x) text now) s Hs) as Hs1.
    destruct (on_orch _ s) as [[u|e] s1]; intros [= <-]; [by apply safe_ended|by apply safe_ended, safe_fail].
  - destruct (r_cancelled x); [|done]. intros [= <-]. by apply safe_ended.
Qed.
Lemma safe_progress k n s s' : safe s -> progress k n s = Some s' -> safe s'.
Proof.
  intros Hs. unfold progress. destruct (run_list s !! k) as [x|]; [|done]. destruct (r_state x); [done| |done].
  destruct (get _ _); intros [= <-]; [by apply (safe_frame s)|done].
Qed.

Lemma safe_step l s s' : safe s -> quiet l s -> step l s = Some s' -> safe s'.
Proof.
  intros Hs Hq. destruct l; cbn [step]; try (intros Hst; apply (inj Some) in Hst as <-).
  - by apply safe_orch.
  - by apply safe_orch.
  - by apply safe_submit.
  - by apply safe_worker_step.
  - by apply safe_run_start.
  - by apply safe_progress.
  - by apply safe_run_end.
  - by apply safe_cancel.
  - by apply safe_drop_begin.
  - by apply safe_drop_end.
  - by apply (safe_frame s).
  - by apply safe_orch.
Qed.

Lemma reachable_safe o m t s : reachable quiet (new_runner o m t) s -> safe s.
Proof. induction 1 as [|l s s' Hr IH Hq Hst]; [apply new_runner_safe|by eapply safe_step]. Qed.

(** In whatever order tasks are submitted, cancelled, run, time out and fail, and
    agents dropped, an agent has at most one run that has not ended, provided no
    task is submitted to an agent while it is being dropped. *)
Theorem one_run_per_agent o m t s r r' x x' :
  reachable quiet (new_runner o m t) s ->
  run_list s !! r = Some x -> run_list s !! r' = Some x' -> r_state x ≠ RDone -> r_state x' ≠ RDone ->
  r_agent x = r_agent x' -> r = r'.
Proof. intros Hr%reachable_safe. by apply safe_one_run. Qed.
End Traces.

(** ** The order of a queue *)
Section Order.
Implicit Types (s : TaskRunner) (q : list entry) (e : entry).

#[export] Instance entry_order : WeakOrder entry_lt.
Proof.
  split.
  - intros x. unfold entry_lt. lia.
  - intros x y z. unfold le, entry_lt. lia.
  - intros x y. unfold le, entry_lt. lia.
Qed.
(** [e] goes before [y]: a higher priority, or the same and submitted no later. *)
Definition before e (y : entry) : Prop := e_rank e < e_rank y \/ (e_rank e = e_rank y /\ e_seq e <= e_seq y).
Lemma le_before e y : le entry_lt e y -> before e y.
Proof. unfold le, entry_lt, before. lia. Qed.

Lemma take_pending_spec pending fuel : forall q, (length q <= fuel)%nat -> is_heap entry_lt q ->
  let '(next, rest) := take_pending pending fuel q in
  is_heap entry_lt rest /\ exists skipped, Forall (fun e => pending (e_task e) = false) skipped /\
  match next with
  | Some e => pending (e_task e) = true /\ q ≡ₚ skipped ++ e :: rest /\ (forall y, y ∈ rest -> le entry_lt e y)
  | None => rest = [] /\ q ≡ₚ skipped
  end.
Proof.
  induction fuel as [|fuel IH]; intros q Hl Hq; cbn [take_pending].
  { destruct q; [|cbn in Hl; lia]. split; [done|]. exists []. split_and!; [constructor|done|done]. }
  destruct (heappop entry_lt q) as [[e rest]|] eqn:Ep.
  2:{ apply heappop_none in Ep as ->. split; [done|]. exists []. split_and!; [constructor|done|done]. }
  destruct (heappop_some _ _ _ _ Hq Ep) as (Hh & Hp & Hle). destruct (pending (e_task e)) eqn:Ee.
  - split; [done|]. exists []. split; [by apply Forall_nil|]. split; [done|]. split; [by rewrite Hp|]. intros y Hy. apply Hle. rewrite Hp. by right.
  - assert (Hl' : (length rest <= fuel)%nat) by (apply Permutation_length in Hp; cbn in Hp; lia).
    specialize (IH rest Hl' Hh). destruct (take_pending pending fuel rest) as [next rest']. destruct IH as (H1 & skipped & H2 & H3).
    split; [done|]. exists (e :: skipped). split; [by constructor|]. destruct next as [e'|].
    + destruct H3 as (E1 & E2 & E3). split_and!; [done|by rewrite Hp, E2|done].
    + destruct H3 as (-> & E2). split; [done|]. by rewrite Hp, E2.
Qed.

Definition heaps s : Prop := Forall (is_heap entry_lt) (queues s).
Lemma heaps_frame s s' : heaps s -> queues s' = queues s -> heaps s'.
Proof. unfold heaps. by intros Hs ->. Qed.

Lemma heaps_set s qi q : heaps s -> is_heap entry_lt q -> Forall (is_heap entry_lt) (<[qi := q]> (queues s)).
Proof. intros Hs Hq. by apply Forall_insert. Qed.
Lemma heap_at s qi : heaps s -> is_heap entry_lt (default [] (queues s !! qi)).
Proof.
  intros Hs. destruct (queues s !! qi) as [q|] eqn:E; cbn; [by eapply (Forall_lookup_1 _ _ _ _ Hs)|]. by intros i _ ? ?.
Qed.

(** What the queues are after a step: nothing but submitting and workers touches
    them. *)
Lemma queues_orch {A} (m : OM A) s : queues (on_orch m s).2 = queues s /\ _queues (on_orch m s).2 = _queues s.
Proof. unfold on_orch. by destruct (m (orch s)). Qed.
Lemma queues_set_run k st s : queues (set_run k st s) = queues s /\ _queues (set_run k st s) = _queues s.
Proof. unfold set_run. by destruct (run_list s !! k). Qed.
Lemma queues_cancel_run k s : queues (cancel_run k s) = queues s /\ _queues (cancel_run k s) = _queues s.
Proof. unfold cancel_run. by destruct (run_list s !! k). Qed.
Lemma queues_set_worker k st s : queues (set_worker k st s) = queues s /\ _queues (set_worker k st s) = _queues s.
Proof. unfold set_worker. by destruct (workers s !! k). Qed.
Lemma queues_fail id err now s : queues (_fail id err now s) = queues s /\ _queues (_fail id err now s) = _queues s.
Proof. unfold _fail. destruct (_ || _); [apply queues_orch|done]. Qed.
Lemma queues_cancel id now s : queues (cancel id now s).2 = queues s /\ _queues (cancel id now s).2 = _queues s.
Proof.
  unfold cancel. destruct (get _ _) as [t|]; [|done]. destruct (_ || _); [|done]. cbv zeta.
  destruct (queues_orch (cancel_task id now) s) as [<- <-]. generalize (on_orch (cancel_task id now) s).2. intros s1.
  destruct (od_get _ _) as [[cur r]|]; [|done]. cbn [snd]. destruct (bool_decide _); [apply queues_cancel_run|done].
Qed.
Lemma queues_cancel_all ids now : forall s, queues (cancel_all ids now s) = queues s /\ _queues (cancel_all ids now s) = _queues s.
Proof.
  induction ids as [|id ids IH]; intros s; [done|]. change (cancel_all (id :: ids) now s) with (cancel_all ids now (cancel id now s).2).
  destruct (IH (cancel id now s).2) as [-> ->]. apply queues_cancel.
Qed.
Lemma queues_drop_rest a now s : queues (drop_rest a now s) = queues s.
Proof. unfold drop_rest. by rewrite (proj1 (queues_orch _ _)). Qed.
Lemma queues_run_start k now s s' : run_start k now s = Some s' -> queues s' = queues s /\ _queues s' = _queues s.
Proof.
  unfold run_start. destruct (run_list s !! k) as [x|]; [|done]. destruct (r_state x); try done.
  destruct (r_cancelled x); [intros [= <-]; apply queues_set_run|]. destruct (get _ _); [|intros [= <-]; apply queues_set_run].
  destruct (bool_decide _).
  - destruct (queues_orch (start_task (r_task x) now) s) as [<- <-]. destruct (on_orch _ s) as [[u|e] s1]; intros [= <-]; cbn [snd].
    + apply queues_set_run.
    + destruct (queues_set_run k RDone (_fail (r_task x) (exc_text e) now s1)) as [-> ->]. apply queues_fail.
  - intros [= <-]. destruct (queues_set_run k RDone (_fail (r_task x) ("RuntimeError: Agent " +:+ r_agent x +:+ " is no longer available") now s)) as [-> ->].
    apply queues_fail.
Qed.
Lemma queues_run_end k (d : dispatch_end) now s s' : run_end k d now s = Some s' -> queues s' = queues s /\ _queues s' = _queues s.
Proof.
  unfold run_end. destruct (run_list s !! k) as [x|]; [|done]. destruct (r_state x); try done.
  assert (Hf : forall t, queues (set_run k RDone (_fail (r_task x) t now s)) = queues s /\ _queues (set_run k RDone (_fail (r_task x) t now s)) = _queues s).
  { intros t. destruct (queues_set_run k RDone (_fail (r_task x) t now s)) as [-> ->]. apply queues_fail. }
  destruct d as [text| | |c m|]; try (intros [= <-]; apply Hf).
  - destruct (_still_running _ _); [|intros [= <-]; apply queues_set_run].
    destruct (queues_orch (complete_task (r_task x) text now) s) as [<- <-]. destruct (on_orch _ s) as [[u|e] s1]; intros [= <-]; cbn [snd].
    + apply queues_set_run.
    + destruct (queues_set_run k RDone (_fail (r_task x) (exc_text e) now s1)) as [-> ->]. apply queues_fail.
  - destruct (r_cancelled x); [|done]. intros [= <-]. apply queues_set_run.
Qed.

Lemma heaps_worker_loop k a (q : nat) s : heaps s -> heaps (worker_loop k a q s).
Proof.
  intros Hs. unfold worker_loop. pose proof (take_pending_spec (is_pending s) _ _ (Nat.le_refl _) (heap_at s q Hs)) as Ht.
  destruct (take_pending _ _ _) as [[e|] rest]; destruct Ht as [Hh _]; cbv zeta; unfold set_worker; cbn;
    (destruct (workers s !! k); by apply heaps_set).
Qed.
Lemma heaps_worker_step k s s' : heaps s -> worker_step k s = Some s' -> heaps s'.
Proof.
  intros Hs. assert (Hf : forall s', queues s' = queues s -> heaps s') by (intros; by eapply heaps_frame).
  unfold worker_step. destruct (workers s !! k) as [w|]; [|done]. destruct (w_state w) as [|q|q r|r|]; try done.
  - destruct (w_cancelled w); [intros [= <-]; apply Hf, queues_set_worker|]. destruct (od_get _ _); intros [= <-];
      [by apply heaps_worker_loop|apply Hf, queues_set_worker].
  - destruct (w_cancelled w); [intros [= <-]; apply Hf, queues_set_worker|]. destruct (default [] _); [done|]. intros [= <-].
    by apply heaps_worker_loop.
  - destruct (w_cancelled w).
    + intros [= <-]. apply Hf. rewrite (proj1 (queues_set_worker _ _ _)). apply queues_cancel_run.
    + destruct (run_done r s); [|done]. intros [= <-]. apply heaps_worker_loop. by apply Hf.
  - destruct (run_done r s); [|done]. intros [= <-]. apply Hf. by rewrite (proj1 (queues_set_worker _ _ _)).
Qed.
Lemma heaps_submit id s : heaps s -> heaps (submit id s).2.
Proof.
  intros Hs. unfold submit. destruct (get _ _) as [t|]; [|done]. cbv zeta.
  set (qs := match od_get (agent_id t) (_queues s) with Some q => (q, s) | None => _ end).
  assert (Hqs : heaps qs.2).
  { subst qs. destruct (od_get _ _); [done|]. cbn. apply Forall_app. split; [done|]. apply Forall_singleton. by intros i _ ? ?. }
  destruct qs as [q s1]. cbn [snd] in Hqs. set (s2 := with_seq _ _).
  assert (H2 : heaps s2) by (apply heaps_set; [done|apply heappush_heap; [apply entry_order|by apply heap_at]]).
  destruct (od_get _ (_workers s2)); [destruct (worker_done _ _)|]; exact H2.
Qed.

Lemma heaps_step l s s' : heaps s -> step l s = Some s' -> heaps s'.
Proof.
  intros Hs. assert (Hf : forall s', queues s' = queues s -> heaps s') by (intros; by eapply heaps_frame).
  destruct l; cbn [step]; try (intros Hst; apply (inj Some) in Hst as <-).
  - apply Hf, queues_orch.
  - apply Hf, queues_orch.
  - by apply heaps_submit.
  - by apply heaps_worker_step.
  - intros Hst. apply Hf. by eapply queues_run_start.
  - unfold progress. destruct (run_list s !! k) as [x|]; [|done]. destruct (r_state x); [done| |done].
    destruct (get _ _); intros [= <-]; by apply Hf.
  - intros Hst. apply Hf. by eapply queues_run_end.
  - apply Hf, queues_cancel.
  - unfold drop_begin. cbv zeta. apply Hf. rewrite <- (proj1 (queues_cancel_all (task_id <$> list_by_agent agent (task_store (orch s))) now s)).
    destruct (od_get _ _); [|by rewrite queues_drop_rest]. cbn. unfold cancel_worker. cbn. by destruct (_ !! n).
  - unfold drop_end. destruct (_ !! i) as [[a k]|]; [|done]. destruct (worker_done k s); [|done]. intros [= <-]. apply Hf. by rewrite queues_drop_rest.
  - by apply Hf.
  - apply Hf, queues_orch.
Qed.
Lemma reachable_heaps ok o m t s : reachable ok (new_runner o m t) s -> heaps s.
Proof. induction 1 as [|l s s' Hr IH Hq Hst]; [constructor|by eapply heaps_step]. Qed.

(** A worker that turns to its queue runs the most urgent of the tasks that still
    wait there (the highest priority, and of these the one submitted first); it
    waits only if none does. *)
Theorem most_urgent_first ok o m t s k a (q : nat) :
  reachable ok (new_runner o m t) s ->
  let queue := default [] (queues s !! q) in
  let s' := worker_loop k a q s in
  (exists e, e ∈ queue /\ is_pending s (e_task e) = true /\
     (forall y, y ∈ queue -> is_pending s (e_task y) = true -> before e y) /\
     run_list s' = run_list s ++ [mkRun (e_task e) a RFresh false]) \/
  ((forall y, y ∈ queue -> is_pending s (e_task y) = false) /\ run_list s' = run_list s).
Proof.
  intros Hr%reachable_heaps. cbv zeta. unfold worker_loop. set (queue := default [] (queues s !! q)).
  pose proof (take_pending_spec (is_pending s) (length queue) queue (Nat.le_refl _) (heap_at s q Hr)) as Ht.
  destruct (take_pending _ _ _) as [[e|] rest]; destruct Ht as (_ & skipped & Hskip & Hn); rewrite Forall_forall in Hskip; [left|right].
  - destruct Hn as (He & Hp & Hle). exists e. split_and!.
    + rewrite Hp. apply elem_of_app. right. left.
    + done.
    + intros y Hy Hpy. rewrite Hp in Hy. apply elem_of_app in Hy as [Hy|Hy]; [rewrite Hskip in Hpy by done; done|].
      apply elem_of_cons in Hy as [->|Hy]; [by right|]. by apply le_before, Hle.
    + unfold set_worker. cbn. by destruct (workers s !! k).
  - destruct Hn as (-> & Hp). split; [intros y Hy; apply Hskip; by rewrite <- Hp|]. unfold set_worker. cbn. by destruct (workers s !! k).
Qed.
End Order.
