(* ===== verification/TaskLife.v ===== *)
(** The life of a task under the task runner: it moves forward only, whatever the
    interleaving, as long as the runner alone cancels tasks and nothing is submitted
    to an agent that is being dropped. *)
From S2P Require Import Prelude Errors Yaml Json Provider Heapq Orchestrator TaskRunner TaskRunnerProps.

Section Life.
Implicit Types (s : TaskRunner) (w : worker) (x : run) (a : string) (e : entry).
Abbreviation store s := (task_store (orch s)).

Definition queue_of (st : worker_state) : option nat := match st with WGet q | WWait q _ => Some q | _ => None end.
(** The queue [q] is the agent's: its entries are the agent's tasks. *)
Definition owned (owner : nat -> string) s : Prop :=
  (forall a q, od_get a (_queues s) = Some q -> owner q = a /\ (q < length (queues s))%nat) /\
  (forall k w q, workers s !! k = Some w -> queue_of (w_state w) = Some q -> owner q = w_agent w /\ (q < length (queues s))%nat) /\
  (forall q es e t, queues s !! q = Some es -> e ∈ es -> get (e_task e) (store s) = Some t -> agent_id t = owner q).
Definition fresh_run x : Prop := r_state x = RFresh /\ r_cancelled x = false.

(** A run that may yet start has its task pending, is the agent's current one, and
    the agent is not being dropped. *)
Record life s : Prop := {
  lf_safe : safe s;
  lf_orch : orch_ok (orch s);
  lf_agent : forall r x t, run_list s !! r = Some x -> r_state x ≠ RDone -> get (r_task x) (store s) = Some t -> agent_id t = r_agent x;
  lf_fresh : forall r x, run_list s !! r = Some x -> fresh_run x ->
    r_agent x ∉ (dropping s).*1 /\ od_get (r_agent x) (_current s) = Some (r_task x, r) /\
    exists t, get (r_task x) (store s) = Some t /\ status t = PENDING;
  lf_drop : (forall a k, (a, k) ∈ dropping s -> exists w, workers s !! k = Some w /\ w_cancelled w = true) /\
    (forall a k, od_get a (_workers s) = Some k -> is_Some (workers s !! k));
  lf_queue : exists owner, owned owner s }.

Definition unused (id : string) s : Prop :=
  get id (store s) = None /\ (forall q es e, queues s !! q = Some es -> e ∈ es -> e_task e ≠ id) /\
  (forall r x, run_list s !! r = Some x -> r_task x ≠ id).
(** Task ids are new, nothing is submitted to an agent that is being dropped, and the
    tasks are cancelled through the runner. *)
Definition orderly (l : label) s : Prop :=
  quiet l s /\ match l with LAssign id _ _ _ _ _ => unused id s | LCancelTask _ _ => False | _ => True end.

Lemma new_runner_life o m t : orch_ok o -> life (new_runner o m t).
Proof.
  intros Ho. split; cbn; [apply new_runner_safe|done|done|done| |].
  - split; [intros a k Hin; by apply elem_of_nil in Hin|done].
  - exists (fun _ => EmptyString). split_and!; done.
Qed.

(** A step that leaves runs, workers and queues, and whose store only moves forward,
    without touching the tasks that may yet start. *)
Lemma life_orch s o : life s -> orch_ok o -> advances (store s) (task_store o) ->
  (forall r x t, run_list s !! r = Some x -> fresh_run x -> get (r_task x) (store s) = Some t -> status t = PENDING ->
     exists t', get (r_task x) (task_store o) = Some t' /\ status t' = PENDING) ->
  life (with_orch o s).
Proof.
  intros [H1 H2 H3 H4 H5 (owner & O1 & O2 & O3)] Ho [Hm Hn] Hf.
  assert (Hback : forall id t, get id (task_store o) = Some t -> exists t0, get id (store s) = Some t0 /\ agent_id t0 = agent_id t).
  { intros id t Ht. destruct (get id (store s)) as [t0|] eqn:E; [|by rewrite Hn in Ht]. exists t0. split; [done|].
    by destruct (Hm id t0 t E Ht) as [-> _]. }
  split; cbn; [by apply (safe_frame s)|done| | |done|].
  - intros r x t Hr Hd Ht. destruct (Hback _ _ Ht) as (t0 & Ht0 & <-). by eapply H3.
  - intros r x Hr Hx. destruct (H4 r x Hr Hx) as (F1 & F2 & t & Ht & Hst). split_and!; [done|done|]. by apply (Hf r x t).
  - exists owner. split_and!; [done|done|]. intros q es e t Hq He Ht. destruct (Hback _ _ Ht) as (t0 & Ht0 & <-). by eapply O3.
Qed.

(** A run that ends, or is cancelled, or that has started. *)
Lemma life_runs s k x y : life s -> run_list s !! k = Some x -> r_task y = r_task x -> r_agent y = r_agent x -> ~ fresh_run y ->
  (r_state y ≠ RDone -> r_state x ≠ RDone) -> life (with_runs (_current s) (<[k := y]> (run_list s)) s).
Proof.
  intros [H1 H2 H3 H4 H5 H6] Hk Ht Ha Hf Hd. split; cbn; [|done| | |done|done].
  - apply safe_runs; [done|]. intros r z Hr Hz. apply lookup_insert_cases in Hr as [(<- & -> & _)|[Hne Hr]]; [exists x; auto|by exists z].
  - intros r z t Hr Hz Hg. apply lookup_insert_cases in Hr as [(<- & -> & _)|[Hne Hr]]; [|by eapply H3]. rewrite Ha. rewrite Ht in Hg. by eapply H3; eauto.
  - intros r z Hr Hz. apply lookup_insert_cases in Hr as [(<- & -> & _)|[Hne Hr]]; [done|by apply H4].
Qed.
Lemma life_run_done k s : life s -> life (set_run k RDone s).
Proof.
  intros Hs. unfold set_run. destruct (run_list s !! k) as [x|] eqn:Ek; [|done]. apply (life_runs s k x); try done. by intros [? _].
Qed.
Lemma life_run_active k s : life s -> run_done k s = false -> life (set_run k RActive s).
Proof.
  intros Hs Hd. unfold set_run. destruct (run_list s !! k) as [x|] eqn:Ek; [|done]. apply (life_runs s k x); try done; [by intros [? _]|].
  intros _. unfold run_done in Hd. rewrite Ek in Hd. by destruct (r_state x).
Qed.
Lemma life_cancel_run k s : life s -> life (cancel_run k s).
Proof.
  intros Hs. unfold cancel_run. destruct (run_list s !! k) as [x|] eqn:Ek; [|done]. apply (life_runs s k x); try done. by intros [_ ?].
Qed.
Lemma life_forget a s : life s -> (forall r x, run_list s !! r = Some x -> fresh_run x -> r_agent x ≠ a) -> life (forget_current a s).
Proof.
  intros [H1 H2 H3 H4 H5 H6] Hno. split; cbn; [by apply safe_forget|done|done| |done|done].
  intros r x Hr Hx. destruct (H4 r x Hr Hx) as (F1 & F2 & F3). split_and!; [done| |done]. rewrite od_get_del_ne; [done|].
  intros Ha. by apply (Hno r x Hr Hx).
Qed.

(** ** Workers *)
Definition known (ws : list worker) (d : list (string * nat)) (table : list (string * nat)) : Prop :=
  (forall a k, (a, k) ∈ d -> exists w, ws !! k = Some w /\ w_cancelled w = true) /\
  (forall a k, od_get a table = Some k -> is_Some (ws !! k)).
Lemma known_insert ws d table k w w' : ws !! k = Some w -> (w_cancelled w = true -> w_cancelled w' = true) -> known ws d table ->
  known (<[k := w']> ws) d table.
Proof.
  intros Hk Hw [H1 H2]. split.
  - intros a j Hin. destruct (H1 a j Hin) as (w1 & Hj & Hc). destruct (decide (j = k)) as [->|Hne].
    + rewrite Hk in Hj. injection Hj as <-. exists w'. split; [apply list_lookup_insert_eq; by eapply lookup_lt_Some|by apply Hw].
    + exists w1. by rewrite list_lookup_insert_ne.
  - intros a j Hj. destruct (decide (j = k)) as [->|Hne].
    + eexists. apply list_lookup_insert_eq. by eapply lookup_lt_Some.
    + rewrite list_lookup_insert_ne by done. by eapply H2.
Qed.
Definition serves (q : nat) a s : Prop :=
  od_get a (_queues s) = Some q \/ exists k w, workers s !! k = Some w /\ queue_of (w_state w) = Some q /\ w_agent w = a.
Lemma serves_owned owner q a s : owned owner s -> serves q a s -> owner q = a /\ (q < length (queues s))%nat.
Proof. intros (O1 & O2 & _) [Hq|(k & w & Hk & Hq & <-)]; [by apply O1|by eapply O2]. Qed.

Lemma owned_set_worker owner k w st s : owned owner s -> (forall q, queue_of st = Some q -> serves q (w_agent w) s) ->
  owned owner (with_workers (_workers s) (<[k := mkWorker (w_agent w) st (w_cancelled w)]> (workers s)) s).
Proof.
  intros Ho Hq. pose proof Ho as (O1 & O2 & O3). split_and!; [done| |done]. intros j w' i Hj Hi. cbn in Hj.
  apply lookup_insert_cases in Hj as [(<- & -> & _)|[Hne Hj]]; [|by eapply O2]. cbn in *. by apply serves_owned, Hq.
Qed.

Lemma life_set_worker k st s w : life s -> workers s !! k = Some w -> w_state w ≠ WDone ->
  (forall r x, waits r (w_state w) -> run_list s !! r = Some x -> r_state x ≠ RDone -> waits r st) ->
  (forall q, queue_of st = Some q -> serves q (w_agent w) s) -> life (set_worker k st s).
Proof.
  intros Hs Hk Hl Hw Hq. pose proof (safe_set_worker k st s w (lf_safe _ Hs) Hk Hl Hw) as Hsafe. unfold set_worker in *. rewrite Hk in *.
  destruct Hs as [H1 H2 H3 H4 H5 (owner & Ho)]. split; cbn; [done|done|done|done| |].
  - by eapply known_insert.
  - exists owner. by apply owned_set_worker.
Qed.

Lemma taken_from_queue pending fuel : forall queue,
  let '(next, rest) := take_pending pending fuel queue in
  (forall e, e ∈ rest -> e ∈ queue) /\ match next with Some e => e ∈ queue /\ pending (e_task e) = true | None => True end.
Proof.
  induction fuel as [|fuel IH]; intros queue; cbn [take_pending]; [done|].
  destruct (heappop entry_lt queue) as [[e rest]|] eqn:Ep; [|done]. pose proof (heappop_perm _ _ _ _ Ep) as Hp. destruct (pending (e_task e)) eqn:Ee.
  - split; [intros y Hy; rewrite Hp; by right|]. split; [rewrite Hp; left|done].
  - specialize (IH rest). destruct (take_pending pending fuel rest) as [next rest']. destruct IH as [H1 H2].
    split; [intros y Hy; rewrite Hp; right; by apply H1|]. destruct next as [e'|]; [|done]. destruct H2 as [H2 H3]. split; [rewrite Hp; by right|done].
Qed.

Lemma owned_take owner (q : nat) rest s : owned owner s ->
  (forall e, e ∈ rest -> e ∈ default [] (queues s !! q)) -> owned owner (with_queues (_queues s) (<[q := rest]> (queues s)) s).
Proof.
  intros (O1 & O2 & O3) Hr. split_and!.
  - intros b i. cbn. rewrite length_insert. apply O1.
  - intros j w i. cbn. rewrite length_insert. apply O2.
  - intros i es e t Hi He Ht. cbn in Hi. apply lookup_insert_cases in Hi as [(<- & -> & (old & Hold))|[Hne Hi]]; [|by eapply O3].
    apply (O3 q old e t); [done| |done]. specialize (Hr e He). by rewrite Hold in Hr.
Qed.
Lemma life_take (q : nat) rest s : life s ->
  (forall e, e ∈ rest -> e ∈ default [] (queues s !! q)) -> life (with_queues (_queues s) (<[q := rest]> (queues s)) s).
Proof.
  intros [H1 H2 H3 H4 H5 (owner & Ho)] Hr. split; cbn; [by apply (safe_frame s)|done|done|done|done|].
  exists owner. by apply owned_take.
Qed.

Lemma life_worker_loop k (q : nat) s w : life s -> workers s !! k = Some w -> w_state w ≠ WDone -> w_cancelled w = false ->
  (forall r x, waits r (w_state w) -> run_list s !! r = Some x -> r_state x = RDone) -> serves q (w_agent w) s ->
  life (worker_loop k (w_agent w) q s).
Proof.
  intros Hs Hk Hl Hc Hdone Hq. pose proof (safe_worker_loop k q s w (lf_safe _ Hs) Hk Hl Hdone) as Hsafe. unfold worker_loop in *.
  pose proof (taken_from_queue (is_pending s) (length (default [] (queues s !! q))) (default [] (queues s !! q))) as Htk.
  destruct (take_pending _ _ _) as [next rest]. destruct Htk as [Hrest Hnext]. revert Hsafe. cbv zeta.
  set (s1 := with_queues _ _ s). assert (Hs1 : life s1) by (by apply life_take). assert (Hq1 : serves q (w_agent w) s1) by done.
  destruct next as [e|]; intros Hsafe.
  2:{ apply (life_set_worker k (WGet q) s1 w); [done|done|done| |by intros ? [= <-]]. intros r x Hw Hr Hx. by specialize (Hdone r x Hw Hr). }
  unfold set_worker in *. change (workers (with_runs _ _ s1)) with (workers s) in *. rewrite Hk in *.
  destruct Hnext as [He Hpend]. apply bool_decide_eq_true in Hpend. unfold status_of in Hpend.
  destruct (get (e_task e) (store s)) as [t|] eqn:Et; [|done]. injection Hpend as Hst.
  destruct Hs1 as [H1 H2 H3 H4 H5 (owner & Ho)]. destruct (serves_owned owner q _ _ Ho Hq1) as [Hown _].
  assert (Hagent : agent_id t = w_agent w).
  { destruct (lf_queue _ Hs) as (owner' & Ho'). destruct (serves_owned owner' q _ _ Ho' Hq) as [<- _]. destruct Ho' as (_ & _ & O3).
    destruct (queues s !! q) as [es|] eqn:Eq; [|by apply elem_of_nil in He]. by eapply O3. }
  assert (Hnew : forall r x, (run_list s1 ++ [mkRun (e_task e) (w_agent w) RFresh false]) !! r = Some x ->
      run_list s !! r = Some x \/ (r = length (run_list s1) /\ x = mkRun (e_task e) (w_agent w) RFresh false)).
  { intros r x Hr. apply lookup_app_Some in Hr as [Hr|[Hge Hr]]; [by left|right].
    assert (Hz : (r - length (run_list s1))%nat = 0%nat) by (apply lookup_lt_Some in Hr; cbn [length] in Hr; lia).
    rewrite Hz in Hr. injection Hr as <-. split; [lia|done]. }
  split; cbn [orch run_list _current dropping workers with_workers with_runs]; [done|done| | | |].
  - intros r x t' Hr Hx Hg. apply Hnew in Hr as [Hr|[-> ->]]; [by eapply H3|]. cbn in *. change (store s1) with (store s) in Hg. congruence.
  - intros r x Hr Hx. apply Hnew in Hr as [Hr|[-> ->]].
    + destruct (H4 r x Hr Hx) as (F1 & F2 & F3). split_and!; [done| |done]. rewrite od_get_set_ne; [done|]. intros Ha.
      destruct (sf_run _ H1 r x Hr) as (j & w' & Hj & Hw' & Hwait); [by destruct Hx as [-> _]|].
      assert (j = k) by (eapply (one_worker s1 j k w' w); [done|done|done|by eapply waits_live|done|congruence]). subst j.
      change (workers s1) with (workers s) in Hj. rewrite Hk in Hj. injection Hj as <-. specialize (Hdone r x Hwait Hr). destruct Hx as [Hx _]. congruence.
    + cbn [r_agent r_task]. split_and!; [|by rewrite od_get_set_eq|by exists t].
      destruct (sf_live _ H1 k w Hk Hl) as [Ht|Hd]; [by apply (sf_free _ H1 _ k)|]. destruct (proj1 H5 _ _ Hd) as (w' & Hk' & Hc'). change (workers s1) with (workers s) in Hk'. congruence.
  - by eapply known_insert.
  - exists owner. pose proof (owned_set_worker owner k w (WWait q (length (run_list s1))) s1 Ho) as Hx. apply Hx. by intros ? [= <-].
Qed.

Lemma life_worker_step k s s' : life s -> worker_step k s = Some s' -> life s'.
Proof.
  intros Hs. pose proof (lf_safe _ Hs) as Hsafe. unfold worker_step. destruct (workers s !! k) as [w|] eqn:Hk; [|done].
  destruct (w_state w) as [|q|q r|r|] eqn:Est; try done.
  - assert (Hl : w_state w ≠ WDone) by congruence.
    assert (Hd : life (set_worker k WDone s)) by (apply (life_set_worker k WDone s w); [done|done|done| |done]; intros r x; by rewrite Est).
    destruct (w_cancelled w) eqn:Ec; [by intros [= <-]|]. destruct (od_get _ _) as [q|] eqn:Eq; intros [= <-]; [|done].
    apply life_worker_loop; [done|done|done|done| |by left]. intros r x. by rewrite Est.
  - assert (Hl : w_state w ≠ WDone) by congruence. destruct (w_cancelled w) eqn:Ec.
    + intros [= <-]. apply (life_set_worker k WDone s w); [done|done|done| |done]. intros r x. by rewrite Est.
    + destruct (default [] (queues s !! q)); [done|]. intros [= <-]. apply life_worker_loop; [done|done|done|done| |].
      * intros r x. by rewrite Est.
      * right. exists k, w. by rewrite Est.
  - destruct (w_cancelled w) eqn:Ec.
    + intros [= <-]. assert (Hk' : workers (cancel_run r s) !! k = Some w) by (unfold cancel_run; by destruct (run_list s !! r)).
      apply (life_set_worker k (WStopping r) _ w); [by apply life_cancel_run|done|congruence| |done]. intros r' x. rewrite Est. by intros <-.
    + destruct (run_done r s) eqn:Ed; [|done]. intros [= <-].
      assert (Hno : forall r' x, run_list s !! r' = Some x -> fresh_run x -> r_agent x ≠ w_agent w).
      { intros r' x Hr Hx Ha. assert (Hx' : r_state x ≠ RDone) by (by destruct Hx as [-> _]).
        destruct (sf_run _ Hsafe r' x Hr Hx') as (j & w' & Hj & Hw' & Hwait).
        assert (j = k) by (eapply (one_worker s j k w' w); [done|done|done|by eapply waits_live|congruence|congruence]). subst j.
        rewrite Hk in Hj. injection Hj as <-. rewrite Est in Hwait. cbn in Hwait. subst r'. by apply (run_done_lookup r s x Ed) in Hr. }
      apply life_worker_loop; [by apply life_forget|done|congruence|done| |].
      * intros r' x. rewrite Est. cbn. intros <-. by apply run_done_lookup.
      * right. exists k, w. by rewrite Est.
  - destruct (run_done r s) eqn:Ed; [|done]. intros [= <-].
    assert (Hno : forall r' x, run_list s !! r' = Some x -> fresh_run x -> r_agent x ≠ w_agent w).
    { intros r' x Hr Hx Ha. assert (Hx' : r_state x ≠ RDone) by (by destruct Hx as [-> _]).
      destruct (sf_run _ Hsafe r' x Hr Hx') as (j & w' & Hj & Hw' & Hwait).
      assert (j = k) by (eapply (one_worker s j k w' w); [done|done|done|by eapply waits_live|congruence|congruence]). subst j.
      rewrite Hk in Hj. injection Hj as <-. rewrite Est in Hwait. cbn in Hwait. subst r'. by apply (run_done_lookup r s x Ed) in Hr. }
    apply (life_set_worker k WDone _ w); [by apply life_forget|done|congruence| |done].
    intros r' x. rewrite Est. cbn. intros <- Hr Hx. by apply (run_done_lookup r s x Ed) in Hr.
Qed.

(** ** Submitting *)
Lemma life_new_worker a s : life s -> a ∉ (dropping s).*1 -> (forall k, od_get a (_workers s) = Some k -> worker_done k s = true) ->
  life (with_workers (od_set a (length (workers s)) (_workers s)) (workers s ++ [mkWorker a WStart false]) s).
Proof.
  intros Hs Hfree Hdone. pose proof (safe_new_worker a s (lf_safe _ Hs) Hfree Hdone) as Hsafe.
  destruct Hs as [H1 H2 H3 H4 H5 (owner & O1 & O2 & O3)].
  assert (Hnew : forall j w, (workers s ++ [mkWorker a WStart false]) !! j = Some w -> workers s !! j = Some w \/ (j = length (workers s) /\ w = mkWorker a WStart false)).
  { intros j w Hj. apply lookup_app_Some in Hj as [Hj|[Hge Hj]]; [by left|right].
    assert (Hz : (j - length (workers s))%nat = 0%nat) by (apply lookup_lt_Some in Hj; cbn [length] in Hj; lia).
    rewrite Hz in Hj. injection Hj as <-. split; [lia|done]. }
  split; cbn; [done|done|done|done| |].
  - split.
    + intros b j Hd. destruct (proj1 H5 b j Hd) as (w & Hj & Hc). exists w. split; [by apply lookup_app_l_Some|done].
    + intros b j. rewrite od_get_set. case_decide as Hb.
      * intros [= <-]. rewrite lookup_app_r by done. by rewrite Nat.sub_diag.
      * intros Hj. destruct (proj2 H5 b j Hj) as [w Hw]. exists w. by apply lookup_app_l_Some.
  - exists owner. split_and!; [done| |done]. intros j w q Hj Hq. apply Hnew in Hj as [Hj|[-> ->]]; [by eapply O2|done].
Qed.

Lemma owned_new_queue owner a s : owned owner s -> exists owner',
  owned owner' (with_queues (od_set a (length (queues s)) (_queues s)) (queues s ++ [[]]) s) /\ owner' (length (queues s)) = a.
Proof.
  intros (O1 & O2 & O3). exists (fun i => if decide (i = length (queues s)) then a else owner i).
  split; [|by rewrite decide_True]. assert (Hlt : forall i, (i < length (queues s))%nat -> (if decide (i = length (queues s)) then a else owner i) = owner i)
    by (intros; rewrite decide_False by lia; done).
  split_and!; cbn.
  - intros b i. rewrite od_get_set, length_app. cbn [length]. case_decide as Hb; [intros [= <-]; rewrite decide_True by done; split; [done|lia]|].
    intros Hi. destruct (O1 b i Hi) as [<- Hl]. rewrite Hlt by done. split; [done|lia].
  - intros k w i Hk Hi. destruct (O2 k w i Hk Hi) as [<- Hl]. rewrite Hlt, length_app by done. split; [done|lia].
  - intros i es e t Hi He Ht. apply lookup_app_Some in Hi as [Hi|[Hge Hi]].
    + rewrite Hlt by (by eapply lookup_lt_Some). by eapply O3.
    + assert (Hz : (i - length (queues s))%nat = 0%nat) by (apply lookup_lt_Some in Hi; cbn [length] in Hi; lia).
      rewrite Hz in Hi. injection Hi as <-. by apply elem_of_nil in He.
Qed.
Lemma owned_push owner (q : nat) e s : owned owner s ->
  (forall t, get (e_task e) (store s) = Some t -> agent_id t = owner q) ->
  owned owner (with_queues (_queues s) (<[q := heappush entry_lt (default [] (queues s !! q)) e]> (queues s)) s).
Proof.
  intros (O1 & O2 & O3) He. split_and!; cbn.
  - intros b i. rewrite length_insert. apply O1.
  - intros j w i. rewrite length_insert. apply O2.
  - intros i es y t Hi Hy Ht. apply lookup_insert_cases in Hi as [(<- & -> & (old & Hold))|[Hne Hi]]; [|by eapply O3].
    rewrite heappush_perm in Hy. apply elem_of_cons in Hy as [->|Hy]; [by apply He|]. rewrite Hold in Hy. by eapply O3.
Qed.

Lemma life_queues s s' : life s -> orch s' = orch s -> workers s' = workers s -> _workers s' = _workers s -> run_list s' = run_list s ->
  _current s' = _current s -> dropping s' = dropping s -> (exists owner, owned owner s') -> life s'.
Proof.
  intros [H1 H2 H3 H4 H5 H6] E1 E2 E3 E4 E5 E6 Ho. split; rewrite ?E1, ?E2, ?E3, ?E4, ?E5, ?E6; try done. by apply (safe_frame s).
Qed.

Lemma life_submit id s : life s -> quiet (LSubmit id) s -> life (submit id s).2.
Proof.
  intros Hs Hq. unfold submit. destruct (get id (store s)) as [t|] eqn:Et; [|done]. specialize (Hq t Et). cbv zeta.
  set (qs := match od_get (agent_id t) (_queues s) with Some q => (q, s) | None => _ end).
  assert (Hqs : life qs.2 /\ workers qs.2 = workers s /\ _workers qs.2 = _workers s /\ orch qs.2 = orch s /\ dropping qs.2 = dropping s /\
    exists owner, owned owner qs.2 /\ owner qs.1 = agent_id t).
  { destruct (lf_queue _ Hs) as (owner & Ho). subst qs. destruct (od_get (agent_id t) (_queues s)) as [q|] eqn:Eq; cbn [fst snd].
    - split_and!; try done. exists owner. split; [done|]. by apply (proj1 Ho).
    - destruct (owned_new_queue owner (agent_id t) s Ho) as (owner' & Ho' & Ha). split_and!; try done; [|by exists owner'].
      apply (life_queues s); try done. by exists owner'. }
  destruct qs as [q s1]. cbn [fst snd] in Hqs. destruct Hqs as (Hs1 & E1 & E2 & E3 & E4 & owner & Ho & Ha). set (s2 := with_seq _ _).
  assert (Hs2 : life s2).
  { apply (life_queues s1); try done. exists owner. apply (owned_push owner q (mkEntry (- priority t) (_seq s1) id) s1 Ho).
    cbn. intros t'. rewrite E3, Et. by intros [= <-]. }
  change (_workers s2) with (_workers s1). rewrite E2.
  destruct (od_get (agent_id t) (_workers s)) as [k|] eqn:Ek.
  - destruct (worker_done k s2) eqn:Ed; cbn [snd]; [|done]. rewrite <- E2. change (_workers s1) with (_workers s2).
    apply life_new_worker; [done|by change (dropping s2) with (dropping s1); rewrite E4|].
    intros k' Hk'. change (_workers s2) with (_workers s1) in Hk'. rewrite E2, Ek in Hk'. by injection Hk' as <-.
  - cbn [snd]. rewrite <- E2. change (_workers s1) with (_workers s2).
    apply life_new_worker; [done|by change (dropping s2) with (dropping s1); rewrite E4|].
    intros k' Hk'. change (_workers s2) with (_workers s1) in Hk'. by rewrite E2, Ek in Hk'.
Qed.

(** ** Changes of one task *)
Lemma same_task r r' x x' t s : life s -> run_list s !! r = Some x -> run_list s !! r' = Some x' -> r_state x ≠ RDone -> r_state x' ≠ RDone ->
  r_task x = r_task x' -> get (r_task x) (store s) = Some t -> r = r'.
Proof.
  intros Hs Hr Hr' Hd Hd' Ht Hg. eapply safe_one_run; [by apply Hs|exact Hr|exact Hr'|done|done|].
  rewrite <- (lf_agent _ Hs r x t Hr Hd Hg). apply (lf_agent _ Hs r' x' t Hr' Hd'). by rewrite <- Ht.
Qed.

(** One task [id] changes; no run that may yet start is its. *)
Lemma life_one_task s o id : life s -> orch_ok o -> advances (store s) (task_store o) ->
  (forall id' t, id' ≠ id -> get id' (store s) = Some t -> terminal (status t) = false -> get id' (task_store o) = Some t) ->
  (forall r x, run_list s !! r = Some x -> fresh_run x -> r_task x ≠ id) ->
  life (with_orch o s).
Proof.
  intros Hs Ho Hadv Hkeep Hno. apply life_orch; [done|done|done|]. intros r x t Hr Hx Hg Hst.
  exists t. split; [|done]. apply Hkeep; [by eapply Hno|done|by rewrite Hst].
Qed.

Lemma with_orch_snd {A} (m : OM A) s : (on_orch m s).2 = with_orch (m (orch s)).2 s.
Proof. unfold on_orch. by destruct (m (orch s)). Qed.

(** [_fail] of the task of a run that has not ended: the run is no longer one that
    may start. *)
Lemma fail_life id err now s : life s -> (forall r x, run_list s !! r = Some x -> fresh_run x -> r_task x ≠ id) ->
  life (_fail id err now s) /\ advances (store s) (store (_fail id err now s)).
Proof.
  intros Hs Hno. unfold _fail. destruct (_still_running id s || is_pending s id) eqn:E; [|split; [done|apply advances_refl]].
  unfold _still_running, is_pending, status_of in E. destruct (get id (store s)) as [t|] eqn:Hg; [|by cbn in E].
  assert (Hst : status t = RUNNING \/ status t = PENDING).
  { apply orb_true_iff in E as [E|E]; apply bool_decide_eq_true in E; injection E as E; auto. }
  assert (Hnt : terminal (status t) = false) by (by destruct Hst as [-> | ->]).
  destruct (fail_task_spec id err now t (orch s) (lf_orch _ Hs) Hg) as (rows & Hf & Hok).
  destruct (ended_advances id FAILED None (Some err) now t rows (orch s) (lf_orch _ Hs) Hg Hnt Hst eq_refl) as [Hadv Hkeep].
  rewrite with_orch_snd, Hf. split; [|done]. by apply (life_one_task s _ id).
Qed.

Lemma set_run_orch k st o s : set_run k st (with_orch o s) = with_orch o (set_run k st s).
Proof. unfold set_run. cbn. by destruct (run_list s !! k). Qed.
Lemma set_run_orch_same k st s : orch (set_run k st s) = orch s.
Proof. unfold set_run. by destruct (run_list s !! k). Qed.
Lemma set_run_fail k st id err now s : set_run k st (_fail id err now s) = _fail id err now (set_run k st s).
Proof.
  unfold _fail, _still_running, is_pending, status_of. rewrite set_run_orch_same. destruct (_ || _); [|done].
  by rewrite !with_orch_snd, set_run_orch, set_run_orch_same.
Qed.

(** Once run [k] is no longer fresh, no run that may start has its task. *)
Lemma no_fresh_task k st x s : life s -> life (set_run k st s) -> run_list s !! k = Some x -> r_state x ≠ RDone -> st ≠ RFresh ->
  forall r y, run_list (set_run k st s) !! r = Some y -> fresh_run y -> r_task y ≠ r_task x.
Proof.
  intros Hs Hs' Hk Hx Hst r y Hr Hy Ht. unfold set_run in Hr. rewrite Hk in Hr. cbn in Hr.
  apply lookup_insert_cases in Hr as [(<- & -> & _)|[Hne Hr]]; [by destruct Hy|].
  destruct (lf_fresh _ Hs r y Hr Hy) as (_ & _ & t & Hg & _). apply Hne.
  eapply (same_task k r x y t s); [done|done|done|done|by destruct Hy as [-> _]|done|by rewrite <- Ht].
Qed.

Lemma run_start_life k now s s' : life s -> run_start k now s = Some s' -> life s' /\ advances (store s) (store s').
Proof.
  intros Hs. unfold run_start. destruct (run_list s !! k) as [x|] eqn:Ek; [|done]. destruct (r_state x) eqn:Ex; try done.
  assert (Hx : r_state x ≠ RDone) by congruence.
  assert (Hd : life (set_run k RDone s) /\ advances (store s) (store (set_run k RDone s))).
  { split; [by apply life_run_done|]. rewrite set_run_orch_same. apply advances_refl. }
  assert (Hf : forall err, life (set_run k RDone (_fail (r_task x) err now s)) /\ advances (store s) (store (set_run k RDone (_fail (r_task x) err now s)))).
  { intros err. rewrite set_run_fail. rewrite <- (set_run_orch_same k RDone s) at 1.
    apply fail_life; [apply Hd|]. by apply (no_fresh_task k RDone x s Hs (proj1 Hd) Ek Hx). }
  destruct (r_cancelled x) eqn:Ec; [by intros [= <-]|]. destruct (get (r_task x) (store s)) as [t|] eqn:Hg; [|by intros [= <-]].
  destruct (bool_decide _); [|intros [= <-]; apply Hf].
  unfold on_orch. rewrite (start_task_spec _ now t (orch s) Hg). intros [= <-]. rewrite set_run_orch.
  destruct (lf_fresh _ Hs k x Ek (conj Ex Ec)) as (_ & _ & t0 & Hg0 & Hst). rewrite Hg in Hg0. injection Hg0 as <-.
  pose proof (get_id _ _ _ (lf_orch _ Hs) Hg) as Hid.
  assert (Ha : life (set_run k RActive s)) by (apply life_run_active; [done|]; unfold run_done; by rewrite Ek, Ex).
  assert (Hadv : advances (store s) (update (set_started now t) (store s))).
  { apply (update_advances _ t); [apply Hs|by cbn; rewrite Hid|done|]. right. by left. }
  split; [|exact Hadv]. apply (life_one_task _ _ (r_task x)); [done| | | |].
  - apply (live_update_ok (set_started now t) t); [apply Hs|by cbn; rewrite Hid|done|by rewrite Hst|done].
  - rewrite set_run_orch_same. exact Hadv.
  - intros id' t' Hne Hg' Ht'. rewrite set_run_orch_same in Hg'. cbn. rewrite update_live by done. by rewrite decide_False by (cbn; congruence).
  - by apply (no_fresh_task k RActive x s Hs Ha Ek Hx).
Qed.

Lemma run_end_life k (d : dispatch_end) now s s' : life s -> run_end k d now s = Some s' -> life s' /\ advances (store s) (store s').
Proof.
  intros Hs. unfold run_end. destruct (run_list s !! k) as [x|] eqn:Ek; [|done]. destruct (r_state x) eqn:Ex; try done.
  assert (Hx : r_state x ≠ RDone) by congruence.
  assert (Hd : life (set_run k RDone s) /\ advances (store s) (store (set_run k RDone s))).
  { split; [by apply life_run_done|]. rewrite set_run_orch_same. apply advances_refl. }
  pose proof (no_fresh_task k RDone x s Hs (proj1 Hd) Ek Hx ltac:(done)) as Hno.
  assert (Hf : forall err, life (set_run k RDone (_fail (r_task x) err now s)) /\ advances (store s) (store (set_run k RDone (_fail (r_task x) err now s)))).
  { intros err. rewrite set_run_fail. rewrite <- (set_run_orch_same k RDone s) at 1. by apply fail_life; [apply Hd|]. }
  destruct d as [text| | |c m|]; try (intros [= <-]; apply Hf).
  2:{ destruct (r_cancelled x); [|done]. by intros [= <-]. }
  destruct (_still_running _ _) eqn:Er; [|by intros [= <-]]. unfold _still_running, status_of in Er. apply bool_decide_eq_true in Er.
  destruct (get (r_task x) (store s)) as [t|] eqn:Hg; [|done]. injection Er as Hst.
  destruct (complete_task_spec (r_task x) text now t (orch s) (lf_orch _ Hs) Hg) as (rows & Hc & Hok). cbv zeta in *.
  destruct (ended_advances (r_task x) COMPLETED (Some text) None now t rows (orch s) (lf_orch _ Hs) Hg) as [Hadv Hkeep]; [by rewrite Hst|by left|done|].
  assert (Hl : life (with_orch (ended (set_ended COMPLETED (Some text) None now t) (r_task x) rows (orch s)) (set_run k RDone s)) /\
    advances (store s) (task_store (ended (set_ended COMPLETED (Some text) None now t) (r_task x) rows (orch s)))).
  { split; [|done]. apply (life_one_task _ _ (r_task x)); [apply Hd|done| | |done]; rewrite set_run_orch_same; [exact Hadv|exact Hkeep]. }
  unfold on_orch. destruct (complete_task (r_task x) text now (orch s)) as [[u|e] o]; cbn [snd] in Hc; subst o; intros [= <-].
  - by rewrite set_run_orch.
  - rewrite set_run_fail, set_run_orch. destruct Hl as [Hl1 Hl2].
    destruct (fail_life (r_task x) (exc_text e) now _ Hl1 Hno) as [Hl3 Hl4]. split; [done|]. by eapply advances_trans.
Qed.

(** ** Progress, cancelling, dropping *)
Lemma life_progress k n s s' : life s -> progress k n s = Some s' -> life s' /\ advances (store s) (store s').
Proof.
  intros Hs. unfold progress. destruct (run_list s !! k) as [x|] eqn:Ek; [|done]. destruct (r_state x); [done| |done].
  destruct (get (r_task x) (store s)) as [t|] eqn:Hg; intros [= <-]; [|split; [done|apply advances_refl]].
  set (d := od_set (r_task x) (set_iterations n t) (tasks (store s))).
  assert (Hget : forall id, get id (with_store_tasks (store s) d) = if decide (id = r_task x) then Some (set_iterations n t) else get id (store s)).
  { intros id. unfold get, d. cbn [with_store_tasks tasks]. apply od_get_set. }
  assert (Hadv : advances (store s) (with_store_tasks (store s) d)).
  { split.
    - intros id t1 t2 H1. rewrite Hget. case_decide as Hid; [subst id; rewrite Hg in H1; injection H1 as <-; intros [= <-]; split; [done|by left]|].
      intros H2. rewrite H1 in H2. injection H2 as <-. split; [done|by left].
    - intros id Hn. rewrite Hget. case_decide; [congruence|done]. }
  pose proof (lf_orch _ Hs) as [[K1 K2 K3 K4 K5] A2 A3 A4].
  split; [|done]. apply life_orch; [done| |done|].
  - split; cbn [task_store agents active_tasks]; [|done| |done].
    + split; [by apply NoDup_od_set| |done| |done].
      * intros id t'. rewrite Hget. case_decide as Hid; [intros [= <-]; subst id; by apply K2 in Hg|]. apply K2.
      * intros id. change (_finished (with_store_tasks (store s) d)) with (_finished (store s)). rewrite K4, Hget. case_decide as Hid; [subst id|done].
        rewrite Hg. split; intros (t' & [= <-] & Hx); [by exists (set_iterations n t)|by exists t].
    + intros id a. rewrite A3, Hget. case_decide as Hid; [subst id|done].
      rewrite Hg. split; intros (t' & [= <-] & Ha & Hx); [by exists (set_iterations n t)|by exists t].
  - intros r y t' Hr Hy Hg' Hst. cbn [task_store]. rewrite Hget. case_decide as Hid; [|by exists t'].
    exists (set_iterations n t). split; [done|]. rewrite Hid in Hg'. rewrite Hg in Hg'. by injection Hg' as <-.
Qed.

Lemma cancel_run_orch r o s : cancel_run r (with_orch o s) = with_orch o (cancel_run r s).
Proof. unfold cancel_run. cbn. by destruct (run_list s !! r). Qed.
Lemma cancel_run_store r s : orch (cancel_run r s) = orch s.
Proof. unfold cancel_run. by destruct (run_list s !! r). Qed.

(** The run that may yet start a task is the one that cancelling the task reaches. *)
Lemma fresh_current r x t s : life s -> run_list s !! r = Some x -> fresh_run x -> get (r_task x) (store s) = Some t ->
  od_get (agent_id t) (_current s) = Some (r_task x, r).
Proof.
  intros Hs Hr Hx Hg. destruct (lf_fresh _ Hs r x Hr Hx) as (_ & Hc & _). rewrite (lf_agent _ Hs r x t Hr); [done| |done].
  by destruct Hx as [-> _].
Qed.
Lemma cancelled_not_fresh r x s : run_list (cancel_run r s) !! r = Some x -> ~ fresh_run x.
Proof.
  unfold cancel_run. destruct (run_list s !! r) as [y|] eqn:E; [|congruence]. cbn.
  rewrite list_lookup_insert_eq by (by eapply lookup_lt_Some). intros [= <-] [_ Hc]. done.
Qed.
Lemma cancel_run_other r r' s : r' ≠ r -> run_list (cancel_run r s) !! r' = run_list s !! r'.
Proof. intros Hne. unfold cancel_run. destruct (run_list s !! r); [|done]. cbn. by rewrite list_lookup_insert_ne. Qed.

Lemma cancel_life id now s : life s -> let s' := (cancel id now s).2 in
  life s' /\ advances (store s) (store s') /\ forall t, get id (store s') = Some t -> terminal (status t) = true.
Proof.
  intros Hs. cbv zeta. unfold cancel. destruct (get id (store s)) as [t|] eqn:Hg.
  2:{ split; [done|]. split; [apply advances_refl|]. intros t. cbn. congruence. }
  destruct (_ || _) eqn:Est.
  2:{ split; [done|]. split; [apply advances_refl|]. intros t'. cbn [snd]. rewrite Hg. intros [= <-].
      apply orb_false_iff in Est as [E1%bool_decide_eq_false E2%bool_decide_eq_false]. by destruct (status t). }
  assert (Hst : status t = RUNNING \/ status t = PENDING).
  { apply orb_true_iff in Est as [E|E]; apply bool_decide_eq_true in E; auto. }
  assert (Hnt : terminal (status t) = false) by (by destruct Hst as [-> | ->]).
  destruct (cancel_task_spec id now t (orch s) (lf_orch _ Hs) Hg) as [Hc Hok]. cbv zeta in *.
  destruct (ended_advances id CANCELLED None None now t (agents (orch s)) (orch s) (lf_orch _ Hs) Hg Hnt Hst eq_refl) as [Hadv Hkeep].
  rewrite with_orch_snd, Hc. set (o := ended _ id _ (orch s)) in *. cbn [with_orch _current].
  assert (Hend : forall t', get id (task_store o) = Some t' -> terminal (status t') = true).
  { intros t'. cbn. rewrite update_ended by (done || apply (so_keys _ (oo_store _ (lf_orch _ Hs)))). destruct (decide (id ∈ _)); [done|].
    rewrite decide_True by (symmetry; exact (get_id id t (orch s) (lf_orch _ Hs) Hg)). by intros [= <-]. }
  assert (Hplain : (forall r x, run_list s !! r = Some x -> fresh_run x -> r_task x ≠ id) -> life (with_orch o s)).
  { intros Hno. by apply (life_one_task s o id). }
  destruct (od_get (agent_id t) (_current s)) as [[cur r]|] eqn:Ecur; cbn [snd].
  - destruct (bool_decide (cur = id)) eqn:Eb.
    + apply bool_decide_eq_true in Eb as ->. rewrite cancel_run_orch. split; [|by split].
      apply (life_one_task _ o id); [by apply life_cancel_run|done| | |]; rewrite ?cancel_run_store; [done|done|].
      intros r' x Hr Hx Ht. destruct (decide (r' = r)) as [->|Hne]; [by eapply cancelled_not_fresh|].
      rewrite cancel_run_other in Hr by done. rewrite <- Ht in Hg. rewrite (fresh_current r' x t s Hs Hr Hx Hg) in Ecur. congruence.
    + apply bool_decide_eq_false in Eb. split; [|by split]. apply Hplain. intros r' x Hr Hx Ht.
      rewrite <- Ht in Hg. rewrite (fresh_current r' x t s Hs Hr Hx Hg) in Ecur. congruence.
  - split; [|by split]. apply Hplain. intros r' x Hr Hx Ht.
    rewrite <- Ht in Hg. rewrite (fresh_current r' x t s Hs Hr Hx Hg) in Ecur. congruence.
Qed.

Lemma cancel_all_life ids now : forall s, life s -> let s' := cancel_all ids now s in
  life s' /\ advances (store s) (store s') /\ forall id t, id ∈ ids -> get id (store s') = Some t -> terminal (status t) = true.
Proof.
  induction ids as [|id ids IH]; intros s Hs; cbv zeta.
  { split; [done|]. split; [apply advances_refl|]. intros id t Hin. by apply elem_of_nil in Hin. }
  change (cancel_all (id :: ids) now s) with (cancel_all ids now (cancel id now s).2).
  destruct (cancel_life id now s Hs) as (H1 & H2 & H3). destruct (IH _ H1) as (H4 & H5 & H6).
  split; [done|]. split; [by eapply advances_trans|]. intros i t Hin Hg. apply elem_of_cons in Hin as [->|Hin]; [|by eapply H6].
  destruct H5 as [Hm Hn]. destruct (get id (store (cancel id now s).2)) as [t1|] eqn:E1; [|by rewrite Hn in Hg].
  destruct (Hm _ _ _ E1 Hg) as [_ Hl]. specialize (H3 t1 eq_refl). by rewrite <- (later_terminal _ _ Hl H3).
Qed.

(** Dropping the rest: no run of the agent may start any more. *)
Lemma drop_rest_life a now s : life s -> NoDup (od_keys (_queues s)) -> (forall r x, run_list s !! r = Some x -> fresh_run x -> r_agent x ≠ a) ->
  life (drop_rest a now s) /\ advances (store s) (store (drop_rest a now s)).
Proof.
  intros Hs Hk Hno. unfold drop_rest. rewrite with_orch_snd. set (s1 := with_queues _ _ s).
  assert (Hs1 : life s1).
  { apply (life_queues s); try done. destruct (lf_queue _ Hs) as (owner & O1 & O2 & O3). exists owner. split_and!; [|done|done].
    intros b q Hq. apply od_get_del_some_any in Hq as [_ Hq]; [|done]. by apply O1. }
  destruct (unregister_agent_spec a now (orch s) (lf_orch _ Hs)) as (Hok & Hadv & Hkeep). split; [|done].
  apply life_orch; [done|done|done|]. intros r x t Hr Hx Hg Hst. exists t. split; [|done]. apply Hkeep; [done| |by rewrite Hst].
  rewrite (lf_agent _ Hs r x t Hr); [by eapply Hno|by destruct Hx as [-> _]|done].
Qed.

(** The tasks of an agent are those its listing gives. *)
Lemma listed_task a id t (s : TaskStore) : get id s = Some t -> task_id t = id -> agent_id t = a -> id ∈ (task_id <$> list_by_agent a s).
Proof.
  intros Hg Hid Ha. apply list_elem_of_fmap. exists t. split; [done|]. unfold list_by_agent. apply list_elem_of_In, filter_In.
  split; [|by apply bool_decide_eq_true]. apply list_elem_of_In. apply od_get_elem in Hg. unfold od_values. apply list_elem_of_fmap. by exists (id, t).
Qed.

(** After an agent's tasks are cancelled, no run of it may start. *)
Lemma none_fresh_after a now s : life s -> let s1 := cancel_all (task_id <$> list_by_agent a (store s)) now s in
  forall r x, run_list s1 !! r = Some x -> fresh_run x -> r_agent x ≠ a.
Proof.
  intros Hs s1 r x Hr Hx Ha. destruct (cancel_all_life (task_id <$> list_by_agent a (store s)) now s Hs) as (Hl & [Hm Hn] & Hend).
  destruct (lf_fresh _ Hl r x Hr Hx) as (_ & _ & t & Hg & Hst).
  assert (Hat : agent_id t = a) by (rewrite (lf_agent _ Hl r x t Hr); [done|by destruct Hx as [-> _]|done]).
  destruct (get (r_task x) (store s)) as [t0|] eqn:E0; [|by rewrite Hn in Hg].
  destruct (Hm _ _ _ E0 Hg) as [Hag _]. assert (Hin : r_task x ∈ (task_id <$> list_by_agent a (store s))).
  { apply (listed_task a (r_task x) t0); [done|by apply (get_id _ _ (orch s) (lf_orch _ Hs))|congruence]. }
  specialize (Hend _ _ Hin Hg). by rewrite Hst in Hend.
Qed.

Lemma drop_begin_life a now s : life s -> NoDup (od_keys (_queues s)) -> life (drop_begin a now s) /\ advances (store s) (store (drop_begin a now s)).
Proof.
  intros Hs Hk. pose proof (safe_drop_begin a now s (lf_safe _ Hs)) as Hsafe. pose proof (none_fresh_after a now s Hs) as Hno.
  destruct (cancel_all_life (task_id <$> list_by_agent a (store s)) now s Hs) as (Hl & Hadv & _).
  pose proof (proj2 (queues_cancel_all (task_id <$> list_by_agent a (store s)) now s)) as Hq.
  unfold drop_begin in *. cbv zeta in *. revert Hsafe Hno Hl Hadv Hq. generalize (cancel_all (task_id <$> list_by_agent a (store s)) now s).
  intros s1 Hsafe Hno [H1 H2 H3 H4 H5 (owner & O1 & O2 & O3)] Hadv Hq. destruct (od_get a (_workers s1)) as [k|] eqn:Ek.
  - destruct (proj2 H5 a k Ek) as [w Hw]. unfold cancel_worker in *. cbn [with_workers workers] in *. rewrite Hw in *. split; [|done].
    split; cbn; [done|done|done| | |].
    + intros r x Hr Hx. destruct (H4 r x Hr Hx) as (F1 & F2 & F3). split_and!; [|done|done]. rewrite fmap_app, elem_of_app.
      intros [Hin|Hin%list_elem_of_singleton]; [done|]. by apply (Hno r x).
    + assert (Hks : known (<[k := mkWorker (w_agent w) (w_state w) true]> (workers s1)) (dropping s1) (_workers s1)) by (by eapply known_insert).
      destruct Hks as [K1 K2]. split.
      * intros b j Hin. apply elem_of_app in Hin as [Hin|Hin]; [by eapply K1|]. apply list_elem_of_singleton in Hin. injection Hin as -> ->.
        eexists. split; [apply list_lookup_insert_eq; by eapply lookup_lt_Some|done].
      * intros b j Hb. apply od_get_del_some_any in Hb as [_ Hb]; [|apply H1]. by eapply K2.
    + exists owner. split_and!; [done| |done]. intros j w' q Hj Hst. cbn in Hj.
      apply lookup_insert_cases in Hj as [(<- & -> & _)|[Hne Hj]]; [by apply (O2 k w q)|by eapply O2].
  - set (s2 := with_workers _ _ s1). assert (Hs2 : life s2).
    { split; cbn; [|done|done|done| |by exists owner].
      - destruct H1 as [K1 K2 K3 K4 K5]. split; cbn; [|done| |by apply NoDup_od_del|done].
        + intros j w Hj Hlv. destruct (K1 j w Hj Hlv) as [Ht|Hd]; [|by right]. left. rewrite od_get_del_ne; [done|]. intros ->. congruence.
        + intros b j Hb. apply od_get_del_some_any in Hb as [_ Hb]; [|done]. by eapply K3.
      - split; [apply H5|]. intros b j Hb. apply od_get_del_some_any in Hb as [_ Hb]; [|apply H1]. by eapply H5. }
    destruct (drop_rest_life a now s2 Hs2) as [Hd1 Hd2]; [by change (_queues s2) with (_queues s1); rewrite Hq|done|].
    split; [done|]. by eapply advances_trans.
Qed.

Lemma drop_end_life i now s s' : life s -> NoDup (od_keys (_queues s)) -> drop_end i now s = Some s' -> life s' /\ advances (store s) (store s').
Proof.
  intros Hs Hk. unfold drop_end. destruct (dropping s !! i) as [[a k]|] eqn:Ei; [|done]. destruct (worker_done k s) eqn:Ed; [|done].
  intros [= <-]. assert (Hsub : stdpp.base.delete i (dropping s) ⊆ dropping s).
  { intros p Hp. eapply elem_of_submseteq; [exact Hp|]. apply sublist_submseteq, sublist_delete. }
  apply (drop_rest_life a now (with_dropping (stdpp.base.delete i (dropping s)) s)); [|done|].
  - pose proof (safe_dropped i a k s (lf_safe _ Hs) Ei Ed) as Hsafe. destruct Hs as [H1 H2 H3 H4 H5 H6]. split; cbn; [done|done|done| | |done].
    + intros r x Hr Hx. destruct (H4 r x Hr Hx) as (F1 & F2 & F3). split_and!; [|done|done]. intros Hin. apply F1.
      apply list_elem_of_fmap in Hin as (p & -> & Hp). apply list_elem_of_fmap. exists p. split; [done|]. by apply Hsub.
    + split; [|apply H5]. intros b j Hb. eapply H5. by apply Hsub.
  - intros r x Hr Hx Ha. destruct (lf_fresh _ Hs r x Hr Hx) as (F1 & _). apply F1. rewrite Ha. apply list_elem_of_fmap.
    exists (a, k). split; [done|]. by eapply list_elem_of_lookup_2.
Qed.

(** ** Assigning, registering *)
Lemma life_assign id a obj ctx p now s : life s -> unused id s -> life (with_orch (assign_task id a obj ctx p now (orch s)).2 s) /\
  moves (store s) (task_store (assign_task id a obj ctx p now (orch s)).2).
Proof.
  intros [H1 H2 H3 H4 H5 (owner & O1 & O2 & O3)] (U1 & U2 & U3).
  destruct (assign_task_ok id a obj ctx p now (orch s) H2 U1) as (Hok & Hsame & Hnew). revert Hok Hsame Hnew.
  generalize (assign_task id a obj ctx p now (orch s)).2. intros o Hok Hsame Hnew. split.
  - split; cbn; [by apply (safe_frame s)|done| | |done|].
    + intros r x t Hr Hd. rewrite Hsame by (by eapply U3). by eapply H3.
    + intros r x Hr Hx. rewrite Hsame by (by eapply U3). by eapply H4.
    + exists owner. split_and!; [done|done|]. intros q es e t Hq He. cbn. rewrite Hsame by (by eapply U2). by eapply O3.
  - intros id' t t' Hg. destruct (decide (id' = id)) as [->|Hne]; [congruence|]. rewrite Hsame by done. rewrite Hg. intros [= <-].
    split; [done|by left].
Qed.

(** ** The names of the queues *)
Lemma queue_names_submit id s : NoDup (od_keys (_queues s)) -> NoDup (od_keys (_queues (submit id s).2)).
Proof.
  intros Hs. unfold submit. destruct (get _ _) as [t|]; [|done]. cbv zeta.
  set (qs := match od_get (agent_id t) (_queues s) with Some q => (q, s) | None => _ end).
  assert (Hqs : NoDup (od_keys (_queues qs.2))) by (subst qs; destruct (od_get _ _); [done|by apply NoDup_od_set]).
  destruct qs as [q s1]. set (s2 := with_seq _ _). destruct (od_get _ (_workers s2)); [destruct (worker_done _ _)|]; exact Hqs.
Qed.
Lemma queue_names_drop_rest a now s : NoDup (od_keys (_queues s)) -> NoDup (od_keys (_queues (drop_rest a now s))).
Proof. intros Hs. unfold drop_rest. rewrite (proj2 (queues_orch _ _)). by apply NoDup_od_del. Qed.
Lemma queue_names_worker k s s' : worker_step k s = Some s' -> _queues s' = _queues s.
Proof.
  assert (Hl : forall a q s0, _queues (worker_loop k a q s0) = _queues s0).
  { intros a q s0. unfold worker_loop. destruct (take_pending _ _ _) as [[e|] rest]; by rewrite (proj2 (queues_set_worker _ _ _)). }
  unfold worker_step. destruct (workers s !! k) as [w|]; [|done].
  destruct (w_state w) as [|q|q r|r|]; [..|done]; repeat case_match; try done; intros [= <-];
    rewrite ?Hl, ?(proj2 (queues_set_worker _ _ _)), ?(proj2 (queues_cancel_run _ _)); done.
Qed.
Lemma queue_names_step l s s' : NoDup (od_keys (_queues s)) -> step l s = Some s' -> NoDup (od_keys (_queues s')).
Proof.
  intros Hs. assert (Hf : _queues s' = _queues s -> NoDup (od_keys (_queues s'))) by (by intros ->).
  destruct l; cbn [step]; intros Hst.
  4:{ apply Hf. by eapply queue_names_worker. }
  4:{ apply Hf. by eapply queues_run_start. }
  4:{ apply Hf. unfold progress in Hst. repeat case_match; simplify_eq; done. }
  4:{ apply Hf. by eapply queues_run_end. }
  6:{ unfold drop_end in Hst. repeat case_match; simplify_eq. by apply queue_names_drop_rest. }
  all: apply (inj Some) in Hst; subst s'.
  - by rewrite (proj2 (queues_orch _ _)).
  - by rewrite (proj2 (queues_orch _ _)).
  - by apply queue_names_submit.
  - by rewrite (proj2 (queues_cancel _ _ _)).
  - unfold drop_begin. pose proof (proj2 (queues_cancel_all (task_id <$> list_by_agent agent (store s)) now s)) as Hq.
    destruct (od_get _ _) as [k|]; [|apply queue_names_drop_rest; cbn; by rewrite Hq].
    unfold cancel_worker. destruct (_ !! k); cbn; by rewrite Hq.
  - done.
  - by rewrite (proj2 (queues_orch _ _)).
Qed.

Lemma submit_orch id s : orch (submit id s).2 = orch s.
Proof.
  unfold submit. destruct (get _ _) as [t|]; [|done]. cbv zeta. destruct (od_get (agent_id t) (_queues s)) as [q|]; cbn;
    (destruct (od_get _ (_workers s)); [destruct (worker_done _ _)|]; done).
Qed.
Lemma worker_step_store k s s' : worker_step k s = Some s' -> store s' = store s.
Proof.
  assert (Hw : forall st s0, orch (set_worker k st s0) = orch s0) by (intros st s0; unfold set_worker; by destruct (workers s0 !! k)).
  assert (Hl : forall a q s0, orch (worker_loop k a q s0) = orch s0).
  { intros a q s0. unfold worker_loop. destruct (take_pending _ _ _) as [[e|] rest]; by rewrite Hw. }
  unfold worker_step. destruct (workers s !! k) as [w|]; [|done].
  destruct (w_state w) as [|q|q r|r|]; [..|done]; repeat case_match; try done; intros [= <-];
    rewrite ?Hl, ?Hw, ?cancel_run_store; done.
Qed.

(** ** Steps *)
Lemma life_step l s s' : life s -> NoDup (od_keys (_queues s)) -> orderly l s -> step l s = Some s' -> life s' /\ moves (store s) (store s').
Proof.
  intros Hs Hk [Hq Ho] Hst. assert (Hadv : forall s0, life s0 /\ advances (store s) (store s0) -> life s0 /\ moves (store s) (store s0))
    by (intros s0 [? []]; done). assert (Hsame : forall s0, life s0 -> store s0 = store s -> life s0 /\ moves (store s) (store s0))
    by (intros s0 ? ->; split; [done|apply moves_refl]).
  destruct l; cbn [step] in Hst.
  4:{ apply Hsame; [by eapply life_worker_step|]. by apply worker_step_store in Hst. }
  4:{ apply Hadv. by eapply run_start_life. }
  4:{ apply Hadv. by eapply life_progress. }
  4:{ apply Hadv. by eapply run_end_life. }
  6:{ apply Hadv. by eapply drop_end_life. }
  all: apply (inj Some) in Hst; subst s'.
  - rewrite with_orch_snd. apply Hadv. split; [|apply advances_refl]. apply life_orch; [done|by apply register_agent_ok, Hs|apply advances_refl|].
    intros r x t _ _ Hg Hp. by exists t.
  - rewrite with_orch_snd. by apply life_assign.
  - apply Hsame; [by apply life_submit|by rewrite submit_orch].
  - apply Hadv. destruct (cancel_life id now s Hs) as (? & ? & _). done.
  - apply Hadv. by apply drop_begin_life.
  - apply Hsame; [|done]. destruct Hs as [H1 H2 H3 H4 H5 H6]. split; try done. by apply (safe_frame s).
  - done.
Qed.
End Life.

Definition store_of (s : TaskRunner) : TaskStore := task_store (orch s).

Lemma reachable_life o m t s : orch_ok o -> reachable orderly (new_runner o m t) s -> life s /\ NoDup (od_keys (_queues s)).
Proof.
  intros Ho. induction 1 as [|l s s' Hr [IH1 IH2] Hq Hst]; [split; [by apply new_runner_life|constructor]|].
  split; [by eapply life_step|by eapply queue_names_step].
Qed.

(** C28: Whatever submissions, worker turns, ends of runs, timeouts, cancellations and
    drops of agents have happened, in any order, the next one moves every task forward
    only: a task keeps its agent, a finished task keeps its status, a running one goes
    on or finishes. Task ids are new, nothing is submitted to an agent that is being
    dropped, and tasks are cancelled through the runner. *)
Theorem tasks_move_forward o m t s l s' : orch_ok o -> reachable orderly (new_runner o m t) s -> orderly l s -> step l s = Some s' ->
  moves (store_of s) (store_of s').
Proof.
  intros Ho Hr Hq Hst. destruct (reachable_life o m t s Ho Hr) as [Hl Hk]. by eapply life_step.
Qed.

Module RunnerDemo.
(** Two tasks for one agent, the second more urgent; the first is already running. *)
Definition start : TaskRunner := new_runner new_orchestrator ["a"] "120".
Definition setup : list label :=
  [LRegister "a" YNull 0; LAssign "t1" "a" "one" YNull 0 1; LSubmit "t1"; LWorker 0; LRunStart 0 2].
Definition busy : TaskRunner := default start (run_labels setup start).
Definition statuses (s : TaskRunner) : list (string * TaskStatus) := (fun p => (p.1, status p.2)) <$> tasks (store_of s).

Lemma orderly_start : reachable orderly start busy.
Proof.
  assert (H0 : reachable orderly start start) by constructor.
  assert (H1 := reach_step orderly start (LRegister "a" YNull 0) _ _ H0 (conj I I) eq_refl).
  assert (H2 : reachable orderly start (default start (run_labels (take 2 setup) start))).
  { eapply reach_step with (l := LAssign "t1" "a" "one" YNull 0 1); [exact H1| |vm_compute; reflexivity]. split; [done|]. split_and!; [reflexivity|done|done]. }
  assert (H3 : reachable orderly start (default start (run_labels (take 3 setup) start))).
  { eapply reach_step with (l := LSubmit "t1"); [exact H2| |vm_compute; reflexivity]. split; [|done]. intros t _. vm_compute. apply not_elem_of_nil. }
  assert (H4 : reachable orderly start (default start (run_labels (take 4 setup) start))).
  { eapply reach_step with (l := LWorker 0); [exact H3|exact (conj I I)|vm_compute; reflexivity]. }
  eapply reach_step with (l := LRunStart 0 2); [exact H4|exact (conj I I)|vm_compute; reflexivity].
Qed.
Lemma quiet_start : reachable quiet start busy.
Proof.
  pose proof orderly_start as H. induction H as [|l s s' Hr IH Hq Hst]; [constructor|]. eapply reach_step; [exact IH|apply Hq|exact Hst].
Qed.

Lemma one_run_per_agent_witness : exists r x, run_list busy !! r = Some x /\ r_state x ≠ RDone /\ r = r.
Proof.
  exists 0%nat, (mkRun "t1" "a" RActive false). split_and!; [reflexivity|done|].
  apply (one_run_per_agent new_orchestrator ["a"] "120" busy 0 0 (mkRun "t1" "a" RActive false) (mkRun "t1" "a" RActive false));
    [exact quiet_start|reflexivity|reflexivity|done|done|reflexivity].
Defined.

Lemma tasks_move_forward_witness : exists s', step (LCancel "t1" 3) busy = Some s' /\ moves (store_of busy) (store_of s') /\
  statuses busy = [("t1", RUNNING)] /\ statuses s' = [("t1", CANCELLED)].
Proof.
  eexists. split; [reflexivity|]. split; [|split; reflexivity].
  apply (tasks_move_forward new_orchestrator ["a"] "120" busy (LCancel "t1" 3)); [apply new_orchestrator_ok|exact orderly_start|done|reflexivity].
Defined.

(** The first task is running; of two more, the more urgent one is next. *)
Definition waiting : TaskRunner :=
  default start (run_labels [LAssign "t2" "a" "two" YNull 1 3; LSubmit "t2"; LAssign "t3" "a" "three" YNull 5 4; LSubmit "t3"] busy).
Lemma any_order ls : forall s s' s0, reachable (fun _ _ => True) s0 s -> run_labels ls s = Some s' -> reachable (fun _ _ => True) s0 s'.
Proof.
  induction ls as [|l ls IH]; intros s s' s0 Hr Hst; [by injection Hst as <-|]. cbn [run_labels] in Hst.
  destruct (step l s) as [s1|] eqn:E; [|done]. eapply IH; [|exact Hst]. by eapply reach_step.
Qed.
Lemma most_urgent_first_witness : exists e, e ∈ default [] (queues waiting !! 0%nat) /\
  run_list (worker_loop 0 "a" 0 waiting) = run_list waiting ++ [mkRun (e_task e) "a" RFresh false].
Proof.
  assert (Hr : reachable (fun _ _ => True) start waiting).
  { apply (any_order (setup ++ [LAssign "t2" "a" "two" YNull 1 3; LSubmit "t2"; LAssign "t3" "a" "three" YNull 5 4; LSubmit "t3"]) start);
      [constructor|vm_compute; reflexivity]. }
  pose proof (most_urgent_first (fun _ _ => True) new_orchestrator ["a"] "120" waiting 0 "a" 0 Hr) as Hm. cbv zeta in Hm.
  destruct Hm as [(e & He & _ & _ & Hrun)|[Hnone _]]; [exact (ex_intro _ e (conj He Hrun))|].
  exfalso. assert (Hin : mkEntry (-1) 1 "t2" ∈ default [] (queues waiting !! 0%nat)) by (vm_compute; right; left).
  specialize (Hnone _ Hin). vm_compute in Hnone. discriminate Hnone.
Defined.
Example urgent_next : r_task <$> run_list (default start (run_labels [LRunEnd 0 (Result "r") 5; LWorker 0] waiting)) = ["t1"; "t3"].
Proof. reflexivity. Qed.

(** A task submitted while its agent is being dropped gets a second worker, whose run
    starts next to the first one; the drop then ends the task in the store, and the
    run goes on. *)
Definition dropped : TaskRunner :=
  default start (run_labels [LDrop "a" 3; LAssign "t2" "a" "two" YNull 0 4; LSubmit "t2"; LWorker 1; LRunStart 1 5] busy).
Example submitted_while_dropped :
  ((fun r => (r_task r, r_state r)) <$> run_list dropped = [("t1", RActive); ("t2", RActive)]) /\
  let after := default start (run_labels [LWorker 0; LRunEnd 0 RunCancelled 6; LWorker 0; LDropEnd 0 7] dropped) in
  statuses after = [("t1", CANCELLED); ("t2", CANCELLED)] /\ run_list after !! 1%nat = Some (mkRun "t2" "a" RActive false) /\ agents (orch after) = [].
Proof. repeat split. Qed.

(** A task that the orchestrator alone cancels after a worker has taken it is running
    again when its run starts. *)
Example revived :
  let taken := default start (run_labels (take 4 setup) start) in
  let cancelled := default start (run_labels [LCancelTask "t1" 3] taken) in
  statuses cancelled = [("t1", CANCELLED)] /\ statuses (default start (run_labels [LRunStart 0 4] cancelled)) = [("t1", RUNNING)].
Proof. split; reflexivity. Qed.
End RunnerDemo.
